(* ===== verification/_CoqProject ===== *)
-Q . S2P
Prelude.v
Utf8.v
Sanitize.v
Patterns.v
AutomatonCorrect.v
Redactor.v
Processor.v
LiveOutput.v
Strconv.v
Endian.v
Json.v
JsonLaws.v
Float.v
Canonical.v
Events.v
Collector.v
CollectorInv.v
GuestOutput.v
Guest.v
World.v
Execution.v
ExecutionTrace.v
Sha256.v
Policy.v
Binder.v
Messages.v
Authority.v
Firewall.v
Route.v
AuthorityUpdate.v
AuthorityRoute.v
AuthorityRouteInv.v
Supervise.v
Url.v
JsonStruct.v
CanonicalLaws.v
Terminal.v
TerminalBuild.v
TerminalPlan.v
TerminalSample.v
TerminalLaws.v
TerminalFrozen.v
Probe.v
ProbeInv.v
ProbeEvidence.v
Offer.v
PaperCatalog.v
PaperAdapter.v
PaperSample.v
PaperLaws.v
PaperResolve.v
Journal.v
Wp.v
ClientState.v
Session.v
SessionTrace.v
SessionSample.v
SessionInv.v
History.v
SessionGate.v
SessionDrain.v
SessionEvidence.v
