(* ===== verification/Prelude.v ===== *)
(** * A verification of the provenance runner

    The runner takes jobs from a gateway, runs each in a sandbox and reports what it
    observed. This library models its logic as Rocq definitions, component by component,
    and proves what makes each component correct. Definitions keep the names of the Go
    source and are executable; the witnesses run them on concrete inputs.

    ** The program and its model

    - Evidence ([src/internal/evidence]). The output of a workload passes through a
      [rawProcessor]: [Sanitize.v] has its UTF-8 normalizer and ANSI stripper,
      [Patterns.v] and [Redactor.v] the secret automaton and the streaming redactor,
      [Processor.v] the line limiter and the routing to structured lines. [LiveOutput.v]
      is the bounded live output, [Events.v] the structured events, [Collector.v] the
      collector that owns all of them and the spool of the complete log. [GuestOutput.v]
      and [Guest.v] are the framed output of a measured guest
      ([src/internal/guestoutput]) and its consumption; [GuestOutput.v] also has the
      plugin names ([src/internal/pluginname]).
    - Execution ([src/internal/localjob], [src/internal/execution]). [Execution.v] has the
      job file and the executor with its phases, against a provider that may answer
      anything; [Supervise.v] a worker under network authority.
    - Network policy ([src/internal/networkpolicy]). [Policy.v] has names, the wire form
      and addresses, [Binder.v] the DNS answers and the binder, [Authority.v] what an
      admitted job may reach now, [Firewall.v] the compiled rules and the workload's DNS,
      [Route.v] their installation, [AuthorityRoute.v] the owner of authority and route,
      [AuthorityUpdate.v] the updates it forwards.
    - Gateway client ([src/internal/gatewayclient]). [Offer.v] validates what the gateway
      offers, [Journal.v] is the durable journal and the file it is kept in,
      [ClientState.v] the state of a client and a session, [Session.v] every handler of
      the supervisor, the handshake, the loop of a session and reconnection.
    - Terminal evidence ([src/internal/terminalevidence], and of
      [src/internal/runtimeidentity] the snapshots). [Canonical.v] is its canonical JSON,
      [Terminal.v] the values of observations, [TerminalBuild.v] the evidence of a result,
      [TerminalPlan.v] the context of a job and the validation of frozen evidence;
      [TerminalSample.v] has a job for the witnesses.
    - Paper provider ([src/internal/provider/paper]). [Probe.v] is the lifecycle of the
      probe ([lifecycle.go]), [PaperCatalog.v] catalogs and sources, [PaperAdapter.v] the
      adaptation of remote jobs and the configuration of local ones ([adapter.go],
      [provider.go]); [PaperSample.v] has a provider and a job for the witnesses.
    - Go's library, as far as the code uses it: [Utf8.v], [Strconv.v], [Endian.v],
      [Json.v] with its laws in [JsonLaws.v], [JsonStruct.v] for structs and times,
      [Float.v], [Sha256.v], [Url.v]; [Messages.v] has the records of the protocol's
      messages; [World.v] the state monad, time and contexts.

    State is a record per component with the fields of the Go struct, an operation is a
    function from the state, or a computation in the monad [M] of [World.v], which passes
    the world of the environment. Errors are values: [option], sums, and in the gateway
    client the [outcome] of [Journal.v], in which a nil dereference or an index out of
    range is [Panic] and a loop that was cut is [Diverge]. What lies outside the
    repository is a parameter: a provider, an actuator, a file system, a stream or a
    clock is a record of calls that may answer anything; the protobuf codec and the JSON
    of the journal are classes, with the laws that are used, and instances in the
    witnesses. Locks are atomic operations and goroutines are orders of inputs.

    ** What is proved

    - The redactor masks exactly the occurrences of the encodings of the secrets, for any
      cut of the stream ([Redactor.v], [AutomatonCorrect.v]); the raw log, the live
      output, the complete log and the events keep their bounds and contents
      ([Processor.v], [LiveOutput.v], [Collector.v], [CollectorInv.v], [Events.v],
      [Guest.v], [GuestOutput.v]).
    - An execution calls its provider in a lawful order, always cleans up, and reports
      the first fault ([ExecutionTrace.v]).
    - A binder pins addresses, an authority is renewed only by observations and lost for
      good, the firewall forwards only grants, rules never outlive authority, teardown is
      proven or reported ([Binder.v], [Authority.v], [Firewall.v], [Route.v],
      [AuthorityRouteInv.v], [Supervise.v]); updates round-trip ([AuthorityUpdate.v]).
    - An offer is accepted exactly under a declarative condition ([Offer.v]).
    - Over any history of clients, crashes and reconnections ([History.v]): what is sent
      was journaled first, a number names one message, every journal on the disk is valid
      and follows the one before, a credential is replaced only once its rotation is
      journaled, and no client panics. [SessionTrace.v] has the traces, [SessionInv.v]
      the invariant of every operation, [SessionSample.v] the instances of the witnesses.
    - A step of a session opens at most one gate: a worker starts, and its workload is let
      start, only in the step that reads the acknowledgement of the event that announces
      it ([SessionGate.v], with the program logic of [Wp.v]); a leased job is neither
      exchanged nor shortened ([History.v]); the loop over deferred events ends, but for
      one state in which it does not ([SessionDrain.v]).
    - A channel of the probe is accepted only as the account of one whole run of the test
      plan ([ProbeInv.v]), and what it projects fits the terminal evidence, but for one
      case ([ProbeEvidence.v]).
    - Evidence that was built validates when it is frozen, says what was observed and is
      independent of the order of the observations ([TerminalFrozen.v], [TerminalLaws.v],
      with the laws of canonical JSON in [CanonicalLaws.v]); with the real evidence in
      place of the parameters, a result the session reports validates in the journal
      ([SessionEvidence.v]).
    - The Paper provider dials public addresses only, selects one catalog entry for an
      environment, counts its budget without overflow ([PaperLaws.v]), and resolves every
      job it adapted ([PaperResolve.v]).

    ** Bounds

    Recursion that Go bounds by its input is structural, or has the length of the input
    as fuel: [Json.v] parses with the length of the text, [Redactor.v] follows failure
    links with the number of nodes, [Session.drain] has one step more than there are
    deferred events. Times are nanoseconds since the zero time of Go; machine integers
    are [Z] with their wrap-around or their bound written where it matters.

    ** Not modelled

    The Linux side of the network policy (namespaces, netlink, nft, cgroups), the gVisor
    and process providers, the measured client and service and their control channel are
    system calls around the logic above. The restart evidence store, the credential store
    and enrollment are files of the host; gRPC, TLS and protobuf are libraries. Of the
    Paper provider, the runtimes that are fetched with a signed manifest, the downloads
    and the preparation, run and clean-up of an environment are left out, as are the
    artifact cache, the workspaces and the leases of measured executables: files,
    archives, processes and descriptors of the host. The JSON schema that a configuration
    is validated against is a parameter. Data races between goroutines that share no lock
    are out of reach of models in which an operation is atomic. *)

From stdpp Require Export base list strings gmap sorting.
From Stdlib Require Export ZArith Lia Bool Ascii.

Open Scope Z_scope.

(** ** Bytes

    A Go [byte] is a [Z]; a Go [string] or [[]byte] is a list of them. The
    components never rely on a byte being below 256 except where they say so. *)

Abbreviation byte := Z (only parsing).
Abbreviation bytes := (list Z) (only parsing).

(** The bytes of a string literal of the source. *)
Fixpoint bs (s : string) : bytes :=
  match s with
  | EmptyString => []
  | String c s' => Z.of_N (N_of_ascii c) :: bs s'
  end.

Arguments bs _%_string_scope.

(** Go's [len]: an [int], hence a [Z]. *)
Definition zlen {A} (l : list A) : Z := Z.of_nat (length l).

Lemma zlen_app {A} (l k : list A) : zlen (l ++ k) = zlen l + zlen k.
Proof. unfold zlen. rewrite length_app. lia. Qed.

Lemma zlen_nil {A} : zlen (@nil A) = 0.
Proof. reflexivity. Qed.

Lemma zlen_cons {A} (x : A) l : zlen (x :: l) = 1 + zlen l.
Proof. unfold zlen. cbn [length]. lia. Qed.

Lemma zlen_nonneg {A} (l : list A) : 0 <= zlen l.
Proof. unfold zlen. lia. Qed.

(** ** Automation *)

(** Turn boolean hypotheses and goals into their propositions, then finish
    with arithmetic or congruence. *)
Ltac bool_norm :=
  repeat match goal with
  | H : (_ && _) = true |- _ => apply andb_prop in H as [? ?]
  | H : (_ || _) = false |- _ => apply orb_false_elim in H as [? ?]
  | H : negb _ = true |- _ => apply negb_true_iff in H
  | H : negb _ = false |- _ => apply negb_false_iff in H
  | H : (_ =? _) = true |- _ => apply Z.eqb_eq in H
  | H : (_ =? _) = false |- _ => apply Z.eqb_neq in H
  | H : (_ <=? _) = true |- _ => apply Z.leb_le in H
  | H : (_ <=? _) = false |- _ => apply Z.leb_gt in H
  | H : (_ <? _) = true |- _ => apply Z.ltb_lt in H
  | H : (_ <? _) = false |- _ => apply Z.ltb_ge in H
  | H : (_ >? _) = true |- _ => rewrite Z.gtb_ltb in H
  | H : (_ >? _) = false |- _ => rewrite Z.gtb_ltb in H
  | H : (_ >=? _) = true |- _ => rewrite Z.geb_leb in H
  | H : (_ >=? _) = false |- _ => rewrite Z.geb_leb in H
  | H : bool_decide _ = true |- _ => apply bool_decide_eq_true in H
  | H : bool_decide _ = false |- _ => apply bool_decide_eq_false in H
  end.

(** Case analysis on the outermost condition of the goal. *)
Ltac condition E := match goal with |- context [if ?b then _ else _] => destruct b eqn:E end.

Ltac bool_solve := intros; bool_norm; subst; try congruence; try lia.

(** ** Streaming writers

    The evidence pipeline is a chain of writers, each of which consumes the
    chunks of the writer before it and hands what it produces to a callback. A
    writer is modelled by its state and a function from a chunk to the new state
    and the list of values handed to the callback, in order. *)

Section streaming.
Context {S O : Type}.

(** A Go loop [for _, value := range content] over the bytes of a chunk. *)
Fixpoint fold_step (step : S -> Z -> S * list O) (s : S) (content : bytes) : S * list O :=
  match content with
  | [] => (s, [])
  | v :: rest =>
      let '(s1, o1) := step s v in
      let '(s2, o2) := fold_step step s1 rest in
      (s2, o1 ++ o2)
  end.

(** The writer applied to successive chunks. *)
Fixpoint feed {C} (write : S -> C -> S * list O) (s : S) (chunks : list C) : S * list O :=
  match chunks with
  | [] => (s, [])
  | c :: rest =>
      let '(s1, o1) := write s c in
      let '(s2, o2) := feed write s1 rest in
      (s2, o1 ++ o2)
  end.

(** What a writer promises to the code that feeds it: how the stream is cut
    into chunks makes no difference to what comes out. *)
Class ChunkFree (write : S -> bytes -> S * list O) : Prop := {
  chunk_nil s : write s [] = (s, []);
  chunk_app s a b :
    write s (a ++ b) =
    (let '(s1, o1) := write s a in
     let '(s2, o2) := write s1 b in
     (s2, o1 ++ o2))
}.

Lemma feed_app {C} (write : S -> C -> S * list O) s a b :
  feed write s (a ++ b) =
  (let '(s1, o1) := feed write s a in
   let '(s2, o2) := feed write s1 b in
   (s2, o1 ++ o2)).
Proof.
  revert s. induction a as [|c a IH]; intros s; cbn.
  - by destruct (feed write s b).
  - destruct (write s c) as [s1 o1]. rewrite IH.
    destruct (feed write s1 a) as [s2 o2], (feed write s2 b) as [s3 o3].
    by rewrite (assoc_L (++)).
Qed.

Lemma fold_step_app step s a b :
  fold_step step s (a ++ b) =
  (let '(s1, o1) := fold_step step s a in
   let '(s2, o2) := fold_step step s1 b in
   (s2, o1 ++ o2)).
Proof.
  revert s. induction a as [|c a IH]; intros s; cbn.
  - by destruct (fold_step step s b).
  - destruct (step s c) as [s1 o1]. rewrite IH.
    destruct (fold_step step s1 a) as [s2 o2], (fold_step step s2 b) as [s3 o3].
    by rewrite (assoc_L (++)).
Qed.

#[global] Instance fold_step_chunk_free step : ChunkFree (fold_step step).
Proof. split; [done|]. intros. apply fold_step_app. Qed.

Lemma feed_concat write `{!ChunkFree write} s chunks :
  feed write s chunks = write s (concat chunks).
Proof.
  revert s. induction chunks as [|c rest IH]; intros s; cbn.
  - by rewrite chunk_nil.
  - rewrite chunk_app. destruct (write s c) as [s1 o1]. by rewrite IH.
Qed.
End streaming.
