(* ===== verification/Utf8.v ===== *)
(** Go's [unicode/utf8], as far as the evidence pipeline uses it: [FullRune],
    [DecodeRune] and [Valid], and the facts about valid UTF-8 that the
    normalizer, the line limiter and the bounded live output share. *)

From S2P Require Import Prelude.

(** ** The decoding tables

    [lead_size] and [accept] are the [first] and [acceptRanges] tables of the
    package: the number of bytes a lead byte announces (1 for ASCII and for a
    byte that cannot start a rune) and the range of the second byte. *)

Definition in_range (lo hi b : Z) : bool := (lo <=? b) && (b <=? hi).

Definition ascii_byte (b : Z) : bool := in_range 0 0x7F b.

Definition lead_size (b : Z) : nat :=
  if in_range 0xC2 0xDF b then 2
  else if in_range 0xE0 0xEF b then 3
  else if in_range 0xF0 0xF4 b then 4
  else 1.

Definition accept (lead b : Z) : bool :=
  if lead =? 0xE0 then in_range 0xA0 0xBF b
  else if lead =? 0xED then in_range 0x80 0x9F b
  else if lead =? 0xF0 then in_range 0x90 0xBF b
  else if lead =? 0xF4 then in_range 0x80 0x8F b
  else in_range 0x80 0xBF b.

Definition continuation (b : Z) : bool := in_range 0x80 0xBF b.

Definition rune_error : Z := 0xFFFD.

Definition FullRune (p : bytes) : bool :=
  match p with
  | [] => false
  | b0 :: rest =>
      if (lead_size b0 <=? length p)%nat then true
      else match rest with
           | [] => false
           | b1 :: rest1 =>
               if negb (accept b0 b1) then true
               else match rest1 with
                    | [] => false
                    | b2 :: _ => negb (continuation b2)
                    end
           end
  end.

Definition DecodeRune (p : bytes) : Z * nat :=
  match p with
  | [] => (rune_error, 0%nat)
  | b0 :: rest =>
      if ascii_byte b0 then (b0, 1%nat)
      else match lead_size b0, rest with
           | 2%nat, b1 :: _ =>
               if accept b0 b1
               then (Z.lor (Z.shiftl (Z.land b0 0x1F) 6) (Z.land b1 0x3F), 2%nat)
               else (rune_error, 1%nat)
           | 3%nat, b1 :: b2 :: _ =>
               if accept b0 b1 && continuation b2
               then (Z.lor (Z.shiftl (Z.land b0 0x0F) 12)
                       (Z.lor (Z.shiftl (Z.land b1 0x3F) 6) (Z.land b2 0x3F)), 3%nat)
               else (rune_error, 1%nat)
           | 4%nat, b1 :: b2 :: b3 :: _ =>
               if accept b0 b1 && continuation b2 && continuation b3
               then (Z.lor (Z.shiftl (Z.land b0 0x07) 18)
                       (Z.lor (Z.shiftl (Z.land b1 0x3F) 12)
                          (Z.lor (Z.shiftl (Z.land b2 0x3F) 6) (Z.land b3 0x3F))), 4%nat)
               else (rune_error, 1%nat)
           | _, _ => (rune_error, 1%nat)
           end
  end.

(** The test the callers make on the result of [DecodeRune]. *)
Definition decode_failed (d : Z * nat) : bool :=
  (fst d =? rune_error) && (snd d =? 1)%nat.

Fixpoint Valid_fuel (fuel : nat) (p : bytes) : bool :=
  match fuel, p with
  | _, [] => true
  | O, _ => false
  | S fuel, _ =>
      let d := DecodeRune p in
      if decode_failed d then false else Valid_fuel fuel (drop (snd d) p)
  end.

(** Every step consumes at least one byte, so [length p] steps are enough. *)
Definition Valid (p : bytes) : bool := Valid_fuel (length p) p.

(** Removing bytes from the end until what is left is valid UTF-8, the loop
    [for len(p) > 0 && !utf8.Valid(p) { p = p[:len(p)-1] }] of the sources. *)
Fixpoint trim_valid_fuel (fuel : nat) (p : bytes) : bytes :=
  match fuel with
  | O => p
  | S fuel =>
      if (0 <? zlen p) && negb (Valid p)
      then trim_valid_fuel fuel (take (length p - 1) p)
      else p
  end.

Definition trim_valid (p : bytes) : bytes := trim_valid_fuel (length p) p.

(** ** One encoded rune *)

(** [rune_at p n]: the first [n] bytes of [p] encode one rune. *)
Definition rune_at (p : bytes) (n : nat) : Prop :=
  p <> [] /\ decode_failed (DecodeRune p) = false /\ snd (DecodeRune p) = n.

Ltac utf8_cases :=
  repeat match goal with
  | H : context [match ?x with [] => _ | _ :: _ => _ end] |- _ => is_var x; destruct x; cbn in *
  | |- context [match ?x with [] => _ | _ :: _ => _ end] => is_var x; destruct x; cbn in *
  end.

Lemma lead_size_cases b :
  lead_size b = 1%nat \/ lead_size b = 2%nat \/ lead_size b = 3%nat \/ lead_size b = 4%nat.
Proof.
  unfold lead_size. destruct (in_range 0xC2 0xDF b), (in_range 0xE0 0xEF b), (in_range 0xF0 0xF4 b); tauto.
Qed.

Lemma ascii_not_error b : ascii_byte b = true -> (b =? rune_error) = false.
Proof. unfold ascii_byte, in_range, rune_error. intros H. apply Z.eqb_neq. bool_norm. lia. Qed.

Lemma DecodeRune_size p : p <> [] -> (1 <= snd (DecodeRune p) <= length p)%nat.
Proof.
  destruct p as [|b0 [|b1 [|b2 [|b3 p]]]]; [done|..]; intros _; cbn;
    destruct (ascii_byte b0); cbn; try lia;
    destruct (lead_size_cases b0) as [E|[E|[E|E]]]; rewrite E; cbn; try lia;
    repeat case_match; cbn; lia.
Qed.

Lemma DecodeRune_app p q :
  p <> [] -> decode_failed (DecodeRune p) = false -> DecodeRune (p ++ q) = DecodeRune p.
Proof.
  unfold decode_failed.
  destruct p as [|b0 [|b1 [|b2 [|b3 p]]]]; [done|..]; intros _; cbn;
    destruct (ascii_byte b0) eqn:A; cbn; try done;
    destruct (lead_size_cases b0) as [E|[E|[E|E]]]; rewrite E; cbn; try done;
    repeat case_match; cbn; done.
Qed.

Lemma DecodeRune_take p n :
  rune_at p n -> rune_at (take n p) n.
Proof.
  unfold rune_at. intros (Hne & Hok & Hn).
  pose proof (DecodeRune_size p Hne) as Hsz. rewrite Hn in Hsz.
  assert (E : DecodeRune (take n p) = DecodeRune p).
  { revert Hok Hn Hsz. unfold decode_failed. clear.
    destruct p as [|b0 [|b1 [|b2 [|b3 p]]]]; [by destruct n|..]; cbn;
      destruct (ascii_byte b0) eqn:A; cbn;
      try (intros _ <- _; cbn; rewrite A; done);
      destruct (lead_size_cases b0) as [E|[E|[E|E]]]; rewrite E; cbn; try done;
      repeat case_match; cbn; try done; intros _ <- _; cbn; rewrite A, E;
      repeat (match goal with H : _ = true |- _ => rewrite H end); done. }
  rewrite E. split_and!; try done.
  destruct p as [|b p]; [done|]. destruct n as [|n]; [lia|]. done.
Qed.

Lemma rune_at_FullRune p n : rune_at p n -> FullRune p = true.
Proof.
  unfold rune_at, decode_failed. intros (Hne & Hok & _). revert Hne Hok.
  destruct p as [|b0 [|b1 [|b2 [|b3 p]]]]; [done|..]; intros _; cbn;
    destruct (ascii_byte b0) eqn:A; cbn; intros Hok;
    try (destruct (lead_size_cases b0) as [E|[E|[E|E]]]; rewrite E in *; cbn in *; try done;
         unfold ascii_byte, lead_size, in_range in *;
         repeat case_match; cbn in *; try done; lia).
Qed.

(** ** Valid UTF-8 as a sequence of encoded runes *)

Inductive utf8 : bytes -> Prop :=
  | utf8_nil : utf8 []
  | utf8_rune r rest : rune_at r (length r) -> utf8 rest -> utf8 (r ++ rest).

Create HintDb utf8.
#[export] Hint Constructors utf8 : utf8.

Lemma Valid_fuel_enough fuel p :
  (length p <= fuel)%nat -> Valid_fuel fuel p = Valid p.
Proof.
  unfold Valid. revert fuel.
  induction p as [p IH] using (induction_ltof1 _ (@length Z)); unfold ltof in IH.
  intros fuel Hf. destruct p as [|b p]; [by destruct fuel|].
  destruct fuel as [|fuel]; [cbn in Hf; lia|]. cbn [length Valid_fuel] in *.
  destruct (decode_failed _); [done|].
  pose proof (DecodeRune_size (b :: p) ltac:(done)) as Hs.
  assert (length (drop (snd (DecodeRune (b :: p))) (b :: p)) <= length p)%nat
    by (rewrite length_drop; cbn [length] in *; lia).
  etrans; [apply IH|symmetry; apply IH]; cbn [length]; lia.
Qed.

Lemma Valid_step p :
  p <> [] ->
  Valid p = if decode_failed (DecodeRune p) then false
            else Valid (drop (snd (DecodeRune p)) p).
Proof.
  intros Hne. destruct p as [|b p]; [done|]. unfold Valid at 1. cbn [length Valid_fuel].
  destruct (decode_failed _); [done|].
  pose proof (DecodeRune_size (b :: p) Hne) as Hs. apply Valid_fuel_enough.
  rewrite length_drop. cbn [length] in *. lia.
Qed.

Lemma rune_at_app r n q : rune_at r n -> rune_at (r ++ q) n.
Proof.
  unfold rune_at. intros (Hne & Hok & Hn). rewrite DecodeRune_app by done.
  destruct r; done.
Qed.

Lemma rune_at_size p n : rune_at p n -> (1 <= n <= length p)%nat.
Proof. intros (Hne & _ & <-). by apply DecodeRune_size. Qed.

Lemma Valid_rune p n : rune_at p n -> Valid p = Valid (drop n p).
Proof. intros (Hne & Hok & <-). rewrite Valid_step, Hok by done. done. Qed.

Lemma Valid_utf8 p : Valid p = true <-> utf8 p.
Proof.
  split.
  - induction p as [p IH] using (induction_ltof1 _ (@length Z)); unfold ltof in IH.
    destruct (decide (p = [])) as [->|Hne]; [constructor|].
    rewrite Valid_step by done. destruct (decode_failed _) eqn:E; [done|]. intros Hv.
    assert (Hr : rune_at p (snd (DecodeRune p))) by done.
    pose proof (rune_at_size _ _ Hr) as Hs. apply DecodeRune_take in Hr.
    set (n := snd (DecodeRune p)) in *.
    rewrite <-(take_drop n p). constructor.
    + rewrite length_take, Nat.min_l by lia. done.
    + apply IH; [|done]. rewrite length_drop. lia.
  - induction 1 as [|r rest Hr _ IH]; [done|].
    rewrite (Valid_rune (r ++ rest) (length r)) by (by apply rune_at_app).
    by rewrite drop_app_length.
Qed.

Lemma utf8_app p q : utf8 p -> utf8 q -> utf8 (p ++ q).
Proof.
  induction 1 as [|r rest Hr _ IH]; [done|]. intros Hq.
  rewrite <-(assoc_L (++)). constructor; auto.
Qed.

Lemma Valid_app p q : Valid p = true -> Valid q = true -> Valid (p ++ q) = true.
Proof. rewrite !Valid_utf8. apply utf8_app. Qed.

Lemma Valid_concat ps : Forall (fun p => Valid p = true) ps -> Valid (concat ps) = true.
Proof. induction 1; [done|]. cbn. by apply Valid_app. Qed.

(** A non-empty valid string starts with a complete rune. *)
Lemma Valid_rune_at p :
  Valid p = true -> p <> [] -> rune_at p (snd (DecodeRune p)).
Proof.
  intros Hv Hne. rewrite Valid_step in Hv by done.
  split_and!; [done| |done]. by destruct (decode_failed _).
Qed.

Lemma Valid_FullRune p : Valid p = true -> p <> [] -> FullRune p = true.
Proof. intros Hv Hne. eapply rune_at_FullRune, Valid_rune_at; done. Qed.

(** If a string continues to a valid one and holds a complete rune, that rune
    is the first rune of the valid string. *)
Lemma FullRune_prefix_rune p q :
  FullRune p = true -> Valid (p ++ q) = true -> rune_at p (snd (DecodeRune p)).
Proof.
  intros Hf Hv.
  assert (Hne : p <> []) by (by destruct p).
  pose proof (Valid_rune_at (p ++ q) Hv ltac:(by destruct p)) as (_ & Hok & _).
  split_and!; [done| |done]. revert Hf Hok. unfold decode_failed. clear -Hne.
  destruct p as [|b0 [|b1 [|b2 [|b3 p]]]]; [done|..]; cbn;
    destruct (ascii_byte b0) eqn:A; cbn; try done;
    destruct (lead_size_cases b0) as [E|[E|[E|E]]]; rewrite E in *; cbn; try done;
    repeat case_match; cbn in *; bool_solve.
Qed.

(** ** Trimming to a valid prefix *)

Lemma trim_valid_fuel_spec fuel p :
  (length p <= fuel)%nat ->
  Valid (trim_valid_fuel fuel p) = true /\ trim_valid_fuel fuel p `prefix_of` p /\
  forall r, r `prefix_of` p -> Valid r = true -> r `prefix_of` trim_valid_fuel fuel p.
Proof.
  revert p. induction fuel as [|fuel IH]; intros p Hf; cbn [trim_valid_fuel].
  - destruct p; [|cbn in Hf; lia]. done.
  - destruct (Valid p) eqn:V; rewrite ?andb_false_r, ?andb_true_r; cbn [negb].
    + split_and!; auto.
    + destruct (decide (p = [])) as [->|Hne]; [done|].
      assert (Hl : (0 < length p)%nat) by (destruct p; cbn; [done|lia]).
      replace (0 <? zlen p) with true by (unfold zlen; symmetry; apply Z.ltb_lt; lia).
      cbn [andb].
      destruct (IH (take (length p - 1) p)) as (I1 & I2 & I3); [rewrite length_take; lia|].
      split_and!; [done| |].
      * etrans; [done|]. apply prefix_take.
      * intros r Hr Vr. apply I3; [|done]. destruct Hr as [k Hk].
        assert (k <> []) as Hk0 by (intros ->; rewrite app_nil_r in Hk; congruence).
        subst p. exists (take (length k - 1) k). rewrite take_app, length_app.
        assert (0 < length k)%nat by (destruct k; cbn; [done|lia]).
        rewrite take_ge by lia. do 2 f_equal. lia.
Qed.

Lemma trim_valid_Valid p : Valid (trim_valid p) = true.
Proof. apply trim_valid_fuel_spec. lia. Qed.

Lemma trim_valid_prefix p : trim_valid p `prefix_of` p.
Proof. apply trim_valid_fuel_spec. lia. Qed.

Lemma trim_valid_id p : Valid p = true -> trim_valid p = p.
Proof.
  intros Hv. apply (anti_symm prefix); [apply trim_valid_prefix|].
  apply trim_valid_fuel_spec; [lia|reflexivity|done].
Qed.

Lemma trim_valid_length p : (length (trim_valid p) <= length p)%nat.
Proof. apply prefix_length, trim_valid_prefix. Qed.

#[export] Hint Resolve trim_valid_Valid Valid_app : utf8.
