(* ===== verification/Sanitize.v ===== *)
(** The first two stages of [rawProcessor] in [src/internal/evidence/processor.go]:
    [utf8Normalizer], which replaces what is not UTF-8, and [ansiStripper], which
    removes terminal escape sequences. *)

From S2P Require Import Prelude Utf8.

(** * [utf8Normalizer] *)

Module Normalizer.

(** [pending] is the state; the [emit] callback is the list of chunks a write
    returns. *)
Record utf8Normalizer := { pending : bytes }.

Definition new : utf8Normalizer := {| pending := [] |}.

(** The UTF-8 encoding of U+FFFD. *)
Definition replacement : bytes := [0xEF; 0xBF; 0xBD].

Definition expected_size (b0 : Z) : nat :=
  if (0xC2 <=? b0) && (b0 <=? 0xDF) then 2
  else if (0xE0 <=? b0) && (b0 <=? 0xEF) then 3
  else if (0xF0 <=? b0) && (b0 <=? 0xF4) then 4
  else 1.

(** The loop [for size < expected && size < len(data) && data[size]&0xc0 == 0x80],
    [budget] being [expected - size] and [rest] being [data[size:]]. *)
Fixpoint continuation_run (budget : nat) (rest : bytes) : nat :=
  match budget, rest with
  | S budget, b :: rest =>
      if Z.land b 0xC0 =? 0x80 then S (continuation_run budget rest) else 0
  | _, _ => 0
  end.

Definition invalidSequenceSize (data : bytes) : nat :=
  match data with
  | [] => 1
  | b0 :: rest => 1 + continuation_run (expected_size b0 - 1) rest
  end.

(** The loop of [write]: the chunks emitted and the bytes kept pending. Every
    turn removes at least one byte, so [length data] turns are enough. *)
Fixpoint write_loop (fuel : nat) (data : bytes) : list bytes * bytes :=
  match fuel with
  | O => ([], data)
  | S fuel =>
      if (length data =? 0)%nat then ([], [])
      else if negb (FullRune data) then ([], data)
      else
        let d := DecodeRune data in
        if decode_failed d then
          let '(out, rest) := write_loop fuel (drop (invalidSequenceSize data) data) in
          (replacement :: out, rest)
        else
          let '(out, rest) := write_loop fuel (drop (snd d) data) in
          (take (snd d) data :: out, rest)
  end.

Definition write (n : utf8Normalizer) (content : bytes) : utf8Normalizer * list bytes :=
  let data := pending n ++ content in
  let '(out, rest) := write_loop (length data) data in
  ({| pending := rest |}, out).

Definition finish (n : utf8Normalizer) : utf8Normalizer * list bytes :=
  if (0 <? zlen (pending n)) then ({| pending := [] |}, [replacement]) else (n, []).

(** A whole stream: every chunk written, then [finish]. *)
Definition run (n : utf8Normalizer) (chunks : list bytes) : bytes :=
  let '(n1, out1) := feed write n chunks in
  let '(_, out2) := finish n1 in
  concat (out1 ++ out2).

(** ** What the loop does *)

Lemma invalidSequenceSize_pos data : (1 <= invalidSequenceSize data)%nat.
Proof. destruct data; cbn; lia. Qed.

Lemma write_loop_Valid fuel data :
  Forall (fun p => Valid p = true) (fst (write_loop fuel data)).
Proof.
  revert data. induction fuel as [|fuel IH]; intros data; cbn [write_loop]; [constructor|].
  destruct (length data =? 0)%nat eqn:E0; [constructor|].
  destruct (FullRune data) eqn:Ef; cbn [negb]; [|constructor].
  assert (Hne : data <> []) by (by destruct data).
  destruct (decode_failed _) eqn:Ed.
  - specialize (IH (drop (invalidSequenceSize data) data)).
    destruct (write_loop _ _); cbn in *. constructor; [done|done].
  - specialize (IH (drop (snd (DecodeRune data)) data)).
    destruct (write_loop _ _); cbn in *. constructor; [|done].
    assert (Hr : rune_at data (snd (DecodeRune data))) by done.
    pose proof (rune_at_size _ _ Hr). apply DecodeRune_take in Hr.
    rewrite (Valid_rune _ _ Hr). rewrite drop_ge; [done|]. rewrite length_take. lia.
Qed.

(** The bytes left pending never hold a complete rune. *)
Lemma write_loop_pending fuel data :
  (length data <= fuel)%nat -> FullRune (snd (write_loop fuel data)) = false.
Proof.
  revert data. induction fuel as [|fuel IH]; intros data Hf; cbn [write_loop].
  - destruct data; [done|cbn in Hf; lia].
  - destruct (length data =? 0)%nat eqn:E0; [done|].
    destruct (FullRune data) eqn:Ef; cbn [negb]; [|done].
    assert (Hne : data <> []) by (by destruct data).
    pose proof (DecodeRune_size data Hne). pose proof (invalidSequenceSize_pos data).
    destruct (decode_failed _);
      match goal with |- context [write_loop _ (drop ?k _)] => specialize (IH (drop k data)) end;
      destruct (write_loop _ _); cbn in *; apply IH; rewrite length_drop; lia.
Qed.

(** On a prefix of a valid string nothing is replaced or lost. *)
Lemma write_loop_transparent fuel data rest :
  (length data <= fuel)%nat -> Valid (data ++ rest) = true ->
  let '(out, pend) := write_loop fuel data in
  concat out ++ pend = data /\ Valid (pend ++ rest) = true.
Proof.
  revert data. induction fuel as [|fuel IH]; intros data Hf Hv; cbn [write_loop]; [done|].
  destruct (length data =? 0)%nat eqn:E0.
  { apply Nat.eqb_eq, nil_length_inv in E0 as ->. done. }
  destruct (FullRune data) eqn:Ef; cbn [negb]; [|done].
  pose proof (FullRune_prefix_rune _ _ Ef Hv) as Hr.
  pose proof (rune_at_size _ _ Hr) as Hs.
  pose proof Hr as (_ & -> & _).
  rewrite (Valid_rune _ _ (rune_at_app _ _ rest Hr)), drop_app_le in Hv by lia.
  specialize (IH (drop (snd (DecodeRune data)) data)).
  rewrite length_drop in IH. specialize (IH ltac:(lia) Hv).
  destruct (write_loop _ _) as [out pend]. destruct IH as [IH1 IH2]. split; [|done].
  cbn [concat]. rewrite <-(assoc_L (++)), IH1. apply take_drop.
Qed.

Lemma feed_Valid n chunks :
  Forall (fun p => Valid p = true) (snd (feed write n chunks)).
Proof.
  revert n. induction chunks as [|c rest IH]; intros n; cbn [feed]; [constructor|].
  unfold write at 1. pose proof (write_loop_Valid (length (pending n ++ c)) (pending n ++ c)) as H.
  destruct (write_loop _ _) as [out p]. specialize (IH {| pending := p |}).
  destruct (feed _ _ _). cbn in *. by apply Forall_app.
Qed.

(** Whatever bytes arrive and however they are cut into writes, what the
    normalizer hands on, [finish] included, is valid UTF-8. *)
Theorem normalizer_output_valid (n : utf8Normalizer) (chunks : list bytes) :
  Valid (run n chunks) = true.
Proof.
  unfold run. pose proof (feed_Valid n chunks) as H.
  destruct (feed write n chunks) as [n1 out1]. cbn in H. unfold finish.
  destruct (0 <? _); apply Valid_concat, Forall_app; repeat constructor; done.
Qed.

Lemma feed_transparent n chunks :
  FullRune (pending n) = false -> Valid (pending n ++ concat chunks) = true ->
  let '(n1, out) := feed write n chunks in
  concat out ++ pending n1 = pending n ++ concat chunks /\
  Valid (pending n1) = true /\ FullRune (pending n1) = false.
Proof.
  revert n. induction chunks as [|c rest IH]; intros n Hp Hv; cbn [feed concat] in *.
  { rewrite app_nil_r in *. done. }
  unfold write at 1. rewrite (assoc_L (++)) in Hv.
  pose proof (write_loop_transparent (length (pending n ++ c)) (pending n ++ c) (concat rest)) as H.
  pose proof (write_loop_pending (length (pending n ++ c)) (pending n ++ c) ltac:(lia)) as Hp1.
  specialize (H ltac:(lia) Hv).
  destruct (write_loop _ _) as [out p]. destruct H as [H1 H2].
  specialize (IH {| pending := p |} Hp1 H2). destruct (feed _ _ _) as [n1 out1].
  destruct IH as (I1 & I2 & I3). cbn [pending] in *. split; [|done].
  rewrite concat_app, (assoc_L (++) (pending n)), <-H1, <-!(assoc_L (++)). by rewrite I1.
Qed.

(** A stream that is valid UTF-8 comes out byte for byte, however it is cut
    into writes: no rune split between two writes is replaced or lost. *)
Theorem normalizer_transparent (chunks : list bytes) :
  Valid (concat chunks) = true -> run new chunks = concat chunks.
Proof.
  intros Hv. unfold run. pose proof (feed_transparent new chunks eq_refl Hv) as H.
  destruct (feed write new chunks) as [n1 out1]. destruct H as (H1 & H2 & H3).
  destruct (decide (pending n1 = [])) as [E|E].
  - unfold finish. rewrite E in H1 |- *. change (0 <? zlen []) with false. cbv iota. rewrite app_nil_r in H1 |- *. done.
  - apply Valid_FullRune in H2; [congruence|done].
Qed.

(** The snowman and a two-byte letter, cut inside both. *)
Lemma normalizer_transparent_witness :
  run new [[0x61; 0xE2]; [0x98]; [0x83; 0xC3]; [0xA9; 0x0A]]
  = [0x61; 0xE2; 0x98; 0x83; 0xC3; 0xA9; 0x0A].
Proof.
  apply (normalizer_transparent [[0x61; 0xE2]; [0x98]; [0x83; 0xC3]; [0xA9; 0x0A]]).
  reflexivity.
Defined.

(** On bytes that are not UTF-8 the cutting does show: the overlong sequence
    E0 80 80 is one replacement character in one write, and two when the last
    byte arrives in a second write. *)
Theorem normalizer_replacement_depends_on_chunks :
  run new [[0xE0; 0x80; 0x80]] = replacement /\
  run new [[0xE0; 0x80]; [0x80]] = replacement ++ replacement.
Proof. split; reflexivity. Qed.

End Normalizer.

(** * [ansiStripper] *)

Module Ansi.

Inductive ansiState := ansiText | ansiEscape | ansiCSI | ansiOSC | ansiOSCEscape.

#[global] Instance ansiState_eq_dec : EqDecision ansiState.
Proof. solve_decision. Defined.

Record ansiStripper := { state : ansiState; sequenceLength : Z }.

Definition new : ansiStripper := {| state := ansiText; sequenceLength := 0 |}.

Definition with_state (s : ansiStripper) (q : ansiState) : ansiStripper :=
  {| state := q; sequenceLength := sequenceLength s |}.

(** The body of the loop in [write] on one byte; the emitted bytes, at most one. *)
Definition step (s : ansiStripper) (value : Z) : ansiStripper * bytes :=
  match state s with
  | ansiText =>
      if value =? 0x1B then ({| state := ansiEscape; sequenceLength := 0 |}, [])
      else (s, [value])
  | ansiEscape =>
      if value =? 0x5B (* [ *) then (with_state s ansiCSI, [])
      else if value =? 0x5D (* ] *) then (with_state s ansiOSC, [])
      else if (value =? 0x37) || (value =? 0x38) || (value =? 0x3D) || (value =? 0x3E) (* 7 8 = > *)
      then (with_state s ansiText, [])
      else (with_state s ansiText,
            if (value =? 0x0A) || (value =? 0x0D) then [value] else [])
  | ansiCSI =>
      let s := {| state := ansiCSI; sequenceLength := sequenceLength s + 1 |} in
      if (value =? 0x0A) || (value =? 0x0D) then (with_state s ansiText, [value])
      else if (0x40 <=? value) && (value <=? 0x7E) then (with_state s ansiText, [])
      else if 256 <=? sequenceLength s then (with_state s ansiText, [])
      else (s, [])
  | ansiOSC =>
      let s := {| state := ansiOSC; sequenceLength := sequenceLength s + 1 |} in
      if value =? 0x07 then (with_state s ansiText, [])
      else if value =? 0x1B then (with_state s ansiOSCEscape, [])
      else if (value =? 0x0A) || (value =? 0x0D) then (with_state s ansiText, [value])
      else if 256 <=? sequenceLength s then (with_state s ansiText, [])
      else (s, [])
  | ansiOSCEscape =>
      if value =? 0x5C (* \ *) then (with_state s ansiText, [])
      else (with_state s ansiOSC, [])
  end.

Definition write (s : ansiStripper) (content : bytes) : ansiStripper * bytes :=
  fold_step step s content.
Arguments write : simpl never.

Definition finish (s : ansiStripper) : ansiStripper := with_state s ansiText.

#[global] Instance write_chunk_free : ChunkFree write.
Proof. apply fold_step_chunk_free. Qed.

Lemma write_cons s v rest :
  write s (v :: rest) =
  (let '(s1, o1) := step s v in
   let '(s2, o2) := write s1 rest in
   (s2, o1 ++ o2)).
Proof. reflexivity. Qed.

Ltac step_cases :=
  unfold step; repeat case_match; cbn [fst snd state sequenceLength with_state] in *.

(** ** No escape byte survives *)

Lemma step_no_escape s v : 0x1B ∉ snd (step s v).
Proof.
  step_cases; bool_norm; try apply not_elem_of_nil;
    rewrite list_elem_of_singleton; try congruence; intros <-; discriminate.
Qed.

(** The stripper never hands on an ESC byte, from any state and for any
    input: no escape sequence, whole or partial, reaches the later stages. *)
Theorem ansi_output_no_escape (s : ansiStripper) (chunks : list bytes) :
  0x1B ∉ snd (feed write s chunks).
Proof.
  rewrite feed_concat by apply _. generalize (concat chunks) as content.
  intros content. revert s. induction content as [|v rest IH]; intros s.
  { apply not_elem_of_nil. }
  rewrite write_cons. pose proof (step_no_escape s v) as H.
  destruct (step s v) as [s1 o1]. specialize (IH s1). destruct (write s1 rest) as [s2 o2].
  cbn in *. rewrite elem_of_app. tauto.
Qed.

(** ** Text without escapes is untouched *)

Lemma write_text s content :
  state s = ansiText -> 0x1B ∉ content -> write s content = (s, content).
Proof.
  revert s. induction content as [|v rest IH]; intros s Hs Hn; [done|].
  rewrite not_elem_of_cons in Hn. destruct Hn as [Hv Hn].
  rewrite write_cons. unfold step. rewrite Hs.
  destruct (Z.eqb_spec v 0x1B) as [->|_]; [done|]. by rewrite IH.
Qed.

(** ** Unterminated sequences are bounded *)

(** How many more bytes a stripper in state [s] can swallow before it is back in
    text, when no further ESC arrives. *)
Definition budget (s : ansiStripper) : Z :=
  match state s with
  | ansiText => 0
  | ansiEscape => 1 + Z.max 1 (256 - sequenceLength s)
  | ansiCSI | ansiOSC => Z.max 1 (256 - sequenceLength s)
  | ansiOSCEscape => 1 + Z.max 1 (256 - sequenceLength s)
  end.

Lemma step_budget s v :
  v <> 0x1B -> state s <> ansiText -> budget (fst (step s v)) < budget s.
Proof.
  intros Hv Hs. unfold budget. destruct (state s) eqn:E; [done|..];
    unfold step; rewrite E; repeat case_match; bool_norm;
    cbn [fst state sequenceLength with_state] in *; simplify_eq; lia.
Qed.

Lemma budget_text s : state s = ansiText -> budget s = 0.
Proof. unfold budget. by intros ->. Qed.

Lemma write_budget s content :
  0x1B ∉ content -> budget s <= zlen content -> state (fst (write s content)) = ansiText.
Proof.
  revert s. induction content as [|v rest IH]; intros s Hn Hb.
  - destruct (state s) eqn:E; [by rewrite <-E|..]; unfold budget, zlen in Hb; rewrite E in Hb; cbn in Hb; lia.
  - destruct (decide (state s = ansiText)) as [Hs|Hs].
    + rewrite write_text by done. done.
    + rewrite not_elem_of_cons in Hn. destruct Hn as [Hv Hn].
      pose proof (step_budget s v ltac:(done) Hs) as Hd.
      rewrite write_cons. destruct (step s v) as [s1 o1]. specialize (IH s1 Hn).
      cbn [fst] in *. rewrite zlen_cons in Hb. specialize (IH ltac:(lia)).
      by destruct (write s1 rest).
Qed.

Lemma step_sequenceLength s v :
  0 <= sequenceLength s -> 0 <= sequenceLength (fst (step s v)).
Proof. intros H. step_cases; lia. Qed.

Lemma feed_sequenceLength s chunks :
  0 <= sequenceLength s -> 0 <= sequenceLength (fst (feed write s chunks)).
Proof.
  rewrite feed_concat by apply _. generalize (concat chunks) as content.
  intros content. revert s. induction content as [|v rest IH]; intros s H; [done|].
  rewrite write_cons. apply (step_sequenceLength _ v) in H. destruct (step s v) as [s1 o1].
  specialize (IH s1 H). by destruct (write s1 rest).
Qed.

(** An unterminated escape sequence cannot swallow the rest of a log:
    whatever came before, 257 bytes without a further ESC are enough for the
    stripper to be back in text, where everything passes. *)
Theorem ansi_recovers (history : list bytes) (content : bytes) :
  0x1B ∉ content -> 257 <= zlen content ->
  state (fst (write (fst (feed write new history)) content)) = ansiText.
Proof.
  intros Hn Hl. apply write_budget; [done|].
  pose proof (feed_sequenceLength new history ltac:(done)) as H.
  unfold budget. case_match; lia.
Qed.

Lemma ansi_recovers_witness :
  state (fst (write (fst (feed write new [[0x1B; 0x5D]; [0x30]])) (replicate 257 0x61))) = ansiText.
Proof.
  apply (ansi_recovers [[0x1B; 0x5D]; [0x30]]).
  - intros H. apply elem_of_replicate_inv in H. discriminate.
  - vm_compute. discriminate.
Defined.

(** A line feed or carriage return ends every state but one: outside the
    state that follows ESC inside an operating-system command it is handed on
    and the stripper is back in text. *)
Theorem ansi_newline_resets (s : ansiStripper) (v : Z) :
  v = 0x0A \/ v = 0x0D -> state s <> ansiOSCEscape ->
  snd (step s v) = [v] /\ state (fst (step s v)) = ansiText.
Proof. intros [->| ->] Hs; step_cases; done. Qed.

Lemma ansi_newline_resets_witness :
  snd (step {| state := ansiOSC; sequenceLength := 9 |} 0x0A) = [0x0A] /\
  state (fst (step {| state := ansiOSC; sequenceLength := 9 |} 0x0A)) = ansiText.
Proof. apply (ansi_newline_resets {| state := ansiOSC; sequenceLength := 9 |}); [by left|done]. Defined.

(** ** What the bound of 256 does not cover *)

Definition hidden_lines (n : nat) : bytes := concat (replicate n [0x1B; 0x0A]).

Lemma write_hidden_lines n k :
  snd (write {| state := ansiOSC; sequenceLength := k |} (hidden_lines n)) = [].
Proof.
  revert k. induction n as [|n IH]; intros k; [done|].
  unfold hidden_lines. cbn [replicate concat app]. rewrite write_cons. cbn. rewrite write_cons. cbn.
  change (concat (replicate n [0x1B; 0x0A])) with (hidden_lines n).
  specialize (IH (k + 1)). unfold with_state. cbn in *. by destruct (write _ _).
Qed.

(** Inside an operating-system command the pair ESC LF is swallowed without
    the length being checked, so the output of any number of lines can be hidden
    after one ESC ], line ends included. *)
Theorem ansi_osc_escape_hides_lines (n : nat) :
  snd (write new ([0x1B; 0x5D] ++ hidden_lines n)) = [].
Proof.
  cbn [app]. do 2 (rewrite write_cons; cbn). unfold with_state. cbn.
  pose proof (write_hidden_lines n 0). by destruct (write _ _).
Qed.

End Ansi.
