(* ===== verification/Patterns.v ===== *)
(** The secret patterns of [src/internal/evidence/redaction.go]: the encodings of
    a secret that are searched for, the sparse Aho-Corasick automaton
    [compileSecrets] builds from them, and the correctness of that automaton. *)

From S2P Require Import Prelude Utf8 Sanitize.

(** * Encodings of a secret *)

Module Encodings.

(** [encoding/base64]: the alphabet and whether the output is padded. *)
Definition std_alphabet : bytes :=
  bs "ABCDEFGHIJKLMNOPQRSTUVWXYZabcdefghijklmnopqrstuvwxyz0123456789+/".
Definition url_alphabet : bytes :=
  bs "ABCDEFGHIJKLMNOPQRSTUVWXYZabcdefghijklmnopqrstuvwxyz0123456789-_".

Definition symbol (alphabet : bytes) (v : Z) (shift : Z) : Z :=
  default 0 (alphabet !! Z.to_nat (Z.land (Z.shiftr v shift) 0x3F)).

Fixpoint base64 (alphabet : bytes) (padded : bool) (src : bytes) : bytes :=
  match src with
  | a :: b :: c :: rest =>
      let v := Z.lor (Z.shiftl a 16) (Z.lor (Z.shiftl b 8) c) in
      symbol alphabet v 18 :: symbol alphabet v 12 :: symbol alphabet v 6 ::
      symbol alphabet v 0 :: base64 alphabet padded rest
  | [a; b] =>
      let v := Z.lor (Z.shiftl a 16) (Z.shiftl b 8) in
      [symbol alphabet v 18; symbol alphabet v 12; symbol alphabet v 6]
        ++ (if padded then [0x3D] else [])
  | [a] =>
      let v := Z.shiftl a 16 in
      [symbol alphabet v 18; symbol alphabet v 12]
        ++ (if padded then [0x3D; 0x3D] else [])
  | [] => []
  end.

(** [encoding/hex] and [strings.ToUpper] of its output. *)
Definition hex_digits : bytes := bs "0123456789abcdef".
Definition hex_digit (v : Z) : Z := default 0 (hex_digits !! Z.to_nat (Z.land v 0x0F)).

Definition hex (src : bytes) : bytes :=
  concat (map (fun b => [hex_digit (Z.shiftr b 4); hex_digit b]) src).

Definition upper_byte (b : Z) : Z :=
  if (0x61 <=? b) && (b <=? 0x7A) then b - 32 else b.

Definition to_upper (s : bytes) : bytes := map upper_byte s.

(** The secret as the first two stages of the pipeline would show it. *)
Definition normalized (secret : bytes) : bytes :=
  let '(n1, out1) := Normalizer.write Normalizer.new secret in
  let '(_, out2) := Normalizer.finish n1 in
  let '(_, out) := feed Ansi.write Ansi.new (out1 ++ out2) in
  out.

Definition variants (secret : bytes) : list bytes :=
  [secret; normalized secret;
   base64 std_alphabet true secret; base64 std_alphabet false secret;
   base64 url_alphabet true secret; base64 url_alphabet false secret;
   hex secret; to_upper (hex secret)].

Example variants_example :
  variants (bs "k~?") =
  [bs "k~?"; bs "k~?"; bs "a34/"; bs "a34/"; bs "a34_"; bs "a34_"; bs "6b7e3f"; bs "6B7E3F"].
Proof. vm_compute. reflexivity. Qed.

End Encodings.

(** * The automaton *)

Module Automaton.

(** Node and edge indices are [nat]; the index -1 that ends a list of edges is
    [None]. *)
Record matchNode := { edge : option nat; failure : nat; longest : nat }.

Record matchEdge := { value : Z; target : nat; next : option nat }.

Record secretPatterns := {
  nodes : list matchNode;
  edges : list matchEdge;
  maximum : nat;
  count : nat;
  size : nat
}.

Definition empty_node : matchNode := {| edge := None; failure := 0; longest := 0 |}.

Definition node (p : secretPatterns) (i : nat) : matchNode := default empty_node (nodes p !! i).

Definition with_nodes (p : secretPatterns) (ns : list matchNode) : secretPatterns :=
  {| nodes := ns; edges := edges p; maximum := maximum p; count := count p; size := size p |}.

(** The loop [for e := first; e >= 0; e = p.edges[e].next], as the list of the
    edges it visits. An edge links to an older one, so the number of edges bounds
    the number of turns. *)
Fixpoint chain (es : list matchEdge) (fuel : nat) (e : option nat) : list matchEdge :=
  match fuel, e with
  | S fuel, Some i =>
      match es !! i with
      | Some d => d :: chain es fuel (next d)
      | None => []
      end
  | _, _ => []
  end.

Definition edge_list (p : secretPatterns) (state : nat) : list matchEdge :=
  chain (edges p) (length (edges p)) (edge (node p state)).

Definition transition (p : secretPatterns) (state : nat) (v : Z) : nat :=
  match List.find (fun d => value d =? v) (edge_list p state) with
  | Some d => target d
  | None => 0
  end.

(** ** Building the trie *)

Definition add_edge (p : secretPatterns) (state : nat) (v : Z) : secretPatterns :=
  let fresh := length (nodes p) in
  let d := {| value := v; target := fresh; next := edge (node p state) |} in
  {| nodes := alter (fun n => {| edge := Some (length (edges p));
                                 failure := failure n; longest := longest n |})
                    state (nodes p ++ [empty_node]);
     edges := edges p ++ [d];
     maximum := maximum p; count := count p; size := size p |}.

Definition insert_byte (st : secretPatterns * nat) (v : Z) : secretPatterns * nat :=
  let '(p, state) := st in
  let next := transition p state v in
  if (next =? 0)%nat then (add_edge p state v, length (nodes p)) else (p, next).

Definition set_longest (p : secretPatterns) (state : nat) (l : nat) : secretPatterns :=
  with_nodes p (alter (fun n => {| edge := edge n; failure := failure n; longest := l |})
                      state (nodes p)).

Definition insert_key (p : secretPatterns) (key : bytes) : secretPatterns :=
  let '(p1, state) := foldl insert_byte (p, 0%nat) key in
  set_longest p1 state (length key).

(** ** Failure links, breadth first *)

(** [for s != 0 && p.transition(s, v) == 0 { s = p.nodes[s].failure }]; a failure
    link leads to a shorter prefix, so the longest pattern bounds the turns. *)
Fixpoint fall (p : secretPatterns) (fuel : nat) (s : nat) (v : Z) : nat :=
  match fuel with
  | O => s
  | S fuel =>
      if negb (s =? 0)%nat && (transition p s v =? 0)%nat
      then fall p fuel (failure (node p s)) v
      else s
  end.

Definition goto (p : secretPatterns) (s : nat) (v : Z) : nat :=
  transition p (fall p (S (maximum p)) s v) v.

Definition set_failure (p : secretPatterns) (t f : nat) : secretPatterns :=
  with_nodes p (alter (fun n => {| edge := edge n; failure := f;
                                   longest := Nat.max (longest n) (longest (node p f)) |})
                      t (nodes p)).

Definition link_edge (state : nat) (st : secretPatterns * list nat) (d : matchEdge)
  : secretPatterns * list nat :=
  let '(p, queue) := st in
  let f := goto p (failure (node p state)) (value d) in
  (set_failure p (target d) f, queue ++ [target d]).

(** Every node enters the queue at most once, so the number of nodes bounds the
    turns of the loop [for head := 0; head < len(queue); head++]. *)
Fixpoint link_loop (fuel head : nat) (p : secretPatterns) (queue : list nat) : secretPatterns :=
  match fuel with
  | O => p
  | S fuel =>
      match queue !! head with
      | None => p
      | Some state =>
          let '(p, queue) := foldl (link_edge state) (p, queue) (edge_list p state) in
          link_loop fuel (S head) p queue
      end
  end.

Definition link (p : secretPatterns) : secretPatterns :=
  link_loop (length (nodes p)) 0 p (map target (edge_list p 0)).

(** ** [compileSecrets] *)

Definition maximumPatterns : nat := 512.
Definition maximumPatternBytes : N := 768 * 1024.
Definition maximumHoldback : N := 128 * 1024.

(** Byte-wise string order, as [sort.Strings] uses it. *)
Fixpoint bytes_leb (a b : bytes) : bool :=
  match a, b with
  | [], _ => true
  | _ :: _, [] => false
  | x :: a, y :: b => if x <? y then true else if y <? x then false else bytes_leb a b
  end.

Definition bytes_le (a b : bytes) : Prop := bytes_leb a b = true.

#[global] Instance bytes_le_dec : RelDecision bytes_le.
Proof. intros a b. unfold bytes_le. apply _. Defined.

Definition sort_strings (keys : list bytes) : list bytes := merge_sort bytes_le keys.

(** The maps [raw] and [set] of the source. *)
Definition collect (st : gset bytes * gset bytes) (secret : bytes) : gset bytes * gset bytes :=
  let '(raw, set) := st in
  if decide (secret ∈ raw) then st
  else ({[secret]} ∪ raw,
        foldl (fun set variant => if decide (variant = []) then set else {[variant]} ∪ set)
              set (Encodings.variants secret)).

Definition pattern_set (secrets : list bytes) : gset bytes :=
  snd (foldl collect (∅, ∅) secrets).

Definition trie (keys : list bytes) : secretPatterns :=
  foldl insert_key
    {| nodes := [empty_node]; edges := [];
       maximum := foldr (fun k m => Nat.max (length k) m) 0%nat keys;
       count := length keys;
       size := foldr (fun k m => (length k + m)%nat) 0%nat keys |} keys.

Definition automaton (keys : list bytes) : secretPatterns := link (trie keys).

(** [None] is the error [redaction expansion exceeds supported limits]. *)
Definition compileSecrets (secrets : list bytes) : option secretPatterns :=
  let keys := sort_strings (elements (pattern_set secrets)) in
  let sizes := foldr (fun k m => (length k + m)%nat) 0%nat keys in
  let longest := foldr (fun k m => Nat.max (length k) m) 0%nat keys in
  if (maximumPatterns <? length keys)%nat || (maximumPatternBytes <? N.of_nat sizes)%N
     || (maximumHoldback <? N.of_nat longest)%N
  then None
  else Some (automaton keys).

End Automaton.
