(* ===== verification/AutomatonCorrect.v ===== *)
(** The automaton of [Patterns] recognizes its patterns: after reading a stream
    its state is the longest suffix of the stream that begins a pattern, and the
    [longest] field there is the length of the longest pattern that ends there. *)

From S2P Require Import Prelude Patterns.
Import Automaton.

(** * Suffixes *)

Lemma suffix_comparable (a b s : bytes) :
  a `suffix_of` s -> b `suffix_of` s -> (length a <= length b)%nat -> a `suffix_of` b.
Proof.
  intros [k1 H1] [k2 H2] Hl.
  assert (length k2 <= length k1)%nat.
  { apply (f_equal length) in H1, H2. rewrite length_app in *. lia. }
  exists (drop (length k2) k1).
  assert (E : drop (length k2) s = b) by (by rewrite H2, drop_app_length).
  rewrite <-E, H1. by rewrite drop_app_le.
Qed.

Lemma suffix_snoc_inv (a s : bytes) (v : Z) :
  a `suffix_of` s ++ [v] -> a = [] \/ exists a', a = a' ++ [v] /\ a' `suffix_of` s.
Proof.
  intros [k Hk]. destruct a as [|x a' _] using rev_ind; [by left|right].
  rewrite (assoc_L (++)) in Hk. apply app_inj_tail in Hk as [-> ->].
  exists a'. split; [done|]. by exists k.
Qed.

Lemma suffix_snoc (a s : bytes) (v : Z) :
  a `suffix_of` s -> a ++ [v] `suffix_of` s ++ [v].
Proof. intros [k ->]. exists k. by rewrite (assoc_L (++)). Qed.

(** [best P s r]: [r] is the longest suffix of [s] that satisfies [P]. *)
Definition best (P : bytes -> Prop) (s r : bytes) : Prop :=
  r `suffix_of` s /\ P r /\
  forall r', r' `suffix_of` s -> P r' -> (length r' <= length r)%nat.

(** * The trie *)

(** A link leads to an edge or node below [k]. *)
Definition below (e : option nat) (k : nat) : Prop :=
  match e with Some i => (i < k)%nat | None => True end.

Definition links_back (es : list matchEdge) : Prop :=
  forall j d, es !! j = Some d -> below (next d) j.

Lemma below_le e j k : below e j -> (j <= k)%nat -> below e k.
Proof. destruct e; cbn; lia. Qed.

Lemma chain_fuel es f1 f2 e :
  links_back es -> below e f1 -> below e f2 -> chain es f1 e = chain es f2 e.
Proof.
  intros Hl. revert f2 e. induction f1 as [|f1 IH]; intros f2 e H1 H2.
  { destruct e; cbn in H1; [lia|by destruct f2]. }
  destruct e as [i|]; [|by destruct f2]. destruct f2 as [|f2]; [cbn in H2; lia|].
  cbn [chain]. destruct (es !! i) as [d|] eqn:E; [|done]. f_equal.
  apply Hl in E. cbn in *. apply IH; eapply below_le; eauto; lia.
Qed.

Lemma chain_app es es' f e :
  links_back es -> below e (length es) -> chain (es ++ es') f e = chain es f e.
Proof.
  intros Hl. revert e. induction f as [|f IH]; intros e He; [done|].
  destruct e as [i|]; [|done]. cbn [chain]. cbn in He. rewrite lookup_app_l by done.
  destruct (es !! i) as [d|] eqn:E; [|done]. f_equal. apply IH.
  apply Hl in E. eapply below_le; eauto. lia.
Qed.

(** [paths] names every node by the string that leads to it from the root. *)
Record trie_ok (p : secretPatterns) (paths : list bytes) : Prop := {
  tr_length : length paths = length (nodes p);
  tr_root : paths !! 0%nat = Some [];
  tr_nodup : NoDup paths;
  tr_prefix : forall π v, π ++ [v] ∈ paths -> π ∈ paths;
  tr_links : links_back (edges p);
  tr_heads : forall i, below (edge (node p i)) (length (edges p));
  tr_children : forall i π v t, paths !! i = Some π ->
    (exists nx, {| value := v; target := t; next := nx |} ∈ edge_list p i)
    <-> paths !! t = Some (π ++ [v]);
  tr_distinct : forall i, NoDup (map value (edge_list p i))
}.

Lemma path_unique p paths i j π :
  trie_ok p paths -> paths !! i = Some π -> paths !! j = Some π -> i = j.
Proof. intros T H1 H2. eapply NoDup_lookup; eauto using tr_nodup. Qed.

Lemma path_root p paths i : trie_ok p paths -> paths !! i = Some [] <-> i = 0%nat.
Proof.
  intros T. split; [intros H; eapply path_unique; eauto using tr_root|intros ->; by apply (tr_root p)].
Qed.

Lemma transition_child p paths i π v t :
  trie_ok p paths -> paths !! i = Some π -> paths !! t = Some (π ++ [v]) ->
  transition p i v = t.
Proof.
  intros T Hi Ht. unfold transition.
  pose proof (proj2 (tr_children p paths T i π v t Hi) Ht) as [nx Hin].
  destruct (List.find _ _) as [[v' t' nx']|] eqn:E.
  - apply find_some in E as [Hd Hv]. cbn in *. apply Z.eqb_eq in Hv as ->.
    apply list_elem_of_In in Hd.
    assert (paths !! t' = Some (π ++ [v])) by (eapply tr_children; eauto).
    eapply path_unique; eauto.
  - eapply find_none in E; [|by apply list_elem_of_In]. cbn in E. lia.
Qed.

Lemma transition_path p paths i π v :
  trie_ok p paths -> paths !! i = Some π -> transition p i v <> 0%nat ->
  paths !! transition p i v = Some (π ++ [v]).
Proof.
  intros T Hi. unfold transition.
  destruct (List.find _ _) as [[v' t' nx']|] eqn:E; [|done]. intros _.
  apply find_some in E as [Hd Hv]. cbn in *. apply Z.eqb_eq in Hv as ->.
  apply list_elem_of_In in Hd. eapply tr_children; eauto.
Qed.

Lemma transition_none p paths i π v :
  trie_ok p paths -> paths !! i = Some π -> transition p i v = 0%nat -> π ++ [v] ∉ paths.
Proof.
  intros T Hi H0 Hin. apply list_elem_of_lookup in Hin as [t Ht].
  pose proof (transition_child _ _ _ _ _ _ T Hi Ht) as E. rewrite H0 in E. subst t.
  rewrite (tr_root p) in Ht by done. by destruct π.
Qed.

Lemma empty_trie_ok m c z :
  trie_ok {| nodes := [empty_node]; edges := []; maximum := m; count := c; size := z |} [[]].
Proof.
  split; try done.
  - apply NoDup_singleton.
  - intros π v H. apply list_elem_of_singleton in H. by destruct π.
  - intros [|i]; done.
  - intros [|i] π v t; [|done]. intros [= <-]. cbn. split.
    + intros [nx H]. by apply not_elem_of_nil in H.
    + destruct t; cbn; [done|]. by destruct t.
  - intros i. constructor.
Qed.

(** ** Adding an edge *)

Section add_edge.
Context (p : secretPatterns) (paths : list bytes) (i : nat) (π : bytes) (v : Z).
Context (T : trie_ok p paths) (Hi : paths !! i = Some π) (Hnew : π ++ [v] ∉ paths).

Let p' := add_edge p i v.

Lemma path_lt j ρ : paths !! j = Some ρ -> (j < length (nodes p))%nat.
Proof using T. intros H. apply lookup_lt_Some in H. by rewrite (tr_length p) in H. Qed.

Lemma add_edge_node j :
  node p' j =
  if decide (j = i)
  then {| edge := Some (length (edges p)); failure := failure (node p i);
          longest := longest (node p i) |}
  else node p j.
Proof using T Hi.
  unfold p', node, add_edge. cbn [nodes].
  pose proof (path_lt i π Hi) as Hlt. case_decide as E; [subst j|].
  - rewrite list_lookup_alter_eq, lookup_app_l by done.
    apply lookup_lt_is_Some in Hlt as [n ->]. done.
  - rewrite list_lookup_alter_ne by done.
    destruct (decide (j < length (nodes p))%nat) as [Hj|Hj].
    + by rewrite lookup_app_l.
    + rewrite lookup_app_r by lia. rewrite (lookup_ge_None_2 (nodes p)) by lia.
      by destruct (j - length (nodes p))%nat as [|[|k]].
Qed.

Lemma add_edge_links : links_back (edges p').
Proof using T.
  intros j d H. cbn in H. apply lookup_app_Some in H as [H|[Hj H]].
  - by apply (tr_links p paths T).
  - destruct (j - length (edges p))%nat eqn:E; [|by destruct n]. injection H as <-. cbn.
    eapply below_le; [apply (tr_heads p paths T)|lia].
Qed.

Lemma add_edge_heads j : below (edge (node p' j)) (length (edges p')).
Proof using T Hi.
  rewrite add_edge_node. cbn [edges p' add_edge]. rewrite length_app. cbn [length].
  case_decide; cbn; [lia|]. eapply below_le; [apply (tr_heads p paths T)|lia].
Qed.

Lemma add_edge_list j :
  edge_list p' j =
  if decide (j = i)
  then {| value := v; target := length (nodes p); next := edge (node p i) |} :: edge_list p i
  else edge_list p j.
Proof using T Hi.
  assert (Hold : forall k, chain (edges p') (length (edges p')) (edge (node p k)) = edge_list p k).
  { intros k. unfold edge_list. cbn [edges p' add_edge].
    rewrite chain_app by (apply (tr_links p paths T) || apply (tr_heads p paths T)).
    apply chain_fuel; [apply (tr_links p paths T)| |apply (tr_heads p paths T)].
    eapply below_le; [apply (tr_heads p paths T)|]. rewrite length_app. lia. }
  unfold edge_list at 1. rewrite add_edge_node. case_decide as E; [|apply Hold].
  cbn [edge edges p' add_edge]. rewrite length_app. cbn [length].
  rewrite Nat.add_1_r. cbn [chain].
  rewrite lookup_app_r by lia. rewrite Nat.sub_diag. cbn. f_equal.
  rewrite <-(Hold i). cbn [edges p' add_edge]. apply chain_fuel.
  - apply add_edge_links.
  - apply (tr_heads p paths T).
  - eapply below_le; [apply (tr_heads p paths T)|]. rewrite length_app. lia.
Qed.

Lemma add_edge_ok : trie_ok p' (paths ++ [π ++ [v]]).
Proof using T Hi Hnew.
  pose proof (tr_length p paths T) as Hlen.
  split.
  - cbn. rewrite length_alter, !length_app. cbn. lia.
  - rewrite lookup_app_l; [apply (tr_root p paths T)|].
    eapply lookup_lt_Some, (tr_root p paths T).
  - apply NoDup_app. split_and!; [apply (tr_nodup p paths T)| |apply NoDup_singleton].
    intros x Hx ->%list_elem_of_singleton. done.
  - intros ρ w [H|H%list_elem_of_singleton]%elem_of_app; apply elem_of_app; left.
    + eapply (tr_prefix p paths T); eauto.
    + apply app_inj_tail in H as [-> _]. by eapply list_elem_of_lookup_2.
  - apply add_edge_links.
  - apply add_edge_heads.
  - intros j ρ w t Hj. rewrite add_edge_list.
    apply lookup_app_Some in Hj as [Hj|[Hge Hj]].
    + assert (Hold : paths !! t = Some (ρ ++ [w]) <->
               (paths ++ [π ++ [v]]) !! t = Some (ρ ++ [w]) /\ t <> length paths).
      { split.
        - intros H. split; [by apply lookup_app_l_Some|]. apply lookup_lt_Some in H. lia.
        - intros [[H|[Hg H]]%lookup_app_Some Hne]; [done|].
          destruct (t - length paths)%nat as [|[|k]] eqn:E; [lia|done|done]. }
      case_decide as E; [subst j|].
      * assert (ρ = π) as -> by congruence.
        setoid_rewrite elem_of_cons. split.
        { intros [nx [H|H]].
          - injection H as -> -> _. rewrite <-Hlen, lookup_app_r, Nat.sub_diag by lia. done.
          - apply Hold. eapply (tr_children p paths T); eauto. }
        { intros H. destruct (decide (t = length paths)) as [->|Hne].
          - rewrite lookup_app_r, Nat.sub_diag in H by lia. cbn in H.
            injection H as H. apply app_inj_tail in H as [_ ->].
            exists (edge (node p i)). left. by rewrite Hlen.
          - destruct (proj2 (tr_children p paths T i π w t Hi)) as [nx Hn]; [tauto|].
            exists nx. by right. }
      * rewrite (tr_children p paths T j ρ w t Hj), Hold. split; [tauto|].
        intros H. split; [done|]. intros ->.
        rewrite lookup_app_r, Nat.sub_diag in H by lia. cbn in H.
        injection H as H. apply app_inj_tail in H as [-> _].
        apply E. eapply path_unique; eauto.
    + destruct (j - length paths)%nat as [|[|k]] eqn:E; [|done|done]. cbn in Hj.
      injection Hj as <-. assert (j = length paths) as -> by lia.
      rewrite decide_False by (apply lookup_lt_Some in Hi; lia).
      unfold edge_list, node. rewrite (lookup_ge_None_2 (nodes p)) by lia. cbn.
      split; [intros [nx H]; destruct (length (edges p)); by apply not_elem_of_nil in H|].
      intros [H|[Hg H]]%lookup_app_Some.
      * destruct Hnew. eapply (tr_prefix p paths T), list_elem_of_lookup_2; eauto.
      * destruct (t - length paths)%nat as [|[|k]]; [|done|done]. cbn in H.
        injection H as H. apply (f_equal length) in H. rewrite !length_app in H. cbn in H. lia.
  - intros j. rewrite add_edge_list. case_decide; [|apply (tr_distinct p paths T)].
    cbn. constructor; [|apply (tr_distinct p paths T)].
    intros ([w t nx] & Hw & Hd)%list_elem_of_fmap. cbn in Hw. subst w. apply Hnew.
    eapply list_elem_of_lookup_2, (tr_children p paths T i π v t Hi). eauto.
Qed.
End add_edge.

(** ** Inserting the keys *)

(** [grown p paths p' paths' Q]: the trie gained exactly the paths in [Q], the new
    nodes are blank and the others keep what they recorded. *)
Record grown (p : secretPatterns) (paths : list bytes) (p' : secretPatterns)
    (paths' : list bytes) (Q : bytes -> Prop) : Prop := {
  gr_ok : trie_ok p' paths';
  gr_prefix : paths `prefix_of` paths';
  gr_paths : forall ρ, ρ ∈ paths' <-> ρ ∈ paths \/ Q ρ;
  gr_payload : forall i, failure (node p' i) = failure (node p i) /\
                         longest (node p' i) = longest (node p i);
  gr_maximum : maximum p' = maximum p
}.

Lemma grown_refl p paths Q :
  trie_ok p paths -> (forall ρ, Q ρ -> ρ ∈ paths) -> grown p paths p paths Q.
Proof. intros T HQ. split; naive_solver. Qed.

Lemma grown_lookup p paths p' paths' Q i π :
  grown p paths p' paths' Q -> paths !! i = Some π -> paths' !! i = Some π.
Proof. intros G H. eapply prefix_lookup_Some; eauto using gr_prefix. Qed.

Lemma grown_trans p0 paths0 p1 paths1 p2 paths2 Q1 Q2 :
  grown p0 paths0 p1 paths1 Q1 -> grown p1 paths1 p2 paths2 Q2 ->
  grown p0 paths0 p2 paths2 (fun ρ => Q1 ρ \/ Q2 ρ).
Proof.
  intros [T1 P1 S1 L1 M1] [T2 P2 S2 L2 M2]. split; try done.
  - by etrans.
  - intros ρ. rewrite S2, S1. tauto.
  - intros i. destruct (L1 i), (L2 i). split; congruence.
  - congruence.
Qed.

Lemma grown_weaken p paths p' paths' Q Q' :
  (forall ρ, Q ρ <-> Q' ρ) -> grown p paths p' paths' Q -> grown p paths p' paths' Q'.
Proof. intros H [T P S L M]. split; try done. intros ρ. by rewrite S, H. Qed.

Lemma insert_byte_spec p paths i π v :
  trie_ok p paths -> paths !! i = Some π ->
  let '(p', i') := insert_byte (p, i) v in
  exists paths', grown p paths p' paths' (fun ρ => ρ = π ++ [v]) /\
                 paths' !! i' = Some (π ++ [v]).
Proof.
  intros T Hi. cbn. destruct (transition p i v =? 0)%nat eqn:E.
  - apply Nat.eqb_eq in E. pose proof (transition_none _ _ _ _ _ T Hi E) as Hn.
    exists (paths ++ [π ++ [v]]). split; [split|].
    + by apply add_edge_ok.
    + by eexists.
    + intros ρ. by rewrite elem_of_app, list_elem_of_singleton.
    + intros j. rewrite (add_edge_node _ _ _ _ _ T Hi). case_decide; subst; done.
    + done.
    + rewrite <-(tr_length p paths T), lookup_app_r, Nat.sub_diag by lia. done.
  - apply Nat.eqb_neq in E. pose proof (transition_path _ _ _ _ _ T Hi E) as Hp.
    exists paths. split; [|done]. apply grown_refl; [done|]. intros ρ ->.
    by eapply list_elem_of_lookup_2.
Qed.

Lemma insert_bytes_spec s : forall p paths i π,
  trie_ok p paths -> paths !! i = Some π ->
  let '(p', i') := foldl insert_byte (p, i) s in
  exists paths', grown p paths p' paths' (fun ρ => exists s1, s1 `prefix_of` s /\ ρ = π ++ s1) /\
                 paths' !! i' = Some (π ++ s).
Proof.
  induction s as [|v s IH]; intros p paths i π T Hi.
  - cbn. exists paths. rewrite app_nil_r. split; [|done]. apply grown_refl; [done|].
    intros ρ (s1 & H & ->). apply prefix_nil_inv in H as ->. rewrite app_nil_r.
    by eapply list_elem_of_lookup_2.
  - cbn [foldl]. pose proof (insert_byte_spec p paths i π v T Hi) as H.
    destruct (insert_byte (p, i) v) as [p1 i1]. destruct H as (paths1 & G1 & H1).
    specialize (IH p1 paths1 i1 (π ++ [v]) (gr_ok _ _ _ _ _ G1) H1).
    destruct (foldl insert_byte (p1, i1) s) as [p2 i2]. destruct IH as (paths2 & G2 & H2).
    exists paths2. rewrite <-(assoc_L (++)) in H2. split; [|done].
    destruct (grown_trans _ _ _ _ _ _ _ _ G1 G2) as [T' P' S' L' M'].
    split; try done. intros ρ. rewrite S'. split.
    + intros [H|[->|(s1 & Hs & ->)]]; [by left|right..].
      * exists [v]. split; [|done]. by exists s.
      * exists (v :: s1). split; [by apply prefix_cons|]. by rewrite <-(assoc_L (++)).
    + intros [H|(s1 & Hs & ->)]; [by left|]. destruct s1 as [|w s1].
      * left. rewrite app_nil_r. by eapply list_elem_of_lookup_2.
      * apply prefix_cons_inv_1 in Hs as Hw. apply prefix_cons_inv_2 in Hs. subst w.
        right. right. exists s1. split; [done|]. by rewrite <-(assoc_L (++)).
Qed.

(** Changing what a node records, not its edges, leaves the trie as it is. *)
Definition same_edges (p p' : secretPatterns) : Prop :=
  edges p' = edges p /\ length (nodes p') = length (nodes p) /\
  forall i, edge (node p' i) = edge (node p i).

Lemma same_edges_list p p' i : same_edges p p' -> edge_list p' i = edge_list p i.
Proof. intros (E & _ & N). unfold edge_list. by rewrite E, N. Qed.

Lemma same_edges_ok p p' paths : same_edges p p' -> trie_ok p paths -> trie_ok p' paths.
Proof.
  intros S T. pose proof S as (E & L & N). split; try apply T.
  - by rewrite L, (tr_length p).
  - rewrite E. apply (tr_links p paths T).
  - intros i. rewrite N, E. apply (tr_heads p paths T).
  - intros i π v t. rewrite (same_edges_list _ _ _ S). apply (tr_children p paths T).
  - intros i. rewrite (same_edges_list _ _ _ S). apply (tr_distinct p paths T).
Qed.

Lemma alter_node p f t i :
  (t < length (nodes p))%nat ->
  node (with_nodes p (alter f t (nodes p))) i = if decide (i = t) then f (node p t) else node p i.
Proof.
  intros Ht. unfold node. cbn [nodes with_nodes]. case_decide as E; [subst i|].
  - rewrite list_lookup_alter_eq. apply lookup_lt_is_Some in Ht as [n ->]. done.
  - by rewrite list_lookup_alter_ne.
Qed.

Lemma alter_same_edges p f t :
  (t < length (nodes p))%nat -> (forall n, edge (f n) = edge n) ->
  same_edges p (with_nodes p (alter f t (nodes p))).
Proof.
  intros Ht Hf. split_and!; [done|cbn; by rewrite length_alter|]. intros i.
  rewrite alter_node by done. case_decide; subst; auto.
Qed.

(** The trie of the keys inserted so far. *)
Record trie_of (keys : list bytes) (p : secretPatterns) (paths : list bytes) : Prop := {
  to_ok : trie_ok p paths;
  to_paths : forall ρ, ρ ∈ paths <-> ρ = [] \/ exists k, k ∈ keys /\ ρ `prefix_of` k;
  to_failure : forall i, failure (node p i) = 0%nat;
  to_longest : forall i π, paths !! i = Some π ->
    longest (node p i) = if decide (π ∈ keys) then length π else 0%nat
}.

Lemma node_beyond p paths i : trie_ok p paths -> paths !! i = None -> node p i = empty_node.
Proof.
  intros T H. unfold node. apply lookup_ge_None_1 in H. rewrite (tr_length p) in H by done.
  by rewrite lookup_ge_None_2.
Qed.

Lemma insert_key_spec keys p paths k :
  trie_of keys p paths ->
  exists paths', trie_of (keys ++ [k]) (insert_key p k) paths' /\
                 maximum (insert_key p k) = maximum p.
Proof.
  intros [T S F L]. unfold insert_key.
  pose proof (insert_bytes_spec k p paths 0 [] T (tr_root p paths T)) as H.
  destruct (foldl insert_byte (p, 0%nat) k) as [p1 i1]. destruct H as (paths1 & G & H1).
  cbn [app] in H1. pose proof (gr_ok _ _ _ _ _ G) as T1.
  assert (Ht : (i1 < length (nodes p1))%nat) by (eapply path_lt; eauto).
  exists paths1. split; [|by apply G]. unfold set_longest. split.
  - eapply same_edges_ok; [|done]. by apply alter_same_edges.
  - intros ρ. rewrite (gr_paths _ _ _ _ _ G), S. setoid_rewrite elem_of_app.
    setoid_rewrite list_elem_of_singleton. naive_solver.
  - intros i. rewrite alter_node by done. destruct (gr_payload _ _ _ _ _ G i) as [Ef _].
    case_decide; subst; cbn; by rewrite Ef, F.
  - intros i π Hi. rewrite alter_node by done. case_decide as E; [subst i; cbn|].
    + assert (π = k) as -> by congruence. rewrite decide_True; [done|set_solver].
    + destruct (gr_payload _ _ _ _ _ G i) as [_ ->].
      assert (Hk : π <> k) by (intros ->; apply E; eapply path_unique; eauto).
      destruct (paths !! i) as [ρ|] eqn:Ho.
      * pose proof (grown_lookup _ _ _ _ _ _ _ G Ho) as Ho'.
        assert (ρ = π) as -> by congruence. rewrite (L _ _ Ho).
        apply decide_ext. set_solver.
      * rewrite (node_beyond _ _ _ T Ho). cbn. rewrite decide_False; [done|].
        intros [Hin|Hin]%elem_of_app; [|set_solver].
        assert (π ∈ paths) as [j Hj]%list_elem_of_lookup by (apply S; eauto).
        pose proof (grown_lookup _ _ _ _ _ _ _ G Hj) as Hj'.
        assert (i = j) as -> by (eapply path_unique; eauto). congruence.
Qed.

Lemma insert_keys_spec rest : forall keys p paths,
  trie_of keys p paths ->
  exists paths', trie_of (keys ++ rest) (foldl insert_key p rest) paths' /\
                 maximum (foldl insert_key p rest) = maximum p.
Proof.
  induction rest as [|k rest IH]; intros keys p paths H; cbn [foldl].
  - exists paths. by rewrite app_nil_r.
  - destruct (insert_key_spec keys p paths k H) as (paths1 & H1 & <-).
    destruct (IH _ _ _ H1) as (paths2 & H2 & HM). exists paths2.
    by rewrite <-(assoc_L (++)) in H2.
Qed.

Definition longest_key (keys : list bytes) : nat :=
  foldr (fun k m => Nat.max (length k) m) 0%nat keys.

Lemma trie_spec keys :
  exists paths, trie_of keys (trie keys) paths /\ maximum (trie keys) = longest_key keys.
Proof.
  unfold trie. match goal with |- context [foldl insert_key ?p0 _] => set (p := p0) end.
  apply (insert_keys_spec keys [] p [[]]). split.
  - apply empty_trie_ok.
  - intros ρ. rewrite list_elem_of_singleton. set_solver.
  - intros [|[|i]]; done.
  - intros [|[|i]] π H; done.
Qed.

Lemma longest_key_bound keys k : k ∈ keys -> (length k <= longest_key keys)%nat.
Proof. unfold longest_key. induction 1; cbn; lia. Qed.

Lemma path_bound keys p paths π :
  trie_of keys p paths -> π ∈ paths -> (length π <= longest_key keys)%nat.
Proof.
  intros H Hπ. apply (to_paths _ _ _ H) in Hπ as [->|(k & Hk & Hp)]; [cbn; lia|].
  apply prefix_length in Hp. apply longest_key_bound in Hk. lia.
Qed.

(** * Failure links *)

(** The failure link of node [i], reached by [π], leads to the longest proper
    suffix of [π] that is in the trie. *)
Definition failure_ok (p : secretPatterns) (paths : list bytes) (i : nat) (π : bytes) : Prop :=
  exists φ, paths !! failure (node p i) = Some φ /\ best (fun ρ => ρ ∈ paths) (tail π) φ.

(** [n] is the length of the longest key that ends [π], zero when there is none. *)
Definition longest_ok (keys : list bytes) (π : bytes) (n : nat) : Prop :=
  (forall k, k ∈ keys -> k `suffix_of` π -> (length k <= n)%nat) /\
  (n = 0%nat \/ exists k, k ∈ keys /\ k `suffix_of` π /\ length k = n).

Lemma tail_suffix (π : bytes) : tail π `suffix_of` π.
Proof. destruct π as [|x π]; [done|]. by exists [x]. Qed.

Lemma suffix_proper (a π : bytes) : a `suffix_of` π -> a <> π -> a `suffix_of` tail π.
Proof.
  intros [k ->] Hne. destruct k as [|x k]; [done|]. cbn. by exists k.
Qed.

Lemma best_extend p paths i ρ s v :
  trie_ok p paths -> paths !! i = Some ρ -> ρ `suffix_of` s ->
  (forall r, r `suffix_of` s -> r ++ [v] ∈ paths -> (length r <= length ρ)%nat) ->
  i = 0%nat \/ transition p i v <> 0%nat ->
  exists φ, paths !! transition p i v = Some φ /\ best (fun r => r ∈ paths) (s ++ [v]) φ.
Proof.
  intros T Hi Hs Hmax Hstop. destruct (decide (transition p i v = 0%nat)) as [E|E].
  - destruct Hstop as [-> |]; [|done].
    rewrite (tr_root p paths T) in Hi. injection Hi as <-.
    exists []. rewrite E. split; [apply (tr_root p paths T)|]. split_and!.
    + apply suffix_nil.
    + eapply list_elem_of_lookup_2, (tr_root p paths T).
    + intros r [->|(r' & -> & Hr')]%suffix_snoc_inv Hin; [done|].
      specialize (Hmax r' Hr' Hin). destruct r'; [|cbn in Hmax; lia].
      eapply transition_none in E; [|done|apply (tr_root p paths T)]. done.
  - pose proof (transition_path _ _ _ _ _ T Hi E) as Hp.
    exists (ρ ++ [v]). split; [done|]. split_and!.
    + by apply suffix_snoc.
    + by eapply list_elem_of_lookup_2.
    + intros r [->|(r' & -> & Hr')]%suffix_snoc_inv Hin; [cbn; lia|].
      rewrite !length_app. specialize (Hmax r' Hr' Hin). lia.
Qed.

Lemma fall_spec p paths s v fuel : forall i ρ,
  trie_ok p paths -> paths !! i = Some ρ -> (length ρ <= fuel)%nat -> ρ `suffix_of` s ->
  (forall j π, paths !! j = Some π -> π <> [] -> (length π <= length ρ)%nat ->
     failure_ok p paths j π) ->
  (forall r, r `suffix_of` s -> r ++ [v] ∈ paths -> (length r <= length ρ)%nat) ->
  exists φ, paths !! transition p (fall p fuel i v) v = Some φ /\
            best (fun r => r ∈ paths) (s ++ [v]) φ.
Proof.
  induction fuel as [|fuel IH]; intros i ρ T Hi Hf Hs Hg Hmax; cbn [fall].
  - assert (ρ = []) as -> by (destruct ρ; [done|cbn in Hf; lia]).
    eapply best_extend; eauto. left. by eapply path_root.
  - destruct (decide (i = 0%nat)) as [->|Hi0].
    { cbn. eapply best_extend; eauto. }
    destruct (decide (transition p i v = 0%nat)) as [E|E].
    + rewrite (proj2 (Nat.eqb_neq _ _) Hi0), (proj2 (Nat.eqb_eq _ _) E). cbn [negb andb].
      assert (Hρ : ρ <> []) by (intros ->; apply Hi0; by eapply path_root).
      destruct (Hg i ρ Hi Hρ ltac:(lia)) as (φ & Hφ & Hsuf & Hin & Hbest).
      assert (Hlt : (length φ < length ρ)%nat).
      { apply suffix_length in Hsuf. destruct ρ; [done|]. cbn in *. lia. }
      apply (IH _ φ); try done.
      * lia.
      * etrans; [done|]. etrans; [apply tail_suffix|done].
      * intros j π Hj Hπ Hl. apply Hg; try done. lia.
      * intros r Hr Hrv. apply Hbest.
        -- apply suffix_proper.
           ++ eapply (suffix_comparable _ _ s); auto.
           ++ intros Hr0. rewrite Hr0 in Hrv. by apply (transition_none p paths i ρ v T Hi E).
        -- by eapply (tr_prefix p paths T).
    + rewrite (proj2 (Nat.eqb_neq _ _) E), andb_false_r. eapply best_extend; eauto.
Qed.

(** One step of the automaton, from the longest suffix of [s] in the trie to the
    longest suffix of [s ++ [v]]. *)
Lemma goto_spec p paths s v i ρ :
  trie_ok p paths -> paths !! i = Some ρ -> best (fun r => r ∈ paths) s ρ ->
  (length ρ <= maximum p)%nat ->
  (forall j π, paths !! j = Some π -> π <> [] -> (length π <= length ρ)%nat ->
     failure_ok p paths j π) ->
  exists φ, paths !! goto p i v = Some φ /\ best (fun r => r ∈ paths) (s ++ [v]) φ.
Proof.
  intros T Hi (Hs & Hin & Hbest) Hm Hg. unfold goto. eapply fall_spec; eauto.
  intros r Hr Hrv. apply Hbest; [done|]. by eapply (tr_prefix p paths T).
Qed.

(** ** The breadth-first pass *)

Section linking.
Context (keys : list bytes) (p0 : secretPatterns) (paths : list bytes).
Context (T0 : trie_of keys p0 paths) (Hmax : maximum p0 = longest_key keys).
Context (Hkeys : [] ∉ keys).

(** The state of the pass: [seen i v] holds of the edges followed so far, whose
    targets are the queue, in order of depth and no deeper than [depth]. *)
Record linking (seen : nat -> Z -> Prop) (p : secretPatterns) (queue : list nat)
    (depth : nat) : Prop := {
  li_edges : same_edges p0 p;
  li_maximum : maximum p = maximum p0;
  li_queue : forall t, t ∈ queue <->
    exists i π v, paths !! i = Some π /\ seen i v /\ paths !! t = Some (π ++ [v]);
  li_nodup : NoDup queue;
  li_done : forall t π, t ∈ queue -> paths !! t = Some π ->
    failure_ok p paths t π /\ longest_ok keys π (longest (node p t));
  li_fresh : forall t, t ∉ queue -> node p t = node p0 t;
  li_sorted : forall a b i j π ρ, (a <= b)%nat -> queue !! a = Some i -> queue !! b = Some j ->
    paths !! i = Some π -> paths !! j = Some ρ -> (length π <= length ρ)%nat;
  li_depth : forall t π, t ∈ queue -> paths !! t = Some π -> (length π <= depth)%nat
}.

Lemma linking_ok seen p queue depth : linking seen p queue depth -> trie_ok p paths.
Proof. intros L. eapply same_edges_ok; [apply L|]. apply T0. Qed.

Lemma seen_ext seen seen' p queue depth :
  (forall i π v, paths !! i = Some π -> π ++ [v] ∈ paths -> seen i v <-> seen' i v) ->
  linking seen p queue depth -> linking seen' p queue depth.
Proof.
  intros H L. split; try apply L. intros t. rewrite (li_queue _ _ _ _ L). split;
    intros (i & π & v & Hi & Hv & Ht); exists i, π, v; split_and!; try done;
    (eapply H; [done| |done]); by eapply list_elem_of_lookup_2.
Qed.

Lemma queue_path seen p queue depth t :
  linking seen p queue depth -> t ∈ queue -> exists π, paths !! t = Some π /\ π <> [].
Proof.
  intros L Ht. apply (li_queue _ _ _ _ L) in Ht as (i & π & v & _ & _ & Ht).
  eexists. split; [done|]. by destruct π.
Qed.

Lemma longest_ok_child p π v φ f t :
  paths !! t = Some (π ++ [v]) -> best (fun ρ => ρ ∈ paths) (tail (π ++ [v])) φ ->
  longest_ok keys φ (longest (node p f)) ->
  longest_ok keys (π ++ [v]) (Nat.max (longest (node p0 t)) (longest (node p f))).
Proof.
  intros Ht (Hs & Hin & Hbest) [U W]. rewrite (to_longest _ _ _ T0 _ _ Ht). split.
  - intros k Hk Hsuf. case_decide as E.
    + apply suffix_length in Hsuf. lia.
    + assert (Hks : k `suffix_of` tail (π ++ [v])).
      { apply suffix_proper; [done|]. by intros ->. }
      assert (k ∈ paths) by (apply (to_paths _ _ _ T0); eauto).
      assert (k `suffix_of` φ) by (eapply suffix_comparable; eauto).
      specialize (U k Hk ltac:(done)). lia.
  - case_decide as E.
    + assert (length φ <= length (π ++ [v]))%nat.
      { apply suffix_length in Hs. pose proof (suffix_length _ _ (tail_suffix (π ++ [v]))). lia. }
      right. exists (π ++ [v]). split_and!; try done.
      rewrite Nat.max_l; [done|]. destruct W as [-> | (k & _ & Hk & <-)]; [lia|].
      apply suffix_length in Hk. lia.
    + cbn. destruct W as [-> | (k & Hk & Hks & Hl)]; [by left|right].
      exists k. split_and!; try done. etrans; [done|]. etrans; [done|apply tail_suffix].
Qed.

Lemma longest_ok_root : longest_ok keys [] (longest (node p0 0)).
Proof.
  rewrite (to_longest _ _ _ T0 0 []) by apply (tr_root p0 paths), T0.
  rewrite decide_False by done. split; [|by left].
  intros k Hk H. apply suffix_nil_inv in H as ->. done.
Qed.

Lemma queue_longest_ok seen p queue depth i π :
  linking seen p queue depth -> paths !! i = Some π -> i ∈ queue \/ i = 0%nat ->
  longest_ok keys π (longest (node p i)).
Proof.
  intros L Hi [Hq| ->]; [by apply (li_done _ _ _ _ L)|].
  assert (0%nat ∉ queue) as Hn.
  { intros Hq. destruct (queue_path _ _ _ _ _ L Hq) as (ρ & Hρ & Hne).
    rewrite (tr_root p0 paths) in Hρ by apply T0. congruence. }
  rewrite (li_fresh _ _ _ _ L _ Hn). rewrite (tr_root p0 paths) in Hi by apply T0.
  injection Hi as <-. apply longest_ok_root.
Qed.

(** Recording a correct failure link for a node not reached before. *)
Lemma linking_extend seen p queue state π v t f φ :
  linking seen p queue (S (length π)) ->
  paths !! state = Some π -> paths !! t = Some (π ++ [v]) -> t ∉ queue -> (length φ <= length π)%nat ->
  paths !! f = Some φ -> best (fun ρ => ρ ∈ paths) (tail (π ++ [v])) φ ->
  longest_ok keys φ (longest (node p f)) ->
  linking (fun i w => seen i w \/ (i = state /\ w = v)) (set_failure p t f) (queue ++ [t])
    (S (length π)).
Proof.
  intros L Hst Ht Htn Hlφ Hf Hbest Hlong.
  pose proof (linking_ok _ _ _ _ L) as T. pose proof (to_ok _ _ _ T0) as T00.
  assert (Hlt : (t < length (nodes p))%nat) by (eapply path_lt; eauto).
  assert (Hnode : forall j, node (set_failure p t f) j =
    if decide (j = t) then {| edge := edge (node p t); failure := f;
        longest := Nat.max (longest (node p t)) (longest (node p f)) |} else node p j).
  { intros j. unfold set_failure. by rewrite alter_node. }
  assert (Hdeep : forall j ρ, j ∈ queue ++ [t] -> paths !! j = Some ρ -> (length ρ <= S (length π))%nat).
  { intros j ρ [Hj|Hj%list_elem_of_singleton]%elem_of_app Hρ; [by eapply (li_depth _ _ _ _ L)|].
    subst j. rewrite Ht in Hρ. injection Hρ as <-. rewrite length_app. cbn. lia. }
  split.
  - destruct (li_edges _ _ _ _ L) as (E1 & E2 & E3). split_and!; [done| |].
    + cbn. by rewrite length_alter.
    + intros j. rewrite Hnode, <-E3. case_decide; subst; done.
  - apply (li_maximum _ _ _ _ L).
  - intros j. rewrite elem_of_app, list_elem_of_singleton, (li_queue _ _ _ _ L). split.
    + intros [(i & σ & w & Hi & Hw & Hj)| ->]; [by exists i, σ, w; auto|].
      exists state, π, v. auto.
    + intros (i & σ & w & Hi & [Hw|[-> ->]] & Hj); [left; by exists i, σ, w|right].
      assert (σ = π) as -> by congruence. eapply path_unique; eauto.
  - apply NoDup_app. split_and!; [apply (li_nodup _ _ _ _ L)| |apply NoDup_singleton].
    intros x Hx ->%list_elem_of_singleton. done.
  - intros j ρ Hj Hρ. unfold failure_ok. rewrite Hnode.
    destruct (decide (j = t)) as [->|Hne]; cbn [failure longest].
    + assert (ρ = π ++ [v]) as -> by congruence. split; [by exists φ|].
      rewrite (li_fresh _ _ _ _ L t Htn). by eapply longest_ok_child.
    + apply (li_done _ _ _ _ L); [|done].
      apply elem_of_app in Hj as [Hj|Hj%list_elem_of_singleton]; done.
  - intros j Hj. rewrite Hnode. rewrite elem_of_app, list_elem_of_singleton in Hj.
    rewrite decide_False by tauto. apply (li_fresh _ _ _ _ L). tauto.
  - intros a b i j ρ σ Hab Ha Hb Hi Hj. apply lookup_app_Some in Hb as [Hb|[Hlen Hb]].
    + rewrite lookup_app_l in Ha by (apply lookup_lt_Some in Hb; lia).
      eapply (li_sorted _ _ _ _ L a b); eauto.
    + apply list_lookup_singleton_Some in Hb as [_ <-].
      assert (σ = π ++ [v]) as -> by congruence. rewrite length_app, Nat.add_1_r.
      eapply Hdeep; [|done]. by eapply list_elem_of_lookup_2.
  - apply Hdeep.
Qed.

(** Following the edge [d] of [state]. *)
Lemma link_edge_ok seen p queue state π d :
  linking seen p queue (S (length π)) ->
  paths !! state = Some π -> π <> [] -> state ∈ queue ->
  d ∈ edge_list p0 state -> ~ seen state (value d) ->
  (forall j ρ, paths !! j = Some ρ -> ρ <> [] -> (length ρ <= length π)%nat -> j ∈ queue) ->
  let '(p', queue') := link_edge state (p, queue) d in
  linking (fun i v => seen i v \/ (i = state /\ v = value d)) p' queue' (S (length π)).
Proof.
  intros L Hst Hπ Hsq Hd Hns Hcover. destruct d as [v t nx]. cbn [link_edge value target] in *.
  pose proof (linking_ok _ _ _ _ L) as T.
  assert (Ht : paths !! t = Some (π ++ [v])).
  { eapply (tr_children p0 paths (to_ok _ _ _ T0)); eauto. }
  destruct (li_done _ _ _ _ L state π Hsq Hst) as [(ρ & Hρ & Hbest) _].
  assert (Hlρ : (length ρ < length π)%nat).
  { destruct Hbest as [Hs _]. apply suffix_length in Hs. destruct π; [done|]. cbn in *. lia. }
  destruct (goto_spec p paths (tail π) v _ ρ T Hρ Hbest) as (φ & Hφ & Hbφ).
  { rewrite (li_maximum _ _ _ _ L), Hmax. eapply path_bound; [done|].
    by eapply list_elem_of_lookup_2. }
  { intros j σ Hj Hσ Hl. apply (li_done _ _ _ _ L); [|done]. apply (Hcover j σ); auto. lia. }
  assert (Etail : tail π ++ [v] = tail (π ++ [v])) by (by destruct π). rewrite Etail in Hbφ.
  assert (Hlφ : (length φ <= length π)%nat).
  { destruct Hbφ as [Hs _]. rewrite <-Etail in Hs. apply suffix_length in Hs.
    rewrite length_app in Hs. destruct π; [done|]. cbn in *. lia. }
  eapply linking_extend; eauto.
  - intros Hq. apply (li_queue _ _ _ _ L) in Hq as (i & σ & w & Hi & Hw & Htw).
    rewrite Ht in Htw. injection Htw as Htw. apply app_inj_tail in Htw as [<- <-].
    assert (i = state) as -> by (eapply path_unique; eauto). done.
  - eapply queue_longest_ok; eauto. destruct (decide (φ = [])) as [->|Hne].
    + right. by eapply path_root.
    + left. eapply Hcover; eauto.
Qed.

(** Following all the edges of [state]. *)
Lemma link_edges_ok state π ds : forall seen p queue,
  linking seen p queue (S (length π)) ->
  paths !! state = Some π -> π <> [] -> state ∈ queue ->
  (forall d, d ∈ ds -> d ∈ edge_list p0 state /\ ~ seen state (value d)) ->
  NoDup (map value ds) ->
  (forall j ρ, paths !! j = Some ρ -> ρ <> [] -> (length ρ <= length π)%nat -> j ∈ queue) ->
  let '(p', queue') := foldl (link_edge state) (p, queue) ds in
  linking (fun i v => seen i v \/ (i = state /\ v ∈ map value ds)) p' queue' (S (length π)) /\
  queue `prefix_of` queue'.
Proof.
  induction ds as [|d ds IH]; intros seen p queue L Hst Hπ Hsq Hds Hnd Hcover; cbn [foldl map].
  - split; [|done]. eapply seen_ext; [|done]. intros. set_solver.
  - cbn [map] in Hnd. apply NoDup_cons in Hnd as [Hnew Hnd].
    destruct (Hds d ltac:(set_solver)) as [Hd Hns].
    pose proof (link_edge_ok seen p queue state π d L Hst Hπ Hsq Hd Hns Hcover) as L1.
    destruct (link_edge state (p, queue) d) as [p1 queue1] eqn:E.
    assert (Hq : queue1 = queue ++ [target d]) by (by injection E as _ <-).
    clear E. subst queue1. specialize (IH _ p1 _ L1 Hst Hπ).
    specialize (IH ltac:(apply elem_of_app; by left)).
    destruct (foldl (link_edge state) (p1, queue ++ [target d]) ds) as [p2 queue2].
    destruct IH as [L2 P2].
    + intros d' Hd'. destruct (Hds d' ltac:(set_solver)) as [H1 H2]. split; [done|].
      intros [H|[_ H]]; [done|]. apply Hnew. rewrite <-H. by apply list_elem_of_fmap_2.
    + done.
    + intros j ρ Hj Hρ Hl. apply elem_of_app. left. eauto.
    + split; [|etrans; [|done]; by eexists].
      eapply seen_ext; [|done]. intros i σ v _ _. cbn. rewrite elem_of_cons. tauto.
Qed.

Definition seen_at (head : nat) (queue : list nat) (i : nat) (v : Z) : Prop :=
  i = 0%nat \/ i ∈ take head queue.

(** Every node no deeper than the one at [head] is in the queue. *)
Lemma cover_queue head p queue depth state π :
  linking (seen_at head queue) p queue depth ->
  queue !! head = Some state -> paths !! state = Some π ->
  forall ρ j, paths !! j = Some ρ -> ρ <> [] -> (length ρ <= length π)%nat -> j ∈ queue.
Proof.
  intros L Hh Hst ρ. induction ρ as [|w ρ IH] using rev_ind; [done|]. intros j Hj _ Hl.
  rewrite length_app in Hl. cbn in Hl.
  assert (ρ ∈ paths) as [i Hi]%list_elem_of_lookup.
  { eapply (tr_prefix p0 paths), list_elem_of_lookup_2; eauto. apply T0. }
  apply (li_queue _ _ _ _ L). exists i, ρ, w. split_and!; try done.
  destruct (decide (ρ = [])) as [->|Hne].
  { left. eapply path_root; eauto. apply T0. }
  right. specialize (IH i Hi Hne ltac:(lia)). apply list_elem_of_lookup in IH as [a Ha].
  destruct (decide (a < head)%nat) as [Hah|Hah].
  - apply list_elem_of_lookup. exists a. by rewrite lookup_take_lt.
  - pose proof (li_sorted _ _ _ _ L head a _ _ _ _ ltac:(lia) Hh Ha Hst Hi). lia.
Qed.

(** What the pass establishes at every node. *)
Record linked (p : secretPatterns) : Prop := {
  lk_ok : trie_ok p paths;
  lk_maximum : maximum p = longest_key keys;
  lk_failure : forall i π, paths !! i = Some π -> π <> [] -> failure_ok p paths i π;
  lk_longest : forall i π, paths !! i = Some π -> longest_ok keys π (longest (node p i))
}.

Lemma all_queued head p queue depth :
  linking (seen_at head queue) p queue depth -> (length queue <= head)%nat ->
  forall ρ j, paths !! j = Some ρ -> ρ <> [] -> j ∈ queue.
Proof.
  intros L Hh ρ. induction ρ as [|w ρ IH] using rev_ind; [done|]. intros j Hj _.
  assert (ρ ∈ paths) as [i Hi]%list_elem_of_lookup.
  { eapply (tr_prefix p0 paths), list_elem_of_lookup_2; eauto. apply T0. }
  apply (li_queue _ _ _ _ L). exists i, ρ, w. split_and!; try done.
  destruct (decide (ρ = [])) as [->|Hne].
  - left. eapply path_root; eauto. apply T0.
  - right. rewrite take_ge by lia. eauto.
Qed.

Lemma linking_done head p queue depth :
  linking (seen_at head queue) p queue depth -> (length queue <= head)%nat -> linked p.
Proof.
  intros L Hh. pose proof (all_queued _ _ _ _ L Hh) as Hall. split.
  - by eapply linking_ok.
  - rewrite (li_maximum _ _ _ _ L). done.
  - intros i π Hi Hπ. apply (li_done _ _ _ _ L); eauto.
  - intros i π Hi. eapply queue_longest_ok; eauto.
    destruct (decide (π = [])) as [->|Hne]; [right; eapply path_root; eauto; apply T0|left; eauto].
Qed.

Lemma queue_length seen p queue depth :
  linking seen p queue depth -> (length queue <= length (nodes p0))%nat.
Proof.
  intros L. rewrite <-(length_seq (length (nodes p0)) 0).
  apply submseteq_length, NoDup_submseteq; [apply (li_nodup _ _ _ _ L)|].
  intros t Ht. destruct (queue_path _ _ _ _ _ L Ht) as (π & Hπ & _).
  apply elem_of_seq. split; [lia|]. eapply path_lt in Hπ; [done|]. apply T0.
Qed.

Lemma linking_weaken seen p queue d d' :
  (d <= d')%nat -> linking seen p queue d -> linking seen p queue d'.
Proof.
  intros Hd L. split; try apply L. intros t π Ht Hπ.
  pose proof (li_depth _ _ _ _ L t π Ht Hπ). lia.
Qed.

Lemma link_loop_ok fuel : forall head p queue depth,
  linking (seen_at head queue) p queue depth ->
  (forall state π, queue !! head = Some state -> paths !! state = Some π ->
     (depth <= S (length π))%nat) ->
  (length (nodes p0) <= fuel + head)%nat ->
  linked (link_loop fuel head p queue).
Proof.
  induction fuel as [|fuel IH]; intros head p queue depth L Hdepth Hfuel; cbn [link_loop].
  { eapply linking_done; eauto. apply queue_length in L. lia. }
  destruct (queue !! head) as [state|] eqn:Hh.
  2: { eapply linking_done; eauto. by apply lookup_ge_None_1. }
  assert (Hsq : state ∈ queue) by (by eapply list_elem_of_lookup_2).
  destruct (queue_path _ _ _ _ _ L Hsq) as (π & Hst & Hπ).
  pose proof (cover_queue _ _ _ _ _ _ L Hh Hst) as Hcover.
  apply (linking_weaken _ _ _ _ (S (length π))) in L; [|by eapply Hdepth].
  rewrite (same_edges_list p0 p) by apply L.
  pose proof (link_edges_ok state π (edge_list p0 state) _ p queue L Hst Hπ Hsq) as HE.
  destruct (foldl (link_edge state) (p, queue) (edge_list p0 state)) as [p1 queue1].
  destruct HE as [L1 P1].
  - intros d Hd. split; [done|]. intros [->|Hin].
    + rewrite (tr_root p0 paths) in Hst by apply T0. congruence.
    + apply list_elem_of_lookup in Hin as [a Ha]. apply lookup_take_Some in Ha as [Ha Hlt].
      pose proof (NoDup_lookup _ _ _ _ (li_nodup _ _ _ _ L) Ha Hh). lia.
  - apply (tr_distinct p0 paths), T0.
  - intros j ρ Hj Hρ Hl. eauto.
  - apply (IH _ _ _ (S (length π))).
    + eapply seen_ext; [|done]. intros i σ v Hi Hv. unfold seen_at. destruct P1 as [k ->].
      assert (Hlt : (head < length queue)%nat) by (by eapply lookup_lt_Some).
      rewrite take_app_le by lia. rewrite (take_S_r _ _ _ Hh), elem_of_app, list_elem_of_singleton.
      split; [tauto|]. intros [H|[H| ->]]; [tauto..|right]. split; [done|].
      apply list_elem_of_lookup in Hv as [t Ht].
      apply (tr_children p0 paths (to_ok _ _ _ T0) _ _ _ _ Hi) in Ht as [nx Hin].
      apply list_elem_of_fmap. by exists {| value := v; target := t; next := nx |}.
    + intros s2 π2 Hs2 Hπ2. destruct P1 as [k ->].
      assert (Hh' : (queue ++ k) !! head = Some state) by (by apply lookup_app_l_Some).
      pose proof (li_sorted _ _ _ _ L1 head (S head) _ _ _ _ ltac:(lia) Hh' Hs2 Hst Hπ2). lia.
    + lia.
Qed.
End linking.

(** ** The compiled automaton *)

Lemma edge_targets_nodup p paths i π :
  trie_ok p paths -> paths !! i = Some π -> NoDup (map target (edge_list p i)).
Proof.
  intros T Hi. pose proof (tr_distinct p paths T i) as Hv.
  pose proof (fun v t => proj1 (tr_children p paths T i π v t Hi)) as Hc.
  induction (edge_list p i) as [|[v t nx] l IH]; cbn in *; [constructor|].
  apply NoDup_cons in Hv as [Hn Hv]. constructor.
  - intros ([w t' nx'] & E & Hin)%list_elem_of_fmap. cbn in E. subst t'. apply Hn.
    assert (H1 : paths !! t = Some (π ++ [v])) by (apply Hc; exists nx; set_solver).
    assert (H2 : paths !! t = Some (π ++ [w])) by (apply Hc; exists nx'; set_solver).
    assert (v = w) as -> by (rewrite H1 in H2; by simplify_list_eq).
    apply list_elem_of_fmap. by exists {| value := w; target := t; next := nx' |}.
  - apply IH; [done|]. intros w t' [nx' H]. apply Hc. exists nx'. set_solver.
Qed.

Lemma link_start keys p paths :
  trie_of keys p paths -> [] ∉ keys ->
  linking keys p paths (seen_at 0 (map target (edge_list p 0))) p
    (map target (edge_list p 0)) 1.
Proof.
  intros T0 Hk. pose proof (to_ok _ _ _ T0) as T. pose proof (tr_root p paths T) as Hr.
  assert (Hq : forall t, t ∈ map target (edge_list p 0) <-> exists v, paths !! t = Some [v]).
  { intros t. rewrite list_elem_of_fmap. split.
    - intros ([v t' nx] & -> & Hin). exists v. apply (tr_children p paths T 0 [] v t' Hr). eauto.
    - intros [v Hv]. apply (tr_children p paths T 0 [] v t Hr) in Hv as [nx Hin].
      by exists {| value := v; target := t; next := nx |}. }
  split; try done.
  - intros t. rewrite Hq. split.
    + intros [v Hv]. exists 0%nat, [], v. split_and!; [done|by left|done].
    + intros (i & π & v & Hi & [->|Hin] & Ht).
      * rewrite Hr in Hi. injection Hi as <-. by exists v.
      * cbn in Hin. by apply not_elem_of_nil in Hin.
  - by eapply edge_targets_nodup.
  - intros t π Ht Hπ. apply Hq in Ht as [v Hv]. assert (π = [v]) as -> by congruence. split.
    + exists []. rewrite (to_failure _ _ _ T0). split; [done|]. split_and!; [done| |].
      * by eapply list_elem_of_lookup_2.
      * intros r H _. by apply suffix_length in H.
    + rewrite (to_longest _ _ _ T0 _ _ Hv). split.
      * intros k Hin Hs. assert (k = [v]) as ->.
        { apply (suffix_snoc_inv _ []) in Hs as [->|(k' & -> & Hs)]; [done|].
          by apply suffix_nil_inv in Hs as ->. }
        by rewrite decide_True.
      * case_decide; [right; by exists [v]|by left].
  - intros a b i j π ρ _ Ha Hb Hi Hj.
    apply list_elem_of_lookup_2, Hq in Ha as [v Hv]. apply list_elem_of_lookup_2, Hq in Hb as [w Hw].
    simplify_eq. done.
  - intros t π Ht Hπ. apply Hq in Ht as [v Hv]. simplify_eq. done.
Qed.

Lemma automaton_linked keys :
  [] ∉ keys -> exists paths, linked keys paths (automaton keys) /\
    forall ρ, ρ ∈ paths <-> ρ = [] \/ exists k, k ∈ keys /\ ρ `prefix_of` k.
Proof.
  intros Hk. destruct (trie_spec keys) as (paths & T & HM). exists paths. split.
  - unfold automaton, link. eapply (link_loop_ok keys (trie keys)); try done.
    + by apply link_start.
    + intros. lia.
    + lia.
  - apply T.
Qed.

(** The state after reading a stream. *)
Definition reach (p : secretPatterns) (s : bytes) : nat := foldl (goto p) 0%nat s.

Lemma reach_best keys paths p s :
  linked keys paths p -> (forall ρ, ρ ∈ paths -> (length ρ <= longest_key keys)%nat) ->
  exists φ, paths !! reach p s = Some φ /\ best (fun r => r ∈ paths) s φ.
Proof.
  intros [T M F _] Hb. unfold reach. induction s as [|v s IH] using rev_ind.
  - exists []. split; [apply (tr_root p paths T)|]. split_and!; [done| |].
    + eapply list_elem_of_lookup_2, (tr_root p paths T).
    + intros r H _. apply suffix_length in H. done.
  - rewrite foldl_snoc. destruct IH as (ρ & Hρ & Hbest).
    eapply goto_spec; eauto. rewrite M. apply Hb. by eapply list_elem_of_lookup_2.
Qed.

Lemma automaton_match keys s :
  [] ∉ keys ->
  longest_ok keys s (longest (node (automaton keys) (reach (automaton keys) s))).
Proof.
  intros Hk. destruct (automaton_linked keys Hk) as (paths & L & HP).
  assert (Hb : forall ρ, ρ ∈ paths -> (length ρ <= longest_key keys)%nat).
  { intros ρ [->|(k & Hin & Hp)]%HP; [cbn; lia|].
    apply prefix_length in Hp. apply longest_key_bound in Hin. lia. }
  destruct (reach_best keys paths _ s L Hb) as (φ & Hφ & Hs & Hin & Hbest).
  destruct (lk_longest _ _ _ L _ _ Hφ) as [U W]. split.
  - intros k Hk' Hks. apply U; [done|]. eapply suffix_comparable; eauto.
    apply Hbest; [done|]. apply HP. eauto.
  - destruct W as [W|(k & Hk' & Hks & Hl)]; [by left|right]. exists k. split_and!; try done. by etrans.
Qed.

Lemma automaton_maximum keys : [] ∉ keys -> maximum (automaton keys) = longest_key keys.
Proof. intros Hk. destruct (automaton_linked keys Hk) as (paths & L & _). apply L. Qed.

(** * The patterns of a set of secrets *)

Lemma add_variants_spec vs : forall (set : gset bytes) k,
  k ∈ foldl (fun set variant => if decide (variant = []) then set else {[variant]} ∪ set) set vs
  <-> k ∈ set \/ (k ∈ vs /\ k <> []).
Proof.
  induction vs as [|v vs IH]; intros set k; cbn [foldl]; [set_solver|].
  rewrite IH. case_decide as E; set_solver.
Qed.

Lemma collect_spec secrets : forall raw set,
  (forall s, s ∈ raw -> forall k, k ∈ Encodings.variants s -> k <> [] -> k ∈ set) ->
  forall k, k ∈ snd (foldl collect (raw, set) secrets) <->
    k ∈ set \/ (k <> [] /\ exists s, s ∈ secrets /\ k ∈ Encodings.variants s).
Proof.
  induction secrets as [|s secrets IH]; intros raw set Hraw k; cbn [foldl collect].
  { set_solver. }
  destruct (decide (s ∈ raw)) as [Hs|Hs].
  - rewrite IH by done. split.
    + intros [H|(H1 & s' & H2 & H3)]; [by left|right]. split; [done|]. exists s'. set_solver.
    + intros [H|(H1 & s' & H2 & H3)]; [by left|]. apply elem_of_cons in H2 as [->|H2]; [left; eauto|].
      right. eauto.
  - rewrite IH.
    + rewrite add_variants_spec. split.
      * intros [[H|[H H']]|(H1 & s' & H2 & H3)]; [by left|right..]; (split; [done|]); [exists s|exists s']; set_solver.
      * intros [H|(H1 & s' & H2 & H3)]; [tauto|]. apply elem_of_cons in H2 as [->|H2]; [tauto|].
        right. eauto.
    + intros s' Hs' k' Hk' Hne. apply add_variants_spec. apply elem_of_union in Hs' as [Hs'|Hs'].
      * apply elem_of_singleton in Hs' as ->. auto.
      * left. eauto.
Qed.

(** The keys [compileSecrets] puts into the trie. *)
Definition patterns_of (secrets : list bytes) : list bytes :=
  sort_strings (elements (pattern_set secrets)).

Lemma elem_of_patterns_of secrets k :
  k ∈ patterns_of secrets <-> k <> [] /\ exists s, s ∈ secrets /\ k ∈ Encodings.variants s.
Proof.
  unfold patterns_of, sort_strings. rewrite merge_sort_Permutation, elem_of_elements.
  unfold pattern_set. rewrite collect_spec by set_solver. set_solver.
Qed.

Lemma patterns_of_nonempty secrets : [] ∉ patterns_of secrets.
Proof. rewrite elem_of_patterns_of. tauto. Qed.

Lemma compileSecrets_automaton secrets p :
  compileSecrets secrets = Some p -> p = automaton (patterns_of secrets).
Proof. unfold compileSecrets, patterns_of. case_match; [done|]. by intros [= <-]. Qed.

(** C2: after any stream, the state of the automaton compiled from a set of
    secrets records the length of the longest encoding of a secret that ends the
    stream, and zero when none does. *)
Theorem compileSecrets_longest_match (secrets : list bytes) (p : secretPatterns) (s : bytes) :
  compileSecrets secrets = Some p ->
  let n := longest (node p (reach p s)) in
  (forall secret k, secret ∈ secrets -> k ∈ Encodings.variants secret -> k `suffix_of` s ->
     (length k <= n)%nat) /\
  (n <> 0%nat -> exists secret k, secret ∈ secrets /\ k ∈ Encodings.variants secret /\
     k `suffix_of` s /\ length k = n).
Proof.
  intros ->%compileSecrets_automaton n.
  destruct (automaton_match (patterns_of secrets) s (patterns_of_nonempty _)) as [U W]. split.
  - intros secret k Hs Hk Hsuf. destruct (decide (k = [])) as [->|Hne]; [cbn; lia|].
    apply U; [|done]. apply elem_of_patterns_of. eauto.
  - intros Hn. destruct W as [W|(k & Hk & Hsuf & Hl)]; [done|].
    apply elem_of_patterns_of in Hk as (_ & secret & Hs & Hk). exists secret, k. done.
Qed.

Lemma compileSecrets_longest_match_witness :
  exists p, compileSecrets [bs "hunter2"; bs "pw"] = Some p /\
    longest (node p (reach p (bs "x=hunter2"))) = 7%nat /\
    (forall secret k, secret ∈ [bs "hunter2"; bs "pw"] -> k ∈ Encodings.variants secret ->
       k `suffix_of` bs "x=hunter2" -> (length k <= longest (node p (reach p (bs "x=hunter2"))))%nat).
Proof.
  destruct (compileSecrets [bs "hunter2"; bs "pw"]) as [p|] eqn:E; [|vm_compute in E; discriminate].
  exists p. split; [done|]. split.
  - vm_compute in E. injection E as <-. vm_compute. reflexivity.
  - exact (proj1 (compileSecrets_longest_match [bs "hunter2"; bs "pw"] p (bs "x=hunter2") E)).
Defined.
