(* ===== verification/Redactor.v ===== *)
(** The streaming redactor of [src/internal/evidence/redaction.go]: a holdback
    buffer as long as the longest pattern, the merged intervals of matches, and
    the decision made for every byte when it leaves the buffer. *)

From S2P Require Import Prelude Patterns AutomatonCorrect.
Import Automaton.

Record matchInterval := { istart : nat; iend : nat }.

(** The two callbacks: [observe] gets every byte with the decision about it, [emit]
    gets the text with the marker in place of what is masked. *)
Inductive output :=
  | Observe (content : bytes) (masked : bool)
  | Emit (content : bytes) (redacted : bool).

(** [observing] says whether the [observe] callback is set. *)
Record secretRedactor := {
  patterns : secretPatterns;
  pending : bytes;
  intervals : list matchInterval;
  state : nat;
  read : nat;
  written : nat;
  masked : bool;
  observing : bool
}.

Definition RedactionMarker : bytes := bs "[REDACTED]".

Definition no_patterns : secretPatterns :=
  {| nodes := [empty_node]; edges := []; maximum := 0; count := 0; size := 0 |}.

(** [None] is the nil pattern set. *)
Definition newSecretRedactor (patterns : option secretPatterns) (observing : bool) : secretRedactor :=
  let p := default no_patterns patterns in
  {| patterns := p; pending := replicate (maximum p) 0; intervals := [];
     state := 0; read := 0; written := 0; masked := false; observing := observing |}.

(** [for len(r.intervals) > 0 && r.intervals[0].end <= r.written] *)
Fixpoint drop_expired (written : nat) (l : list matchInterval) : list matchInterval :=
  match l with
  | iv :: rest => if (iend iv <=? written)%nat then drop_expired written rest else l
  | [] => []
  end.

(** Pops the intervals that touch the new one; [l] is in reverse order. *)
Fixpoint merge_rev (l : list matchInterval) (iv : matchInterval) : list matchInterval :=
  match l with
  | last :: rest =>
      if (istart iv <=? iend last)%nat
      then merge_rev rest {| istart := Nat.min (istart iv) (istart last); iend := iend iv |}
      else iv :: l
  | [] => [iv]
  end.

Definition add_interval (l : list matchInterval) (iv : matchInterval) : list matchInterval :=
  rev (merge_rev (rev l) iv).

Definition emitNext (r : secretRedactor) : secretRedactor * list output :=
  let ivs := drop_expired (written r) (intervals r) in
  let hit := match ivs with iv :: _ => (istart iv <=? written r)%nat | [] => false end in
  let b := default 0 (pending r !! (written r mod length (pending r))%nat) in
  if observing r then
    ({| patterns := patterns r; pending := pending r; intervals := ivs; state := state r;
        read := read r; written := S (written r); masked := masked r; observing := true |},
     [Observe [b] hit])
  else
    ({| patterns := patterns r; pending := pending r; intervals := ivs; state := state r;
        read := read r; written := S (written r); masked := hit; observing := false |},
     if hit then (if masked r then [] else [Emit RedactionMarker true]) else [Emit [b] false]).

(** The body of the loop of [write]: the byte enters the buffer and the match that
    ends with it, if any, joins the intervals; then one byte leaves if the buffer
    is full. *)
Definition absorb (r : secretRedactor) (v : Z) : secretRedactor :=
  let st := goto (patterns r) (state r) v in
  let pos := S (read r) in
  let len := longest (node (patterns r) st) in
  {| patterns := patterns r;
     pending := <[(read r mod length (pending r))%nat := v]> (pending r);
     intervals := if (len =? 0)%nat then intervals r
                  else add_interval (intervals r) {| istart := pos - len; iend := pos |};
     state := st; read := pos; written := written r; masked := masked r;
     observing := observing r |}.

Definition write_byte (r : secretRedactor) (v : Z) : secretRedactor * list output :=
  let r1 := absorb r v in
  if (length (pending r1) <=? read r1 - written r1)%nat then emitNext r1 else (r1, []).

Definition write (r : secretRedactor) (content : bytes) : secretRedactor * list output :=
  if (length (pending r) =? 0)%nat
  then (r, [if observing r then Observe content false else Emit content false])
  else fold_step write_byte r content.

(** [for r.written < r.read { r.emitNext() }] *)
Fixpoint finish_loop (fuel : nat) (r : secretRedactor) : secretRedactor * list output :=
  match fuel with
  | O => (r, [])
  | S fuel =>
      if (written r <? read r)%nat then
        let '(r1, o1) := emitNext r in
        let '(r2, o2) := finish_loop fuel r1 in
        (r2, o1 ++ o2)
      else (r, [])
  end.

Definition finish (r : secretRedactor) : secretRedactor * list output :=
  finish_loop (read r - written r) r.

(** A whole stream. *)
Definition run (r : secretRedactor) (chunks : list bytes) : list output :=
  let '(r1, o1) := feed write r chunks in
  let '(_, o2) := finish r1 in
  o1 ++ o2.

(** * What is masked *)

(** Byte [i] of [s] lies in an occurrence of a pattern. *)
Definition covered (keys : list bytes) (s : bytes) (i : nat) : Prop :=
  exists k a, k ∈ keys /\ k `prefix_of` drop a s /\ (a <= i < a + length k)%nat.

(** The bytes and decisions a run shows, in order. *)
Definition decisions (out : list output) : list (Z * bool) :=
  concat (map (fun o => match o with
                        | Observe content m => map (fun b => (b, m)) content
                        | Emit content m => map (fun b => (b, m)) content
                        end) out).

(** An occurrence, by the place where it ends. *)
Lemma covered_end keys s i :
  covered keys s i <->
  exists n k, (n <= length s)%nat /\ k ∈ keys /\ k `suffix_of` take n s /\ (n - length k <= i < n)%nat.
Proof.
  split.
  - intros (k & a & Hk & [r Hr] & Hi). exists (a + length k)%nat, k.
    assert (Hs : (a + length k <= length s)%nat).
    { apply (f_equal length) in Hr. rewrite length_drop, length_app in Hr. lia. }
    split_and!; try done; [|lia|lia]. exists (take a s).
    rewrite <-(take_drop a s) at 1. rewrite take_app_ge; rewrite length_take, Nat.min_l by lia; [|lia].
    rewrite Hr. f_equal. replace (a + length k - a)%nat with (length k) by lia. apply take_app_length.
  - intros (n & k & Hn & Hk & [u Hu] & Hi). exists k, (length u).
    assert (Hl : (length u + length k = n)%nat).
    { apply (f_equal length) in Hu. rewrite length_take, length_app in Hu. lia. }
    split_and!; try done; [|lia|lia]. exists (drop n s).
    rewrite <-(take_drop n s) at 1. rewrite Hu, <-(assoc_L (++)). by rewrite drop_app_length.
Qed.

(** Reading one more byte adds what the longest match ending there covers. *)
Lemma covered_snoc keys s v i n :
  longest_ok keys (s ++ [v]) n -> (i <= length s)%nat ->
  covered keys (s ++ [v]) i <->
  covered keys s i \/ (n <> 0%nat /\ (length s + 1 - n <= i)%nat).
Proof.
  intros [U W] Hi. rewrite !covered_end. split.
  - intros (m & k & Hm & Hk & Hs & Hr). rewrite length_app in Hm. cbn in Hm.
    destruct (decide (m = length s + 1)%nat) as [->|Hne].
    + right. rewrite take_ge in Hs by (rewrite length_app; cbn; lia).
      specialize (U k Hk Hs). lia.
    + left. exists m, k. rewrite take_app_le in Hs by lia. split_and!; try done; lia.
  - intros [(m & k & Hm & Hk & Hs & Hr)|[Hn Hl]].
    + exists m, k. rewrite length_app, take_app_le by lia. split_and!; try done; lia.
    + destruct W as [W|(k & Hk & Hs & <-)]; [done|]. exists (length s + 1)%nat, k.
      rewrite length_app, take_ge by (rewrite length_app; cbn; lia). cbn.
      split_and!; try done; lia.
Qed.

(** A byte further back than the longest pattern is no longer affected. *)
Lemma covered_stable keys s rest i :
  (i + longest_key keys <= length s)%nat -> covered keys (s ++ rest) i <-> covered keys s i.
Proof.
  intros Hi. rewrite !covered_end. split.
  - intros (m & k & Hm & Hk & Hs & Hr). apply longest_key_bound in Hk as Hlen.
    exists m, k. rewrite take_app_le in Hs by lia. split_and!; try done; lia.
  - intros (m & k & Hm & Hk & Hs & Hr). exists m, k.
    rewrite length_app, take_app_le by lia. split_and!; try done; lia.
Qed.

(** * Intervals *)

Definition inside (i : nat) (l : list matchInterval) : Prop :=
  exists iv, iv ∈ l /\ (istart iv <= i < iend iv)%nat.

(** In order, non-empty and not touching. *)
Fixpoint ascending (l : list matchInterval) : Prop :=
  match l with
  | [] => True
  | x :: l => (istart x < iend x)%nat /\ Forall (fun y => (iend x < istart y)%nat) l /\ ascending l
  end.

Lemma inside_nil i : ~ inside i [].
Proof. intros (iv & H & _). by apply not_elem_of_nil in H. Qed.

Lemma inside_cons i iv l :
  inside i (iv :: l) <-> (istart iv <= i < iend iv)%nat \/ inside i l.
Proof. unfold inside. setoid_rewrite elem_of_cons. naive_solver. Qed.

Lemma inside_snoc i iv l :
  inside i (l ++ [iv]) <-> inside i l \/ (istart iv <= i < iend iv)%nat.
Proof. unfold inside. setoid_rewrite elem_of_app. setoid_rewrite list_elem_of_singleton. naive_solver. Qed.

Lemma ascending_snoc l y :
  ascending (l ++ [y]) <->
  ascending l /\ Forall (fun x => (iend x < istart y)%nat) l /\ (istart y < iend y)%nat.
Proof.
  induction l as [|x l IH]; cbn.
  - split; [intros (? & _); auto|intros (_ & _ & ?); auto].
  - rewrite IH, Forall_app, Forall_singleton, Forall_cons. tauto.
Qed.

Lemma add_interval_nil iv : add_interval [] iv = [iv].
Proof. done. Qed.

Lemma add_interval_snoc l last iv :
  add_interval (l ++ [last]) iv =
  if (istart iv <=? iend last)%nat
  then add_interval l {| istart := Nat.min (istart iv) (istart last); iend := iend iv |}
  else l ++ [last; iv].
Proof.
  unfold add_interval. rewrite rev_app_distr. cbn. case_match; [done|]. cbn.
  rewrite rev_involutive, <-(assoc_L (++)). done.
Qed.

Lemma add_interval_spec l : forall iv,
  ascending l -> (istart iv < iend iv)%nat -> Forall (fun x => (iend x < iend iv)%nat) l ->
  ascending (add_interval l iv) /\
  Forall (fun x => (iend x <= iend iv)%nat) (add_interval l iv) /\
  forall i, inside i (add_interval l iv) <-> inside i l \/ (istart iv <= i < iend iv)%nat.
Proof.
  induction l as [|last l IH] using rev_ind; intros iv Ha Hiv Hl.
  - rewrite add_interval_nil. cbn. split_and!; auto. intros i. rewrite inside_cons. tauto.
  - rewrite add_interval_snoc. apply ascending_snoc in Ha as (Ha & Hlast & Hne).
    apply Forall_app in Hl as [Hl Hl1]. rewrite Forall_singleton in Hl1.
    destruct (istart iv <=? iend last)%nat eqn:E.
    + apply Nat.leb_le in E.
      destruct (IH {| istart := Nat.min (istart iv) (istart last); iend := iend iv |})
        as (I1 & I2 & I3); cbn in *; [done|lia|done|].
      split_and!; [done..|]. intros i. rewrite I3, inside_snoc. split.
      * intros [H|H]; [tauto|]. destruct (decide (istart iv <= i)%nat); [right; lia|left; right; lia].
      * intros [[H|H]|H]; [tauto|right; lia|right; lia].
    + apply Nat.leb_gt in E. change [last; iv] with ([last] ++ [iv]). rewrite (assoc_L (++)).
      split_and!.
      * apply ascending_snoc. split_and!; [by apply ascending_snoc| |done].
        rewrite Forall_app, Forall_singleton. split; [|done].
        eapply Forall_impl; [exact Hlast|]. cbn. intros x Hx. lia.
      * rewrite !Forall_app, !Forall_singleton. split_and!; [|lia|lia].
        eapply Forall_impl; [exact Hl|]. cbn. lia.
      * intros i. rewrite inside_snoc. tauto.
Qed.

Lemma drop_expired_spec w l :
  ascending l ->
  ascending (drop_expired w l) /\ (forall P, Forall P l -> Forall P (drop_expired w l)) /\
  (forall i, (w <= i)%nat -> inside i (drop_expired w l) <-> inside i l) /\
  (inside w l <-> match drop_expired w l with iv :: _ => (istart iv <= w)%nat | [] => False end).
Proof.
  induction l as [|iv l IH]; intros Ha; cbn [drop_expired].
  - split_and!; auto. split; [by intros ?%inside_nil|done].
  - cbn [ascending] in Ha. destruct Ha as (Hne & Hf & Ha). destruct (IH Ha) as (I1 & I2 & I3 & I4).
    destruct (iend iv <=? w)%nat eqn:E.
    + apply Nat.leb_le in E. split_and!; [done| | |].
      * intros P. rewrite Forall_cons. intros [_ HP]. auto.
      * intros i Hi. rewrite I3, inside_cons by done. split; [tauto|]. intros [H|H]; [lia|done].
      * rewrite <-I4, inside_cons. split; [|tauto]. intros [H|H]; [lia|done].
    + apply Nat.leb_gt in E. split_and!; [done..|].
      rewrite inside_cons. split; [|intros; left; lia]. intros [H|(x & Hx & Hr)]; [lia|].
      rewrite Forall_forall in Hf. specialize (Hf x Hx). lia.
Qed.

(** * The text the redactor writes *)

Definition text (out : list output) : bytes :=
  concat (map (fun o => match o with Observe c _ => c | Emit c _ => c end) out).

(** The stream with every maximal run of masked bytes replaced by the marker;
    [m] says whether the byte before was masked. *)
Fixpoint render (m : bool) (ds : list (Z * bool)) : bytes :=
  match ds with
  | [] => []
  | (b, hit) :: rest =>
      (if hit then (if m then [] else RedactionMarker) else [b]) ++ render hit rest
  end.

Definition last_mask (m : bool) (ds : list (Z * bool)) : bool := foldl (fun _ d => snd d) m ds.

Lemma render_app m ds ds' : render m (ds ++ ds') = render m ds ++ render (last_mask m ds) ds'.
Proof.
  revert m. induction ds as [|[b h] ds IH]; intros m; cbn; [done|]. by rewrite IH, (assoc_L (++)).
Qed.

Lemma last_mask_app m ds ds' : last_mask m (ds ++ ds') = last_mask (last_mask m ds) ds'.
Proof. unfold last_mask. by rewrite foldl_app. Qed.

Lemma text_app a b : text (a ++ b) = text a ++ text b.
Proof. unfold text. by rewrite map_app, concat_app. Qed.

Lemma decisions_app a b : decisions (a ++ b) = decisions a ++ decisions b.
Proof. unfold decisions. by rewrite map_app, concat_app. Qed.

(** [produces r r' out ds]: going from [r] to [r'] hands on [out], which shows the
    decisions [ds]. *)
Record produces (r r' : secretRedactor) (out : list output) (ds : list (Z * bool)) : Prop := {
  pr_written : written r' = (written r + length ds)%nat;
  pr_observing : observing r' = observing r;
  pr_observe : observing r = true -> decisions out = ds;
  pr_emit : observing r = false ->
    text out = render (masked r) ds /\ masked r' = last_mask (masked r) ds
}.

Lemma produces_nil r : produces r r [] [].
Proof. split; cbn; auto. Qed.

Lemma produces_app r0 r1 r2 out1 out2 ds1 ds2 :
  produces r0 r1 out1 ds1 -> produces r1 r2 out2 ds2 -> produces r0 r2 (out1 ++ out2) (ds1 ++ ds2).
Proof.
  intros [W1 O1 D1 E1] [W2 O2 D2 E2]. split.
  - rewrite length_app. lia.
  - congruence.
  - intros H. rewrite decisions_app, D1, D2 by congruence. done.
  - intros H. destruct (E1 H) as [T1 M1]. destruct (E2 ltac:(congruence)) as [T2 M2].
    by rewrite text_app, render_app, last_mask_app, T1, T2, M2, M1.
Qed.

(** * The invariant of the redactor *)

Section redactor.
Context (keys : list bytes) (Hkeys : [] ∉ keys).
Let L := longest_key keys.

(** After the bytes [s], the redactor has handed on the first [written r] of them
    and holds the rest, at most [k]; the intervals cover exactly the held bytes
    that lie in a match found so far. *)
Record redacting (k : nat) (s : bytes) (r : secretRedactor) : Prop := {
  re_patterns : patterns r = automaton keys;
  re_state : state r = reach (automaton keys) s;
  re_read : read r = length s;
  re_length : length (pending r) = L;
  re_window : (written r <= read r <= written r + k)%nat /\ (k <= L)%nat;
  re_buffer : forall i, (written r <= i < read r)%nat ->
    pending r !! (i mod L)%nat = s !! i;
  re_ascending : ascending (intervals r);
  re_bound : Forall (fun x => (iend x <= read r)%nat) (intervals r);
  re_covered : forall i, (written r <= i < read r)%nat ->
    inside i (intervals r) <-> covered keys s i
}.

(** [faithful s from ds]: the decisions [ds] are those for the bytes of [s] from
    [from] on. *)
Definition faithful (s : bytes) (from : nat) (ds : list (Z * bool)) : Prop :=
  forall j b m, ds !! j = Some (b, m) ->
    s !! (from + j)%nat = Some b /\ (m = true <-> covered keys s (from + j)%nat).

Lemma mod_distinct a b :
  (a < b)%nat -> (b < a + L)%nat -> (a mod L <> b mod L)%nat.
Proof.
  intros H1 H2 E. assert (L <> 0)%nat by lia.
  pose proof (Nat.div_mod_eq a L). pose proof (Nat.div_mod_eq b L).
  assert (b - a = L * (b / L - a / L))%nat by nia.
  destruct (decide (b / L = a / L)%nat) as [E2|E2]; [rewrite E2 in *; nia|].
  assert (1 <= b / L - a / L)%nat by nia. nia.
Qed.

Lemma emitNext_ok k s r :
  redacting (S k) s r -> (written r < read r)%nat ->
  let '(r', out) := emitNext r in
  exists d, produces r r' out [d] /\ faithful s (written r) [d] /\ redacting k s r'.
Proof.
  intros [HP HS HR HL [HW Hk] HB HA HBd HC] Hlt.
  destruct (drop_expired_spec (written r) (intervals r) HA) as (D1 & D2 & D3 & D4).
  unfold emitNext. set (ivs := drop_expired (written r) (intervals r)) in *.
  set (hit := match ivs with iv :: _ => (istart iv <=? written r)%nat | [] => false end).
  set (b := default 0 (pending r !! (written r mod length (pending r))%nat)).
  assert (Hb : s !! written r = Some b).
  { unfold b. rewrite HL, HB by lia. assert (is_Some (s !! written r)) as [x ->]; [|done].
    apply lookup_lt_is_Some. lia. }
  assert (Hhit : hit = true <-> covered keys s (written r)).
  { rewrite <-HC, D4 by lia. unfold hit. destruct ivs; [done|]. apply Nat.leb_le. }
  assert (Hf : faithful s (written r) [(b, hit)]).
  { intros [|j] b' m; cbn; [|done]. rewrite Nat.add_0_r. intros [= <- <-]. done. }
  assert (Hr' : forall mk, redacting k s
    {| patterns := patterns r; pending := pending r; intervals := ivs; state := state r;
       read := read r; written := S (written r); masked := mk; observing := observing r |}).
  { intros mk. split; cbn; auto; [lia| |].
    - intros i Hi. apply HB. lia.
    - intros i Hi. rewrite D3, HC by lia. done. }
  destruct (observing r) eqn:E; exists (b, hit); (split; [|split; [done|apply Hr']]);
    split; cbn; rewrite ?E; try done; try lia.
  intros _. split; [|done]. unfold text. destruct hit, (masked r); cbn; rewrite ?app_nil_r; done.
Qed.

Lemma absorb_ok s r v :
  (0 < L)%nat -> redacting (L - 1) s r -> redacting L (s ++ [v]) (absorb r v).
Proof.
  intros HL0 [HP HS HR HL [HW Hk] HB HA HBd HC].
  pose proof (automaton_match keys (s ++ [v]) Hkeys) as Hlong.
  assert (Hst : goto (patterns r) (state r) v = reach (automaton keys) (s ++ [v])).
  { unfold reach. rewrite foldl_snoc. by rewrite HP, HS. }
  unfold absorb. rewrite HP in *. rewrite Hst, HL.
  set (n := longest (node (automaton keys) (reach (automaton keys) (s ++ [v])))) in *.
  assert (Hn : (n <= S (length s))%nat).
  { destruct Hlong as [_ [->|(k & _ & Hs & <-)]]; [lia|].
    apply suffix_length in Hs. rewrite length_app in Hs. cbn in Hs. lia. }
  pose proof (add_interval_spec (intervals r) {| istart := S (read r) - n; iend := S (read r) |} HA)
    as Hadd. cbn [istart iend] in Hadd.
  set (ivs := if (n =? 0)%nat then _ else _).
  assert (Hivs : ascending ivs /\ Forall (fun x => (iend x <= S (read r))%nat) ivs /\
    forall i, inside i ivs <-> inside i (intervals r) \/ (n <> 0%nat /\ (S (read r) - n <= i < S (read r))%nat)).
  { assert (Hlt : Forall (fun x => (iend x < S (read r))%nat) (intervals r)).
    { eapply Forall_impl; [exact HBd|]. cbn. intros x Hx. lia. }
    unfold ivs. destruct (n =? 0)%nat eqn:E.
    - apply Nat.eqb_eq in E. split_and!; [done| |].
      + eapply Forall_impl; [exact Hlt|]. cbn. intros x Hx. lia.
      + intros i. split; [tauto|]. intros [H|[H _]]; done.
    - apply Nat.eqb_neq in E. destruct Hadd as (A1 & A2 & A3); [lia|done|].
      split_and!; try done. intros i. rewrite A3. tauto. }
  destruct Hivs as (V1 & V2 & V3). split; cbn; rewrite ?length_app, ?length_insert; cbn; auto; try lia.
  - intros i Hi. destruct (decide (i = read r)) as [->|Hne].
    + rewrite list_lookup_insert_eq by (rewrite HL; apply Nat.mod_upper_bound; lia).
      by rewrite HR, lookup_app_r, Nat.sub_diag by lia.
    + rewrite list_lookup_insert_ne by (intros E; apply (mod_distinct i (read r)); lia).
      rewrite lookup_app_l by lia. apply HB. lia.
  - intros i Hi. rewrite V3, (covered_snoc keys s v i n Hlong) by lia.
    destruct (decide (i = length s)) as [->|Hne].
    + split; intros [H|H]; try (right; lia).
      * right. exfalso. destruct H as (iv & Hin & Hiv).
        rewrite Forall_forall in HBd. specialize (HBd iv Hin). lia.
      * exfalso. apply covered_end in H as (m & k & Hm & _ & _ & Hr). lia.
    + rewrite HC by lia. split; (intros [H|H]; [by left|right; lia]).
Qed.

Lemma faithful_app s a ds ds' :
  faithful s a ds -> faithful s (a + length ds) ds' -> faithful s a (ds ++ ds').
Proof.
  intros H1 H2 j b m [H|[Hl H]]%lookup_app_Some; [by apply H1|].
  apply H2 in H. by replace (a + j)%nat with (a + length ds + (j - length ds))%nat by lia.
Qed.

(** Once a byte is a whole pattern behind, later input does not change its
    decision. *)
Lemma faithful_stable s rest a ds :
  (a + length ds + L <= S (length s))%nat -> faithful s a ds -> faithful (s ++ rest) a ds.
Proof.
  intros Hl H j b m Hj. specialize (H j b m Hj) as [H1 H2].
  apply lookup_lt_Some in Hj. split.
  - by apply lookup_app_l_Some.
  - rewrite H2. symmetry. apply covered_stable. fold L. lia.
Qed.

Lemma write_byte_ok s r v :
  (0 < L)%nat -> redacting (L - 1) s r ->
  let '(r', out) := write_byte r v in
  exists ds, produces r r' out ds /\ redacting (L - 1) (s ++ [v]) r' /\
    forall rest, faithful ((s ++ [v]) ++ rest) (written r) ds.
Proof.
  intros HL0 HR. pose proof (absorb_ok s r v HL0 HR) as HA. unfold write_byte.
  rewrite (re_length _ _ _ HA).
  destruct (L <=? read (absorb r v) - written (absorb r v))%nat eqn:E.
  - apply Nat.leb_le in E. replace L with (S (L - 1)) in HA by lia.
    pose proof (emitNext_ok _ _ _ HA ltac:(lia)) as HE.
    destruct (emitNext (absorb r v)) as [r' out]. destruct HE as (d & [P1 P2 P3 P4] & Hf & Hr').
    exists [d]. split; [split; auto|]. split; [done|]. intros rest.
    apply (faithful_stable _ _ (written (absorb r v))); [|done].
    rewrite (re_read _ _ _ HA) in E. cbn [length]. lia.
  - apply Nat.leb_gt in E. exists []. split; [split; cbn; auto|]. split; [|by intros rest j b m].
    split; try apply HA. pose proof (re_window _ _ _ HA). lia.
Qed.

Lemma write_bytes_ok c : forall s r,
  (0 < L)%nat -> redacting (L - 1) s r ->
  let '(r', out) := fold_step write_byte r c in
  exists ds, produces r r' out ds /\ redacting (L - 1) (s ++ c) r' /\
    forall rest, faithful ((s ++ c) ++ rest) (written r) ds.
Proof.
  induction c as [|v c IH]; intros s r HL0 HR; cbn [fold_step].
  - exists []. rewrite app_nil_r. split; [apply produces_nil|]. split; [done|]. by intros rest j b m.
  - pose proof (write_byte_ok s r v HL0 HR) as H1. destruct (write_byte r v) as [r1 out1].
    destruct H1 as (ds1 & P1 & R1 & F1). specialize (IH (s ++ [v]) r1 HL0 R1).
    destruct (fold_step write_byte r1 c) as [r2 out2]. destruct IH as (ds2 & P2 & R2 & F2).
    exists (ds1 ++ ds2). rewrite <-(assoc_L (++) s) in R2. split; [by eapply produces_app|].
    split; [done|]. intros rest. apply faithful_app.
    + replace ((s ++ v :: c) ++ rest) with ((s ++ [v]) ++ c ++ rest) by (by simplify_list_eq).
      apply F1.
    + rewrite <-(pr_written _ _ _ _ P1).
      replace ((s ++ v :: c) ++ rest) with (((s ++ [v]) ++ c) ++ rest) by (by simplify_list_eq).
      apply F2.
Qed.

Lemma feed_ok chunks : forall s r,
  (0 < L)%nat -> redacting (L - 1) s r ->
  let '(r', out) := feed write r chunks in
  exists ds, produces r r' out ds /\ redacting (L - 1) (s ++ concat chunks) r' /\
    forall rest, faithful ((s ++ concat chunks) ++ rest) (written r) ds.
Proof.
  induction chunks as [|c chunks IH]; intros s r HL0 HR; cbn [feed concat].
  - exists []. rewrite app_nil_r. split; [apply produces_nil|]. split; [done|]. by intros rest j b m.
  - unfold write at 1. rewrite (re_length _ _ _ HR).
    replace (L =? 0)%nat with false by (symmetry; apply Nat.eqb_neq; lia).
    pose proof (write_bytes_ok c s r HL0 HR) as H1. destruct (fold_step write_byte r c) as [r1 out1].
    destruct H1 as (ds1 & P1 & R1 & F1). specialize (IH (s ++ c) r1 HL0 R1).
    destruct (feed write r1 chunks) as [r2 out2]. destruct IH as (ds2 & P2 & R2 & F2).
    exists (ds1 ++ ds2). rewrite <-(assoc_L (++) s) in R2. split; [by eapply produces_app|].
    split; [done|]. intros rest. apply faithful_app.
    + replace ((s ++ c ++ concat chunks) ++ rest) with ((s ++ c) ++ concat chunks ++ rest)
        by (by simplify_list_eq).
      apply F1.
    + rewrite <-(pr_written _ _ _ _ P1).
      replace (s ++ c ++ concat chunks) with ((s ++ c) ++ concat chunks) by (by simplify_list_eq).
      apply F2.
Qed.

Lemma finish_loop_ok fuel : forall k s r,
  redacting k s r -> fuel = (read r - written r)%nat ->
  let '(r', out) := finish_loop fuel r in
  exists ds, produces r r' out ds /\ faithful s (written r) ds /\ written r' = length s.
Proof.
  induction fuel as [|fuel IH]; intros k s r HR Hf; cbn [finish_loop].
  - exists []. split; [apply produces_nil|]. split; [by intros j b m|].
    pose proof (re_window _ _ _ HR). pose proof (re_read _ _ _ HR). lia.
  - replace (written r <? read r)%nat with true by (symmetry; apply Nat.ltb_lt; lia).
    pose proof (re_window _ _ _ HR) as [HW Hk]. destruct k as [|k]; [lia|].
    pose proof (emitNext_ok k s r HR ltac:(lia)) as HE.
    assert (Hread : read (fst (emitNext r)) = read r) by (unfold emitNext; by destruct (observing r)).
    destruct (emitNext r) as [r1 out1]. destruct HE as (d & P1 & F1 & R1). cbn in Hread.
    pose proof (pr_written _ _ _ _ P1) as Hw. cbn in Hw.
    specialize (IH k s r1 R1 ltac:(lia)). destruct (finish_loop fuel r1) as [r2 out2].
    destruct IH as (ds2 & P2 & F2 & W2). exists ([d] ++ ds2).
    split; [by eapply produces_app|]. split; [|done]. apply faithful_app; [done|].
    by rewrite <-(pr_written _ _ _ _ P1).
Qed.

Lemma start_ok obs :
  maximum (automaton keys) = L -> (0 < L)%nat ->
  redacting (L - 1) [] (newSecretRedactor (Some (automaton keys)) obs).
Proof.
  intros HM HL0. split; cbn; try done; try lia.
  rewrite length_replicate. done.
Qed.

(** With no pattern at all the redactor is a pipe. *)
Lemma no_pattern_run obs chunks :
  L = 0%nat -> maximum (automaton keys) = L ->
  forall r, r = newSecretRedactor (Some (automaton keys)) obs ->
  let '(r', out) := feed write r chunks in
  r' = r /\ text out = concat chunks /\ decisions out = map (fun b => (b, false)) (concat chunks).
Proof.
  intros HL0 HM r Hr. induction chunks as [|c chunks IH]; cbn [feed concat]; [done|].
  assert (HW : write r c = (r, [if obs then Observe c false else Emit c false])).
  { unfold write. subst r. cbn. by rewrite length_replicate, HM, HL0. }
  rewrite HW. destruct (feed write r chunks) as [r' out]. destruct IH as (-> & I2 & I3).
  split; [done|]. rewrite text_app, decisions_app, I2, I3, map_app. destruct obs; cbn;
    by rewrite !app_nil_r.
Qed.

Lemma render_unmasked ds m :
  Forall (fun d => snd d = false) ds -> render m ds = map fst ds.
Proof.
  revert m. induction ds as [|[b h] ds IH]; intros m; [done|]. rewrite Forall_cons.
  cbn. intros [-> H]. cbn. by rewrite IH.
Qed.

(** Every run shows, for every byte of the stream, whether it lies in an
    occurrence of a pattern. *)
Lemma run_ok obs chunks :
  exists ds, length ds = length (concat chunks) /\ faithful (concat chunks) 0 ds /\
    let out := run (newSecretRedactor (Some (automaton keys)) obs) chunks in
    if obs then decisions out = ds else text out = render false ds.
Proof.
  pose proof (automaton_maximum keys Hkeys) as HM. unfold run.
  set (r := newSecretRedactor (Some (automaton keys)) obs).
  destruct (decide (L = 0)%nat) as [HL0|HL0].
  - pose proof (no_pattern_run obs chunks HL0 HM r eq_refl) as HN.
    destruct (feed write r chunks) as [r1 out1]. destruct HN as (-> & HT & HD).
    exists (map (fun b => (b, false)) (concat chunks)). split_and!.
    + apply length_map.
    + intros j b m Hj. apply list_lookup_fmap_Some in Hj as (x & [= -> ->] & Hx).
      split; [done|]. split; [done|]. intros (k & a & Hk & _ & Hi).
      apply longest_key_bound in Hk. fold L in Hk. lia.
    + assert (HF : finish r = (r, [])) by done. rewrite HF, app_nil_r. destruct obs; [done|].
      rewrite HT, render_unmasked.
      * rewrite map_map. cbn. symmetry. apply map_id.
      * apply Forall_fmap, Forall_true. done.
  - assert (HS : redacting (L - 1) [] r) by (apply start_ok; [done|lia]).
    pose proof (feed_ok chunks [] r ltac:(lia) HS) as H1.
    destruct (feed write r chunks) as [r1 out1]. destruct H1 as (ds1 & P1 & R1 & F1).
    pose proof (finish_loop_ok _ _ _ _ R1 eq_refl) as H2. unfold finish.
    destruct (finish_loop _ r1) as [r2 out2]. destruct H2 as (ds2 & P2 & F2 & W2).
    pose proof (produces_app _ _ _ _ _ _ _ P1 P2) as P. cbn [app] in *.
    specialize (F1 []). rewrite app_nil_r in F1.
    exists (ds1 ++ ds2). split_and!.
    + rewrite <-W2, (pr_written _ _ _ _ P). done.
    + apply faithful_app; [done|]. by rewrite (pr_written _ _ _ _ P1) in F2.
    + destruct obs; [by apply (pr_observe _ _ _ _ P)|by apply (pr_emit _ _ _ _ P)].
Qed.
End redactor.

Lemma faithful_unique keys s ds ds' :
  length ds = length ds' -> faithful keys s 0 ds -> faithful keys s 0 ds' -> ds = ds'.
Proof.
  intros Hl H H'. apply list_eq_same_length with (length ds'); [done..|].
  intros i [b m] [b' m'] _ Hi Hi'. apply H in Hi as [B1 M1]. apply H' in Hi' as [B2 M2].
  rewrite B1 in B2. injection B2 as ->. rewrite <-M2 in M1. f_equal.
  destruct m, m'; tauto || naive_solver.
Qed.

Lemma covered_variants secrets s i :
  covered (patterns_of secrets) s i <->
  exists secret k a, secret ∈ secrets /\ k ∈ Encodings.variants secret /\
    k `prefix_of` drop a s /\ (a <= i < a + length k)%nat.
Proof.
  unfold covered. setoid_rewrite elem_of_patterns_of. split.
  - intros (k & a & (_ & secret & Hs & Hk) & Hp & Hi). by exists secret, k, a.
  - intros (secret & k & a & Hs & Hk & Hp & Hi). exists k, a. split_and!; try done; try lia; [|by exists secret].
    intros ->. cbn in Hi. lia.
Qed.

(** Names the automaton compiled from concrete secrets. *)
Ltac compiled secrets p E :=
  destruct (compileSecrets secrets) as [p|] eqn:E; [|vm_compute in E; discriminate];
  exists p; split; [done|].
Ltac computed E := vm_compute in E; injection E as <-; vm_compute; reflexivity.

(** C1: the redactor sees every secret and nothing else. For any set of secrets
    that compiles and any stream, however it is cut into writes, the bytes shown
    are those of the stream, in order, each marked exactly when it lies inside an
    occurrence of an encoding of a secret, even one that spans several writes. *)
Theorem redactor_masks_exactly (secrets : list bytes) (p : secretPatterns) (chunks : list bytes) :
  compileSecrets secrets = Some p ->
  let s := concat chunks in
  let ds := decisions (run (newSecretRedactor (Some p) true) chunks) in
  length ds = length s /\
  forall i b m, ds !! i = Some (b, m) ->
    s !! i = Some b /\
    (m = true <->
     exists secret k a, secret ∈ secrets /\ k ∈ Encodings.variants secret /\
       k `prefix_of` drop a s /\ (a <= i < a + length k)%nat).
Proof.
  intros ->%compileSecrets_automaton s ds.
  destruct (run_ok (patterns_of secrets) (patterns_of_nonempty _) true chunks) as (ds' & Hl & Hf & Hd).
  cbn in Hd. unfold ds. rewrite Hd. split; [done|]. intros i b m Hi.
  rewrite <-covered_variants. by apply Hf in Hi.
Qed.

Lemma redactor_masks_exactly_witness :
  exists p, compileSecrets [bs "hunter2"] = Some p /\
    map snd (decisions (run (newSecretRedactor (Some p) true) [bs "a hunt"; bs "er2"; bs " b"]))
    = [false; false; true; true; true; true; true; true; true; false; false] /\
    length (decisions (run (newSecretRedactor (Some p) true) [bs "a hunt"; bs "er2"; bs " b"])) = 11%nat.
Proof.
  compiled [bs "hunter2"] p E. split; [computed E|].
  exact (proj1 (redactor_masks_exactly [bs "hunter2"] p [bs "a hunt"; bs "er2"; bs " b"] E)).
Defined.

(** Without the observing callback the redactor writes the same stream with
    every maximal run of masked bytes replaced by one marker. *)
Theorem redactor_text_renders (secrets : list bytes) (p : secretPatterns) (chunks : list bytes) :
  compileSecrets secrets = Some p ->
  text (run (newSecretRedactor (Some p) false) chunks)
  = render false (decisions (run (newSecretRedactor (Some p) true) chunks)).
Proof.
  intros ->%compileSecrets_automaton.
  destruct (run_ok (patterns_of secrets) (patterns_of_nonempty _) true chunks) as (ds & Hl & Hf & Hd).
  destruct (run_ok (patterns_of secrets) (patterns_of_nonempty _) false chunks) as (ds' & Hl' & Hf' & Ht).
  cbn in Hd, Ht. rewrite Hd, Ht. f_equal. eapply faithful_unique; eauto; congruence.
Qed.

Lemma redactor_text_renders_witness :
  exists p, compileSecrets [bs "pw"] = Some p /\
    text (run (newSecretRedactor (Some p) false) [bs "ap"; bs "wpw."]) = bs "a[REDACTED]." /\
    text (run (newSecretRedactor (Some p) false) [bs "ap"; bs "wpw."])
    = render false (decisions (run (newSecretRedactor (Some p) true) [bs "ap"; bs "wpw."])).
Proof.
  compiled [bs "pw"] p E. split; [computed E|].
  exact (redactor_text_renders [bs "pw"] p [bs "ap"; bs "wpw."] E).
Defined.

(** The redactor withholds less than one pattern: before [finish], everything
    but the last [maximum - 1] bytes of the stream has been handed on. *)
Theorem redactor_holdback (secrets : list bytes) (p : secretPatterns) (chunks : list bytes) :
  compileSecrets secrets = Some p ->
  let '(r, out) := feed write (newSecretRedactor (Some p) true) chunks in
  (length (concat chunks) <= length (decisions out) + (maximum p - 1))%nat.
Proof.
  intros ->%compileSecrets_automaton. set (keys := patterns_of secrets).
  pose proof (automaton_maximum keys (patterns_of_nonempty _)) as HM.
  set (r0 := newSecretRedactor (Some (automaton keys)) true). rewrite HM.
  destruct (decide (longest_key keys = 0)%nat) as [HL|HL].
  - pose proof (no_pattern_run keys true chunks HL HM r0 eq_refl) as HN.
    destruct (feed write r0 chunks) as [r out]. destruct HN as (_ & _ & ->).
    rewrite length_map. lia.
  - pose proof (feed_ok keys (patterns_of_nonempty _) chunks [] r0 ltac:(lia)
                  (start_ok keys true HM ltac:(lia))) as HF.
    destruct (feed write r0 chunks) as [r out]. destruct HF as (ds & P & R & _).
    rewrite (pr_observe _ _ _ _ P) by done. pose proof (pr_written _ _ _ _ P) as HW. cbn in HW.
    pose proof (re_window _ _ _ _ R) as [Hw _]. rewrite (re_read _ _ _ _ R) in Hw. cbn in Hw. lia.
Qed.

Lemma redactor_holdback_witness :
  exists p, compileSecrets [bs "pw"] = Some p /\ maximum p = 4%nat /\
    let '(r, out) := feed write (newSecretRedactor (Some p) true) [bs "aaaaa"; bs "aaaaaaap"] in
    (13 <= length (decisions out) + (maximum p - 1))%nat.
Proof.
  compiled [bs "pw"] p E. split; [computed E|].
  exact (redactor_holdback [bs "pw"] p [bs "aaaaa"; bs "aaaaaaap"] E).
Defined.
