(* ===== verification/Processor.v ===== *)
(** The last stages of [rawProcessor] in [src/internal/evidence/processor.go]: the
    [lineLimiter], and the routing of the bytes the redactor has judged to raw
    lines or to structured lines. *)

From S2P Require Import Prelude Utf8 Sanitize Patterns AutomatonCorrect Redactor.

(** * [lineLimiter] *)

Module LineLimiter.

Definition LineTruncationMarker : bytes := bs "[... line truncated ...]".

(** What the [emit] callback receives. *)
Record emitted := {
  content : bytes;
  truncated : bool;
  partial : bool;
  has_redaction : bool
}.

Record lineLimiter := {
  maximum : Z;
  line : bytes;
  discarding : bool;
  redacted : bool
}.

Definition new (maximum : Z) : lineLimiter :=
  {| maximum := maximum; line := []; discarding := false; redacted := false |}.

Definition flush (l : lineLimiter) (newline : bool) : lineLimiter * list emitted :=
  (new (maximum l),
   [{| content := trim_valid (line l)
                    ++ (if discarding l then LineTruncationMarker else [])
                    ++ (if newline then [0x0A] else []);
       truncated := discarding l; partial := negb newline; has_redaction := redacted l |}]).

(** The body of the loop of [write]. *)
Definition step (l : lineLimiter) (value : Z) : lineLimiter * list emitted :=
  if value =? 0x0A then flush l true
  else if discarding l then (l, [])
  else if maximum l <=? zlen (line l) then
    ({| maximum := maximum l; line := line l; discarding := true; redacted := redacted l |}, [])
  else
    ({| maximum := maximum l; line := line l ++ [value]; discarding := false;
        redacted := redacted l |}, []).

Definition mark (l : lineLimiter) (r : bool) : lineLimiter :=
  {| maximum := maximum l; line := line l; discarding := discarding l;
     redacted := if r then true else redacted l |}.

Definition write (l : lineLimiter) (content : bytes) (r : bool) : lineLimiter * list emitted :=
  fold_step step (mark l r) content.

Definition finish (l : lineLimiter) : lineLimiter * list emitted :=
  if (0 <? zlen (line l)) || discarding l then flush l false else (l, []).

(** ** Reference: the lines of the text, each cut on its own

    A text is a list of symbols: a byte, and whether it belongs to a redaction. *)

Abbreviation symbols := (list (Z * bool)).

(** The complete lines of a text and what follows the last line feed. *)
Fixpoint split_lines (s : symbols) : list symbols * symbols :=
  match s with
  | [] => ([], [])
  | b :: rest =>
      let '(ls, tail) := split_lines rest in
      if fst b =? 0x0A then ([] :: ls, tail)
      else match ls with
           | [] => ([], b :: tail)
           | l :: ls => ((b :: l) :: ls, tail)
           end
  end.

(** A line of at most [maximum] bytes, a longer one being cut there, back to the
    end of a rune, and marked. *)
Definition cut (maximum : Z) (l : bytes) : bytes :=
  trim_valid (take (Z.to_nat maximum) l)
    ++ (if maximum <? zlen l then LineTruncationMarker else []).

Definition cut_line (maximum : Z) (newline : bool) (l : symbols) : emitted :=
  {| content := cut maximum (map fst l) ++ (if newline then [0x0A] else []);
     truncated := maximum <? zlen l; partial := negb newline; has_redaction := existsb snd l |}.

Definition limit_spec (maximum : Z) (s : symbols) : list emitted :=
  let '(ls, tail) := split_lines s in
  map (cut_line maximum true) ls
    ++ (if (0 <? zlen tail) then [cut_line maximum false tail] else []).

(** A stream of writes, then [finish]. *)
Definition write_pair (l : lineLimiter) (w : bytes * bool) : lineLimiter * list emitted :=
  write l (fst w) (snd w).

Definition run (maximum : Z) (writes : list (bytes * bool)) : list emitted :=
  let '(l, o1) := feed write_pair (new maximum) writes in
  let '(_, o2) := finish l in
  o1 ++ o2.

(** The symbols of a write; a redaction marker is one write, without line feed. *)
Definition symbols_of (w : bytes * bool) : symbols := map (fun b => (b, snd w)) (fst w).

Definition proper (w : bytes * bool) : Prop := snd w = true -> fst w <> [] /\ 0x0A ∉ fst w.

(** The state in the middle of line [l]. *)
Definition holding (m : Z) (l : symbols) : lineLimiter :=
  {| maximum := m; line := take (Z.to_nat m) (map fst l); discarding := m <? zlen l;
     redacted := existsb snd l |}.

Definition step_symbol (l : lineLimiter) (v : Z * bool) : lineLimiter * list emitted :=
  step (mark l (snd v)) (fst v).

Lemma step_holding m l v :
  0 <= m -> fst v <> 0x0A -> step_symbol (holding m l) v = (holding m (l ++ [v]), []).
Proof.
  intros Hm Hv. destruct v as [v r]. unfold step_symbol, step, mark, holding.
  cbn [discarding maximum line redacted fst snd] in *.
  apply Z.eqb_neq in Hv. rewrite Hv, zlen_app, zlen_cons, zlen_nil, map_app, existsb_app.
  assert (Hr : (if r then true else existsb snd l) = existsb snd l || existsb snd [(v, r)]).
  { destruct r; cbn; by rewrite ?orb_true_r, ?orb_false_r. }
  rewrite Hr. cbn [map fst].
  assert (Hz : zlen (map fst l) = zlen l) by (unfold zlen; by rewrite length_map).
  destruct (m <? zlen l) eqn:E; bool_norm.
  - f_equal. f_equal; [|symmetry; apply Z.ltb_lt; lia].
    rewrite take_app_le; [done|]. unfold zlen in *. lia.
  - assert (Ht : take (Z.to_nat m) (map fst l) = map fst l) by (apply take_ge; unfold zlen in *; lia).
    rewrite Ht, Hz. destruct (m <=? zlen l) eqn:E2; bool_norm; f_equal; f_equal.
    + rewrite take_app_le; [done|unfold zlen in *; lia].
    + symmetry. apply Z.ltb_lt. lia.
    + rewrite take_ge; [done|]. rewrite length_app. unfold zlen in *. cbn. lia.
    + symmetry. apply Z.ltb_ge. lia.
Qed.

Lemma flush_holding m l newline :
  flush (holding m l) newline = (new m, [cut_line m newline l]).
Proof.
  unfold flush, cut_line, cut, holding. cbn. rewrite <-(assoc_L (++)). unfold zlen.
  by rewrite length_map.
Qed.

Lemma new_holding m : 0 <= m -> new m = holding m [].
Proof.
  intros H. unfold new, holding. cbn. rewrite take_nil. f_equal. symmetry. apply Z.ltb_ge. done.
Qed.

Lemma fold_holding m l s :
  0 <= m -> Forall (fun v => fst v = 0x0A -> snd v = false) s ->
  feed step_symbol (holding m l) s =
  let '(ls, tail) := split_lines s in
  match ls with
  | [] => (holding m (l ++ tail), [])
  | l1 :: ls => (holding m tail, map (cut_line m true) ((l ++ l1) :: ls))
  end.
Proof.
  intros Hm Hs. revert l. induction Hs as [|v s Hv Hs IH]; intros l; cbn [feed split_lines].
  - by rewrite app_nil_r.
  - destruct (split_lines s) as [ls tail] eqn:E. destruct (fst v =? 0x0A) eqn:Ev.
    + unfold step_symbol at 1, step. rewrite Ev, Hv by (by apply Z.eqb_eq).
      change (mark (holding m l) false) with (holding m l).
      rewrite flush_holding, new_holding, IH by done. rewrite app_nil_r. by destruct ls.
    + rewrite step_holding, IH by (done || by apply Z.eqb_neq).
      destruct ls; cbn [map app]; by rewrite <-(assoc_L (++)).
Qed.

Lemma finish_holding m l :
  0 <= m ->
  snd (finish (holding m l)) = if (0 <? zlen l) then [cut_line m false l] else [].
Proof.
  intros Hm. unfold finish. rewrite flush_holding. cbn [discarding line holding].
  assert ((0 <? zlen (take (Z.to_nat m) (map fst l))) || (m <? zlen l) = (0 <? zlen l)) as ->.
  { unfold zlen. rewrite length_take, length_map.
    destruct (Z.ltb_spec m (Z.of_nat (length l))); rewrite ?orb_true_r, ?orb_false_r.
    - symmetry. apply Z.ltb_lt. lia.
    - rewrite Nat.min_r by lia. done. }
  by destruct (0 <? zlen l).
Qed.

(** Marking once per write or once per byte is the same. *)
Lemma fold_mark l c :
  0x0A ∉ c -> fold_step step (mark l true) c = feed step_symbol (mark l true) (map (fun b => (b, true)) c).
Proof.
  intros Hc. revert l. induction c as [|v c IH]; intros l; [done|]. cbn [fold_step feed map].
  apply not_elem_of_cons in Hc as [Hv Hc]. unfold step_symbol at 1. cbn [fst snd].
  assert (Hm : mark (mark l true) true = mark l true) by done. rewrite Hm.
  assert (exists l', step (mark l true) v = (mark l' true, [])) as [l' ->].
  { unfold step. assert ((v =? 0x0A) = false) as -> by (apply Z.eqb_neq; congruence).
    cbn [discarding mark maximum line redacted]. repeat case_match; try by exists l.
    - by exists {| maximum := maximum l; line := line l; discarding := true; redacted := true |}.
    - by exists {| maximum := maximum l; line := line l ++ [v]; discarding := false; redacted := true |}. }
  by rewrite IH.
Qed.

Lemma write_symbols l w : proper w -> write_pair l w = feed step_symbol l (symbols_of w).
Proof.
  destruct w as [c r]. unfold write_pair, write, symbols_of, proper. cbn [fst snd]. intros Hp.
  destruct r.
  - destruct Hp as [Hne Hc]; [done|]. rewrite fold_mark by done. destruct c as [|v c]; [done|].
    cbn [map feed]. unfold step_symbol at 1 3. cbn [fst snd]. done.
  - assert (mark l false = l) as -> by (by destruct l). clear Hp. revert l.
    induction c as [|v c IH]; intros l; [done|]. cbn [fold_step map feed]. unfold step_symbol at 1.
    cbn [fst snd]. assert (mark l false = l) as -> by (by destruct l).
    destruct (step l v). by rewrite IH.
Qed.

Lemma feed_symbols l writes :
  Forall proper writes ->
  feed write_pair l writes = feed step_symbol l (concat (map symbols_of writes)).
Proof.
  intros H. revert l. induction H as [|w writes Hw _ IH]; intros l; [done|].
  cbn [feed map concat]. rewrite feed_app, write_symbols by done.
  destruct (feed step_symbol l (symbols_of w)). by rewrite IH.
Qed.

Lemma proper_symbols writes :
  Forall proper writes -> Forall (fun v => fst v = 0x0A -> snd v = false) (concat (map symbols_of writes)).
Proof.
  induction 1 as [|[c r] writes Hw _ IH]; [constructor|]. cbn [map concat]. apply Forall_app. split; [|done].
  unfold symbols_of. apply Forall_map, Forall_forall. intros b Hb. cbn [fst snd] in *. intros ->.
  destruct r; [|done]. by destruct Hw.
Qed.

Lemma run_symbols maximum writes :
  0 <= maximum -> Forall proper writes ->
  run maximum writes = limit_spec maximum (concat (map symbols_of writes)).
Proof.
  intros Hm Hp. unfold run, limit_spec.
  rewrite feed_symbols, new_holding, fold_holding by (done || by apply proper_symbols).
  destruct (split_lines _) as [[|l1 ls] tail]; cbn [app map];
    pose proof (finish_holding maximum tail Hm) as H; destruct (finish _); cbn in *; by subst.
Qed.

(** C35: the line limiter, which never looks back, yields exactly the lines of the
    text, each cut to the limit at the end of a rune and marked when it was longer,
    and flagged when a redaction falls in it; a final line without line feed is
    reported as partial. *)
Theorem limiter_refines_lines (maximum : Z) (writes : list (bytes * bool)) :
  0 <= maximum -> Forall proper writes ->
  run maximum writes = limit_spec maximum (concat (map symbols_of writes)).
Proof. apply run_symbols. Qed.

Lemma limiter_refines_lines_witness :
  let writes := [(bs "abcdef", false); ([0x0A; 0x61], false); (bs "[]", true)] in
  run 4 writes = limit_spec 4 (concat (map symbols_of writes)) /\
  map content (run 4 writes) = [bs "abcd[... line truncated ...]" ++ [0x0A]; bs "a[]"] /\
  map has_redaction (run 4 writes) = [false; true].
Proof.
  split; [|split; vm_compute; reflexivity]. apply (limiter_refines_lines 4); [lia|].
  repeat constructor; try discriminate. cbn. set_solver.
Defined.

(** ** Every emitted line is bounded and valid, whatever is written *)

Definition bounded (m : Z) (o : emitted) : Prop :=
  zlen (content o) <= m + zlen LineTruncationMarker + 1 /\ Utf8.Valid (content o) = true.

Lemma flush_bounded l newline :
  zlen (line l) <= maximum l -> Forall (bounded (maximum l)) (snd (flush l newline)).
Proof.
  intros H. unfold flush. cbn [snd]. constructor; [|constructor]. unfold bounded. cbn [content]. split.
  - rewrite !zlen_app. pose proof (trim_valid_length (line l)).
    assert (zlen (if discarding l then LineTruncationMarker else []) <= zlen LineTruncationMarker)
      by (by destruct (discarding l)).
    assert (zlen (if newline then [0x0A] else []) <= 1) by (by destruct newline).
    unfold zlen in *. lia.
  - apply Valid_app; [auto with utf8|]. apply Valid_app; by repeat case_match.
Qed.

Lemma step_bounded l v :
  zlen (line l) <= maximum l ->
  let '(l', o) := step l v in
  maximum l' = maximum l /\ zlen (line l') <= maximum l' /\ Forall (bounded (maximum l)) o.
Proof.
  intros H. unfold step. destruct (v =? 0x0A).
  { pose proof (flush_bounded l true H). unfold flush in *. cbn in *. split_and!; [done| |done].
    rewrite zlen_nil. pose proof (zlen_nonneg (line l)). lia. }
  destruct (discarding l); [done|]. destruct (maximum l <=? zlen (line l)) eqn:E; cbn; [done|].
  bool_norm. rewrite zlen_app, zlen_cons, zlen_nil. split_and!; [done|lia|constructor].
Qed.

End LineLimiter.

(** * Routing *)

Module Router.

Abbreviation lineLimiter := LineLimiter.lineLimiter.

(** What the two line limiters of a processor hand to the collector: a raw line, a
    structured line, or the report that a structured line held a secret outside
    its string bodies. *)
Inductive routed :=
  | RawLine (e : LineLimiter.emitted)
  | StructuredLine (e : LineLimiter.emitted)
  | StructuredUnsafe.

(** The fields of [rawProcessor] that routing uses; [probe] and [probeMasked] are
    one list of pairs. *)
Record router := {
  prefix : bytes;
  probe : list (Z * bool);
  route : nat;
  rawMasked : bool;
  structuredUnsafe : bool;
  jsonString : bool;
  jsonEscape : bool;
  line : lineLimiter;
  structuredLine : lineLimiter
}.

Definition new (prefix : bytes) (maximum : Z) : router :=
  {| prefix := prefix; probe := []; route := 0; rawMasked := false; structuredUnsafe := false;
     jsonString := false; jsonEscape := false; line := LineLimiter.new maximum;
     structuredLine := LineLimiter.new maximum |}.

(** Field updates. *)
Definition set_probe (p : router) (x : list (Z * bool)) : router :=
  {| prefix := prefix p; probe := x; route := route p; rawMasked := rawMasked p;
     structuredUnsafe := structuredUnsafe p; jsonString := jsonString p; jsonEscape := jsonEscape p;
     line := line p; structuredLine := structuredLine p |}.
Definition set_route (p : router) (x : nat) : router :=
  {| prefix := prefix p; probe := probe p; route := x; rawMasked := rawMasked p;
     structuredUnsafe := structuredUnsafe p; jsonString := jsonString p; jsonEscape := jsonEscape p;
     line := line p; structuredLine := structuredLine p |}.
Definition set_rawMasked (p : router) (x : bool) : router :=
  {| prefix := prefix p; probe := probe p; route := route p; rawMasked := x;
     structuredUnsafe := structuredUnsafe p; jsonString := jsonString p; jsonEscape := jsonEscape p;
     line := line p; structuredLine := structuredLine p |}.
Definition set_json (p : router) (unsafe string escape : bool) : router :=
  {| prefix := prefix p; probe := probe p; route := route p; rawMasked := rawMasked p;
     structuredUnsafe := unsafe; jsonString := string; jsonEscape := escape;
     line := line p; structuredLine := structuredLine p |}.
Definition set_line (p : router) (x : lineLimiter) : router :=
  {| prefix := prefix p; probe := probe p; route := route p; rawMasked := rawMasked p;
     structuredUnsafe := structuredUnsafe p; jsonString := jsonString p; jsonEscape := jsonEscape p;
     line := x; structuredLine := structuredLine p |}.
Definition set_structuredLine (p : router) (x : lineLimiter) : router :=
  {| prefix := prefix p; probe := probe p; route := route p; rawMasked := rawMasked p;
     structuredUnsafe := structuredUnsafe p; jsonString := jsonString p; jsonEscape := jsonEscape p;
     line := line p; structuredLine := x |}.

(** The [emit] closure of [structuredLine]. *)
Definition structured_emit (p : router) (e : LineLimiter.emitted) : routed :=
  if structuredUnsafe p then StructuredUnsafe else StructuredLine e.

Definition write_line (p : router) (content : bytes) (redacted : bool) : router * list routed :=
  let '(l, out) := LineLimiter.write (line p) content redacted in
  (set_line p l, map RawLine out).

Definition write_structured (p : router) (content : bytes) : router * list routed :=
  let '(l, out) := LineLimiter.write (structuredLine p) content false in
  (set_structuredLine p l, map (structured_emit p) out).

Definition emitMatchedRaw (p : router) (vm : Z * bool) : router * list routed :=
  let '(value, masked) := vm in
  let '(p, out) :=
    if masked then
      if rawMasked p then (p, []) else write_line p RedactionMarker true
    else write_line p [value] false in
  (set_rawMasked p masked, out).

(** The state after the loop over [probeMasked] when the prefix is complete. *)
Definition start_structured (p : router) : router :=
  let hits := map snd (probe p) in
  let p := set_json p (existsb id hits) false false in
  if forallb id hits then p else set_rawMasked p false.

(** The JSON string scanner that decides whether a masked byte can be replaced. *)
Definition scan_json (string escape : bool) (value : Z) : bool * bool :=
  if string then
    if escape then (true, false)
    else if value =? 0x5C then (true, true)
    else if value =? 0x22 then (false, escape)
    else (true, escape)
  else if value =? 0x22 then (true, escape)
  else (string, escape).

Definition in_body (string escape : bool) (value : Z) : bool :=
  string && (escape || negb (value =? 0x22)).

(** The branch [route = 2] of the loop. *)
Definition structured_byte (p : router) (value : Z) (masked : bool) : router * list routed :=
  let p := if masked then p else set_rawMasked p false in
  let unsafe := structuredUnsafe p || (masked && negb (in_body (jsonString p) (jsonEscape p) value)) in
  let '(string, escape) := scan_json (jsonString p) (jsonEscape p) value in
  write_structured (set_json p unsafe string escape) [value].

(** The branch [route = 0]: one more byte of a line that may start with the prefix. *)
Definition probe_byte (p : router) (vm : Z * bool) : router * list routed :=
  let p := set_probe p (probe p ++ [vm]) in
  let seen := map fst (probe p) in
  if negb (bool_decide (seen `prefix_of` prefix p)) then
    let pending := probe p in
    let '(p, out) := feed emitMatchedRaw (set_route p 1) pending in
    (set_probe p [], out)
  else if (length seen =? length (prefix p))%nat then
    let p := start_structured (set_route p 2) in
    let '(p, out) := write_structured p seen in
    (set_probe p [], out)
  else (p, []).

(** The body of the loop of [routeMatched]. *)
Definition route_byte (p : router) (vm : Z * bool) : router * list routed :=
  if (length (prefix p) =? 0)%nat then emitMatchedRaw p vm
  else
    let '(p, out) :=
      match route p with
      | 0%nat => probe_byte p vm
      | 1%nat => emitMatchedRaw p vm
      | _ => structured_byte p (fst vm) (snd vm)
      end in
    (if fst vm =? 0x0A then set_route p 0 else p, out).

(** [routeMatched] on the chunks the redactor hands over. *)
Definition routeMatched (p : router) (content : bytes) (masked : bool) : router * list routed :=
  feed route_byte p (map (fun v => (v, masked)) content).

(** The tail of [rawProcessor.finish]. *)
Definition finish (p : router) : router * list routed :=
  let '(p, o1) := feed emitMatchedRaw p (probe p) in
  let p := set_probe p [] in
  let '(l2, o2) := LineLimiter.finish (structuredLine p) in
  let p' := set_structuredLine p l2 in
  let '(l3, o3) := LineLimiter.finish (line p) in
  (set_line p' l3, o1 ++ map (structured_emit p) o2 ++ map RawLine o3).

(** ** Without a prefix every byte goes to the raw line limiter *)

(** The writes the raw line limiter receives: one marker for every maximal run of
    masked bytes. *)
Fixpoint render_writes (m : bool) (ds : list (Z * bool)) : list (bytes * bool) :=
  match ds with
  | [] => []
  | (b, hit) :: rest =>
      (if hit then (if m then [] else [(RedactionMarker, true)]) else [([b], false)])
        ++ render_writes hit rest
  end.

Lemma render_writes_app m a b :
  render_writes m (a ++ b) = render_writes m a ++ render_writes (last_mask m a) b.
Proof.
  revert m. induction a as [|[v h] a IH]; intros m; cbn; [done|]. by rewrite IH, (assoc_L (++)).
Qed.

Lemma render_writes_text m ds : concat (map fst (render_writes m ds)) = render m ds.
Proof.
  revert m. induction ds as [|[b h] ds IH]; intros m; [done|].
  cbn [render_writes render]. rewrite map_app, concat_app, IH. f_equal. destruct h, m; done.
Qed.

Lemma render_writes_proper m ds : Forall LineLimiter.proper (render_writes m ds).
Proof.
  revert m. induction ds as [|[b h] ds IH]; intros m; [constructor|]. cbn [render_writes].
  apply Forall_app. split; [|done]. destruct h, m; repeat constructor; try done.
  intros Hin. apply list_elem_of_In in Hin. cbn in Hin. lia.
Qed.

(** [emitMatchedRaw] byte by byte is the line limiter on those writes. *)
Lemma emit_raw p ds :
  feed emitMatchedRaw p ds =
  let '(l, out) := feed LineLimiter.write_pair (line p) (render_writes (rawMasked p) ds) in
  (set_rawMasked (set_line p l) (last_mask (rawMasked p) ds), map RawLine out).
Proof.
  revert p. induction ds as [|[v h] ds IH]; intros p; cbn [feed render_writes].
  { by destruct p. }
  unfold emitMatchedRaw at 1. destruct h; [destruct (rawMasked p) eqn:E|]; cbn [app feed].
  - rewrite IH. cbn [rawMasked set_rawMasked line set_line].
    destruct (feed _ _ (render_writes true ds)) as [l out]. unfold last_mask. cbn. by rewrite <-?E.
  - unfold write_line. unfold LineLimiter.write_pair at 1. cbn [fst snd].
    destruct (LineLimiter.write (line p) RedactionMarker true) as [l1 o1]. rewrite IH.
    cbn [rawMasked set_rawMasked line set_line].
    destruct (feed _ l1 (render_writes true ds)) as [l out]. unfold last_mask. cbn. by rewrite map_app.
  - unfold write_line. unfold LineLimiter.write_pair at 1. cbn [fst snd].
    destruct (LineLimiter.write (line p) [v] false) as [l1 o1]. rewrite IH.
    cbn [rawMasked set_rawMasked line set_line].
    destruct (feed _ l1 (render_writes false ds)) as [l out]. unfold last_mask. cbn. by rewrite map_app.
Qed.

Lemma feed_ext {S O C} (f g : S -> C -> S * list O) (Inv : S -> Prop) s cs :
  (forall s c, Inv s -> f s c = g s c /\ Inv (fst (g s c))) -> Inv s -> feed f s cs = feed g s cs.
Proof.
  intros H. revert s. induction cs as [|c cs IH]; intros s Hs; [done|]. cbn [feed].
  destruct (H s c Hs) as [-> HI]. destruct (g s c) as [s1 o1]. by rewrite IH.
Qed.

Lemma emitMatchedRaw_prefix p v : prefix (fst (emitMatchedRaw p v)) = prefix p.
Proof.
  destruct v as [v h]. unfold emitMatchedRaw, write_line.
  repeat case_match; simplify_eq; done.
Qed.

Lemma route_no_prefix p ds : prefix p = [] -> feed route_byte p ds = feed emitMatchedRaw p ds.
Proof.
  apply (feed_ext route_byte emitMatchedRaw (fun p => prefix p = [])).
  intros s c Hs. rewrite emitMatchedRaw_prefix. split; [|done]. unfold route_byte. by rewrite Hs.
Qed.

(** The whole stream and [finish]. *)
Definition run (prefix : bytes) (maximum : Z) (ds : list (Z * bool)) : list routed :=
  let '(p, o1) := feed route_byte (new prefix maximum) ds in
  let '(_, o2) := finish p in
  o1 ++ o2.

Lemma run_no_prefix maximum ds :
  run [] maximum ds = map RawLine (LineLimiter.run maximum (render_writes false ds)).
Proof.
  unfold run. rewrite route_no_prefix, emit_raw by done. cbn [line rawMasked new].
  unfold LineLimiter.run. destruct (feed _ _ _) as [l out]. unfold finish.
  cbn [probe set_rawMasked set_line feed set_probe structuredLine line set_structuredLine new].
  change (LineLimiter.finish (LineLimiter.new maximum)) with (LineLimiter.new maximum, @nil LineLimiter.emitted).
  destruct (LineLimiter.finish l) as [l3 o3]. cbn. by rewrite map_app.
Qed.

(** ** With a prefix, line by line

    Reference: what happens to one line of judged bytes, its line feed included. *)

(** A masked byte outside the bodies of JSON strings, scanning from a state. *)
Fixpoint unsafe_from (string escape : bool) (l : list (Z * bool)) : bool :=
  match l with
  | [] => false
  | (v, masked) :: rest =>
      (masked && negb (in_body string escape v))
      || (let '(string, escape) := scan_json string escape v in unsafe_from string escape rest)
  end.

(** The structured line [l] is safe when no secret touches the prefix or the
    syntax of the payload. *)
Definition unsafe_line (k : nat) (l : list (Z * bool)) : bool :=
  existsb snd (take k l) || unsafe_from false false (drop k l).

Definition plain_symbols (l : list (Z * bool)) : LineLimiter.symbols := map (fun v => (fst v, false)) l.

(** The raw limiter and mask after line [l], and what is handed over. *)
Definition route_line (pre : bytes) (maximum : Z) (st : lineLimiter * bool) (l : list (Z * bool))
  : lineLimiter * bool * list routed :=
  let '(raw, m) := st in
  if bool_decide (pre `prefix_of` map fst l) then
    (raw, if forallb snd l then m else false,
     [if unsafe_line (length pre) l then StructuredUnsafe
      else StructuredLine (LineLimiter.cut_line maximum true (plain_symbols (removelast l)))])
  else
    let '(raw, out) := feed LineLimiter.write_pair raw (render_writes m l) in
    (raw, last_mask m l, map RawLine out).

(** The router between two lines. *)
Definition boundary (pre : bytes) (maximum : Z) (p : router) : Prop :=
  prefix p = pre /\ route p = 0%nat /\ probe p = [] /\ structuredLine p = LineLimiter.new maximum.

Section lines.
Context (pre : bytes) (maximum : Z).
Context (Hpre : pre <> []) (Hnl : 0x0A ∉ pre) (Hmax : 0 <= maximum).

Lemma feed_cons {S O C} (f : S -> C -> S * list O) s c cs :
  feed f s (c :: cs) = let '(s1, o1) := f s c in let '(s2, o2) := feed f s1 cs in (s2, o1 ++ o2).
Proof. reflexivity. Qed.

(** While the bytes agree with the prefix nothing is handed over. *)
Lemma probing p vs :
  prefix p = pre -> route p = 0%nat -> map fst (probe p ++ vs) `prefix_of` pre ->
  (length (probe p ++ vs) < length pre)%nat ->
  feed route_byte p vs = (set_probe p (probe p ++ vs), []).
Proof.
  revert p. induction vs as [|v vs IH]; intros p Hp Hr Hpf Hl.
  { rewrite app_nil_r. by destruct p. }
  rewrite feed_cons. unfold route_byte. rewrite Hp, Hr.
  assert (length pre =? 0 = false)%nat as -> by (apply Nat.eqb_neq; destruct pre; cbn in *; lia).
  unfold probe_byte. cbn [probe set_probe prefix]. rewrite Hp.
  assert (Hpf1 : map fst (probe p ++ [v]) `prefix_of` pre).
  { etrans; [|done]. exists (map fst vs). by rewrite <-map_app, <-(assoc_L (++)). }
  rewrite bool_decide_true by done. cbn [negb].
  assert (length (map fst (probe p ++ [v])) =? length pre = false)%nat as ->.
  { apply Nat.eqb_neq. rewrite length_map, length_app in *. cbn in *. lia. }
  assert (fst v =? 0x0A = false) as ->.
  { apply Z.eqb_neq. intros E. apply Hnl. destruct Hpf1 as [k ->]. rewrite map_app. set_solver. }
  rewrite IH; cbn [probe set_probe prefix route]; rewrite <-?(assoc_L (++)); done.
Qed.

(** Once a line is raw the rest of it goes to the raw limiter. *)
Lemma raw_route p vs :
  prefix p = pre -> route p = 1%nat -> Forall (fun v => fst v <> 0x0A) vs ->
  feed route_byte p vs = feed emitMatchedRaw p vs.
Proof.
  intros Hp Hr Hv. revert p Hp Hr. induction Hv as [|v vs Hv _ IH]; intros p Hp Hr; [done|].
  rewrite !feed_cons. unfold route_byte at 1. rewrite Hp, Hr.
  assert (length pre =? 0 = false)%nat as -> by (apply Nat.eqb_neq; destruct pre; cbn in *; [done|lia]).
  pose proof (emitMatchedRaw_prefix p v) as Hp1.
  assert (Hr1 : route (fst (emitMatchedRaw p v)) = 1%nat).
  { rewrite <-Hr. destruct v as [v h]. unfold emitMatchedRaw, write_line. repeat case_match; by simplify_eq. }
  destruct (emitMatchedRaw p v) as [p1 o1]. cbn in *. apply Z.eqb_neq in Hv. rewrite Hv.
  rewrite IH; [done|congruence|done].
Qed.

(** A structured line: its bytes collect in [structuredLine] and the scanner
    keeps track of masked bytes outside string bodies. *)
Definition collecting (p p' : router) (l l' vs : list (Z * bool)) : Prop :=
  prefix p' = pre /\ route p' = 2%nat /\ probe p' = probe p /\ line p' = line p /\
  structuredLine p' = LineLimiter.holding maximum l' /\
  rawMasked p' = (if forallb snd vs then rawMasked p else false) /\
  forall rest, structuredUnsafe p' || unsafe_from (jsonString p') (jsonEscape p') rest
             = structuredUnsafe p || unsafe_from (jsonString p) (jsonEscape p) (vs ++ rest).

Lemma structured_step p l v :
  structuredLine p = LineLimiter.holding maximum l -> fst v <> 0x0A -> prefix p = pre -> route p = 2%nat ->
  exists p', structured_byte p (fst v) (snd v) = (p', []) /\
    collecting p p' l (l ++ [(fst v, false)]) [v].
Proof.
  intros Hl Hv Hp Hr. destruct v as [v h]. cbn [fst snd] in *. unfold structured_byte.
  set (p0 := if h then p else set_rawMasked p false).
  assert (E0 : structuredLine p0 = LineLimiter.holding maximum l /\ prefix p0 = pre /\ route p0 = 2%nat /\
               probe p0 = probe p /\ line p0 = line p /\ structuredUnsafe p0 = structuredUnsafe p /\
               jsonString p0 = jsonString p /\ jsonEscape p0 = jsonEscape p /\
               rawMasked p0 = if h then rawMasked p else false) by (by destruct h).
  destruct E0 as (E1 & E2 & E3 & E4 & E5 & E6 & E7 & E8 & E9). clearbody p0. rewrite E6, E7, E8.
  destruct (scan_json (jsonString p) (jsonEscape p) v) as [st es] eqn:Es.
  unfold write_structured. cbn [structuredLine set_json]. rewrite E1.
  pose proof (LineLimiter.write_symbols (LineLimiter.holding maximum l) ([v], false)) as W.
  unfold LineLimiter.write_pair, LineLimiter.symbols_of in W. cbn [fst snd map] in W.
  rewrite W by done. cbn [feed]. rewrite LineLimiter.step_holding by done. cbn [map app].
  eexists. split; [reflexivity|]. unfold collecting. cbn. split_and!; try done.
  - by rewrite andb_true_r.
  - intros rest. rewrite Es. by rewrite orb_assoc.
Qed.

Lemma collecting_trans p p1 p2 l l1 l2 vs vs' :
  collecting p p1 l l1 vs -> collecting p1 p2 l1 l2 vs' -> collecting p p2 l l2 (vs ++ vs').
Proof.
  unfold collecting. intros (A1 & A2 & A3 & A4 & A5 & A6 & A7) (B1 & B2 & B3 & B4 & B5 & B6 & B7).
  split_and!; try congruence.
  - rewrite B6, A6, forallb_app. by destruct (forallb snd vs), (forallb snd vs').
  - intros rest. by rewrite B7, A7, <-(assoc_L (++)).
Qed.

Lemma structured_run p l vs :
  structuredLine p = LineLimiter.holding maximum l -> Forall (fun v => fst v <> 0x0A) vs ->
  prefix p = pre -> route p = 2%nat ->
  exists p', feed route_byte p vs = (p', []) /\ collecting p p' l (l ++ plain_symbols vs) vs.
Proof.
  intros Hl Hv. revert p l Hl. induction Hv as [|v vs Hv _ IH]; intros p l Hl Hp Hr.
  { exists p. split; [done|]. unfold collecting. cbn. by rewrite app_nil_r. }
  destruct (structured_step p l v Hl Hv Hp Hr) as (p1 & E1 & C1).
  pose proof C1 as (A1 & A2 & _ & _ & A5 & _).
  destruct (IH p1 _ A5 A1 A2) as (p2 & E2 & C2). exists p2. split.
  - rewrite feed_cons. unfold route_byte at 1. rewrite Hp, Hr.
    assert (length pre =? 0 = false)%nat as -> by (apply Nat.eqb_neq; destruct pre; cbn in *; [done|lia]).
    rewrite E1. apply Z.eqb_neq in Hv. by rewrite Hv, E2.
  - pose proof (collecting_trans _ _ _ _ _ _ _ _ C1 C2) as C.
    change (plain_symbols (v :: vs)) with ([(fst v, false)] ++ plain_symbols vs).
    by rewrite (assoc_L (++) l).
Qed.

(** The line feed that ends a structured line. *)
Lemma structured_end p l v :
  structuredLine p = LineLimiter.holding maximum l ->
  fst v = 0x0A -> prefix p = pre -> route p = 2%nat -> probe p = [] ->
  exists p', route_byte p v =
    (p', [if structuredUnsafe p || unsafe_from (jsonString p) (jsonEscape p) [v] then StructuredUnsafe
          else StructuredLine (LineLimiter.cut_line maximum true l)]) /\
    boundary pre maximum p' /\ line p' = line p /\
    rawMasked p' = if snd v then rawMasked p else false.
Proof.
  intros Hl Hv Hp Hr Hpr. destruct v as [v h]. cbn [fst snd] in *. subst v.
  unfold route_byte. rewrite Hp, Hr.
  assert (length pre =? 0 = false)%nat as -> by (apply Nat.eqb_neq; destruct pre; cbn in *; [done|lia]).
  unfold structured_byte. cbn [fst snd unsafe_from].
  set (p0 := if h then p else set_rawMasked p false).
  assert (E0 : structuredLine p0 = LineLimiter.holding maximum l /\ prefix p0 = pre /\
               probe p0 = [] /\ line p0 = line p /\ structuredUnsafe p0 = structuredUnsafe p /\
               jsonString p0 = jsonString p /\ jsonEscape p0 = jsonEscape p /\
               rawMasked p0 = if h then rawMasked p else false) by (by destruct h).
  destruct E0 as (E1 & E2 & E4 & E5 & E6 & E7 & E8 & E9). clearbody p0. rewrite E6, E7, E8.
  destruct (scan_json (jsonString p) (jsonEscape p) 10) as [st es].
  unfold write_structured. cbn [structuredLine set_json]. rewrite E1.
  assert (Hw : LineLimiter.write (LineLimiter.holding maximum l) [0x0A] false =
               (LineLimiter.new maximum, [LineLimiter.cut_line maximum true l])).
  { unfold LineLimiter.write. cbn [fold_step]. unfold LineLimiter.step. cbn [Z.eqb Pos.eqb].
    change (LineLimiter.mark (LineLimiter.holding maximum l) false) with (LineLimiter.holding maximum l).
    by rewrite LineLimiter.flush_holding. }
  rewrite Hw. cbn [map Z.eqb Pos.eqb]. eexists. split.
  - f_equal. f_equal. unfold structured_emit. cbn [structuredUnsafe set_json].
    rewrite orb_false_r. reflexivity.
  - cbn. by split_and!.
Qed.

Lemma existsb_id_map {A} (f : A -> bool) l : existsb id (map f l) = existsb f l.
Proof. induction l as [|x l IH]; [done|]. cbn [map existsb]. by rewrite IH. Qed.

Lemma forallb_id_map {A} (f : A -> bool) l : forallb id (map f l) = forallb f l.
Proof. induction l as [|x l IH]; [done|]. cbn [map forallb]. by rewrite IH. Qed.

(** A text without line feed is held. *)
Lemma holding_run l s :
  Forall (fun v => fst v <> 0x0A) s ->
  feed LineLimiter.step_symbol (LineLimiter.holding maximum l) s = (LineLimiter.holding maximum (l ++ s), []).
Proof.
  intros H. revert l. induction H as [|v s Hv _ IH]; intros l; cbn [feed]; [by rewrite app_nil_r|].
  rewrite LineLimiter.step_holding, IH by done. by rewrite <-(assoc_L (++)).
Qed.

(** The byte that completes the prefix. *)
Lemma prefix_complete p a x :
  prefix p = pre -> route p = 0%nat -> probe p = a -> map fst (a ++ [x]) = pre ->
  structuredLine p = LineLimiter.new maximum ->
  exists p', route_byte p x = (p', []) /\ prefix p' = pre /\ route p' = 2%nat /\ probe p' = [] /\
    line p' = line p /\ structuredLine p' = LineLimiter.holding maximum (plain_symbols (a ++ [x])) /\
    rawMasked p' = (if forallb snd (a ++ [x]) then rawMasked p else false) /\
    structuredUnsafe p' = existsb snd (a ++ [x]) /\ jsonString p' = false /\ jsonEscape p' = false.
Proof.
  intros Hp Hr Hpr Hc Hs. unfold route_byte. rewrite Hp, Hr.
  assert (length pre =? 0 = false)%nat as -> by (apply Nat.eqb_neq; destruct pre; cbn in *; [done|lia]).
  unfold probe_byte. cbn [probe set_probe prefix]. rewrite Hp, Hpr, Hc.
  rewrite bool_decide_true by done. cbn [negb]. rewrite Nat.eqb_refl.
  assert (Hx : fst x =? 0x0A = false).
  { apply Z.eqb_neq. intros E. apply Hnl. rewrite <-Hc, map_app. set_solver. }
  set (p0 := start_structured _).
  assert (E0 : structuredLine p0 = LineLimiter.holding maximum [] /\ prefix p0 = pre /\ route p0 = 2%nat /\
    line p0 = line p /\ structuredUnsafe p0 = existsb snd (a ++ [x]) /\ jsonString p0 = false /\
    jsonEscape p0 = false /\ rawMasked p0 = if forallb snd (a ++ [x]) then rawMasked p else false).
  { unfold p0, start_structured. cbn [probe set_probe set_route].
    rewrite existsb_id_map, forallb_id_map, <-LineLimiter.new_holding by done. by destruct (forallb snd (a ++ [x])). }
  destruct E0 as (E1 & E2 & E3 & E4 & E5 & E6 & E7 & E8). clearbody p0.
  unfold write_structured. rewrite E1, <-Hc.
  pose proof (LineLimiter.write_symbols (LineLimiter.holding maximum []) (map fst (a ++ [x]), false)) as W.
  unfold LineLimiter.write_pair, LineLimiter.symbols_of in W. cbn [fst snd] in W. rewrite W by done.
  rewrite map_map. change (map (fun y : Z * bool => (fst y, false)) (a ++ [x])) with (plain_symbols (a ++ [x])).
  assert (Hn : Forall (fun s => fst s <> 0x0A) (plain_symbols (a ++ [x]))).
  { apply Forall_map, Forall_forall. intros y Hy. cbn. intros E. apply Hnl. rewrite <-Hc.
    apply list_elem_of_fmap. by exists y. }
  rewrite holding_run by done. cbn [map app]. rewrite Hx. eexists. split; [reflexivity|]. cbn. split_and!; congruence.
Qed.

(** Either the prefix agrees, or there is a first byte that does not. *)
Lemma first_mismatch (q : bytes) (l : bytes) :
  0x0A ∉ q -> 0x0A ∈ l ->
  (exists b, l = q ++ b) \/
  exists a v b, l = a ++ v :: b /\ a `prefix_of` q /\ (length a < length q)%nat /\ ~ a ++ [v] `prefix_of` q.
Proof.
  revert l. induction q as [|c q IH]; intros l Hq Hl; [by left; exists l|].
  apply not_elem_of_cons in Hq as [Hc Hq]. destruct l as [|v l]; [set_solver|].
  destruct (decide (v = c)) as [->|Hv].
  - destruct (IH l Hq) as [[b ->]|(a & w & b & -> & Ha & Hlen & Hn)].
    + set_solver.
    + left. by exists b.
    + right. exists (c :: a), w, b. split_and!; [done|by apply prefix_cons|cbn; lia|].
      cbn. intros H. by apply prefix_cons_inv_2 in H.
  - right. exists [], v, l. split_and!; [done|apply prefix_nil|cbn; lia|].
    intros H. by apply prefix_cons_inv_1 in H.
Qed.

Lemma route_structured_line p body nl b :
  boundary pre maximum p -> Forall (fun v => fst v <> 0x0A) body -> fst nl = 0x0A ->
  map fst (body ++ [nl]) = pre ++ b ->
  exists p' out, feed route_byte p (body ++ [nl]) = (p', out) /\ boundary pre maximum p' /\
    (line p', rawMasked p', out) = route_line pre maximum (line p, rawMasked p) (body ++ [nl]).
Proof.
  intros (Hp & Hr & Hpr & Hs) Hb Hn Hm.
  assert (exists a c, body = a ++ c /\ map fst a = pre) as (a & c & -> & Ha).
  { exists (take (length pre) body), (drop (length pre) body). split; [by rewrite take_drop|].
    rewrite map_app in Hm.
    assert (Hlb : (length pre <= length body)%nat).
    { destruct (decide (length pre <= length body)%nat) as [|Hlt]; [done|]. exfalso. apply Hnl.
      assert (pre !! length body = Some 0x0A); [|by eapply list_elem_of_lookup_2].
      rewrite <-(lookup_app_l pre b) by lia. rewrite <-Hm, lookup_app_r by (by rewrite length_map).
      rewrite length_map, Nat.sub_diag. cbn. by rewrite Hn. }
    apply (f_equal (take (length pre))) in Hm. rewrite take_app_length in Hm.
    rewrite take_app_le in Hm by (by rewrite length_map). by rewrite <-firstn_map. }
  apply Forall_app in Hb as [_ Hc].
  destruct (decide (a = [])) as [->|Hane]; [by destruct pre|].
  destruct (exists_last Hane) as (a' & x & ->).
  rewrite <-(assoc_L (++) (a' ++ [x])), <-(assoc_L (++) a').
  rewrite feed_app, probing; rewrite ?Hpr; [|done|done| |].
  2: { cbn [app]. rewrite <-Ha, map_app. by apply prefix_app_r. }
  2: { cbn [app]. rewrite <-Ha, length_map, length_app. cbn. lia. }
  cbn [app]. rewrite feed_cons.
  destruct (prefix_complete (set_probe p a') a' x) as (p1 & -> & B1 & B2 & B3 & B4 & B5 & B6 & B7 & B8 & B9);
    try done. cbn [line rawMasked set_probe] in B4, B6.
  rewrite feed_app. destruct (structured_run p1 _ c B5 Hc B1 B2) as (p2 & -> & C1 & C2 & C3 & C4 & C5 & C6 & C7).
  cbn [feed]. destruct (structured_end p2 _ nl C5 Hn C1 C2 ltac:(congruence)) as (p3 & -> & D1 & D2 & D3).
  exists p3. eexists. split; [reflexivity|]. split; [done|]. cbn [app].
  unfold route_line. rewrite bool_decide_true.
  2: { exists (map fst (c ++ [nl])). by rewrite <-Ha, <-map_app, <-(assoc_L (++)). }
  assert (Hrm : removelast (a' ++ x :: c ++ [nl]) = (a' ++ [x]) ++ c).
  { rewrite cons_middle, !(assoc_L (++)). apply removelast_last. }
  rewrite Hrm. f_equal; [f_equal|].
  - congruence.
  - rewrite D3, C6, B6. rewrite cons_middle, !forallb_app. cbn [forallb app]. rewrite !forallb_app. cbn [forallb].
    destruct (forallb snd a'), (snd x), (forallb snd c), (snd nl); done.
  - rewrite C7, B7, B8, B9. unfold unsafe_line.
    assert (length pre = length (a' ++ [x])) as -> by (by rewrite <-Ha, length_map).
    replace (a' ++ x :: c ++ [nl]) with ((a' ++ [x]) ++ c ++ [nl]) by (by rewrite <-(assoc_L (++))).
    rewrite take_app_length, drop_app_length.
    unfold plain_symbols. by rewrite (map_app _ (a' ++ [x])).

Qed.

(** What follows a byte of a line. *)
Lemma line_tail body nl a v b :
  Forall (fun v => fst v <> 0x0A) body -> fst nl = 0x0A -> body ++ [nl] = a ++ v :: b ->
  (fst v = 0x0A /\ b = []) \/
  (fst v <> 0x0A /\ exists b', b = b' ++ [nl] /\ Forall (fun v : Z * bool => fst v <> 0x0A) b').
Proof.
  intros Hb Hn Hl. destruct (decide (b = [])) as [->|Hne].
  - left. apply app_inj_tail in Hl as [_ ->]. done.
  - destruct (exists_last Hne) as (b' & y & ->). right.
    rewrite app_comm_cons, (assoc_L (++)) in Hl. apply app_inj_tail in Hl as [-> ->].
    apply Forall_app in Hb as [_ Hb]. apply Forall_cons in Hb as [Hv Hb]. eauto.
Qed.

Lemma raw_route_end p vs nl :
  prefix p = pre -> route p = 1%nat -> Forall (fun v => fst v <> 0x0A) vs -> fst nl = 0x0A ->
  feed route_byte p (vs ++ [nl]) = let '(p', o) := feed emitMatchedRaw p (vs ++ [nl]) in (set_route p' 0, o).
Proof.
  intros Hp Hr Hv Hn. rewrite !feed_app, raw_route by done. rewrite emit_raw.
  destruct (feed LineLimiter.write_pair (line p) _) as [l1 o1]. cbn [feed].
  unfold route_byte. cbn [prefix set_rawMasked set_line route]. rewrite Hp, Hr, Hn.
  assert (length pre =? 0 = false)%nat as -> by (apply Nat.eqb_neq; destruct pre; cbn in *; [done|lia]).
  destruct (emitMatchedRaw _ nl) as [p2 o2]. done.
Qed.

Lemma route_raw_line p body nl a v b :
  boundary pre maximum p -> Forall (fun v => fst v <> 0x0A) body -> fst nl = 0x0A ->
  body ++ [nl] = a ++ v :: b -> map fst a `prefix_of` pre -> (length a < length pre)%nat ->
  ~ map fst (a ++ [v]) `prefix_of` pre ->
  exists p' out, feed route_byte p (body ++ [nl]) = (p', out) /\ boundary pre maximum p' /\
    (line p', rawMasked p', out) = route_line pre maximum (line p, rawMasked p) (body ++ [nl]).
Proof.
  intros (Hp & Hr & Hpr & Hs) Hb Hn Hl Ha Hlen Hv.
  assert (Hnp : ~ pre `prefix_of` map fst (body ++ [nl])).
  { rewrite Hl, map_app. cbn [map]. intros Hpf. apply Hv.
    destruct (prefix_weak_total pre (map fst a ++ [fst v]) (map fst a ++ fst v :: map fst b)) as [H|H].
    - done.
    - exists (map fst b). by rewrite <-(assoc_L (++)).
    - apply prefix_length_eq in H; [by rewrite map_app; cbn [map]; rewrite H|]. rewrite length_app, length_map. cbn. lia.
    - by rewrite map_app. }
  unfold route_line. rewrite bool_decide_false by done. rewrite Hl.
  rewrite feed_app, probing; rewrite ?Hpr; [|done..]. cbn [app]. rewrite feed_cons.
  unfold route_byte at 1. cbn [prefix set_probe route]. rewrite Hp, Hr.
  assert (length pre =? 0 = false)%nat as -> by (apply Nat.eqb_neq; destruct pre; cbn in *; [done|lia]).
  unfold probe_byte. cbn [probe set_probe prefix]. rewrite Hp, bool_decide_false by done. cbn [negb].
  rewrite emit_raw. cbn [line rawMasked set_route set_probe].
  assert (Hab : a ++ v :: b = (a ++ [v]) ++ b) by (by rewrite <-(assoc_L (++))).
  rewrite Hab, (render_writes_app _ (a ++ [v]) b), feed_app, (last_mask_app _ (a ++ [v]) b).
  destruct (feed LineLimiter.write_pair (line p) _) as [l1 o1].
  destruct (line_tail body nl a v b Hb Hn Hl) as [[Ev ->]|(Ev & b' & -> & Hb')].
  - rewrite Ev. cbn [Z.eqb Pos.eqb feed render_writes]. rewrite !app_nil_r.
    do 2 eexists. split; [reflexivity|]. split; [by split_and!|done].
  - apply Z.eqb_neq in Ev. rewrite Ev. rewrite raw_route_end by done.
    rewrite emit_raw. cbn [line rawMasked set_route set_probe set_line set_rawMasked].
    destruct (feed LineLimiter.write_pair l1 _) as [l2 o2].
    do 2 eexists. split; [reflexivity|]. split; [by split_and!|]. by rewrite map_app.
Qed.

(** One line of judged bytes is treated as the reference says. *)
Lemma route_whole_line p body nl :
  boundary pre maximum p -> Forall (fun v => fst v <> 0x0A) body -> fst nl = 0x0A ->
  exists p' out, feed route_byte p (body ++ [nl]) = (p', out) /\ boundary pre maximum p' /\
    (line p', rawMasked p', out) = route_line pre maximum (line p, rawMasked p) (body ++ [nl]).
Proof.
  intros HB Hb Hn.
  destruct (first_mismatch pre (map fst (body ++ [nl])) Hnl) as [[b Hm]|(a & v & b & Hm & Ha & Hlen & Hv)].
  - rewrite map_app, <-Hn. set_solver.
  - by eapply route_structured_line.
  - apply map_eq_app in Hm as (a' & vb & E & <- & Hvb). destruct vb as [|v' b']; [done|].
    injection Hvb as <- <-. eapply route_raw_line; try done.
    + by rewrite length_map in Hlen.
    + by rewrite map_app.
Qed.

Lemma route_whole_lines p lines :
  boundary pre maximum p ->
  Forall (fun l => exists body nl, l = body ++ [nl] /\ Forall (fun v => fst v <> 0x0A) body /\ fst nl = 0x0A) lines ->
  exists p' out, feed route_byte p (concat lines) = (p', out) /\ boundary pre maximum p' /\
    (line p', rawMasked p', out) = feed (fun st l => let '(r, m, o) := route_line pre maximum st l in ((r, m), o))
                                     (line p, rawMasked p) lines.
Proof.
  intros HB HL. revert p HB. induction HL as [|l lines (body & nl & -> & Hb & Hn) _ IH]; intros p HB.
  { exists p, []. by split_and!. }
  destruct (route_whole_line p body nl HB Hb Hn) as (p1 & o1 & E1 & B1 & S1).
  destruct (IH p1 B1) as (p2 & o2 & E2 & B2 & S2).
  exists p2, (o1 ++ o2). cbn [concat]. rewrite feed_app, E1, E2. split_and!; [done|done|].
  rewrite feed_cons, <-S1. by destruct (feed _ (line p1, rawMasked p1) lines) as [[]]; simplify_eq.
Qed.
End lines.

(** A line of judged bytes, its line feed included. *)
Definition is_line (l : list (Z * bool)) : Prop :=
  exists body nl, l = body ++ [nl] /\ Forall (fun v => fst v <> 0x0A) body /\ fst nl = 0x0A.

Definition by_lines (pre : bytes) (maximum : Z) (lines : list (list (Z * bool))) : list routed :=
  snd (feed (fun st l => let '(r, m, o) := route_line pre maximum st l in ((r, m), o))
            (LineLimiter.new maximum, false) lines).

(** The router, which sees one byte at a time and holds back at most a prefix,
    sorts whole lines: a line is structured exactly when it starts with the prefix,
    it is handed over with its original bytes when no masked byte lies in the prefix
    or outside the string bodies of its payload and refused otherwise, and every
    other line goes to the raw log with its masked runs replaced. *)
Theorem router_sorts_lines (pre : bytes) (maximum : Z) (lines : list (list (Z * bool))) :
  pre <> [] -> 0x0A ∉ pre -> 0 <= maximum -> Forall is_line lines ->
  snd (feed route_byte (new pre maximum) (concat lines)) = by_lines pre maximum lines.
Proof.
  intros Hpre Hnl Hmax HL.
  destruct (route_whole_lines pre maximum Hpre Hnl Hmax (new pre maximum) lines) as (p' & out & E & _ & HS).
  - by split_and!.
  - exact HL.
  - unfold by_lines. cbn [line rawMasked new] in HS. rewrite E, <-HS. done.
Qed.

Lemma router_sorts_lines_witness :
  let judged := map (fun b => (b, false)) in
  let lines := [judged (bs "@ {}" ++ [0x0A]); judged (bs "@x" ++ [0x0A]);
                judged (bs "@ ") ++ [(0x31, true); (0x0A, false)]] in
  snd (feed route_byte (new (bs "@ ") 64) (concat lines)) = by_lines (bs "@ ") 64 lines /\
  map (fun o => match o with RawLine e | StructuredLine e => LineLimiter.content e | StructuredUnsafe => [] end)
    (by_lines (bs "@ ") 64 lines) = [bs "@ {}" ++ [0x0A]; bs "@x" ++ [0x0A]; []].
Proof.
  split; [|vm_compute; reflexivity]. apply (router_sorts_lines (bs "@ ") 64); [done| |lia|].
  - intros H. apply list_elem_of_In in H. cbn in H. lia.
  - repeat (apply Forall_cons; split); [..|constructor].
    + exists (map (fun b => (b, false)) (bs "@ {}")), (0x0A, false). repeat constructor; discriminate.
    + exists (map (fun b => (b, false)) (bs "@x")), (0x0A, false). repeat constructor; discriminate.
    + exists (map (fun b => (b, false)) (bs "@ ") ++ [(0x31, true)]), (0x0A, false).
      repeat constructor; discriminate.
Defined.

End Router.

(** * [rawProcessor] *)

Module RawProcessor.

Record rawProcessor := {
  normalizer : Normalizer.utf8Normalizer;
  ansi : Ansi.ansiStripper;
  redactor : secretRedactor;
  router : Router.router;
  finished : bool
}.

(** [newRawProcessor] for a stream with the line limit and the prefix that apply to
    it. *)
Definition newRawProcessor (patterns : option Automaton.secretPatterns) (prefix : bytes) (maximum : Z)
  : rawProcessor :=
  {| normalizer := Normalizer.new; ansi := Ansi.new; redactor := newSecretRedactor patterns true;
     router := Router.new prefix maximum; finished := false |}.

(** The [observe] callback; the [emit] callback of the redactor does nothing. *)
Definition observe (p : Router.router) (o : output) : Router.router * list Router.routed :=
  match o with
  | Observe content masked => Router.routeMatched p content masked
  | Emit _ _ => (p, [])
  end.

(** [ansi.emit] and [redactor.observe] on what the stage before hands over; the
    stripper emits one byte at a time. *)
Definition push_ansi (p : rawProcessor) (chunks : list bytes) : rawProcessor * list Router.routed :=
  let '(a, stripped) := feed Ansi.write (ansi p) chunks in
  let '(r, judged) := feed Redactor.write (redactor p) (map (fun b => [b]) stripped) in
  let '(t, out) := feed observe (router p) judged in
  ({| normalizer := normalizer p; ansi := a; redactor := r; router := t; finished := finished p |}, out).

Definition set_normalizer (p : rawProcessor) (n : Normalizer.utf8Normalizer) : rawProcessor :=
  {| normalizer := n; ansi := ansi p; redactor := redactor p; router := router p; finished := finished p |}.

Definition Write (p : rawProcessor) (content : bytes) : rawProcessor * list Router.routed :=
  if finished p then (p, [])
  else
    let '(n, chunks) := Normalizer.write (normalizer p) content in
    push_ansi (set_normalizer p n) chunks.

Definition finish (p : rawProcessor) : rawProcessor * list Router.routed :=
  if finished p then (p, [])
  else
    let '(n, chunks) := Normalizer.finish (normalizer p) in
    let '(p, o1) := push_ansi (set_normalizer p n) chunks in
    let '(r, judged) := Redactor.finish (redactor p) in
    let '(t, o2) := feed observe (router p) judged in
    let '(t, o3) := Router.finish t in
    ({| normalizer := normalizer p; ansi := Ansi.finish (ansi p); redactor := r; router := t;
        finished := true |}, o1 ++ o2 ++ o3).

Definition run (p : rawProcessor) (chunks : list bytes) : list Router.routed :=
  let '(p, o1) := feed Write p chunks in
  let '(_, o2) := finish p in
  o1 ++ o2.

(** ** The stages one after the other *)

(** The text after the first two stages. *)
Definition sanitized (chunks : list bytes) : bytes :=
  let '(n, o1) := feed Normalizer.write Normalizer.new chunks in
  let '(_, o2) := Normalizer.finish n in
  snd (feed Ansi.write Ansi.new (o1 ++ o2)).

Definition judged (patterns : option Automaton.secretPatterns) (text : bytes) : list (Z * bool) :=
  decisions (Redactor.run (newSecretRedactor patterns true) (map (fun b => [b]) text)).

Lemma push_ansi_nil p : push_ansi p [] = (p, []).
Proof. by destruct p. Qed.

Lemma push_ansi_app p a b :
  push_ansi p (a ++ b) =
  let '(p1, o1) := push_ansi p a in let '(p2, o2) := push_ansi p1 b in (p2, o1 ++ o2).
Proof.
  unfold push_ansi. rewrite feed_app. destruct (feed Ansi.write (ansi p) a) as [a1 s1].
  destruct (feed Redactor.write (redactor p) (map _ s1)) as [r1 j1] eqn:E1.
  destruct (feed observe (router p) j1) as [t1 o1] eqn:E2. cbn [ansi redactor router normalizer finished].
  destruct (feed Ansi.write a1 b) as [a2 s2]. rewrite map_app, feed_app, E1.
  destruct (feed Redactor.write r1 (map _ s2)) as [r2 j2]. rewrite feed_app, E2.
  by destruct (feed observe t1 j2) as [t2 o2].
Qed.

Lemma push_ansi_normalizer p n cs :
  push_ansi (set_normalizer p n) cs =
  let '(p1, o) := push_ansi p cs in (set_normalizer p1 n, o).
Proof. unfold push_ansi, set_normalizer. cbn. repeat case_match; by simplify_eq. Qed.

Lemma push_ansi_kept p cs :
  normalizer (fst (push_ansi p cs)) = normalizer p /\ finished (fst (push_ansi p cs)) = finished p.
Proof. unfold push_ansi. repeat case_match; by simplify_eq. Qed.

Lemma set_normalizer_twice p n n' : set_normalizer (set_normalizer p n) n' = set_normalizer p n'.
Proof. done. Qed.

Lemma feed_Write p chunks :
  finished p = false ->
  feed Write p chunks =
  let '(n, cs) := feed Normalizer.write (normalizer p) chunks in push_ansi (set_normalizer p n) cs.
Proof.
  revert p. induction chunks as [|c chunks IH]; intros p Hf; cbn [feed].
  { rewrite push_ansi_nil. by destruct p. }
  unfold Write at 1. rewrite Hf. destruct (Normalizer.write (normalizer p) c) as [n1 c1].
  rewrite push_ansi_normalizer. pose proof (push_ansi_kept p c1) as [_ Hk].
  destruct (push_ansi p c1) as [p1 o1] eqn:E1. cbn in Hk.
  rewrite IH by (cbn; congruence). cbn [normalizer set_normalizer].
  destruct (feed Normalizer.write n1 chunks) as [n2 c2].
  rewrite set_normalizer_twice, !push_ansi_normalizer, push_ansi_app, E1.
  by destruct (push_ansi p1 c2) as [p2 o2].
Qed.

(** ** The redactor only observes *)

Definition is_observe (o : output) : Prop := match o with Observe _ _ => True | Emit _ _ => False end.

Lemma emitNext_observing r :
  observing r = true -> observing (fst (emitNext r)) = true /\ Forall is_observe (snd (emitNext r)).
Proof. intros H. unfold emitNext. rewrite H. split; [done|]. by repeat constructor. Qed.

Lemma feed_Forall {S O C} (f : S -> C -> S * list O) (Inv : S -> Prop) (P : O -> Prop) s cs :
  (forall s c, Inv s -> Inv (fst (f s c)) /\ Forall P (snd (f s c))) ->
  Inv s -> Inv (fst (feed f s cs)) /\ Forall P (snd (feed f s cs)).
Proof.
  intros H. revert s. induction cs as [|c cs IH]; intros s Hs; cbn [feed]; [by split; [|constructor]|].
  destruct (H s c Hs) as [H1 H2]. destruct (f s c) as [s1 o1]. destruct (IH s1 H1) as [I1 I2].
  destruct (feed f s1 cs) as [s2 o2]. cbn in *. split; [done|]. by apply Forall_app.
Qed.

Lemma fold_step_feed {S O} (f : S -> Z -> S * list O) s c : fold_step f s c = feed f s c.
Proof. revert s. induction c as [|v c IH]; intros s; [done|]. cbn. destruct (f s v). by rewrite IH. Qed.

Lemma write_byte_observing r v :
  observing r = true -> observing (fst (write_byte r v)) = true /\ Forall is_observe (snd (write_byte r v)).
Proof.
  intros H. unfold write_byte. destruct (_ <=? _)%nat; [|by split; [|constructor]].
  by apply emitNext_observing.
Qed.

Lemma write_observing r c :
  observing r = true -> observing (fst (Redactor.write r c)) = true /\ Forall is_observe (snd (Redactor.write r c)).
Proof.
  intros H. unfold Redactor.write. destruct (_ =? 0)%nat; [rewrite H; split; [done|by repeat constructor]|].
  rewrite fold_step_feed. apply (feed_Forall write_byte (fun r => observing r = true)); [|done].
  apply write_byte_observing.
Qed.

Lemma finish_observing r :
  observing r = true -> Forall is_observe (snd (Redactor.finish r)).
Proof.
  unfold Redactor.finish. generalize (read r - written r)%nat as fuel. intros fuel. revert r.
  induction fuel as [|fuel IH]; intros r H; cbn [finish_loop]; [constructor|].
  destruct (_ <? _)%nat; [|constructor]. destruct (emitNext_observing r H) as [H1 H2].
  destruct (emitNext r) as [r1 o1]. specialize (IH r1 H1). destruct (finish_loop fuel r1) as [r2 o2].
  cbn in *. by apply Forall_app.
Qed.

Lemma feed_observe t out : Forall is_observe out -> feed observe t out = feed Router.route_byte t (decisions out).
Proof.
  intros H. revert t. induction H as [|o out Ho _ IH]; intros t; [done|].
  change (o :: out) with ([o] ++ out). rewrite decisions_app, !feed_app. destruct o as [c m|]; [|done].
  cbn [feed]. unfold observe at 1, Router.routeMatched.
  assert (decisions [Observe c m] = map (fun v => (v, m)) c) as ->
    by (unfold decisions; cbn; by rewrite app_nil_r).
  destruct (feed Router.route_byte t (map _ c)) as [t1 o1]. rewrite IH, app_nil_r. done.
Qed.

(** The processor is the composition of its stages. *)
Lemma run_stages patterns prefix maximum chunks :
  run (newRawProcessor patterns prefix maximum) chunks
  = Router.run prefix maximum (judged patterns (sanitized chunks)).
Proof.
  unfold run, finish, judged, sanitized, Router.run, Redactor.run. rewrite feed_Write by done.
  cbn [normalizer newRawProcessor].
  destruct (feed Normalizer.write Normalizer.new chunks) as [n c1].
  rewrite push_ansi_normalizer. destruct (push_ansi (newRawProcessor patterns prefix maximum) c1) as [p1 o1] eqn:E1.
  pose proof (push_ansi_kept (newRawProcessor patterns prefix maximum) c1) as [_ Hk]. rewrite E1 in Hk.
  cbn [fst finished newRawProcessor] in Hk. cbn [finished set_normalizer]. rewrite Hk. change (normalizer (set_normalizer p1 n)) with n.
  destruct (Normalizer.finish n) as [n2 c2]. rewrite set_normalizer_twice, push_ansi_normalizer.
  destruct (push_ansi p1 c2) as [p2 o2] eqn:E2.
  assert (E : push_ansi (newRawProcessor patterns prefix maximum) (c1 ++ c2) = (p2, o1 ++ o2))
    by (by rewrite push_ansi_app, E1, E2).
  cbn [redactor router set_normalizer]. unfold push_ansi in E. cbn [ansi redactor router newRawProcessor] in E.
  destruct (feed Ansi.write Ansi.new (c1 ++ c2)) as [a text]. cbn [snd].
  pose proof (feed_Forall Redactor.write (fun r => observing r = true) is_observe
                (newSecretRedactor patterns true) (map (fun b => [b]) text) write_observing eq_refl) as [H1 H2].
  destruct (feed Redactor.write _ _) as [r j]. cbn [fst snd] in H1, H2.
  rewrite feed_observe in E by done.
  destruct (feed Router.route_byte (Router.new prefix maximum) (decisions j)) as [t o] eqn:Et.
  injection E as <- Ho. cbn [redactor router].
  pose proof (finish_observing r H1) as H3. destruct (Redactor.finish r) as [r2 j2]. cbn [snd] in H3.
  rewrite feed_observe by done. rewrite decisions_app, feed_app, Et.
  destruct (feed Router.route_byte t (decisions j2)) as [t2 o3].
  destruct (Router.finish t2) as [t3 o4]. rewrite Ho. by rewrite !(assoc_L (++)).
Qed.



(** An escape byte before a multibyte rune removes only the lead byte of the rune;
    what is left is not UTF-8, and [flush] then drops the rest of the line without
    reporting a truncation. *)
Example escaped_rune_drops_line :
  run (newRawProcessor None [] 1024) [[0x1B; 0xC3; 0xA9] ++ bs "hello" ++ [0x0A]]
  = [Router.RawLine {| LineLimiter.content := [0x0A]; LineLimiter.truncated := false;
                       LineLimiter.partial := false; LineLimiter.has_redaction := false |}].
Proof. vm_compute. reflexivity. Qed.

End RawProcessor.
