(* ===== verification/LiveOutput.v ===== *)
(** The bounded live output of [src/internal/evidence/collector.go]
    ([boundedOutput]): two streams that share one budget of bytes, with the metadata
    of the last bytes that makes room for the truncation marker. *)

From S2P Require Import Prelude Utf8.

Inductive Stream := StreamStdout | StreamStderr.

#[global] Instance Stream_eq_dec : EqDecision Stream.
Proof. solve_decision. Defined.

Definition TotalTruncationMarker : bytes := bs "[... output truncated ...]".

Record rawTail := { stream : Stream; tbytes : Z }.

Record boundedOutput := {
  stdout : bytes;
  stderr : bytes;
  tail : list rawTail;
  tailBytes : Z;
  captured : Z;
  maximum : Z;
  truncated : bool
}.

Definition new (maximum : Z) : boundedOutput :=
  {| stdout := []; stderr := []; tail := []; tailBytes := 0; captured := 0; maximum := maximum;
     truncated := false |}.

Definition buffer (o : boundedOutput) (s : Stream) : bytes :=
  match s with StreamStdout => stdout o | StreamStderr => stderr o end.

Definition set_buffer (o : boundedOutput) (s : Stream) (b : bytes) : boundedOutput :=
  {| stdout := match s with StreamStdout => b | StreamStderr => stdout o end;
     stderr := match s with StreamStdout => stderr o | StreamStderr => b end;
     tail := tail o; tailBytes := tailBytes o; captured := captured o; maximum := maximum o;
     truncated := truncated o |}.

Definition set_tail (o : boundedOutput) (t : list rawTail) (n : Z) : boundedOutput :=
  {| stdout := stdout o; stderr := stderr o; tail := t; tailBytes := n; captured := captured o;
     maximum := maximum o; truncated := truncated o |}.

Definition set_captured (o : boundedOutput) (n : Z) : boundedOutput :=
  {| stdout := stdout o; stderr := stderr o; tail := tail o; tailBytes := tailBytes o; captured := n;
     maximum := maximum o; truncated := truncated o |}.

Definition set_truncated (o : boundedOutput) : boundedOutput :=
  {| stdout := stdout o; stderr := stderr o; tail := tail o; tailBytes := tailBytes o;
     captured := captured o; maximum := maximum o; truncated := true |}.

Definition appendStream (o : boundedOutput) (s : Stream) (content : bytes) : boundedOutput :=
  set_buffer o s (buffer o s ++ content).

(** The loop of [trackTail]: drop the oldest bytes beyond the length of the
    marker. An entry leaves or the loop ends with the next test. *)
Fixpoint shrink_tail (t : list rawTail) (total maximum : Z) : list rawTail * Z :=
  match t with
  | [] => ([], total)
  | e :: rest =>
      if total >? maximum then
        let excess := total - maximum in
        if tbytes e <=? excess then shrink_tail rest (total - tbytes e) maximum
        else ({| stream := stream e; tbytes := tbytes e - excess |} :: rest, total - excess)
      else (t, total)
  end.

Definition trackTail (o : boundedOutput) (s : Stream) (count : Z) : boundedOutput :=
  if count =? 0 then o
  else
    let '(t, n) := shrink_tail (tail o ++ [{| stream := s; tbytes := count |}]) (tailBytes o + count)
                     (zlen TotalTruncationMarker) in
    set_tail o t n.

(** [consumeTailMetadata] on the tail in reverse order. *)
Fixpoint consume_rev (t : list rawTail) (total count : Z) : list rawTail * Z :=
  match t with
  | [] => ([], total)
  | e :: rest =>
      if count >? 0 then
        let remove := Z.min count (tbytes e) in
        if tbytes e - remove =? 0 then consume_rev rest (total - remove) (count - remove)
        else ({| stream := stream e; tbytes := tbytes e - remove |} :: rest, total - remove)
      else (t, total)
  end.

Definition consumeTailMetadata (o : boundedOutput) (count : Z) : boundedOutput :=
  let '(t, n) := consume_rev (rev (tail o)) (tailBytes o) count in
  set_tail o (rev t) n.

Definition truncateStream (o : boundedOutput) (s : Stream) (count : Z) : boundedOutput * Z :=
  let original := zlen (buffer o s) in
  let newLength := Z.max 0 (original - count) in
  let content := trim_valid (take (Z.to_nat newLength) (buffer o s)) in
  (set_buffer o s content, original - zlen content).

(** The loop of [removeTail]; every turn but the last consumes metadata. *)
Fixpoint remove_loop (fuel : nat) (o : boundedOutput) (count : Z) : boundedOutput :=
  match fuel with
  | O => o
  | S fuel =>
      match last (tail o) with
      | None => o
      | Some e =>
          if count >? 0 then
            let remove := Z.min count (tbytes e) in
            let '(o, removed) := truncateStream o (stream e) remove in
            let o := set_captured o (captured o - removed) in
            let o := consumeTailMetadata o removed in
            if removed =? 0 then o else remove_loop fuel o (count - removed)
          else o
      end
  end.

(** An entry of the tail is used up per turn, except in the last one. *)
Definition removeTail (o : boundedOutput) (count : Z) : boundedOutput :=
  remove_loop (S (length (tail o))) o count.

(** [None] is the run-time panic of a slice with a negative bound. *)
Definition truncateTotal (o : boundedOutput) (content : bytes) : option (boundedOutput * bytes) :=
  let marker := if zlen TotalTruncationMarker >? maximum o
                then take (Z.to_nat (maximum o)) TotalTruncationMarker
                else TotalTruncationMarker in
  let target := maximum o - zlen marker in
  let o := if captured o >? target then removeTail o (captured o - target) else o in
  let remaining := target - captured o in
  let n := Z.min remaining (zlen content) in
  if n <? 0 then None
  else Some (o, trim_valid (take (Z.to_nat n) content) ++ marker).

Definition append (o : boundedOutput) (s : Stream) (content : bytes) : option boundedOutput :=
  if truncated o then Some o
  else
    let remaining := maximum o - captured o in
    let step := if zlen content >? remaining
                then match truncateTotal o content with
                     | Some (o, content) => Some (set_truncated o, content)
                     | None => None
                     end
                else Some (o, content) in
    match step with
    | None => None
    | Some (o, content) =>
        if zlen content =? 0 then Some o
        else
          let o := set_captured o (captured o + zlen content) in
          Some (trackTail (appendStream o s content) s (zlen content))
    end.

Fixpoint append_all (o : boundedOutput) (lines : list (Stream * bytes)) : option boundedOutput :=
  match lines with
  | [] => Some o
  | (s, c) :: rest =>
      match append o s c with
      | Some o => append_all o rest
      | None => None
      end
  end.

(** * The budget holds *)

(** The bytes of one stream in a history of lines, and of both. *)
Definition of_stream (s : Stream) (hist : list (Stream * bytes)) : bytes :=
  concat (map (fun e => if decide (fst e = s) then snd e else []) hist).

Definition total (hist : list (Stream * bytes)) : Z := foldr (fun e n => zlen (snd e) + n) 0 hist.

Definition tail_sum (t : list rawTail) : Z := foldr (fun e n => tbytes e + n) 0 t.

(** The tail describes the last entries of the history (both in reverse order),
    the oldest of them perhaps in part. *)
Inductive tail_ok : list rawTail -> list (Stream * bytes) -> Prop :=
  | tail_none h : tail_ok [] h
  | tail_part s n c h : 0 < n <= zlen c -> tail_ok [{| stream := s; tbytes := n |}] ((s, c) :: h)
  | tail_full s c t h : 0 < zlen c -> tail_ok t h -> tail_ok ({| stream := s; tbytes := zlen c |} :: t) ((s, c) :: h).

Lemma of_stream_app s a b : of_stream s (a ++ b) = of_stream s a ++ of_stream s b.
Proof. unfold of_stream. by rewrite map_app, concat_app. Qed.

Lemma of_stream_snoc s h s' c :
  of_stream s (h ++ [(s', c)]) = of_stream s h ++ (if decide (s' = s) then c else []).
Proof. rewrite of_stream_app. unfold of_stream at 2. cbn. by rewrite app_nil_r. Qed.

Lemma total_snoc h s c : total (h ++ [(s, c)]) = total h + zlen c.
Proof. unfold total. induction h as [|e h IH]; cbn [app foldr snd]; lia. Qed.

Lemma tail_sum_app a b : tail_sum (a ++ b) = tail_sum a + tail_sum b.
Proof. unfold tail_sum. induction a as [|e a IH]; cbn [app foldr]; lia. Qed.

Lemma tail_sum_rev t : tail_sum (rev t) = tail_sum t.
Proof. induction t as [|e t IH]; [done|]. cbn [rev]. rewrite tail_sum_app, IH. unfold tail_sum. cbn [foldr]. lia. Qed.

Lemma of_stream_Valid s hist :
  Forall (fun e => Valid (snd e) = true) hist -> Valid (of_stream s hist) = true.
Proof.
  intros H. apply Valid_concat, Forall_map. eapply Forall_impl; [exact H|].
  intros [s' c] Hc. cbn in *. by case_decide.
Qed.

(** The buffers and the counter of a state that was never truncated. *)
Record holds (o : boundedOutput) (hist : list (Stream * bytes)) : Prop := {
  ho_buffer s : buffer o s = of_stream s hist;
  ho_captured : captured o = total hist;
  ho_valid : Forall (fun e => Valid (snd e) = true) hist;
  ho_tail : tail_ok (rev (tail o)) (rev hist)
}.

(** What is true of every state. *)
Record within (m : Z) (o : boundedOutput) : Prop := {
  wi_captured : captured o = zlen (stdout o) + zlen (stderr o);
  wi_stdout : Valid (stdout o) = true;
  wi_stderr : Valid (stderr o) = true;
  wi_maximum : maximum o = m
}.

Lemma total_streams hist :
  total hist = zlen (of_stream StreamStdout hist) + zlen (of_stream StreamStderr hist).
Proof.
  unfold of_stream, total. induction hist as [|[s c] hist IH]; [done|].
  cbn [foldr map concat fst snd]. rewrite !zlen_app, IH. pose proof (zlen_nil (A := Z)).
  destruct s; repeat case_decide; try done; lia.
Qed.

Lemma holds_within o hist : holds o hist -> within (maximum o) o.
Proof.
  intros [Hb Hc Hv _]. pose proof (Hb StreamStdout) as H1. pose proof (Hb StreamStderr) as H2.
  cbn in H1, H2. split; rewrite ?H1, ?H2; [|by apply of_stream_Valid..|done].
  rewrite Hc. apply total_streams.
Qed.

Lemma set_buffer_buffer o s b s' : buffer (set_buffer o s b) s' = if decide (s' = s) then b else buffer o s'.
Proof. destruct s, s'; done. Qed.

(** Cutting a stream keeps the accounts. *)
Lemma truncateStream_within m o s count :
  within m o -> 0 <= count <= zlen (buffer o s) ->
  let '(o', removed) := truncateStream o s count in
  within m (set_captured o' (captured o' - removed)) /\ count <= removed /\
  captured o' = captured o /\ tail o' = tail o /\ tailBytes o' = tailBytes o.
Proof.
  intros [W1 W2 W3 W4] Hc. unfold truncateStream.
  set (content := trim_valid _).
  assert (Hl : zlen content <= zlen (buffer o s) - count).
  { unfold content. pose proof (trim_valid_length (take (Z.to_nat (Z.max 0 (zlen (buffer o s) - count))) (buffer o s))) as H.
    rewrite length_take in H. unfold zlen in *. lia. }
  assert (Hv : Valid content = true) by apply trim_valid_Valid. clearbody content.
  split_and!; try done; [|lia]. split; destruct s; cbn in *; try done; lia.
Qed.

Lemma consume_within m o n : within m o -> within m (consumeTailMetadata o n).
Proof.
  intros [W1 W2 W3 W4]. unfold consumeTailMetadata. destruct (consume_rev _ _ _) as [t k]. by split.
Qed.

Lemma consume_captured o n : captured (consumeTailMetadata o n) = captured o.
Proof. unfold consumeTailMetadata. by destruct (consume_rev _ _ _). Qed.

Lemma remove_loop_done fuel o count : count <= 0 -> remove_loop fuel o count = o.
Proof.
  intros H. destruct fuel as [|fuel]; [done|]. cbn [remove_loop]. destruct (last (tail o)); [|done].
  by assert (count >? 0 = false) as -> by (rewrite Z.gtb_ltb; apply Z.ltb_ge; lia).
Qed.

Lemma tail_ok_last t hist :
  tail_ok (rev t) (rev hist) -> t <> [] ->
  exists e t' s c h, t = t' ++ [e] /\ hist = h ++ [(s, c)] /\ stream e = s /\ 0 < tbytes e <= zlen c /\
    (t' = [] \/ (tbytes e = zlen c /\ tail_ok (rev t') (rev h))).
Proof.
  intros Hok Hne. destruct (exists_last Hne) as (t' & e & ->). rewrite rev_app_distr in Hok. cbn in Hok.
  inversion Hok as [|s n c h Hn E1 E2|s c t1 h Hc Hok' E1 E2]; subst.
  - exists {| stream := s; tbytes := n |}, t', s, c, (rev h). cbn.
    apply (f_equal (@rev _)) in E2. rewrite rev_involutive in E2. cbn in E2.
    split_and!; try done; [lia|lia|left]. by destruct t' as [|x t']; [|destruct (app_cons_not_nil (rev t') [] x)].
  - exists {| stream := s; tbytes := zlen c |}, t', s, c, (rev h). cbn.
    apply (f_equal (@rev _)) in E2. rewrite rev_involutive in E2. cbn in E2.
    split_and!; try done. right. split; [done|]. by rewrite rev_involutive.
Qed.

(** Removing a whole line takes the state back to before that line. *)
Lemma remove_entry o h s c t' :
  holds o (h ++ [(s, c)]) -> tail o = t' ++ [{| stream := s; tbytes := zlen c |}] -> 0 < zlen c ->
  tail_ok (rev t') (rev h) -> tailBytes o = tail_sum (tail o) ->
  let '(o1, removed) := truncateStream o s (zlen c) in
  let o2 := consumeTailMetadata (set_captured o1 (captured o1 - removed)) removed in
  removed = zlen c /\ holds o2 h /\ tail o2 = t' /\ tailBytes o2 = tail_sum t' /\ maximum o2 = maximum o.
Proof.
  intros [Hb Hcap Hv Hok] Et Hc Hok' Ht. apply Forall_app in Hv as [Hv _].
  assert (Hbuf : buffer o s = of_stream s h ++ c).
  { rewrite Hb, of_stream_snoc. by rewrite decide_True. }
  assert (E : truncateStream o s (zlen c) = (set_buffer o s (of_stream s h), zlen c)).
  { unfold truncateStream. rewrite Hbuf, zlen_app. pose proof (zlen_nonneg (of_stream s h)).
    rewrite Z.max_r by lia. replace (zlen (of_stream s h) + zlen c - zlen c) with (zlen (of_stream s h)) by lia.
    assert (Z.to_nat (zlen (of_stream s h)) = length (of_stream s h)) as -> by (unfold zlen; lia).
    rewrite take_app_length, trim_valid_id by (by apply of_stream_Valid). f_equal. lia. }
  rewrite E. split; [done|]. unfold consumeTailMetadata. cbn [tail tailBytes set_captured set_buffer captured].
  rewrite Ht, Et, rev_app_distr, tail_sum_app. cbn [rev app consume_rev].
  assert (zlen c >? 0 = true) as -> by (rewrite Z.gtb_ltb; apply Z.ltb_lt; lia).
  cbn [tbytes]. rewrite Z.min_id, Z.sub_diag, Z.eqb_refl.
  assert (Er : forall n, consume_rev (rev t') n 0 = (rev t', n)) by (intros; by destruct (rev t')).
  rewrite Er, rev_involutive. split_and!; try done; [|cbn; lia].
  split; cbn; [|rewrite Hcap, total_snoc; lia|done|done].
  intros s'. change (buffer _ s') with (buffer (set_buffer o s (of_stream s h)) s').
  rewrite set_buffer_buffer. case_decide as Hs; [by subst|]. rewrite Hb, of_stream_snoc.
  rewrite decide_False by congruence. apply app_nil_r.
Qed.

(** [removeTail] frees at least what it is asked for, as long as the tail knows
    about that many bytes. *)
Lemma remove_loop_frees m fuel o hist count :
  holds o hist -> maximum o = m -> tailBytes o = tail_sum (tail o) ->
  0 < count <= tail_sum (tail o) -> (length (tail o) < fuel)%nat ->
  let o' := remove_loop fuel o count in within m o' /\ captured o' <= captured o - count.
Proof.
  revert o hist count. induction fuel as [|fuel IH]; intros o hist count Hh Hm Ht Hc Hf; [lia|].
  assert (Hw : within m o) by (rewrite <-Hm; by eapply holds_within).
  destruct Hh as [Hb Hcap Hv Hok]. cbn [remove_loop].
  destruct (decide (tail o = [])) as [E|Hne]; [rewrite E in Hc; cbn in Hc; lia|].
  destruct (tail_ok_last _ _ Hok Hne) as (e & t' & s & c & h & Et & -> & Hs & He & Hrest).
  rewrite Et, last_snoc. assert (count >? 0 = true) as -> by (rewrite Z.gtb_ltb; apply Z.ltb_lt; lia).
  assert (Hbuf : buffer o (stream e) = of_stream s h ++ c).
  { rewrite Hb, Hs, of_stream_snoc. by rewrite decide_True. }
  assert (Hlen : zlen c <= zlen (buffer o (stream e)))
    by (rewrite Hbuf, zlen_app; pose proof (zlen_nonneg (of_stream s h)); lia).
  pose proof (truncateStream_within m o (stream e) (Z.min count (tbytes e)) Hw ltac:(lia)) as HT.
  destruct (truncateStream o (stream e) (Z.min count (tbytes e))) as [o1 removed] eqn:E1.
  destruct HT as (W1 & Hr & C1 & T1 & TB1).
  assert (removed =? 0 = false) as -> by (apply Z.eqb_neq; lia).
  rewrite C1 in *. set (o2 := consumeTailMetadata _ removed).
  assert (W2 : within m o2) by (by apply consume_within).
  assert (C2 : captured o2 = captured o - removed) by apply consume_captured.
  destruct (decide (count <= tbytes e)) as [Hle|Hgt].
  { rewrite remove_loop_done by lia. split; [done|]. lia. }
  rewrite Z.min_r in * by lia. destruct Hrest as [->|[Hfull Hok']].
  { rewrite Et in Hc. unfold tail_sum in Hc. cbn [app foldr] in Hc. lia. }
  assert (Ee : e = {| stream := s; tbytes := zlen c |}) by (destruct e; cbn in *; congruence).
  rewrite Hfull, Hs in E1. rewrite Ee in Et.
  pose proof (remove_entry o h s c t' ltac:(by split) Et ltac:(lia) Hok' Ht) as HE. rewrite E1 in HE.
  rewrite C1 in HE. destruct HE as (-> & H2 & T2 & TB2 & M2). fold o2 in H2, T2, TB2, M2.
  rewrite Et, tail_sum_app in Hc. rewrite Et, length_app in Hf. unfold tail_sum in Hc at 2. cbn in Hc, Hf.
  assert (Hl : (length (tail o2) < fuel)%nat) by (rewrite T2; lia).
  destruct (IH o2 h (count - zlen c) H2 ltac:(congruence) ltac:(congruence) ltac:(rewrite T2; lia) Hl) as [I1 I2].
  split; [done|]. cbn in I2. lia.
Qed.

Lemma tail_ok_drop a e h : tail_ok (a ++ [e]) h -> 0 < tbytes e /\ tail_ok a h.
Proof.
  revert h. induction a as [|x a IH]; intros h H; cbn in H.
  - split; [inversion H; subst; cbn; lia|constructor].
  - inversion H as [|s n c h' Hn E1 E2|s c t h' Hc Hok E1 E2]; subst.
    + by destruct (app_cons_not_nil a [] e).
    + destruct (IH _ Hok). split; [done|]. by constructor.
Qed.

Lemma tail_ok_reduce a e h k :
  tail_ok (a ++ [e]) h -> 0 < k <= tbytes e -> tail_ok (a ++ [{| stream := stream e; tbytes := k |}]) h.
Proof.
  revert h. induction a as [|x a IH]; intros h H Hk; cbn in H |- *.
  - inversion H; subst; cbn in *; constructor; lia.
  - inversion H as [|s n c h' Hn E1 E2|s c t h' Hc Hok E1 E2]; subst.
    + by destruct (app_cons_not_nil a [] e).
    + constructor; [done|]. by apply IH.
Qed.

Lemma shrink_tail_ok t h m :
  0 < m -> tail_ok (rev t) h ->
  let '(t', n) := shrink_tail t (tail_sum t) m in
  tail_ok (rev t') h /\ n = tail_sum t' /\ n = Z.min (tail_sum t) m.
Proof.
  intros Hm. induction t as [|e t IH]; intros Hok; cbn [shrink_tail].
  { split_and!; try done. unfold tail_sum. cbn. lia. }
  assert (Hs : tail_sum (e :: t) = tbytes e + tail_sum t) by done. rewrite Hs.
  cbn [rev] in Hok. destruct (tail_ok_drop _ _ _ Hok) as [He Hok'].
  destruct (_ >? m) eqn:E; rewrite Z.gtb_ltb in E; bool_norm.
  - destruct (tbytes e <=? _) eqn:E2; bool_norm.
    + replace (tbytes e + tail_sum t - tbytes e) with (tail_sum t) by lia.
      specialize (IH Hok'). destruct (shrink_tail t (tail_sum t) m) as [t' n].
      destruct IH as (I1 & I2 & I3). split_and!; [done|done|lia].
    + cbn [rev]. split_and!; [|unfold tail_sum in *; cbn [foldr tbytes] in *; lia|lia].
      apply tail_ok_reduce; [done|lia].
  - split_and!; [done|done|lia].
Qed.

(** The state after the lines [hist], as long as they fit. *)
Record fits (m : Z) (o : boundedOutput) (hist : list (Stream * bytes)) : Prop := {
  fi_holds : holds o hist;
  fi_maximum : maximum o = m;
  fi_truncated : truncated o = false;
  fi_bound : total hist <= m;
  fi_tail : tailBytes o = tail_sum (tail o);
  fi_window : tail_sum (tail o) = Z.min (total hist) (zlen TotalTruncationMarker)
}.

Definition marker_of (m : Z) : bytes :=
  if zlen TotalTruncationMarker >? m then take (Z.to_nat m) TotalTruncationMarker else TotalTruncationMarker.

(** The state after the first line that did not fit. *)
Record overflowed (m : Z) (o : boundedOutput) : Prop := {
  ov_within : within m o;
  ov_truncated : truncated o = true;
  ov_bound : captured o <= m;
  ov_marker : exists s, marker_of m `suffix_of` buffer o s
}.

Lemma total_nonneg hist : 0 <= total hist.
Proof.
  unfold total. induction hist as [|e hist IH]; cbn [foldr]; [lia|]. pose proof (zlen_nonneg (snd e)). lia.
Qed.


Lemma remove_loop_truncated fuel o count : truncated (remove_loop fuel o count) = truncated o.
Proof.
  revert o count. induction fuel as [|fuel IH]; intros o count; [done|]. cbn [remove_loop].
  destruct (last (tail o)) as [e|]; [|done]. destruct (count >? 0); [|done].
  unfold truncateStream, consumeTailMetadata. destruct (consume_rev _ _ _) as [t n].
  destruct (_ =? 0); [done|]. by rewrite IH.
Qed.

Lemma append_fits m o hist s c :
  fits m o hist -> Valid c = true -> total hist + zlen c <= m -> 0 < zlen c ->
  exists o', append o s c = Some o' /\ fits m o' (hist ++ [(s, c)]).
Proof.
  intros [[Hb Hcap Hv Hok] Hm Ht Hbd Htb Hw] Vc Hnew Hc. unfold append.
  rewrite Ht, Hm, Hcap. assert (zlen c >? m - total hist = false) as ->
    by (rewrite Z.gtb_ltb; apply Z.ltb_ge; lia).
  assert (zlen c =? 0 = false) as -> by (apply Z.eqb_neq; lia).
  unfold trackTail. assert (zlen c =? 0 = false) as -> by (apply Z.eqb_neq; lia).
  cbn [appendStream set_buffer set_captured tail tailBytes].
  set (t := tail o ++ [{| stream := s; tbytes := zlen c |}]).
  assert (Hts : tailBytes o + zlen c = tail_sum t).
  { unfold t. rewrite tail_sum_app, Htb. unfold tail_sum. cbn. lia. }
  assert (Hok' : tail_ok (rev t) (rev (hist ++ [(s, c)]))).
  { unfold t. rewrite !rev_app_distr. cbn. by constructor. }
  rewrite Hts. pose proof (shrink_tail_ok t (rev (hist ++ [(s, c)])) (zlen TotalTruncationMarker) ltac:(done) Hok') as HS.
  destruct (shrink_tail t (tail_sum t) _) as [t' n]. destruct HS as (S1 & S2 & S3).
  eexists. split; [reflexivity|]. split; cbn [maximum truncated tail tailBytes set_tail]; try done.
  - split; cbn [tail set_tail captured appendStream set_buffer set_captured]; [|rewrite total_snoc; lia| |done].
    + intros s'. change (buffer _ s') with (buffer (set_buffer o s (buffer o s ++ c)) s').
      rewrite set_buffer_buffer, of_stream_snoc. case_decide as Hs; subst.
      * by rewrite Hb, decide_True.
      * rewrite Hb, decide_False by congruence. by rewrite app_nil_r.
    + apply Forall_app; split; [done|by constructor].
  - rewrite total_snoc. lia.
  - rewrite <-S2, S3, total_snoc, <-Hts, Htb, Hw. lia.
Qed.

Lemma marker_length m : 0 <= m -> zlen (marker_of m) = Z.min m (zlen TotalTruncationMarker).
Proof.
  intros Hm. unfold marker_of. destruct (_ >? m) eqn:E; rewrite Z.gtb_ltb in E; bool_norm; [|lia].
  unfold zlen in *. rewrite length_take. lia.
Qed.

Lemma marker_Valid m : 0 <= m -> Valid (marker_of m) = true.
Proof.
  intros Hm. unfold marker_of. destruct (_ >? m) eqn:E; [|done]. rewrite Z.gtb_ltb in E. bool_norm.
  change (zlen TotalTruncationMarker) with 26 in E.
  assert (H : forallb (fun k => Valid (take k TotalTruncationMarker)) (seq 0 26) = true)
    by (vm_compute; reflexivity).
  rewrite forallb_forall in H. apply (H (Z.to_nat m)), in_seq. lia.
Qed.

(** The line that does not fit: room is made for the marker and the line is cut. *)
Lemma truncateTotal_ok m o hist c :
  0 <= m -> fits m o hist -> Valid c = true ->
  exists o' c', truncateTotal o c = Some (o', c') /\ within m o' /\ captured o' + zlen c' <= m /\
    truncated o' = false /\ Valid c' = true /\ marker_of m `suffix_of` c'.
Proof.
  intros Hm0 [Hh Hm Ht Hbd Htb Hw] Vc. unfold truncateTotal. rewrite Hm. fold (marker_of m).
  pose proof (marker_length m Hm0) as Hk. pose proof (marker_Valid m Hm0) as Vk.
  assert (Hwi : within m o) by (rewrite <-Hm; by eapply holds_within).
  pose proof (ho_captured _ _ Hh) as Hcap. pose proof (total_nonneg hist) as Hn.
  set (target := m - zlen (marker_of m)).
  assert (exists o1, (if captured o >? target then removeTail o (captured o - target) else o) = o1 /\
            within m o1 /\ captured o1 <= target /\ truncated o1 = false) as (o1 & -> & W1 & C1 & T1).
  { destruct (captured o >? target) eqn:E; rewrite Z.gtb_ltb in E; bool_norm; [|by eexists].
    destruct (remove_loop_frees m (S (length (tail o))) o hist (captured o - target)) as [I1 I2];
      [done|done|done|rewrite Hw; unfold target in *; lia|lia|].
    eexists. split; [reflexivity|]. split_and!; [done|unfold removeTail; lia|].
    unfold removeTail. by rewrite remove_loop_truncated. }
  assert (Z.min (target - captured o1) (zlen c) <? 0 = false) as ->.
  { apply Z.ltb_ge. pose proof (zlen_nonneg c). lia. }
  set (cut := trim_valid _). do 2 eexists. split; [reflexivity|]. split_and!; [done| |done| |].
  - rewrite zlen_app. assert (zlen cut <= target - captured o1); [|unfold target in *; lia].
    unfold cut. pose proof (trim_valid_length (take (Z.to_nat (Z.min (target - captured o1) (zlen c))) c)) as Hl.
    rewrite length_take in Hl. unfold zlen in *. lia.
  - apply Valid_app; [apply trim_valid_Valid|done].
  - by exists cut.
Qed.

Lemma append_overflows m o hist s c :
  0 <= m -> fits m o hist -> Valid c = true -> m < total hist + zlen c ->
  exists o', append o s c = Some o' /\ overflowed m o'.
Proof.
  intros Hm0 Hf Vc Hbig. destruct (truncateTotal_ok m o hist c Hm0 Hf Vc) as (o1 & c1 & E & W & B & T & V1 & S1).
  destruct Hf as [Hh Hm Ht Hbd Htb Hw]. unfold append. rewrite Ht, Hm, (ho_captured _ _ Hh).
  assert (zlen c >? m - total hist = true) as -> by (rewrite Z.gtb_ltb; apply Z.ltb_lt; lia).
  rewrite E. destruct W as [W1 W2 W3 W4]. destruct (zlen c1 =? 0) eqn:E0; bool_norm.
  - eexists. split; [reflexivity|]. split; cbn; try done; [|].
    + rewrite E0, Z.add_0_r in B. done.
    + assert (c1 = []) as -> by (destruct c1; [done|unfold zlen in *; cbn in *; lia]).
      exists StreamStdout. apply suffix_nil_inv in S1 as ->. apply suffix_nil.
  - unfold trackTail. assert (zlen c1 =? 0 = false) as -> by (by apply Z.eqb_neq).
    destruct (shrink_tail _ _ _) as [t n]. eexists. split; [reflexivity|]. split; cbn; try done.
    + split; cbn; [rewrite W1|..|done]; destruct s; cbn; rewrite ?zlen_app; try done; try lia;
        by apply Valid_app.
    + exists s. destruct s; cbn; by apply suffix_app_r.
Qed.

Lemma append_overflowed m o s c : overflowed m o -> append o s c = Some o.
Proof. intros [_ H _ _]. unfold append. by rewrite H. Qed.

Lemma new_fits m : 0 <= m -> fits m (new m) [].
Proof. intros Hm. split; try done. split; try done; [by intros []|constructor]. Qed.

Lemma append_all_ok m o hist lines :
  0 <= m -> fits m o hist -> Forall (fun e => Valid (snd e) = true) lines ->
  exists o', append_all o lines = Some o' /\
    if m <? total hist + total lines then overflowed m o'
    else exists hist', fits m o' hist' /\ total hist' = total hist + total lines /\
           forall s, of_stream s hist' = of_stream s (hist ++ lines).
Proof.
  intros Hm0 Hf Hv. revert o hist Hf. induction Hv as [|[s c] lines Hc Hl IH]; intros o hist Hf.
  { exists o. split; [done|]. pose proof (fi_bound _ _ _ Hf). change (total []) with 0.
    assert (m <? total hist + 0 = false) as -> by (apply Z.ltb_ge; lia).
    exists hist. split_and!; [done|lia|]. intros s. by rewrite app_nil_r. }
  cbn [append_all]. assert (Ht : total ((s, c) :: lines) = zlen c + total lines) by done.
  rewrite Ht. pose proof (total_nonneg lines). pose proof (zlen_nonneg c). pose proof (total_nonneg hist).
  destruct (decide (m < total hist + zlen c)) as [Hbig|Hsmall].
  - destruct (append_overflows m o hist s c Hm0 Hf Hc Hbig) as (o1 & -> & Hov).
    assert (m <? total hist + (zlen c + total lines) = true) as -> by (apply Z.ltb_lt; lia).
    exists o1. split; [|done]. clear -Hov. induction lines as [|[s' c'] lines IH]; [done|].
    cbn [append_all]. by rewrite (append_overflowed m).
  - destruct (decide (0 < zlen c)) as [Hpos|Hzero].
    + destruct (append_fits m o hist s c Hf Hc ltac:(lia) Hpos) as (o1 & -> & Hf1).
      destruct (IH o1 _ Hf1) as (o' & E & HI). exists o'. split; [done|].
      rewrite total_snoc in HI. replace (total hist + (zlen c + total lines))
        with (total hist + zlen c + total lines) by lia.
      destruct (m <? _); [done|]. destruct HI as (h' & F & T & S). exists h'. split_and!; [done|lia|].
      intros s'. rewrite S, <-(assoc_L (++)). done.
    + assert (c = []) as -> by (destruct c; [done|unfold zlen in *; cbn in *; lia]).
      assert (append o s [] = Some o) as ->.
      { unfold append. destruct Hf as [Hh Hm Htr Hb _ _]. rewrite Htr, Hm, (ho_captured _ _ Hh).
        assert (zlen (@nil Z) >? m - total hist = false) as ->; [|done].
        rewrite zlen_nil, Z.gtb_ltb. apply Z.ltb_ge. lia. }
      destruct (IH o hist Hf) as (o' & E & HI). exists o'. split; [done|]. rewrite zlen_nil, Z.add_0_l.
      destruct (m <? _); [done|]. destruct HI as (h' & F & T & S). exists h'. split_and!; [done|lia|].
      intros s'. rewrite S, !of_stream_app. unfold of_stream at 4. cbn. by case_decide.
Qed.


