(* ===== verification/Strconv.v ===== *)
(** Go's [strconv] for decimal integers, and ASCII letter case: what several
    components use to print, read and compare names. *)

From Stdlib Require Import ZifyBool.
From S2P Require Import Prelude Utf8.

(** ** Decimal integers *)

Fixpoint digits_of (fuel : nat) (n : Z) : bytes :=
  match fuel with
  | O => []
  | S fuel => if n <? 10 then [0x30 + n] else digits_of fuel (n / 10) ++ [0x30 + n mod 10]
  end.

(** [strconv.Itoa]; a number of magnitude [n] has at most [log2 n + 1] digits. *)
Definition itoa (n : Z) : bytes :=
  if n <? 0 then 0x2D :: digits_of (S (Z.to_nat (Z.log2 (- n)))) (- n)
  else digits_of (S (Z.to_nat (Z.log2 n))) n.

Definition digit_value (b : Z) : option Z := if in_range 0x30 0x39 b then Some (b - 0x30) else None.

(** The value of a string of digits. *)
Fixpoint read_digits (acc : Z) (p : bytes) : option Z :=
  match p with
  | [] => Some acc
  | b :: rest => match digit_value b with Some d => read_digits (acc * 10 + d) rest | None => None end
  end.

(** [strconv.ParseUint(p, 10, bits)] *)
Definition parse_uint (bits : Z) (p : bytes) : option Z :=
  match p with
  | [] => None
  | _ => match read_digits 0 p with
         | Some v => if v <? 2 ^ bits then Some v else None
         | None => None
         end
  end.

(** [strconv.ParseInt(p, 10, 64)] *)
Definition parse_int64 (p : bytes) : option Z :=
  match p with
  | [] => None
  | b :: rest =>
      let '(negative, ds) := if b =? 0x2D then (true, rest) else if b =? 0x2B then (false, rest) else (false, p) in
      match ds with
      | [] => None
      | _ => match read_digits 0 ds with
             | Some v =>
                 if negative then if v <=? 2 ^ 63 then Some (- v) else None
                 else if v <? 2 ^ 63 then Some v else None
             | None => None
             end
      end
  end.

Lemma read_digits_app acc a b :
  read_digits acc (a ++ b) = match read_digits acc a with Some v => read_digits v b | None => None end.
Proof.
  revert acc. induction a as [|x a IH]; intros acc; cbn; [done|]. destruct (digit_value x); [apply IH|done].
Qed.

Lemma digits_of_read fuel n :
  0 <= n < 2 ^ Z.of_nat fuel -> (0 < fuel)%nat ->
  read_digits 0 (digits_of fuel n) = Some n /\ digits_of fuel n <> [] /\
  Forall (fun b => in_range 0x30 0x39 b = true) (digits_of fuel n).
Proof.
  revert n. induction fuel as [|fuel IH]; intros n Hn Hf; [lia|]. cbn [digits_of].
  assert (Hd : forall d, 0 <= d < 10 -> digit_value (0x30 + d) = Some d).
  { intros d Hd. unfold digit_value. assert (in_range 0x30 0x39 (0x30 + d) = true) as -> by (unfold in_range; lia).
    f_equal. lia. }
  assert (Hr : forall d, 0 <= d < 10 -> in_range 0x30 0x39 (0x30 + d) = true) by (unfold in_range; lia).
  destruct (n <? 10) eqn:E.
  - cbn [read_digits]. rewrite Hd by lia. split_and!; [f_equal; lia|done|]. repeat constructor. apply Hr. lia.
  - assert (Hfuel : (0 < fuel)%nat).
    { destruct fuel; [|lia]. change (2 ^ Z.of_nat 1) with 2 in Hn. lia. }
    destruct (IH (n / 10)) as (I1 & I2 & I3); [|done|].
    { rewrite Nat2Z.inj_succ, Z.pow_succ_r in Hn by lia. Z.to_euclidean_division_equations. lia. }
    rewrite read_digits_app, I1. cbn [read_digits]. rewrite Hd by (Z.to_euclidean_division_equations; lia).
    split_and!.
    + f_equal. Z.to_euclidean_division_equations. lia.
    + by destruct (digits_of fuel (n / 10)).
    + apply Forall_app. split; [done|]. repeat constructor. apply Hr. Z.to_euclidean_division_equations. lia.
Qed.

Lemma itoa_digits n :
  0 <= n -> read_digits 0 (itoa n) = Some n /\ itoa n <> [] /\
            Forall (fun b => in_range 0x30 0x39 b = true) (itoa n).
Proof.
  intros Hn. unfold itoa. assert (n <? 0 = false) as -> by lia.
  apply digits_of_read; [|lia]. rewrite Nat2Z.inj_succ, Z2Nat.id by (apply Z.log2_nonneg).
  destruct (decide (n = 0)) as [->|H0]; [done|]. pose proof (Z.log2_spec n ltac:(lia)). lia.
Qed.

(** Reading undoes printing. *)
Lemma parse_uint_itoa bits n : 0 <= n < 2 ^ bits -> parse_uint bits (itoa n) = Some n.
Proof.
  intros Hn. destruct (itoa_digits n ltac:(lia)) as (R & Hne & _). unfold parse_uint.
  destruct (itoa n) as [|b p]; [done|]. rewrite R. by assert (n <? 2 ^ bits = true) as -> by lia.
Qed.

Lemma parse_int64_itoa n : 0 <= n < 2 ^ 63 -> parse_int64 (itoa n) = Some n.
Proof.
  intros Hn. destruct (itoa_digits n ltac:(lia)) as (R & Hne & Hf). unfold parse_int64.
  destruct (itoa n) as [|b p]; [done|]. apply Forall_inv in Hf. unfold in_range in Hf.
  assert (b =? 0x2D = false) as -> by lia. assert (b =? 0x2B = false) as -> by lia.
  rewrite R. by assert (n <? 2 ^ 63 = true) as -> by lia.
Qed.

(** ** Letters *)

Definition is_upper (b : Z) : bool := in_range 0x41 0x5A b.
Definition is_lower (b : Z) : bool := in_range 0x61 0x7A b.
Definition is_digit (b : Z) : bool := in_range 0x30 0x39 b.
Definition lower_byte (b : Z) : Z := if is_upper b then b + 32 else b.

(** [strings.ToLower] on ASCII text. *)
Definition to_lower (s : bytes) : bytes := map lower_byte s.

(** ** White space

    [strings.TrimSpace] and [bytes.TrimSpace]. A text starts or ends with a white
    space rune exactly when it starts or ends with the encoding of one. *)

Definition spaces : list bytes :=
  map (fun b => [b]) [0x20; 0x09; 0x0A; 0x0B; 0x0C; 0x0D] ++
  [[0xC2; 0x85]; [0xC2; 0xA0]; [0xE1; 0x9A; 0x80]] ++
  map (fun b => [0xE2; 0x80; b])
    [0x80; 0x81; 0x82; 0x83; 0x84; 0x85; 0x86; 0x87; 0x88; 0x89; 0x8A; 0xA8; 0xA9; 0xAF] ++
  [[0xE2; 0x81; 0x9F]; [0xE3; 0x80; 0x80]].

Fixpoint strip_prefix (pre s : bytes) : option bytes :=
  match pre, s with
  | [], _ => Some s
  | p :: pre, b :: s => if p =? b then strip_prefix pre s else None
  | _ :: _, [] => None
  end.

(** Strip any of the prefixes as long as one is there; every step takes a byte. *)
Fixpoint trim_left (fuel : nat) (cut : list bytes) (s : bytes) : bytes :=
  match fuel with
  | O => s
  | S fuel =>
      match List.find (fun pre => bool_decide (strip_prefix pre s <> None)) cut with
      | Some pre => match strip_prefix pre s with Some s => trim_left fuel cut s | None => s end
      | None => s
      end
  end.

Definition TrimSpace (s : bytes) : bytes :=
  let s := trim_left (length s) spaces s in
  rev (trim_left (length s) (map (@rev Z) spaces) (rev s)).
