(* ===== verification/Endian.v ===== *)
(** Big-endian integers, as [encoding/binary] writes and reads them. *)

From S2P Require Import Prelude.

(** [binary.BigEndian.PutUint16], [PutUint32] and [PutUint64], for 2, 4 and 8 bytes. *)
Fixpoint put_be (n : nat) (v : Z) : bytes :=
  match n with
  | O => []
  | S n => put_be n (v / 256) ++ [v mod 256]
  end.

(** [binary.BigEndian.Uint16] and the like, of all the bytes given. *)
Definition get_be (s : bytes) : Z := fold_left (fun v b => v * 256 + b) s 0.

Lemma put_be_length n : forall v, length (put_be n v) = n.
Proof. induction n as [|n IH]; intros v; [done|]. cbn [put_be]. rewrite length_app, IH. cbn. lia. Qed.

Lemma get_be_snoc s b : get_be (s ++ [b]) = get_be s * 256 + b.
Proof. unfold get_be. by rewrite fold_left_app. Qed.

Lemma get_put_be n : forall v, 0 <= v < 256 ^ Z.of_nat n -> get_be (put_be n v) = v.
Proof.
  induction n as [|n IH]; intros v Hv; [cbn in *; lia|]. cbn [put_be]. rewrite get_be_snoc, IH.
  - pose proof (Z.div_mod v 256). lia.
  - rewrite Nat2Z.inj_succ, Z.pow_succ_r in Hv by lia.
    split; [apply Z.div_pos; lia|apply Z.div_lt_upper_bound; lia].
Qed.

(** [uint64] of an [int64], and back. *)
Definition to_uint64 (v : Z) : Z := v mod 2 ^ 64.
Definition to_int64 (v : Z) : Z := if v <? 2 ^ 63 then v else v - 2 ^ 64.

Lemma to_int64_uint64 v : - 2 ^ 63 <= v < 2 ^ 63 -> to_int64 (to_uint64 v) = v.
Proof.
  intros Hv. unfold to_int64, to_uint64. destruct (decide (0 <= v)).
  - rewrite Z.mod_small by lia. by rewrite (proj2 (Z.ltb_lt _ _)) by lia.
  - rewrite <-(Z.mod_add v 1 (2 ^ 64)), Z.mod_small by lia. rewrite (proj2 (Z.ltb_ge _ _)) by lia. lia.
Qed.

Lemma to_uint64_range v : 0 <= to_uint64 v < 2 ^ 64.
Proof. apply Z.mod_pos_bound. lia. Qed.
