(* ===== verification/Json.v ===== *)
(** Go's [encoding/json], as far as the sources use it: [Valid], decoding into
    [any] with [UseNumber], and [Marshal] of such values. The grammar is written
    as a recursive-descent parser that returns the value and the unread bytes;
    what the package decides (the nesting limit, the coercion of strings to UTF-8,
    the HTML-safe escapes, the sorted keys) is kept. *)

From S2P Require Import Prelude Utf8 Patterns.

(** Decoded values. A number keeps its literal, as [json.Number] does. An object
    keeps its members in the order of the text until [any_of] turns it into a map. *)
Inductive json :=
  | JNull
  | JBool (b : bool)
  | JNumber (literal : bytes)
  | JString (s : bytes)
  | JArray (items : list json)
  | JObject (members : list (bytes * json)).

(** ** Lexical elements *)

Definition is_space (b : Z) : bool := (b =? 0x20) || (b =? 0x09) || (b =? 0x0A) || (b =? 0x0D).

Fixpoint skip_space (p : bytes) : bytes :=
  match p with
  | b :: rest => if is_space b then skip_space rest else p
  | [] => []
  end.

Definition is_digit (b : Z) : bool := in_range 0x30 0x39 b.

(** The value of a hexadecimal digit. *)
Definition hex_value (b : Z) : option Z :=
  if in_range 0x30 0x39 b then Some (b - 0x30)
  else if in_range 0x61 0x66 b then Some (b - 0x61 + 10)
  else if in_range 0x41 0x46 b then Some (b - 0x41 + 10)
  else None.

Definition hex4 (a b c d : Z) : option Z :=
  match hex_value a, hex_value b, hex_value c, hex_value d with
  | Some a, Some b, Some c, Some d => Some (((a * 16 + b) * 16 + c) * 16 + d)
  | _, _, _, _ => None
  end.

Fixpoint scan_digits (p : bytes) : bytes * bytes :=
  match p with
  | b :: rest =>
      if is_digit b then let '(ds, q) := scan_digits rest in (b :: ds, q) else ([], p)
  | [] => ([], [])
  end.

(** One or more digits. *)
Definition scan_digits1 (p : bytes) : option (bytes * bytes) :=
  match scan_digits p with
  | ([], _) => None
  | r => Some r
  end.

Definition scan_integer (p : bytes) : option (bytes * bytes) :=
  match p with
  | b :: rest => if b =? 0x30 then Some ([b], rest) else scan_digits1 p
  | [] => None
  end.

Definition scan_fraction (p : bytes) : option (bytes * bytes) :=
  match p with
  | b :: rest =>
      if b =? 0x2E then
        match scan_digits1 rest with
        | Some (ds, q) => Some (b :: ds, q)
        | None => None
        end
      else Some ([], p)
  | [] => Some ([], [])
  end.

Definition scan_exponent (p : bytes) : option (bytes * bytes) :=
  match p with
  | b :: rest =>
      if (b =? 0x65) || (b =? 0x45) then
        let '(sign, rest) :=
          match rest with
          | s :: rest' => if (s =? 0x2B) || (s =? 0x2D) then ([s], rest') else ([], rest)
          | [] => ([], [])
          end in
        match scan_digits1 rest with
        | Some (ds, q) => Some (b :: sign ++ ds, q)
        | None => None
        end
      else Some ([], p)
  | [] => Some ([], [])
  end.

Definition scan_number (p : bytes) : option (bytes * bytes) :=
  let '(sign, p) :=
    match p with
    | b :: rest => if b =? 0x2D then ([b], rest) else ([], p)
    | [] => ([], [])
    end in
  match scan_integer p with
  | None => None
  | Some (whole, p) =>
      match scan_fraction p with
      | None => None
      | Some (frac, p) =>
          match scan_exponent p with
          | None => None
          | Some (exp, p) => Some (sign ++ whole ++ frac ++ exp, p)
          end
      end
  end.

(** The body of a string literal, the opening quote already read: the bytes up to
    the closing quote, escapes checked but not yet replaced. *)
Definition is_simple_escape (e : Z) : bool :=
  existsb (Z.eqb e) [0x22; 0x5C; 0x2F; 0x62; 0x66; 0x6E; 0x72; 0x74].

Definition prepend (l : bytes) (r : option (bytes * bytes)) : option (bytes * bytes) :=
  match r with
  | Some (body, rest) => Some (l ++ body, rest)
  | None => None
  end.

Fixpoint scan_string (p : bytes) : option (bytes * bytes) :=
  match p with
  | [] => None
  | c :: p =>
      if c =? 0x22 then Some ([], p)
      else if c <? 0x20 then None
      else if c =? 0x5C then
        match p with
        | [] => None
        | e :: p =>
            if is_simple_escape e then prepend [c; e] (scan_string p)
            else if e =? 0x75 then
              match p with
              | h1 :: h2 :: h3 :: h4 :: p =>
                  match hex4 h1 h2 h3 h4 with
                  | Some _ => prepend [c; e; h1; h2; h3; h4] (scan_string p)
                  | None => None
                  end
              | _ => None
              end
            else None
        end
      else prepend [c] (scan_string p)
  end.

(** ** Unquoting: escapes replaced, what is not UTF-8 turned into U+FFFD *)

Definition replacement : bytes := [0xEF; 0xBF; 0xBD].

(** [utf8.AppendRune] *)
Definition EncodeRune (r : Z) : bytes :=
  if (0 <=? r) && (r <? 0x80) then [r]
  else if (0 <=? r) && (r <? 0x800) then
    [Z.lor 0xC0 (Z.shiftr r 6); Z.lor 0x80 (Z.land r 0x3F)]
  else if (r <? 0) || (0x10FFFF <? r) || in_range 0xD800 0xDFFF r then replacement
  else if r <? 0x10000 then
    [Z.lor 0xE0 (Z.shiftr r 12); Z.lor 0x80 (Z.land (Z.shiftr r 6) 0x3F);
     Z.lor 0x80 (Z.land r 0x3F)]
  else
    [Z.lor 0xF0 (Z.shiftr r 18); Z.lor 0x80 (Z.land (Z.shiftr r 12) 0x3F);
     Z.lor 0x80 (Z.land (Z.shiftr r 6) 0x3F); Z.lor 0x80 (Z.land r 0x3F)].

Definition simple_escape (e : Z) : Z :=
  if e =? 0x62 then 0x08 else if e =? 0x66 then 0x0C else if e =? 0x6E then 0x0A
  else if e =? 0x72 then 0x0D else if e =? 0x74 then 0x09 else e.

(** [getu4] at the head of [p]. *)
Definition getu4 (p : bytes) : option Z :=
  match p with
  | a :: b :: h1 :: h2 :: h3 :: h4 :: _ =>
      if (a =? 0x5C) && (b =? 0x75) then hex4 h1 h2 h3 h4 else None
  | _ => None
  end.

(** [utf16.DecodeRune], [None] for U+FFFD. *)
Definition surrogate_pair (r1 r2 : Z) : option Z :=
  if in_range 0xD800 0xDBFF r1 && in_range 0xDC00 0xDFFF r2
  then Some (Z.lor (Z.shiftl (r1 - 0xD800) 10) (r2 - 0xDC00) + 0x10000)
  else None.

(** Each turn reads at least one byte. *)
Fixpoint unquote_loop (fuel : nat) (p : bytes) : bytes :=
  match fuel, p with
  | O, _ => []
  | _, [] => []
  | S fuel, c :: rest =>
      if c =? 0x5C then
        match rest with
        | [] => []
        | e :: rest' =>
            if e =? 0x75 then
              match getu4 p with
              | None => []
              | Some rr =>
                  let after := drop 6 p in
                  if in_range 0xD800 0xDFFF rr then
                    match getu4 after with
                    | Some rr1 =>
                        match surrogate_pair rr rr1 with
                        | Some dec => EncodeRune dec ++ unquote_loop fuel (drop 6 after)
                        | None => replacement ++ unquote_loop fuel after
                        end
                    | None => replacement ++ unquote_loop fuel after
                    end
                  else EncodeRune rr ++ unquote_loop fuel after
              end
            else if is_simple_escape e then simple_escape e :: unquote_loop fuel rest'
            else []
        end
      else if (c =? 0x22) || (c <? 0x20) then []
      else if ascii_byte c then c :: unquote_loop fuel rest
      else
        let d := DecodeRune p in
        (if decode_failed d then replacement else take (snd d) p)
          ++ unquote_loop fuel (drop (snd d) p)
  end.

Definition unquote (body : bytes) : bytes := unquote_loop (length body) body.

(** ** Values *)

Definition maxNestingDepth : nat := 10000.

(** [literal l p]: the rest of [p] after the keyword [l]. *)
Fixpoint literal (l p : bytes) : option bytes :=
  match l, p with
  | [], _ => Some p
  | a :: l, b :: p => if a =? b then literal l p else None
  | _ :: _, [] => None
  end.

(** [value depth] reads one value, leading space included; [depth] is the nesting
    still allowed. Each call reads a byte or ends, so fuel of twice the length is
    enough. *)
Fixpoint parse_value (fuel depth : nat) (p : bytes) : option (json * bytes) :=
  match fuel with
  | O => None
  | S fuel =>
      match skip_space p with
      | [] => None
      | c :: rest =>
          if c =? 0x7B then
            match depth with
            | O => None
            | S depth =>
                match skip_space rest with
                | d :: rest' =>
                    if d =? 0x7D then Some (JObject [], rest')
                    else match parse_members fuel depth rest with
                         | Some (ms, q) => Some (JObject ms, q)
                         | None => None
                         end
                | [] => None
                end
            end
          else if c =? 0x5B then
            match depth with
            | O => None
            | S depth =>
                match skip_space rest with
                | d :: rest' =>
                    if d =? 0x5D then Some (JArray [], rest')
                    else match parse_items fuel depth rest with
                         | Some (vs, q) => Some (JArray vs, q)
                         | None => None
                         end
                | [] => None
                end
            end
          else if c =? 0x22 then
            match scan_string rest with
            | Some (body, q) => Some (JString (unquote body), q)
            | None => None
            end
          else if c =? 0x74 then option_map (pair (JBool true)) (literal (bs "rue") rest)
          else if c =? 0x66 then option_map (pair (JBool false)) (literal (bs "alse") rest)
          else if c =? 0x6E then option_map (pair JNull) (literal (bs "ull") rest)
          else match scan_number (c :: rest) with
               | Some (lit, q) => Some (JNumber lit, q)
               | None => None
               end
      end
  end
with parse_items (fuel depth : nat) (p : bytes) : option (list json * bytes) :=
  match fuel with
  | O => None
  | S fuel =>
      match parse_value fuel depth p with
      | None => None
      | Some (v, q) =>
          match skip_space q with
          | c :: rest =>
              if c =? 0x2C then
                match parse_items fuel depth rest with
                | Some (vs, q) => Some (v :: vs, q)
                | None => None
                end
              else if c =? 0x5D then Some ([v], rest)
              else None
          | [] => None
          end
      end
  end
with parse_members (fuel depth : nat) (p : bytes) : option (list (bytes * json) * bytes) :=
  match fuel with
  | O => None
  | S fuel =>
      match skip_space p with
      | q0 :: p =>
          if q0 =? 0x22 then
            match scan_string p with
            | None => None
            | Some (body, p) =>
                match skip_space p with
                | colon :: p =>
                    if colon =? 0x3A then
                      match parse_value fuel depth p with
                      | None => None
                      | Some (v, q) =>
                          match skip_space q with
                          | c :: rest =>
                              if c =? 0x2C then
                                match parse_members fuel depth rest with
                                | Some (ms, q) => Some ((unquote body, v) :: ms, q)
                                | None => None
                                end
                              else if c =? 0x7D then Some ([(unquote body, v)], rest)
                              else None
                          | [] => None
                          end
                      end
                    else None
                | [] => None
                end
            end
          else None
      | [] => None
      end
  end.

(** The first value of the text and what follows it, as [Decoder.Decode] reads. *)
Definition decode_prefix (p : bytes) : option (json * bytes) :=
  parse_value (S (2 * length p)) maxNestingDepth p.

(** The value of a text that holds one value and nothing else but space. *)
Definition parse (p : bytes) : option json :=
  match decode_prefix p with
  | Some (v, q) => if (length (skip_space q) =? 0)%nat then Some v else None
  | None => None
  end.

Definition Valid (p : bytes) : bool :=
  match parse p with Some _ => true | None => false end.

(** ** Maps *)

(** [m[k] = v] on a Go map, kept sorted by key: the order in which [Marshal]
    prints it. *)
Fixpoint map_insert (k : bytes) (v : json) (m : list (bytes * json)) : list (bytes * json) :=
  match m with
  | [] => [(k, v)]
  | (k', v') :: m' =>
      if decide (k = k') then (k, v) :: m'
      else if Automaton.bytes_leb k k' then (k, v) :: m
      else (k', v') :: map_insert k v m'
  end.

Definition map_of (ms : list (bytes * json)) : list (bytes * json) :=
  foldl (fun m kv => map_insert kv.1 kv.2 m) [] ms.

(** The value [Decode] stores in an [any]: of members with the same key the last
    one stays. *)
Fixpoint any_of (v : json) : json :=
  match v with
  | JArray vs => JArray (map any_of vs)
  | JObject ms => JObject (map_of (map (fun kv => (kv.1, any_of kv.2)) ms))
  | _ => v
  end.

(** ** [Marshal] *)

Definition unicode_escape (b : Z) : bytes :=
  bs "\u00" ++ [Encodings.hex_digit (Z.shiftr b 4); Encodings.hex_digit b].

(** An ASCII byte of a string, HTML characters escaped. *)
Definition escape_byte (b : Z) : bytes :=
  if (b =? 0x22) || (b =? 0x5C) then [0x5C; b]
  else if b =? 0x08 then bs "\b" else if b =? 0x0C then bs "\f"
  else if b =? 0x0A then bs "\n" else if b =? 0x0D then bs "\r"
  else if b =? 0x09 then bs "\t"
  else if (b <? 0x20) || (b =? 0x3C) || (b =? 0x3E) || (b =? 0x26) then unicode_escape b
  else [b].

(** The first rune of [p] as it is printed, and its length in [p]. *)
Definition escape_rune (p : bytes) : bytes * nat :=
  match p with
  | [] => ([], 0%nat)
  | c :: _ =>
      if ascii_byte c then (escape_byte c, 1%nat)
      else
        let d := DecodeRune p in
        if decode_failed d then (bs "\ufffd", 1%nat)
        else if fst d =? 0x2028 then (bs "\u2028", snd d)
        else if fst d =? 0x2029 then (bs "\u2029", snd d)
        else (take (snd d) p, snd d)
  end.

Fixpoint escape_loop (fuel : nat) (p : bytes) : bytes :=
  match fuel, p with
  | O, _ => []
  | _, [] => []
  | S fuel, _ => let '(out, n) := escape_rune p in out ++ escape_loop fuel (drop n p)
  end.

Definition escape (s : bytes) : bytes := escape_loop (length s) s.

Definition quote (s : bytes) : bytes := 0x22 :: escape s ++ [0x22].

Fixpoint join (l : list bytes) : bytes :=
  match l with
  | [] => []
  | [x] => x
  | x :: rest => x ++ 0x2C :: join rest
  end.

Fixpoint Marshal (v : json) : bytes :=
  match v with
  | JNull => bs "null"
  | JBool b => if b then bs "true" else bs "false"
  | JNumber lit => lit
  | JString s => quote s
  | JArray vs => 0x5B :: join (map Marshal vs) ++ [0x5D]
  | JObject ms => 0x7B :: join (map (fun kv => quote kv.1 ++ 0x3A :: Marshal kv.2) ms) ++ [0x7D]
  end.

Example marshal_example :
  (let q := [0x22] in
   option_map (fun v => Marshal (any_of v))
     (parse (bs " {" ++ q ++ bs "b<" ++ q ++ bs " : [1.5e+3, true]," ++ q ++ bs "a" ++ q ++ bs ":null} "))
   = Some (bs "{" ++ q ++ bs "a" ++ q ++ bs ":null," ++ q ++ bs "b\u003c" ++ q ++ bs ":[1.5e+3,true]}")).
Proof. vm_compute. reflexivity. Qed.
