(* ===== verification/JsonLaws.v ===== *)
(** Laws of the JSON model: a printed value parses back to itself, and what the
    parser yields is well formed (strings are UTF-8, numbers are literals), so that
    it can be printed again. *)

From Stdlib Require Import ZifyBool.
From S2P Require Import Prelude Utf8 Patterns Json.

(** ** Bytes by enumeration *)

Lemma ascii_elem b : ascii_byte b = true -> b ∈ seqZ 0 128.
Proof. unfold ascii_byte, in_range. intros H. bool_norm. apply elem_of_seqZ. lia. Qed.

(** A property of every ASCII byte, checked one byte at a time. *)
Ltac ascii_cases b H :=
  apply ascii_elem in H; revert b H; apply Forall_forall;
  let l := eval vm_compute in (seqZ 0 128) in change (seqZ 0 128) with l;
  repeat (apply Forall_cons; split); try exact (Forall_nil_2 _).

Lemma lor_tag (tag width x : Z) :
  (tag, width) ∈ [(0x80, 64); (0xC0, 32); (0xE0, 16); (0xF0, 8)] -> 0 <= x < width ->
  Z.lor tag x = tag + x.
Proof.
  intros Ht Hx.
  assert (H : Forall (fun tw => Forall (fun x => Z.lor tw.1 x = tw.1 + x) (seqZ 0 tw.2))
                [(0x80, 64); (0xC0, 32); (0xE0, 16); (0xF0, 8)]).
  { apply Forall_forall. intros tw Htw. apply Forall_forall. intros y Hy.
    repeat (apply elem_of_cons in Htw as [->|Htw];
            [revert y Hy; apply Forall_forall; vm_compute; repeat constructor|]).
    by apply not_elem_of_nil in Htw. }
  rewrite Forall_forall in H. specialize (H _ Ht). rewrite Forall_forall in H.
  apply (H x), elem_of_seqZ. cbn [fst snd]. lia.
Qed.

Lemma shiftr_div (r k : Z) : 0 <= k -> Z.shiftr r k = r / 2 ^ k.
Proof. apply Z.shiftr_div_pow2. Qed.

Lemma land_63 (r : Z) : Z.land r 0x3F = r mod 64.
Proof. change 0x3F with (Z.ones 6). by rewrite Z.land_ones. Qed.

(** ** [EncodeRune] yields UTF-8 *)

Ltac tags :=
  repeat match goal with
  | |- context [Z.lor 0x80 ?x] => rewrite (lor_tag 0x80 64 x) by (set_solver || (Z.to_euclidean_division_equations; lia))
  | |- context [Z.lor 0xC0 ?x] => rewrite (lor_tag 0xC0 32 x) by (set_solver || (Z.to_euclidean_division_equations; lia))
  | |- context [Z.lor 0xE0 ?x] => rewrite (lor_tag 0xE0 16 x) by (set_solver || (Z.to_euclidean_division_equations; lia))
  | |- context [Z.lor 0xF0 ?x] => rewrite (lor_tag 0xF0 8 x) by (set_solver || (Z.to_euclidean_division_equations; lia))
  end.

Lemma Valid_2 a b :
  in_range 0xC2 0xDF a = true -> in_range 0x80 0xBF b = true -> Utf8.Valid [a; b] = true.
Proof.
  intros Ha Hb. rewrite Valid_rune with (n := 2%nat); [done|].
  unfold rune_at, decode_failed. cbn [DecodeRune].
  assert (ascii_byte a = false) as -> by (unfold ascii_byte, in_range in *; lia).
  assert (accept a b = true) as -> by (unfold accept, in_range in *; repeat case_match; lia).
  unfold lead_size. rewrite Ha. cbn. split_and!; [done| |done]. apply andb_false_r.
Qed.

Lemma Valid_3 a b c :
  in_range 0xE0 0xEF a = true -> accept a b = true -> in_range 0x80 0xBF c = true ->
  Utf8.Valid [a; b; c] = true.
Proof.
  intros Ha Hb Hc. rewrite Valid_rune with (n := 3%nat); [done|].
  unfold rune_at, decode_failed. cbn [DecodeRune].
  assert (ascii_byte a = false) as -> by (unfold ascii_byte, in_range in *; lia).
  unfold lead_size. rewrite Ha.
  assert (in_range 0xC2 0xDF a = false) as -> by (unfold in_range in *; lia).
  unfold continuation. rewrite Hb, Hc. cbn. split_and!; [done| |done]. apply andb_false_r.
Qed.

Lemma Valid_4 a b c d :
  in_range 0xF0 0xF4 a = true -> accept a b = true -> in_range 0x80 0xBF c = true ->
  in_range 0x80 0xBF d = true -> Utf8.Valid [a; b; c; d] = true.
Proof.
  intros Ha Hb Hc Hd. rewrite Valid_rune with (n := 4%nat); [done|].
  unfold rune_at, decode_failed. cbn [DecodeRune].
  assert (ascii_byte a = false) as -> by (unfold ascii_byte, in_range in *; lia).
  unfold lead_size. rewrite Ha.
  assert (in_range 0xC2 0xDF a = false) as -> by (unfold in_range in *; lia).
  assert (in_range 0xE0 0xEF a = false) as -> by (unfold in_range in *; lia).
  unfold continuation. rewrite Hb, Hc, Hd. cbn. split_and!; [done| |done]. apply andb_false_r.
Qed.

Lemma Valid_ascii a : ascii_byte a = true -> Utf8.Valid [a] = true.
Proof.
  intros H. unfold Utf8.Valid. cbn. rewrite H. unfold decode_failed. cbn.
  by rewrite ascii_not_error.
Qed.

Ltac range_solve :=
  unfold accept, in_range; repeat case_match; bool_norm;
  rewrite ?andb_true_iff, ?Z.leb_le in *; Z.to_euclidean_division_equations; lia.

Lemma EncodeRune_Valid r : Utf8.Valid (EncodeRune r) = true.
Proof.
  unfold EncodeRune.
  destruct ((0 <=? r) && (r <? 0x80)) eqn:E1.
  { apply Valid_ascii. unfold ascii_byte, in_range. bool_norm. lia. }
  destruct ((0 <=? r) && (r <? 0x800)) eqn:E2; rewrite ?shiftr_div, ?land_63 by lia.
  { bool_norm. change (2 ^ 6) with 64. rewrite andb_false_iff in E1. bool_norm.
    assert (0x80 <= r) by lia. clear E1. tags. apply Valid_2; range_solve. }
  destruct ((r <? 0) || (0x10FFFF <? r) || in_range 0xD800 0xDFFF r) eqn:E3; [done|].
  apply orb_false_elim in E3 as [E3 E4]. apply orb_false_elim in E3 as [E3 E5]. bool_norm.
  unfold in_range in E4.
  assert (0x800 <= r) by (apply andb_false_iff in E2; destruct E2; bool_norm; lia).
  clear E1 E2. change (2 ^ 12) with 4096. change (2 ^ 6) with 64. change (2 ^ 18) with 262144.
  destruct (r <? 0x10000) eqn:E6; bool_norm; tags.
  - apply Valid_3; range_solve.
  - apply Valid_4; range_solve.
Qed.

(** ** Strings *)

Lemma unquote_loop_Valid fuel p : Utf8.Valid (unquote_loop fuel p) = true.
Proof.
  revert p. induction fuel as [|fuel IH]; intros p; [done|]. cbn [unquote_loop].
  destruct p as [|c rest]; [done|].
  destruct (c =? 0x5C); [destruct rest as [|e rest']; [done|]|].
  - destruct (e =? 0x75).
    + destruct (getu4 _); [|done].
      repeat case_match; apply Valid_app; try done; apply EncodeRune_Valid.
    + destruct (is_simple_escape e) eqn:E; [|done].
      apply (Valid_app [_]); [|done]. apply Valid_ascii.
      unfold is_simple_escape in E. cbn [existsb] in E. unfold simple_escape, ascii_byte, in_range.
      repeat case_match; lia.
  - destruct (_ || _); [done|]. destruct (ascii_byte c) eqn:E.
    { apply (Valid_app [_]); [|done]. by apply Valid_ascii. }
    destruct (decode_failed _) eqn:D; [by apply Valid_app|]. apply Valid_app; [|done].
    assert (Hr : rune_at (c :: rest) (snd (DecodeRune (c :: rest)))) by done.
    pose proof (rune_at_size _ _ Hr). apply DecodeRune_take in Hr.
    rewrite (Valid_rune _ _ Hr), drop_ge; [done|]. rewrite length_take. lia.
Qed.

Lemma unquote_Valid body : Utf8.Valid (unquote body) = true.
Proof. apply unquote_loop_Valid. Qed.

(** A byte that stands for itself in a string literal. *)
Definition plain (b : Z) : Prop := 0x20 <= b /\ b <> 0x22 /\ b <> 0x5C.

Lemma scan_plain chunk rest :
  Forall plain chunk -> scan_string (chunk ++ rest) = prepend chunk (scan_string rest).
Proof.
  induction 1 as [|c chunk (H1 & H2 & H3) _ IH]; [cbn [app]; by destruct (scan_string rest) as [[]|]|].
  cbn [app scan_string]. rewrite IH.
  assert (c =? 0x22 = false) as -> by lia. assert (c <? 0x20 = false) as -> by lia.
  assert (c =? 0x5C = false) as -> by lia. by destruct (scan_string rest) as [[]|].
Qed.

(** The bytes of a rune that is not ASCII. *)
Lemma rune_plain r :
  rune_at r (length r) -> (forall c rest, r = c :: rest -> ascii_byte c = false) -> Forall plain r.
Proof.
  intros (Hne & Hok & Hn) Ha. destruct r as [|b0 rest]; [done|].
  specialize (Ha _ _ eq_refl). unfold decode_failed in Hok. cbn [DecodeRune] in *. rewrite Ha in *.
  destruct (lead_size_cases b0) as [E|[E|[E|E]]]; rewrite E in *; [done|..];
    destruct rest as [|b1 [|b2 [|b3 [|b4 rest]]]]; cbn in Hn, Hok; try done;
    repeat case_match; cbn in Hn, Hok; try done;
    unfold lead_size, accept, continuation, ascii_byte, in_range in *;
    repeat (apply Forall_cons; split); try apply Forall_nil; try done; unfold plain;
    repeat case_match; lia.
Qed.

Lemma scan_escape_byte b rest :
  ascii_byte b = true -> scan_string (escape_byte b ++ rest) = prepend (escape_byte b) (scan_string rest).
Proof. intros H. ascii_cases b H; reflexivity. Qed.

Lemma unquote_escape_byte b rest fuel :
  ascii_byte b = true -> unquote_loop (S fuel) (escape_byte b ++ rest) = b :: unquote_loop fuel rest.
Proof. intros H. ascii_cases b H; reflexivity. Qed.

Lemma lor_shiftl (x y k : Z) : 0 <= k -> 0 <= y < 2 ^ k -> Z.lor (Z.shiftl x k) y = x * 2 ^ k + y.
Proof.
  intros Hk Hy. rewrite <-Z.shiftl_mul_pow2 by done.
  assert (Z.land (Z.shiftl x k) y = 0) as H0.
  { apply Z.bits_inj'. intros n Hn. rewrite Z.land_spec, Z.bits_0.
    destruct (Z.lt_ge_cases n k).
    - by rewrite Z.shiftl_spec_low.
    - rewrite <-(Z.mod_small y (2 ^ k)) by done. rewrite Z.mod_pow2_bits_high by lia.
      apply andb_false_r. }
  pose proof (Z.add_lor_land (Z.shiftl x k) y). lia.
Qed.

Lemma land_low (b m k : Z) : m = Z.ones k -> 0 <= k -> Z.land b m = b mod 2 ^ k.
Proof. intros -> Hk. by apply Z.land_ones. Qed.

(** The value of two, three and four encoded bytes. *)
Lemma value_2 a b :
  0xC0 <= a <= 0xDF -> 0x80 <= b <= 0xBF ->
  Z.lor (Z.shiftl (Z.land a 0x1F) 6) (Z.land b 0x3F) = (a - 0xC0) * 64 + (b - 0x80).
Proof.
  intros. rewrite (land_low _ 0x1F 5), (land_low _ 0x3F 6) by done.
  rewrite lor_shiftl by (Z.to_euclidean_division_equations; lia).
  change (2 ^ 5) with 32. change (2 ^ 6) with 64. Z.to_euclidean_division_equations. lia.
Qed.

Lemma value_tail b c :
  0x80 <= b <= 0xBF -> 0x80 <= c <= 0xBF ->
  Z.lor (Z.shiftl (Z.land b 0x3F) 6) (Z.land c 0x3F) = (b - 0x80) * 64 + (c - 0x80).
Proof.
  intros. rewrite !(land_low _ 0x3F 6) by done.
  rewrite lor_shiftl by (Z.to_euclidean_division_equations; lia).
  change (2 ^ 6) with 64. Z.to_euclidean_division_equations. lia.
Qed.

Lemma value_3 a b c :
  0xE0 <= a <= 0xEF -> 0x80 <= b <= 0xBF -> 0x80 <= c <= 0xBF ->
  Z.lor (Z.shiftl (Z.land a 0x0F) 12) (Z.lor (Z.shiftl (Z.land b 0x3F) 6) (Z.land c 0x3F)) =
  (a - 0xE0) * 4096 + (b - 0x80) * 64 + (c - 0x80).
Proof.
  intros. rewrite value_tail, (land_low _ 0x0F 4) by done.
  rewrite lor_shiftl by (Z.to_euclidean_division_equations; lia).
  change (2 ^ 4) with 16. change (2 ^ 12) with 4096. Z.to_euclidean_division_equations. lia.
Qed.

Lemma value_4 a b c d :
  0xF0 <= a <= 0xF4 -> 0x80 <= b <= 0xBF -> 0x80 <= c <= 0xBF -> 0x80 <= d <= 0xBF ->
  Z.lor (Z.shiftl (Z.land a 0x07) 18)
    (Z.lor (Z.shiftl (Z.land b 0x3F) 12) (Z.lor (Z.shiftl (Z.land c 0x3F) 6) (Z.land d 0x3F))) =
  (a - 0xF0) * 262144 + (b - 0x80) * 4096 + (c - 0x80) * 64 + (d - 0x80).
Proof.
  intros. rewrite value_tail, (land_low a 0x07 3), (land_low b 0x3F 6) by done.
  rewrite (lor_shiftl (b mod 2 ^ 6)) by lia.
  rewrite lor_shiftl by (Z.to_euclidean_division_equations; lia).
  change (2 ^ 3) with 8. change (2 ^ 6) with 64. change (2 ^ 12) with 4096. change (2 ^ 18) with 262144.
  Z.to_euclidean_division_equations. lia.
Qed.

Ltac encode_arith :=
  unfold EncodeRune; rewrite ?shiftr_div, ?land_63 by done;
  change (2 ^ 6) with 64; change (2 ^ 12) with 4096; change (2 ^ 18) with 262144;
  repeat (case_match; unfold in_range in *; [lia || idtac|lia || idtac]);
  tags; repeat f_equal; Z.to_euclidean_division_equations; lia.

(** Encoding undoes decoding. *)
Lemma EncodeRune_DecodeRune r : rune_at r (length r) -> EncodeRune (fst (DecodeRune r)) = r.
Proof.
  intros (Hne & Hok & Hn). destruct r as [|b0 rest]; [done|].
  unfold decode_failed in Hok. cbn [DecodeRune] in *. destruct (ascii_byte b0) eqn:Ha.
  { destruct rest; [|done]. cbn. unfold EncodeRune, ascii_byte, in_range in *.
    case_match; [done|lia]. }
  destruct (lead_size_cases b0) as [E|[E|[E|E]]]; rewrite E in *; [done|..];
    destruct rest as [|b1 [|b2 [|b3 [|b4 rest]]]]; cbn in Hn, Hok; try done;
    destruct (_ : bool) eqn:Hc in Hn; rewrite ?Hc in *; cbn in Hn, Hok; try done; clear Hn Hok Hne Ha;
    cbn [fst]; unfold lead_size, accept, continuation, in_range in *.
  - rewrite value_2 by (repeat case_match; lia). encode_arith.
  - rewrite value_3 by (repeat case_match; lia). encode_arith.
  - rewrite value_4 by (repeat case_match; lia). encode_arith.
Qed.

Lemma escape_rune_app r rest :
  rune_at r (length r) -> escape_rune (r ++ rest) = (fst (escape_rune r), length r).
Proof.
  intros Hr. pose proof (rune_at_app _ _ rest Hr) as (Hne' & Hok' & Hn').
  destruct Hr as (Hne & Hok & Hn). destruct r as [|c r]; [done|]. unfold escape_rune.
  rewrite <-app_comm_cons. cbn [DecodeRune] in Hn. destruct (ascii_byte c) eqn:A.
  { cbn [snd] in Hn. by rewrite Hn. }
  rewrite app_comm_cons, DecodeRune_app by done. rewrite Hok.
  assert (Hs : snd (DecodeRune (c :: r)) = length (c :: r)) by (cbn [DecodeRune]; by rewrite A).
  rewrite Hs. destruct (_ =? 0x2028); [done|]. destruct (_ =? 0x2029); [done|].
  cbn [fst]. by rewrite take_app_length, take_ge.
Qed.

(** A rune that [Marshal] prints as [\uXXXX] although it is not ASCII. *)
Lemma separator_rune r v :
  rune_at r (length r) -> fst (DecodeRune r) = v -> r = EncodeRune v.
Proof. intros Hr <-. symmetry. by apply EncodeRune_DecodeRune. Qed.

Lemma unquote_escape_rune r rest fuel :
  rune_at r (length r) ->
  unquote_loop (S fuel) (fst (escape_rune r) ++ rest) = r ++ unquote_loop fuel rest.
Proof.
  intros Hr. pose proof Hr as (Hne & Hok & Hn). destruct r as [|c r]; [done|]. unfold escape_rune.
  destruct (ascii_byte c) eqn:A.
  { cbn [DecodeRune] in Hn. rewrite A in Hn. destruct r; [|done]. by apply unquote_escape_byte. }
  rewrite Hok, Hn.
  destruct (_ =? 0x2028) eqn:E1.
  { apply Z.eqb_eq in E1. rewrite (separator_rune _ _ Hr E1) at 2. reflexivity. }
  destruct (_ =? 0x2029) eqn:E2.
  { apply Z.eqb_eq in E2. rewrite (separator_rune _ _ Hr E2) at 2. reflexivity. }
  cbn [fst]. rewrite firstn_all. cbn [app unquote_loop].
  assert (Hp : plain c).
  { eapply Forall_inv, rune_plain; [done|]. by intros ? ? [= <- <-]. }
  destruct Hp as (P1 & P2 & P3).
  assert (c =? 0x5C = false) as -> by lia.
  assert ((c =? 0x22) || (c <? 0x20) = false) as -> by lia. rewrite A.
  change (c :: r ++ rest) with ((c :: r) ++ rest). rewrite DecodeRune_app, Hok, Hn by done.
  by rewrite take_app_length, drop_app_length.
Qed.

Lemma escape_loop_enough fuel s : (length s <= fuel)%nat -> escape_loop fuel s = escape s.
Proof.
  unfold escape. revert fuel.
  induction s as [s IH] using (induction_ltof1 _ (@length Z)); unfold ltof in IH.
  intros fuel Hf. destruct s as [|c s]; [by destruct fuel|].
  destruct fuel as [|fuel]; [cbn in Hf; lia|]. cbn [length escape_loop].
  destruct (escape_rune (c :: s)) as [out n] eqn:E.
  assert (1 <= n)%nat.
  { unfold escape_rune in E. pose proof (DecodeRune_size (c :: s) ltac:(done)).
    repeat case_match; simplify_eq; lia. }
  assert (length (drop n (c :: s)) <= length s)%nat by (rewrite length_drop; cbn [length]; lia).
  cbn [length] in Hf. f_equal. etrans; [apply IH|symmetry; apply IH]; cbn [length]; lia.
Qed.

Lemma escape_app r rest :
  rune_at r (length r) -> escape (r ++ rest) = fst (escape_rune r) ++ escape rest.
Proof.
  intros Hr. pose proof (rune_at_size _ _ Hr). unfold escape at 1. rewrite length_app.
  destruct (length r + length rest)%nat eqn:E; [lia|]. cbn [escape_loop].
  destruct (r ++ rest) eqn:Er; [destruct r; [cbn in *; lia|done]|]. rewrite <-Er.
  rewrite escape_rune_app, drop_app_length by done. f_equal. apply escape_loop_enough. lia.
Qed.

(** Any string, UTF-8 or not, is printed as a literal. *)
Lemma scan_escape_chunk p rest :
  p <> [] -> scan_string (fst (escape_rune p) ++ rest) = prepend (fst (escape_rune p)) (scan_string rest).
Proof.
  intros Hne. destruct p as [|c p]; [done|]. unfold escape_rune.
  destruct (ascii_byte c) eqn:A; [by apply scan_escape_byte|].
  destruct (decode_failed (DecodeRune (c :: p))) eqn:Hok; [reflexivity|].
  destruct (_ =? 0x2028); [reflexivity|]. destruct (_ =? 0x2029); [reflexivity|]. cbn [fst].
  assert (Hr : rune_at (c :: p) (snd (DecodeRune (c :: p)))) by done.
  pose proof (rune_at_size _ _ Hr) as Hs. apply DecodeRune_take in Hr.
  apply scan_plain, rune_plain.
  - by rewrite length_take, Nat.min_l by lia.
  - intros c' q E. destruct (snd (DecodeRune (c :: p))) as [|n]; [lia|]. by injection E as <- _.
Qed.

Lemma scan_escape s rest : scan_string (escape s ++ 0x22 :: rest) = Some (escape s, rest).
Proof.
  unfold escape. generalize (length s) as fuel. intros fuel. revert s.
  induction fuel as [|fuel IH]; intros s; [done|]. cbn [escape_loop]. destruct s as [|c s]; [done|].
  destruct (escape_rune (c :: s)) as [out n] eqn:E.
  assert (out = fst (escape_rune (c :: s))) as -> by (by rewrite E).
  rewrite <-(assoc_L (++)), scan_escape_chunk by done. by rewrite IH.
Qed.

Lemma unquote_escape s : Utf8.Valid s = true -> unquote (escape s) = s.
Proof.
  unfold unquote. intros Hv. apply Valid_utf8 in Hv.
  assert (H : forall fuel, (length (escape s) <= fuel)%nat -> unquote_loop fuel (escape s) = s); [|by apply H].
  induction Hv as [|r s Hr _ IH]; intros fuel Hf; [by destruct fuel|].
  rewrite escape_app in * by done. rewrite length_app in Hf.
  assert (1 <= length (fst (escape_rune r)))%nat.
  { pose proof (unquote_escape_rune r [] 0 Hr) as H. destruct (fst (escape_rune r)); [|cbn; lia].
    destruct r; [by destruct Hr|done]. }
  destruct fuel as [|fuel]; [lia|]. rewrite unquote_escape_rune by done. f_equal. apply IH. lia.
Qed.

(** ** Numbers *)

Definition digits (ds : bytes) : Prop := Forall (fun b => is_digit b = true) ds.
Definition digits1 (ds : bytes) : Prop := ds <> [] /\ digits ds.

Definition whole_part (w : bytes) : Prop :=
  w = [0x30] \/ (digits1 w /\ forall d ds, w = d :: ds -> d <> 0x30).
Definition fraction_part (f : bytes) : Prop := f = [] \/ exists ds, f = 0x2E :: ds /\ digits1 ds.
Definition exponent_part (e : bytes) : Prop :=
  e = [] \/ exists c s ds, e = c :: s ++ ds /\ (c = 0x65 \/ c = 0x45) /\
                           (s = [] \/ s = [0x2B] \/ s = [0x2D]) /\ digits1 ds.

Definition number (lit : bytes) : Prop :=
  exists s w f e, lit = s ++ w ++ f ++ e /\ (s = [] \/ s = [0x2D]) /\
    whole_part w /\ fraction_part f /\ exponent_part e.

(** What may follow a printed value: the end, a comma or a closing bracket. *)
Definition stop (rest : bytes) : Prop :=
  match rest with
  | [] => True
  | c :: _ => c = 0x2C \/ c = 0x5D \/ c = 0x7D
  end.

(** [rest] does not start with one of the bytes of [l]. *)
Definition starts_without (P : Z -> bool) (rest : bytes) : Prop :=
  match rest with [] => True | c :: _ => P c = false end.

Lemma scan_digits_inv p ds q : scan_digits p = (ds, q) -> p = ds ++ q /\ digits ds.
Proof.
  revert ds q. induction p as [|b p IH]; intros ds q; cbn; [intros [= <- <-]; by split; [|constructor]|].
  destruct (is_digit b) eqn:E; [|intros [= <- <-]; by split; [|constructor]].
  destruct (scan_digits p) as [ds' q']. destruct (IH _ _ eq_refl) as [-> H].
  intros [= <- <-]. split; [done|by constructor].
Qed.

Lemma scan_digits_app ds rest :
  digits ds -> starts_without is_digit rest -> scan_digits (ds ++ rest) = (ds, rest).
Proof.
  intros H Hr. induction H as [|b ds Hb _ IH]; cbn; [|by rewrite Hb, IH].
  destruct rest as [|c rest]; cbn in *; [done|]. by rewrite Hr.
Qed.

Lemma scan_digits1_inv p ds q : scan_digits1 p = Some (ds, q) -> p = ds ++ q /\ digits1 ds.
Proof.
  unfold scan_digits1. destruct (scan_digits p) as [[|d ds'] q'] eqn:E; [done|].
  intros [= <- <-]. apply scan_digits_inv in E as [-> H]. by repeat split.
Qed.

Lemma scan_digits1_app ds rest :
  digits1 ds -> starts_without is_digit rest -> scan_digits1 (ds ++ rest) = Some (ds, rest).
Proof.
  intros [Hne H] Hr. unfold scan_digits1. rewrite scan_digits_app by done. by destruct ds.
Qed.

Lemma scan_integer_inv p w q : scan_integer p = Some (w, q) -> p = w ++ q /\ whole_part w.
Proof.
  unfold scan_integer. destruct p as [|b p]; [done|]. destruct (b =? 0x30) eqn:E.
  - intros [= <- <-]. apply Z.eqb_eq in E as ->. split; [done|by left].
  - intros H. apply scan_digits1_inv in H as [E1 E2]. split; [done|]. right. split; [done|].
    intros d ds ->. simplify_eq/=. lia.
Qed.

Lemma scan_fraction_inv p f q : scan_fraction p = Some (f, q) -> p = f ++ q /\ fraction_part f.
Proof.
  unfold scan_fraction. destruct p as [|b p]; [intros [= <- <-]; by split; [|left]|].
  destruct (b =? 0x2E) eqn:E; [|intros [= <- <-]; by split; [|left]].
  destruct (scan_digits1 p) as [[ds q']|] eqn:Ed; [|done]. intros [= <- <-].
  apply scan_digits1_inv in Ed as [-> H]. apply Z.eqb_eq in E as ->. split; [done|right; eauto].
Qed.

Lemma scan_exponent_inv p e q : scan_exponent p = Some (e, q) -> p = e ++ q /\ exponent_part e.
Proof.
  unfold scan_exponent. destruct p as [|b p]; [intros [= <- <-]; by split; [|left]|].
  destruct (_ || _) eqn:E; [|intros [= <- <-]; by split; [|left]].
  destruct (match p with [] => _ | _ => _ end) as [sg p1] eqn:Esg.
  destruct (scan_digits1 p1) as [[ds q']|] eqn:Ed; [|done]. intros [= <- <-].
  apply scan_digits1_inv in Ed as [-> H].
  assert (p = sg ++ ds ++ q' /\ (sg = [] \/ sg = [0x2B] \/ sg = [0x2D])) as [-> Hsg].
  { destruct p as [|x p]; [simplify_eq; auto|]. destruct (_ || _) eqn:Ex in Esg; simplify_eq; auto.
    split; [done|]. apply orb_true_iff in Ex as [Ex|Ex]; apply Z.eqb_eq in Ex as ->; auto. }
  split; [by simplify_list_eq|]. right. exists b, sg, ds. split_and!; auto; try apply H.
  apply orb_true_iff in E as [E|E]; apply Z.eqb_eq in E; auto.
Qed.

Lemma scan_number_inv p lit q : scan_number p = Some (lit, q) -> p = lit ++ q /\ number lit.
Proof.
  unfold scan_number.
  destruct (match p with [] => _ | _ => _ end) as [s p1] eqn:Es.
  assert (Hs : p = s ++ p1 /\ (s = [] \/ s = [0x2D])).
  { destruct p as [|b p]; [by simplify_eq; auto|]. destruct (b =? 0x2D) eqn:E; simplify_eq; auto.
    apply Z.eqb_eq in E as ->. auto. }
  destruct (scan_integer p1) as [[w p2]|] eqn:Ew; [|done].
  destruct (scan_fraction p2) as [[f p3]|] eqn:Ef; [|done].
  destruct (scan_exponent p3) as [[e p4]|] eqn:Ee; [|done]. intros [= <- <-].
  destruct Hs as [-> Hs]. apply scan_integer_inv in Ew as [-> Hw].
  apply scan_fraction_inv in Ef as [-> Hf]. apply scan_exponent_inv in Ee as [-> He].
  split; [by simplify_list_eq|]. exists s, w, f, e. auto.
Qed.

(** Bytes that could continue a number. *)
Definition number_byte (b : Z) : bool :=
  is_digit b || existsb (Z.eqb b) [0x2E; 0x65; 0x45; 0x2B; 0x2D].

Lemma stop_number rest : stop rest -> starts_without number_byte rest.
Proof. destruct rest; [done|]. by intros [->|[->| ->]]. Qed.

Lemma starts_without_weaken (P Q : Z -> bool) rest :
  (forall b, P b = true -> Q b = true) -> starts_without Q rest -> starts_without P rest.
Proof.
  intros H. destruct rest as [|b rest]; [done|]. cbn. destruct (P b) eqn:E; [|done].
  by rewrite (H b E).
Qed.

Lemma without_digit rest : starts_without number_byte rest -> starts_without is_digit rest.
Proof. apply starts_without_weaken. intros b. unfold number_byte. by intros ->. Qed.

Lemma scan_exponent_app e rest :
  exponent_part e -> starts_without number_byte rest -> scan_exponent (e ++ rest) = Some (e, rest).
Proof.
  intros [->|(c & s & ds & -> & Hc & Hs & Hd)] Hr.
  - destruct rest as [|b rest]; [done|]. cbn in *. unfold number_byte in Hr. cbn in Hr.
    by assert ((b =? 0x65) || (b =? 0x45) = false) as -> by lia.
  - cbn [app scan_exponent]. assert ((c =? 0x65) || (c =? 0x45) = true) as -> by lia.
    rewrite <-(assoc_L (++)). pose proof (scan_digits1_app ds rest Hd (without_digit _ Hr)) as E.
    destruct Hs as [->|[->| ->]]; cbn [app Z.eqb Pos.eqb orb]; [|by rewrite E..].
    destruct Hd as [Hne Hd]. destruct ds as [|d ds]; [done|]. cbn [app].
    assert (is_digit d = true) by (by apply Forall_inv in Hd).
    assert ((d =? 0x2B) || (d =? 0x2D) = false) as -> by (unfold is_digit, in_range in *; lia).
    rewrite app_comm_cons, E. done.
Qed.

Lemma exponent_starts e rest :
  exponent_part e -> starts_without number_byte rest ->
  starts_without (fun b => is_digit b || (b =? 0x2E)) (e ++ rest).
Proof.
  intros [->|(c & s & ds & -> & Hc & _)] Hr.
  - revert Hr. apply starts_without_weaken. intros b. unfold number_byte. cbn. lia.
  - cbn. by destruct Hc as [->| ->].
Qed.

Lemma scan_fraction_app f rest :
  fraction_part f -> starts_without (fun b => is_digit b || (b =? 0x2E)) rest ->
  scan_fraction (f ++ rest) = Some (f, rest).
Proof.
  intros [->|(ds & -> & Hd)] Hr; cbn.
  - destruct rest as [|b rest]; [done|]. cbn in *. apply orb_false_iff in Hr as [_ Hr]. by rewrite Hr.
  - rewrite scan_digits1_app; [done|done|]. revert Hr. apply starts_without_weaken. by intros b ->.
Qed.

Lemma scan_number_app lit rest : number lit -> stop rest -> scan_number (lit ++ rest) = Some (lit, rest).
Proof.
  intros (s & w & f & e & -> & Hs & Hw & Hf & He) Hr. apply stop_number in Hr.
  assert (Hr' : starts_without is_digit (f ++ e ++ rest)).
  { pose proof (exponent_starts e rest He Hr) as H.
    destruct Hf as [->|(ds & -> & _)]; [|done]. revert H. apply starts_without_weaken. by intros b ->. }
  unfold scan_number. rewrite <-!(assoc_L (++)).
  assert (Ei : scan_integer (w ++ f ++ e ++ rest) = Some (w, f ++ e ++ rest)).
  { destruct Hw as [->|[Hd H0]]; [done|]. pose proof (scan_digits1_app w _ Hd Hr') as E.
    destruct Hd as [Hne _]. destruct w as [|d w]; [done|]. cbn [app scan_integer] in *.
    specialize (H0 d w eq_refl). by assert (d =? 0x30 = false) as -> by lia. }
  destruct Hs as [->| ->]; cbn [app Z.eqb Pos.eqb].
  - destruct (w ++ f ++ e ++ rest) as [|b q] eqn:Eq; [done|].
    assert (b =? 0x2D = false) as ->.
    { destruct Hw as [->|[[Hne Hd] _]]; [by simplify_eq/=|]. destruct w as [|d w]; [done|].
      apply Forall_inv in Hd. simplify_eq/=. unfold is_digit, in_range in Hd. lia. }
    rewrite Ei, scan_fraction_app by (done || by apply exponent_starts).
    by rewrite scan_exponent_app.
  - rewrite Ei, scan_fraction_app by (done || by apply exponent_starts).
    by rewrite scan_exponent_app.
Qed.

(** ** Values *)

Section json_induction.
Variable P : json -> Prop.
Hypothesis Hnull : P JNull.
Hypothesis Hbool : forall b, P (JBool b).
Hypothesis Hnumber : forall lit, P (JNumber lit).
Hypothesis Hstring : forall s, P (JString s).
Hypothesis Harray : forall vs, Forall P vs -> P (JArray vs).
Hypothesis Hobject : forall ms, Forall (fun kv => P kv.2) ms -> P (JObject ms).

Fixpoint json_nested_ind (v : json) : P v :=
  match v with
  | JNull => Hnull
  | JBool b => Hbool b
  | JNumber lit => Hnumber lit
  | JString s => Hstring s
  | JArray vs =>
      Harray vs ((fix go vs : Forall P vs :=
                    match vs with
                    | [] => Forall_nil_2 P
                    | v :: vs => Forall_cons_2 P v vs (json_nested_ind v) (go vs)
                    end) vs)
  | JObject ms =>
      Hobject ms ((fix go ms : Forall (fun kv => P kv.2) ms :=
                     match ms with
                     | [] => Forall_nil_2 _
                     | kv :: ms => Forall_cons_2 _ kv ms (json_nested_ind kv.2) (go ms)
                     end) ms)
  end.
End json_induction.

(** Numbers are literals, strings and keys satisfy [P], and nesting is at most
    [depth]. *)
Fixpoint shaped (P : bytes -> Prop) (depth : nat) (v : json) : Prop :=
  match v with
  | JNull | JBool _ => True
  | JNumber lit => number lit
  | JString s => P s
  | JArray vs => (0 < depth)%nat /\ foldr (fun v acc => shaped P (pred depth) v /\ acc) True vs
  | JObject ms =>
      (0 < depth)%nat /\
      foldr (fun kv acc => (P kv.1 /\ shaped P (pred depth) kv.2) /\ acc) True ms
  end.

(** What [Marshal] prints as JSON, and what it prints without loss. *)
Abbreviation printable := (shaped (fun _ => True)).
Abbreviation well_formed := (shaped (fun s => Utf8.Valid s = true)).

Lemma foldr_and {A} (Q : A -> Prop) (l : list A) :
  foldr (fun x acc => Q x /\ acc) True l <-> Forall Q l.
Proof. induction l as [|x l IH]; cbn; [split; [constructor|done]|]. by rewrite IH, Forall_cons. Qed.

Lemma shaped_array P depth vs :
  shaped P depth (JArray vs) <-> (0 < depth)%nat /\ Forall (shaped P (pred depth)) vs.
Proof. cbn [shaped]. by rewrite foldr_and. Qed.

Lemma shaped_object P depth ms :
  shaped P depth (JObject ms) <->
  (0 < depth)%nat /\ Forall (fun kv => P kv.1 /\ shaped P (pred depth) kv.2) ms.
Proof. cbn [shaped]. by rewrite (foldr_and (fun kv => P kv.1 /\ _ kv.2)). Qed.

Lemma shaped_weaken (P Q : bytes -> Prop) v depth :
  (forall s, P s -> Q s) -> shaped P depth v -> shaped Q depth v.
Proof.
  intros HPQ. revert depth. induction v as [|b|lit|s|vs IH|ms IH] using json_nested_ind; intros depth; try done.
  - apply HPQ.
  - rewrite !shaped_array. intros [Hd H]. split; [done|]. rewrite Forall_forall in *. auto.
  - rewrite !shaped_object. intros [Hd H]. split; [done|]. rewrite Forall_forall in *.
    intros kv Hkv. destruct (H kv Hkv). auto.
Qed.

(** Printing turns what is not UTF-8 into U+FFFD. *)
Definition coerce (s : bytes) : bytes := unquote (escape s).

Fixpoint coerced (v : json) : json :=
  match v with
  | JString s => JString (coerce s)
  | JArray vs => JArray (map coerced vs)
  | JObject ms => JObject (map (fun kv => (coerce kv.1, coerced kv.2)) ms)
  | _ => v
  end.

Lemma skip_space_id c q : is_space c = false -> skip_space (c :: q) = c :: q.
Proof. cbn. by intros ->. Qed.

(** How the text of a value starts. *)
Definition value_head (c : Z) : Prop := is_space c = false /\ c <> 0x5D /\ c <> 0x7D /\ c <> 0x2C.

Lemma number_start lit :
  number lit -> exists c q, lit = c :: q /\ (c = 0x2D \/ is_digit c = true).
Proof.
  intros (s & w & f & e & -> & Hs & Hw & _). destruct Hs as [->| ->]; cbn [app]; [|eauto].
  destruct Hw as [->|[[Hne Hd] _]]; [by eauto|]. destruct w as [|d w]; [done|].
  apply Forall_inv in Hd. cbn [app]. eauto.
Qed.

Lemma Marshal_start depth v :
  printable depth v -> exists c q, Marshal v = c :: q /\ value_head c.
Proof.
  destruct v as [|[]|lit|s|vs|ms]; intros H; try by repeat eexists.
  cbn in H. destruct (number_start lit H) as (c & q & -> & Hc). exists c, q. split; [done|].
  unfold value_head, is_space, is_digit, in_range in *. lia.
Qed.

Lemma parse_number fuel depth lit rest :
  number lit -> stop rest -> parse_value (S fuel) depth (lit ++ rest) = Some (JNumber lit, rest).
Proof.
  intros Hn Hr. pose proof (scan_number_app lit rest Hn Hr) as Es.
  destruct (number_start lit Hn) as (c & q & -> & Hc). cbn [app] in *. cbn [parse_value].
  rewrite skip_space_id by (unfold is_space, is_digit, in_range in *; lia).
  unfold is_digit, in_range in Hc.
  assert (c =? 0x7B = false) as -> by lia. assert (c =? 0x5B = false) as -> by lia.
  assert (c =? 0x22 = false) as -> by lia. assert (c =? 0x74 = false) as -> by lia.
  assert (c =? 0x66 = false) as -> by lia. assert (c =? 0x6E = false) as -> by lia.
  by rewrite Es.
Qed.

Lemma parse_string fuel depth s rest :
  parse_value (S fuel) depth (quote s ++ rest) = Some (JString (coerce s), rest).
Proof.
  unfold quote. cbn [app parse_value skip_space is_space Z.eqb Pos.eqb orb].
  rewrite <-(assoc_L (++)). cbn [app]. by rewrite scan_escape.
Qed.

Lemma join_cons x y l : join (x :: y :: l) = x ++ 0x2C :: join (y :: l).
Proof. reflexivity. Qed.

(** A value is read back from its text, whatever follows it. *)
Definition reads_back (v : json) : Prop :=
  forall fuel depth rest, printable depth v -> stop rest ->
  (2 * length (Marshal v) <= fuel)%nat ->
  parse_value fuel depth (Marshal v ++ rest) = Some (coerced v, rest).

Lemma parse_items_Marshal vs fuel depth rest :
  vs <> [] -> Forall reads_back vs -> Forall (printable depth) vs ->
  (2 * length (join (map Marshal vs)) < fuel)%nat ->
  parse_items fuel depth (join (map Marshal vs) ++ 0x5D :: rest) = Some (map coerced vs, rest).
Proof.
  intros Hne Hp Hw. revert fuel Hne. induction Hp as [|v vs Hv Hvs IH]; [done|].
  intros fuel _ Hf. apply Forall_cons in Hw as [Hw1 Hw2]. destruct fuel as [|fuel]; [lia|].
  destruct vs as [|v2 vs].
  - cbn [map join parse_items] in *. rewrite Hv; [done|done|by right; left|lia].
  - cbn [map] in Hf |- *. rewrite join_cons in Hf |- *. cbn [parse_items]. rewrite length_app in Hf. cbn [length] in Hf.
    rewrite <-(assoc_L (++)), <-app_comm_cons.
    rewrite Hv; [|done|by left|lia]. cbn [skip_space is_space Z.eqb Pos.eqb orb].
    cbn [map] in IH. rewrite IH; [done|done|done|lia].
Qed.

(** The text of one member of an object. *)
Definition member (kv : bytes * json) : bytes := quote kv.1 ++ 0x3A :: Marshal kv.2.

Lemma length_member kv :
  (length (member kv) = length (escape kv.1) + 3 + length (Marshal kv.2))%nat.
Proof. unfold member, quote. rewrite length_app. cbn [length]. rewrite length_app. cbn [length]. lia. Qed.

Lemma parse_members_Marshal ms fuel depth rest :
  ms <> [] -> Forall (fun kv => reads_back kv.2) ms ->
  Forall (fun kv => printable depth kv.2) ms ->
  (2 * length (join (map member ms)) < fuel)%nat ->
  parse_members fuel depth (join (map member ms) ++ 0x7D :: rest)
  = Some (map (fun kv => (coerce kv.1, coerced kv.2)) ms, rest).
Proof.
  intros Hne Hp Hw. revert fuel Hne. induction Hp as [|[k v] ms Hv Hms IH]; [done|].
  intros fuel _ Hf. apply Forall_cons in Hw as [Hw1 Hw2]. destruct fuel as [|fuel]; [lia|].
  cbn [fst snd] in *.
  assert (Hkey : forall q, scan_string (escape k ++ 0x22 :: q) = Some (escape k, q))
    by (intros; apply scan_escape).
  destruct ms as [|kv2 ms].
  - cbn [map join fst snd] in *. rewrite length_member in Hf.
    cbn [fst snd] in Hf. unfold member, quote. cbn [fst snd app parse_members skip_space is_space Z.eqb Pos.eqb orb].
    rewrite <-!(assoc_L (++)). cbn [app]. rewrite Hkey. cbn [skip_space is_space Z.eqb Pos.eqb orb].
    rewrite Hv; [|done|by right; right|lia]. done.
  - cbn [map fst snd] in Hf |- *. rewrite join_cons in Hf |- *. rewrite length_app, length_member in Hf. cbn [length] in Hf.
    cbn [fst snd] in Hf. unfold member at 1, quote. cbn [fst snd app parse_members skip_space is_space Z.eqb Pos.eqb orb].
    rewrite <-!(assoc_L (++)). cbn [app]. rewrite Hkey. cbn [skip_space is_space Z.eqb Pos.eqb orb].
    rewrite Hv; [|done|by left|lia]. cbn [skip_space is_space Z.eqb Pos.eqb orb].
    cbn [map] in IH. rewrite IH; [done|done|done|lia].
Qed.

Lemma Marshal_reads_back v : reads_back v.
Proof.
  induction v as [|b|lit|s|vs IH|ms IH] using json_nested_ind; intros fuel depth rest Hw Hr Hf.
  1, 2: destruct fuel as [|fuel]; [|try destruct b; reflexivity]; cbn in Hf; try destruct b; cbn in Hf; lia.
  - cbn [Marshal] in *. destruct fuel as [|fuel]; [|by apply parse_number].
    destruct (number_start lit Hw) as (c & q & -> & _). cbn in Hf. lia.
  - cbn [Marshal] in *. destruct fuel as [|fuel]; [cbn in Hf; lia|]. apply parse_string.
  - apply shaped_array in Hw as [Hd Hw]. destruct depth as [|depth]; [lia|].
    cbn [Marshal length pred] in *. rewrite length_app in Hf. cbn [length] in Hf.
    destruct fuel as [|fuel]; [lia|].
    cbn [app parse_value skip_space is_space Z.eqb Pos.eqb orb]. rewrite <-(assoc_L (++)). cbn [app].
    destruct vs as [|v vs]; [done|].
    pose proof (parse_items_Marshal (v :: vs) fuel depth rest ltac:(done) IH Hw ltac:(lia)) as E.
    apply Forall_cons in Hw as [Hv _]. destruct (Marshal_start depth v Hv) as (c & q & Ec & Hs & H1 & H2 & _).
    assert (exists q', join (map Marshal (v :: vs)) ++ 0x5D :: rest = c :: q') as [q' Eq].
    { cbn [map]. destruct vs; cbn [map join]; rewrite Ec; by eexists. }
    rewrite Eq in *. rewrite skip_space_id by done.
    assert (c =? 0x5D = false) as -> by lia. by rewrite E.
  - apply shaped_object in Hw as [Hd Hw]. destruct depth as [|depth]; [lia|].
    change (Marshal (JObject ms)) with (0x7B :: join (map member ms) ++ [0x7D]) in *.
    cbn [length pred] in *. rewrite length_app in Hf. cbn [length] in Hf.
    destruct fuel as [|fuel]; [lia|].
    cbn [app parse_value skip_space is_space Z.eqb Pos.eqb orb]. rewrite <-(assoc_L (++)). cbn [app].
    destruct ms as [|kv ms]; [done|].
    apply Forall_and in Hw as [_ Hw].
    pose proof (parse_members_Marshal (kv :: ms) fuel depth rest ltac:(done) IH Hw ltac:(lia)) as E.
    assert (exists q', join (map member (kv :: ms)) ++ 0x7D :: rest = 0x22 :: q') as [q' Eq].
    { cbn [map]. destruct ms; cbn [map join]; by eexists. }
    rewrite Eq in *. cbn [skip_space is_space Z.eqb Pos.eqb orb]. by rewrite E.
Qed.

(** The text of a value parses, to that value when its strings are UTF-8. *)
Lemma parse_Marshal v : printable maxNestingDepth v -> parse (Marshal v) = Some (coerced v).
Proof.
  intros Hw. unfold parse, decode_prefix.
  pose proof (Marshal_reads_back v (S (2 * length (Marshal v))) maxNestingDepth [] Hw ltac:(done) ltac:(lia)) as E.
  rewrite app_nil_r in E. by rewrite E.
Qed.

Lemma Valid_Marshal v : printable maxNestingDepth v -> Valid (Marshal v) = true.
Proof. intros Hw. unfold Valid. by rewrite parse_Marshal. Qed.

Lemma coerced_id v depth : well_formed depth v -> coerced v = v.
Proof.
  revert depth. induction v as [|b|lit|s|vs IH|ms IH] using json_nested_ind; intros depth; try done.
  - cbn. intros Hs. unfold coerce. by rewrite unquote_escape.
  - rewrite shaped_array. intros [_ H]. cbn [coerced]. f_equal. rewrite <-(map_id vs) at 2.
    apply map_ext_in. intros v Hv. apply list_elem_of_In in Hv. rewrite Forall_forall in *. eauto.
  - rewrite shaped_object. intros [_ H]. cbn [coerced]. f_equal. rewrite <-(map_id ms) at 2.
    apply map_ext_in. intros [k v] Hv. apply list_elem_of_In in Hv. rewrite Forall_forall in *.
    destruct (H _ Hv) as [Hk Hv']. cbn [fst snd] in *. unfold coerce. rewrite unquote_escape by done.
    f_equal. by eapply (IH _ Hv).
Qed.

(** ** What the parser yields is well formed *)

Lemma parse_well_formed fuel :
  (forall depth p v q, parse_value fuel depth p = Some (v, q) -> well_formed depth v) /\
  (forall depth p vs q, parse_items fuel depth p = Some (vs, q) -> Forall (well_formed depth) vs) /\
  (forall depth p ms q, parse_members fuel depth p = Some (ms, q) ->
     Forall (fun kv => Utf8.Valid kv.1 = true /\ well_formed depth kv.2) ms).
Proof.
  induction fuel as [|fuel (IHv & IHi & IHm)]; [done|]. split_and!.
  - intros depth p v q. cbn [parse_value].
    destruct (skip_space p) as [|c rest]; [done|].
    destruct (c =? 0x7B) eqn:Ec1; [|clear Ec1].
    { destruct depth as [|depth]; [done|]. destruct (skip_space rest) as [|d rest']; [done|].
      destruct (d =? 0x7D); [intros [= <- <-]; cbn; split; [lia|done]|].
      destruct (parse_members _ _ _) as [[ms q']|] eqn:E; [|done]. intros [= <- <-].
      apply shaped_object. split; [lia|]. by eapply IHm. }
    destruct (c =? 0x5B) eqn:Ec2; [|clear Ec2].
    { destruct depth as [|depth]; [done|]. destruct (skip_space rest) as [|d rest']; [done|].
      destruct (d =? 0x5D); [intros [= <- <-]; cbn; split; [lia|done]|].
      destruct (parse_items _ _ _) as [[vs q']|] eqn:E; [|done]. intros [= <- <-].
      apply shaped_array. split; [lia|]. by eapply IHi. }
    destruct (c =? 0x22).
    { destruct (scan_string rest) as [[body q']|]; [|done]. intros [= <- <-]. apply unquote_Valid. }
    destruct (c =? 0x74); [destruct (literal _ _); intros [=]; by subst|].
    destruct (c =? 0x66); [destruct (literal _ _); intros [=]; by subst|].
    destruct (c =? 0x6E); [destruct (literal _ _); intros [=]; by subst|].
    destruct (scan_number _) as [[lit q']|] eqn:E; [|done]. intros [= <- <-].
    apply (scan_number_inv _ _ _ E).
  - intros depth p vs q. cbn [parse_items].
    destruct (parse_value _ _ _) as [[v q1]|] eqn:E; [|done]. apply IHv in E.
    destruct (skip_space q1) as [|c rest]; [done|]. destruct (c =? 0x2C).
    + destruct (parse_items _ _ _) as [[vs' q']|] eqn:E'; [|done]. intros [= <- <-].
      constructor; [done|]. by eapply IHi.
    + destruct (c =? 0x5D); [|done]. intros [= <- <-]. by repeat constructor.
  - intros depth p ms q. cbn [parse_members].
    destruct (skip_space p) as [|q0 p1]; [done|]. destruct (q0 =? 0x22); [|done].
    destruct (scan_string p1) as [[body p2]|]; [|done].
    destruct (skip_space p2) as [|co p3]; [done|]. destruct (co =? 0x3A); [|done].
    destruct (parse_value _ _ _) as [[v q1]|] eqn:E; [|done]. apply IHv in E.
    destruct (skip_space q1) as [|c rest]; [done|].
    assert (Hk : Utf8.Valid (unquote body) = true) by apply unquote_Valid.
    destruct (c =? 0x2C).
    + destruct (parse_members _ _ _) as [[ms' q']|] eqn:E'; [|done]. intros [= <- <-].
      constructor; [done|]. by eapply IHm.
    + destruct (c =? 0x7D); [|done]. intros [= <- <-]. by repeat constructor.
Qed.

Lemma decode_well_formed p v q : decode_prefix p = Some (v, q) -> well_formed maxNestingDepth v.
Proof. apply (proj1 (parse_well_formed _)). Qed.

Lemma map_insert_Forall (P : bytes * json -> Prop) k v m :
  P (k, v) -> Forall P m -> Forall P (map_insert k v m).
Proof.
  intros Hkv. induction 1 as [|[k' v'] m H Hm IH]; cbn; [by constructor|].
  repeat case_match; repeat constructor; done.
Qed.

Lemma map_of_Forall (P : bytes * json -> Prop) ms : Forall P ms -> Forall P (map_of ms).
Proof.
  unfold map_of. intros H.
  assert (forall m, Forall P m -> Forall P (foldl (fun m kv => map_insert kv.1 kv.2 m) m ms)); [|by auto].
  induction H as [|[k v] ms Hkv _ IH]; intros m Hm; [done|]. apply IH. by apply map_insert_Forall.
Qed.

Lemma any_of_well_formed v depth : well_formed depth v -> well_formed depth (any_of v).
Proof.
  revert depth. induction v as [|b|lit|s|vs IH|ms IH] using json_nested_ind; intros depth; try done.
  - cbn [any_of]. rewrite !shaped_array. intros [Hd H]. split; [done|].
    rewrite Forall_map. rewrite Forall_forall in *. intros v Hv. cbn. auto.
  - cbn [any_of]. rewrite !shaped_object. intros [Hd H]. split; [done|].
    apply map_of_Forall. rewrite Forall_map. rewrite Forall_forall in *. intros kv Hkv. cbn.
    destruct (H kv Hkv). auto.
Qed.
