(* ===== verification/Float.v ===== *)
(** The [float64] numbers of Go, as far as JSON documents pass through them: reading a
    decimal literal with the rounding of IEEE 754, and printing the shortest decimal that
    reads back, the way [encoding/json] prints a number. Integers below [2 ^ 53] survive. *)

From Stdlib Require Import ZifyBool.
From S2P Require Import Prelude Utf8 Strconv Json.

(** A finite number: [(-1)^fneg * fm * 2^fe]. *)
Record float64 := { fneg : bool; fm : Z; fe : Z }.

#[export] Instance float64_eq_dec : EqDecision float64.
Proof. solve_decision. Defined.

(** ** Rounding *)

(** [a / b] to the nearest integer, ties to even. *)
Definition round_even (a b : Z) : Z :=
  let q := a / b in
  let r := a mod b in
  if (b <? 2 * r) || ((2 * r =? b) && Z.odd q) then q + 1 else q.

(** [x * 2 ^ e] as a fraction. *)
Definition scale_num (x e : Z) : Z := x * 2 ^ Z.max e 0.
Definition scale_den (e : Z) : Z := 2 ^ Z.max (- e) 0.

(** The exponent of the unit in the last place of [num / den]: 53 bits above it, or the
    least exponent there is. *)
Definition unit_exponent (num den : Z) : Z :=
  let e := Z.log2 num - Z.log2 den - 53 in
  Z.max (-1074) (if 2 ^ 53 <=? scale_num num (- e) / (den * scale_den (- e)) then e + 1 else e).

(** The magnitude nearest to [num / den], [None] when it is out of range. *)
Definition round_ratio (num den : Z) : option (Z * Z) :=
  let e := unit_exponent num den in
  let m := round_even (scale_num num (- e)) (den * scale_den (- e)) in
  let '(m, e) := if m =? 2 ^ 53 then (2 ^ 52, e + 1) else (m, e) in
  if 971 <? e then None else Some (m, e).

(** [d * 10 ^ k] *)
Definition round_decimal (d k : Z) : option (Z * Z) :=
  round_ratio (d * 10 ^ Z.max k 0) (10 ^ Z.max (- k) 0).

(** ** Reading *)

(** The exponent of a literal; it stops growing once it decides the result. *)
Fixpoint read_exponent (acc : Z) (p : bytes) : Z :=
  match p with
  | [] => acc
  | b :: rest => read_exponent (if acc <? 10000 then acc * 10 + (b - 0x30) else acc) rest
  end.

Definition exponent_of (e : bytes) : Z :=
  match e with
  | _ :: s :: ds => if s =? 0x2D then - read_exponent 0 ds else if s =? 0x2B then read_exponent 0 ds else read_exponent 0 (s :: ds)
  | _ => 0
  end.

(** A JSON number as its sign, its digits and the power of ten they count. *)
Definition decimal_of (lit : bytes) : option (bool * Z * Z) :=
  let '(neg, p) := match lit with b :: rest => if b =? 0x2D then (true, rest) else (false, lit) | [] => (false, []) end in
  match scan_integer p with
  | None => None
  | Some (whole, p) =>
      match scan_fraction p with
      | None => None
      | Some (frac, p) =>
          match scan_exponent p with
          | Some (exp, []) =>
              let frac := drop 1 frac in
              match read_digits 0 (whole ++ frac) with
              | Some d => Some (neg, d, exponent_of exp - zlen frac)
              | None => None
              end
          | _ => None
          end
      end
  end.

(** [strconv.ParseFloat(lit, 64)] on a JSON number; [None] is a range error. *)
Definition ParseFloat (lit : bytes) : option float64 :=
  match decimal_of lit with
  | None => None
  | Some (neg, d, k) =>
      let size := zlen (itoa d) + k in
      if d =? 0 then Some {| fneg := neg; fm := 0; fe := -1074 |}
      else if 310 <? size then None
      else if size <? -330 then Some {| fneg := neg; fm := 0; fe := -1074 |}
      else match round_decimal d k with
           | Some (m, e) => Some {| fneg := neg; fm := m; fe := e |}
           | None => None
           end
  end.

(** ** Printing *)

(** The number of digits before the point of [num / den]: [10 ^ (p - 1) <= num / den < 10 ^ p]. *)
Fixpoint leading_zeros (fuel : nat) (num den : Z) : Z :=
  match fuel with
  | O => 0
  | S fuel => if den <=? num then 1 else leading_zeros fuel (num * 10) den - 1
  end.

Definition decimal_exponent (num den : Z) : Z :=
  if den <=? num then zlen (itoa (num / den)) else leading_zeros 400 num den.

(** The nearest multiple of [10 ^ s] that reads back as the number, the nearer one first. *)
Definition nearest_decimal (m e num den s : Z) : option Z :=
  let n := num * 10 ^ Z.max (- s) 0 in
  let d := den * 10 ^ Z.max s 0 in
  let c := n / d in
  let back x := bool_decide (round_decimal x s = Some (m, e)) in
  let '(first, second) := if 2 * (n mod d) <=? d then (c, c + 1) else (c + 1, c) in
  if back first then Some first else if back second then Some second else None.

(** The shortest digits that read back, and the power of ten they count. *)
Fixpoint shortest (fuel : nat) (n : Z) (m e num den p : Z) : option (Z * Z) :=
  match fuel with
  | O => None
  | S fuel =>
      match nearest_decimal m e num den (p - n) with
      | Some c => Some (c, p - n)
      | None => shortest fuel (n + 1) m e num den p
      end
  end.

(** Digits without the zeros at their end. *)
Fixpoint strip_zeros (fuel : nat) (c s : Z) : Z * Z :=
  match fuel with
  | O => (c, s)
  | S fuel => if c mod 10 =? 0 then strip_zeros fuel (c / 10) (s + 1) else (c, s)
  end.

(** [%f] with as many digits as there are. *)
Definition format_plain (c s : Z) : bytes :=
  let ds := itoa c in
  if 0 <=? s then ds ++ replicate (Z.to_nat s) 0x30
  else
    let frac := Z.to_nat (- s) in
    let ds := replicate (S frac - length ds) 0x30 ++ ds in
    take (length ds - frac) ds ++ 0x2E :: drop (length ds - frac) ds.

(** [%e]; the exponent has two digits, of which [encoding/json] drops a leading zero. *)
Definition format_exponent (c s : Z) : bytes :=
  let ds := itoa c in
  let x := s + zlen ds - 1 in
  take 1 ds ++ (if (length ds =? 1)%nat then [] else 0x2E :: drop 1 ds)
  ++ 0x65 :: (if x <? 0 then 0x2D else 0x2B) :: itoa (Z.abs x).

(** A number as [json.Marshal] prints it. *)
Definition format_float (f : float64) : bytes :=
  let sign := if fneg f then [0x2D] else [] in
  if fm f =? 0 then sign ++ [0x30]
  else
    let num := scale_num (fm f) (fe f) in
    let den := scale_den (fe f) in
    match shortest 17 1 (fm f) (fe f) num den (decimal_exponent num den) with
    | None => []
    | Some (c, s) =>
        let '(c, s) := strip_zeros 20 c s in
        let small := match round_decimal 1 (-6) with
                     | Some (m, e) => num * scale_den e <? scale_num m e * den
                     | None => false
                     end in
        sign ++ (if small || (10 ^ 21 * den <=? num) then format_exponent c s else format_plain c s)
    end.

Example floats_print :
  map (fun s => option_map format_float (ParseFloat (bs s)))
    ["0.1"; "-0"; "100"; "1e21"; "123456789012345678901234567890"; "5e-324"; "1.7976931348623157e308"; "0.000001"; "1.5e-7";
     "2.5"; "4294967295"; "1e309"; "9007199254740993"; "0.30000000000000004"; "1e23"]
  = map (fun s => option_map bs s)
    [Some "0.1"; Some "-0"; Some "100"; Some "1e+21"; Some "1.2345678901234568e+29"; Some "5e-324";
     Some "1.7976931348623157e+308"; Some "0.000001"; Some "1.5e-7"; Some "2.5"; Some "4294967295"; None;
     Some "9007199254740992"; Some "0.30000000000000004"; Some "1e+23"].
Proof. vm_compute. reflexivity. Qed.

(** ** Decimal digits of integers *)

Lemma digits_of_enough f g n :
  0 <= n < 2 ^ Z.of_nat f -> n < 2 ^ Z.of_nat g -> (0 < f)%nat -> (0 < g)%nat -> digits_of f n = digits_of g n.
Proof.
  revert g n. induction f as [|f IH]; intros g n Hf Hg Hf0 Hg0; [lia|]. destruct g as [|g]; [lia|]. cbn [digits_of].
  destruct (n <? 10) eqn:E; [done|]. f_equal. rewrite Nat2Z.inj_succ, Z.pow_succ_r in Hf, Hg by lia.
  assert (0 < 2 ^ Z.of_nat f) by lia. assert (0 < 2 ^ Z.of_nat g) by lia.
  apply IH; try (Z.to_euclidean_division_equations; lia).
  - destruct f; [|lia]. change (2 ^ Z.of_nat 0) with 1 in *. lia.
  - destruct g; [|lia]. change (2 ^ Z.of_nat 0) with 1 in *. lia.
Qed.

Lemma itoa_nonneg n : 0 <= n -> itoa n = digits_of (S (Z.to_nat (Z.log2 n))) n.
Proof. intros H. unfold itoa. by assert (n <? 0 = false) as -> by lia. Qed.

Lemma log2_fuel n : 0 <= n -> n < 2 ^ Z.of_nat (S (Z.to_nat (Z.log2 n))).
Proof.
  intros H. rewrite Nat2Z.inj_succ, Z2Nat.id by apply Z.log2_nonneg. destruct (decide (n = 0)) as [->|]; [done|].
  apply Z.log2_spec. lia.
Qed.

Lemma itoa_ten c : 0 < c -> itoa (10 * c) = itoa c ++ [0x30].
Proof.
  intros H. rewrite (itoa_nonneg (10 * c)) by lia. cbn [digits_of]. assert (10 * c <? 10 = false) as -> by lia.
  rewrite (Z.mul_comm 10 c), Z.div_mul, Z.mod_mul by lia. f_equal.
  assert (Hlog : Z.log2 c + 1 <= Z.log2 (c * 10)) by (rewrite Z.add_1_r; rewrite <- Z.log2_double by lia; apply Z.log2_le_mono; lia).
  pose proof (Z.log2_nonneg c). rewrite itoa_nonneg by lia. apply digits_of_enough; [|by apply log2_fuel; lia|lia|lia].
  split; [lia|]. eapply Z.lt_le_trans; [by apply log2_fuel; lia|]. apply Z.pow_le_mono_r; lia.
Qed.

Lemma itoa_zeros c s : 0 < c -> 0 <= s -> itoa (c * 10 ^ s) = itoa c ++ replicate (Z.to_nat s) 0x30.
Proof.
  intros Hc. revert s. apply natlike_ind.
  - by rewrite Z.pow_0_r, Z.mul_1_r, app_nil_r.
  - intros s Hs IH. rewrite Z.pow_succ_r by done. replace (c * (10 * 10 ^ s)) with (10 * (c * 10 ^ s)) by ring.
    rewrite itoa_ten, IH, <- app_assoc, Z2Nat.inj_succ by (done || nia). f_equal.
    clear. induction (Z.to_nat s) as [|k IHk]; [done|]. cbn. by rewrite IHk.
Qed.

Lemma digits_of_bounds f n :
  0 < n < 2 ^ Z.of_nat f -> 10 ^ (zlen (digits_of f n) - 1) <= n < 10 ^ zlen (digits_of f n).
Proof.
  revert n. induction f as [|f IH]; intros n Hn; [change (2 ^ Z.of_nat 0) with 1 in Hn; lia|]. cbn [digits_of].
  destruct (n <? 10) eqn:E; [change (zlen [0x30 + n]) with 1; lia|].
  rewrite Nat2Z.inj_succ, Z.pow_succ_r in Hn by lia. rewrite zlen_app, zlen_cons, zlen_nil.
  destruct (IH (n / 10)) as [I1 I2]; [Z.to_euclidean_division_equations; lia|].
  set (l := zlen (digits_of f (n / 10))) in *. assert (0 <= l) by apply zlen_nonneg.
  assert (1 <= l) by (destruct (decide (l = 0)) as [->|]; [Z.to_euclidean_division_equations; lia|lia]).
  replace (l + (1 + 0) - 1) with (Z.succ (l - 1)) by lia. replace (l + (1 + 0)) with (Z.succ l) by lia.
  rewrite !Z.pow_succ_r by lia. Z.to_euclidean_division_equations. lia.
Qed.

Lemma itoa_bounds n : 0 < n -> 10 ^ (zlen (itoa n) - 1) <= n < 10 ^ zlen (itoa n).
Proof. intros H. rewrite itoa_nonneg by lia. apply digits_of_bounds. split; [done|]. apply log2_fuel. lia. Qed.

(** ** Integers are exact *)

Lemma round_even_exact a b : 0 < b -> round_even (a * b) b = a.
Proof.
  intros Hb. unfold round_even. rewrite Z.div_mul, Z.mod_mul by lia.
  assert (b <? 2 * 0 = false) as -> by lia. by assert (2 * 0 =? b = false) as -> by lia.
Qed.

Lemma round_even_one a : round_even a 1 = a.
Proof. rewrite <- (Z.mul_1_r a) at 1. by apply round_even_exact. Qed.

(** Above the point no bit of an integer is lost. *)
Lemma round_ratio_exact x m e : e <= 0 -> round_ratio x 1 = Some (m, e) -> m = x * 2 ^ (- e).
Proof.
  intros He. unfold round_ratio, scale_num, scale_den. set (u := unit_exponent x 1).
  destruct (round_even _ _ =? 2 ^ 53) eqn:E.
  - destruct (971 <? u + 1); [done|]. intros [= <- <-]. apply Z.eqb_eq in E.
    rewrite (Z.max_l (- u)), (Z.max_r (- - u)), Z.pow_0_r, Z.mul_1_l, round_even_one in E by lia.
    replace (- u) with (Z.succ (- (u + 1))) in E by lia. rewrite Z.pow_succ_r in E by lia.
    change (2 ^ 53) with (2 * 2 ^ 52) in E. lia.
  - destruct (971 <? u); [done|]. intros [= <- <-].
    by rewrite (Z.max_l (- u)), (Z.max_r (- - u)), Z.pow_0_r, Z.mul_1_l, round_even_one by lia.
Qed.

Lemma round_int n : 0 < n < 2 ^ 53 -> round_ratio n 1 = Some (n * 2 ^ (52 - Z.log2 n), Z.log2 n - 52).
Proof.
  intros [Hn Hlt]. pose proof (Z.log2_spec n Hn) as [L1 L2]. pose proof (Z.log2_nonneg n) as L0.
  assert (L3 : Z.log2 n < 53) by (by apply Z.log2_lt_pow2).
  assert (Hu : unit_exponent n 1 = Z.log2 n - 52).
  { unfold unit_exponent, scale_num, scale_den. change (Z.log2 1) with 0.
    rewrite (Z.max_l (- _)), (Z.max_r (- - _)), Z.pow_0_r, Z.mul_1_r, Z.div_1_r by lia.
    assert (2 ^ 53 <= n * 2 ^ (- (Z.log2 n - 0 - 53))).
    { replace (2 ^ 53) with (2 ^ Z.log2 n * 2 ^ (- (Z.log2 n - 0 - 53))); [nia|]. rewrite <- Z.pow_add_r by lia. f_equal. lia. }
    assert (2 ^ 53 <=? _ = true) as -> by lia. lia. }
  unfold round_ratio. rewrite Hu. unfold scale_num, scale_den.
  rewrite (Z.max_l (- _)), (Z.max_r (- - _)), Z.pow_0_r, Z.mul_1_l, round_even_one by lia.
  replace (- (Z.log2 n - 52)) with (52 - Z.log2 n) by lia.
  assert (n * 2 ^ (52 - Z.log2 n) < 2 ^ 53).
  { replace (2 ^ 53) with (2 ^ Z.succ (Z.log2 n) * 2 ^ (52 - Z.log2 n)); [nia|]. rewrite <- Z.pow_add_r by lia. f_equal. lia. }
  assert (n * 2 ^ (52 - Z.log2 n) =? 2 ^ 53 = false) as -> by lia. by assert (971 <? Z.log2 n - 52 = false) as -> by lia.
Qed.

Lemma round_decimal_int c s : 0 <= s -> round_decimal c s = round_ratio (c * 10 ^ s) 1.
Proof. intros Hs. unfold round_decimal. by rewrite Z.max_l, Z.max_r, Z.pow_0_r by lia. Qed.

Section integer.
Context (n : Z) (Hn : 0 < n < 2 ^ 53).

Let m : Z := n * 2 ^ (52 - Z.log2 n).
Let e : Z := Z.log2 n - 52.
Let num : Z := scale_num m e.
Let den : Z := scale_den e.

Lemma log2_below : 0 <= Z.log2 n < 53.
Proof using Hn. split; [apply Z.log2_nonneg|]. apply Z.log2_lt_pow2; lia. Qed.

Lemma den_positive : 0 < den.
Proof using. unfold den, scale_den. apply Z.pow_pos_nonneg; lia. Qed.

Lemma num_den : num = n * den.
Proof using Hn.
  pose proof log2_below. unfold num, den, scale_num, scale_den, m, e.
  rewrite Z.max_r, Z.max_l, Z.pow_0_r, Z.mul_1_r by lia. do 2 f_equal. lia.
Qed.

(** Only the number itself reads back as it. *)
Lemma reads_back x s : 0 <= s -> round_decimal x s = Some (m, e) <-> x * 10 ^ s = n.
Proof using Hn.
  intros Hs. pose proof log2_below. rewrite round_decimal_int by done. split; intros H1.
  - apply round_ratio_exact in H1; [|unfold e; lia]. unfold m, e in H1.
    replace (- (Z.log2 n - 52)) with (52 - Z.log2 n) in H1 by lia.
    assert (0 < 2 ^ (52 - Z.log2 n)) by (apply Z.pow_pos_nonneg; lia). nia.
  - rewrite H1. by apply round_int.
Qed.

Lemma nearest_integer s :
  0 <= s -> nearest_decimal m e num den s = if n mod 10 ^ s =? 0 then Some (n / 10 ^ s) else None.
Proof using Hn.
  intros Hs. unfold nearest_decimal. rewrite (Z.max_r (- s)), (Z.max_l s), Z.pow_0_r, Z.mul_1_r by lia.
  assert (Hp : 0 < 10 ^ s) by (apply Z.pow_pos_nonneg; lia). pose proof den_positive as Hd.
  assert (Hq : num / (den * 10 ^ s) = n / 10 ^ s) by (rewrite num_den, Z.mul_comm; apply Z.div_mul_cancel_l; lia).
  assert (Hr : num mod (den * 10 ^ s) = den * (n mod 10 ^ s)) by (rewrite num_den, Z.mul_comm; apply Z.mul_mod_distr_l; lia).
  rewrite Hq, Hr. pose proof (Z.div_mod n (10 ^ s) ltac:(lia)) as Hdm. pose proof (Z.mod_pos_bound n (10 ^ s) Hp) as Hb.
  assert (Hup : bool_decide (round_decimal (n / 10 ^ s + 1) s = Some (m, e)) = false).
  { apply bool_decide_eq_false. rewrite reads_back by done. nia. }
  destruct (n mod 10 ^ s =? 0) eqn:E.
  - assert (2 * (den * (n mod 10 ^ s)) <=? den * 10 ^ s = true) as -> by nia.
    rewrite bool_decide_eq_true_2; [done|]. apply reads_back; [done|]. nia.
  - assert (Hlow : bool_decide (round_decimal (n / 10 ^ s) s = Some (m, e)) = false).
    { apply bool_decide_eq_false. rewrite reads_back by done. nia. }
    destruct (_ <=? _); by rewrite Hlow, Hup.
Qed.

Lemma shortest_integer fuel k p :
  1 <= k <= p -> p - k < Z.of_nat fuel -> exists s, 0 <= s /\ n mod 10 ^ s = 0 /\
    shortest fuel k m e num den p = Some (n / 10 ^ s, s).
Proof using Hn.
  revert k. induction fuel as [|fuel IH]; intros k Hk Hf; [lia|]. cbn [shortest]. rewrite nearest_integer by lia.
  destruct (n mod 10 ^ (p - k) =? 0) eqn:E; [exists (p - k); split_and!; [lia|lia|done]|].
  destruct (decide (k = p)) as [->|]; [rewrite Z.sub_diag, Z.pow_0_r, Z.mod_1_r in E; lia|]. apply IH; lia.
Qed.

Lemma strip_zeros_value fuel c s :
  0 < c -> 0 <= s -> exists c' s', strip_zeros fuel c s = (c', s') /\ 0 < c' /\ 0 <= s' /\ c' * 10 ^ s' = c * 10 ^ s.
Proof using.
  clear. revert c s. induction fuel as [|fuel IH]; intros c s Hc Hs; cbn [strip_zeros]; [by exists c, s|].
  destruct (c mod 10 =? 0) eqn:E; [|by exists c, s]. pose proof (Z.div_mod c 10 ltac:(lia)).
  destruct (IH (c / 10) (s + 1)) as (c' & s' & Hx & Hc' & Hs' & Hv); [lia|lia|].
  exists c', s'. split_and!; try done. rewrite Hv, Z.pow_add_r, Z.pow_1_r by lia.
  replace (c * 10 ^ s) with (10 * (c / 10) * 10 ^ s) by (f_equal; lia). ring.
Qed.

Lemma format_integer b : format_float {| fneg := b; fm := m; fe := e |} = (if b then [0x2D] else []) ++ itoa n.
Proof using Hn.
  unfold format_float. cbn [fneg fm fe]. pose proof log2_below. pose proof den_positive as Hd. fold num den.
  assert (0 < m) by (unfold m; assert (0 < 2 ^ (52 - Z.log2 n)) by (apply Z.pow_pos_nonneg; lia); nia).
  assert (m =? 0 = false) as -> by lia.
  assert (Hp : decimal_exponent num den = zlen (itoa n)).
  { unfold decimal_exponent. rewrite num_den, Z.div_mul by lia. by assert (den <=? n * den = true) as -> by nia. }
  rewrite Hp. pose proof (itoa_bounds n ltac:(lia)) as [B1 B2].
  assert (Hlen : 1 <= zlen (itoa n) <= 16).
  { split; [destruct (itoa_digits n ltac:(lia)) as (_ & Hne & _); destruct (itoa n); [done|]; rewrite zlen_cons;
            pose proof (zlen_nonneg l); lia|].
    destruct (decide (zlen (itoa n) <= 16)); [done|]. assert (10 ^ 16 <= 10 ^ (zlen (itoa n) - 1)) by (apply Z.pow_le_mono_r; lia). lia. }
  destruct (shortest_integer 17 1 (zlen (itoa n))) as (s & Hs & Hm & ->); [lia|lia|].
  assert (0 < 10 ^ s) by (apply Z.pow_pos_nonneg; lia). pose proof (Z.div_mod n (10 ^ s) ltac:(lia)) as Hdm.
  destruct (strip_zeros_value 20 (n / 10 ^ s) s) as (c' & s' & -> & Hc' & Hs' & Hv); [nia|done|].
  assert (Hsmall : match round_decimal 1 (-6) with Some (m, e) => num * scale_den e <? scale_num m e * den | None => false end = false).
  { assert (E : round_decimal 1 (-6) = Some (4722366482869645, -72)) by (vm_compute; reflexivity). rewrite E, num_den.
    change (scale_den (-72)) with 4722366482869645213696. change (scale_num 4722366482869645 (-72)) with 4722366482869645. nia. }
  rewrite Hsmall, num_den. assert (10 ^ 21 * den <=? n * den = false) as -> by nia. cbn [orb]. f_equal.
  unfold format_plain. assert (0 <=? s' = true) as -> by lia. rewrite <- itoa_zeros, Hv by done. f_equal. lia.
Qed.

End integer.

Lemma scan_digits_all ds : Forall (fun b => in_range 0x30 0x39 b = true) ds -> scan_digits ds = (ds, []).
Proof.
  induction 1 as [|b ds Hb _ IH]; [done|]. cbn. unfold Json.is_digit. by rewrite Hb, IH.
Qed.

(** The first digit of a positive number is not zero. *)
Lemma itoa_head n b rest : 0 < n -> itoa n = b :: rest -> b <> 0x30.
Proof.
  intros Hn E ->. pose proof (itoa_bounds n Hn) as [B _]. destruct (itoa_digits n ltac:(lia)) as (R & _ & Hf).
  rewrite E in *. cbn in R. rewrite zlen_cons in B. apply Forall_inv_tail in Hf.
  assert (Hb : forall ds acc v, Forall (fun b => in_range 0x30 0x39 b = true) ds -> read_digits acc ds = Some v ->
                 v < (acc + 1) * 10 ^ zlen ds).
  { clear. induction ds as [|b ds IH]; intros acc v Hd; cbn [read_digits].
    - intros [= <-]. rewrite zlen_nil. lia.
    - apply Forall_cons in Hd as [Hb Hd]. unfold digit_value. rewrite Hb. intros H. apply IH in H; [|done].
      rewrite zlen_cons, Z.pow_add_r by (done || apply zlen_nonneg). unfold in_range in Hb.
      assert (0 < 10 ^ zlen ds) by (apply Z.pow_pos_nonneg; [lia|apply zlen_nonneg]). nia. }
  pose proof (Hb rest 0 n Hf R) as Hlt. rewrite Z.add_0_l, Z.mul_1_l in Hlt. replace (1 + zlen rest - 1) with (zlen rest) in B by lia. lia.
Qed.

Lemma decimal_of_itoa n : 0 <= n -> decimal_of (itoa n) = Some (false, n, 0).
Proof.
  intros Hn. destruct (itoa_digits n Hn) as (R & Hne & Hf). unfold decimal_of.
  destruct (itoa n) as [|b rest] eqn:E; [done|]. pose proof (Forall_inv Hf) as Hb. unfold in_range in Hb. cbn beta in Hb.
  assert (b =? 0x2D = false) as -> by lia. unfold scan_integer.
  assert (Hsc : (if b =? 48 then Some ([b], rest) else scan_digits1 (b :: rest)) = Some (b :: rest, [])).
  { destruct (b =? 48) eqn:E0.
    - destruct (decide (n = 0)) as [->|Hn0]; [vm_compute in E; by simplify_eq|]. exfalso. eapply (itoa_head n); [lia|done|lia].
    - unfold scan_digits1. by rewrite scan_digits_all. }
  rewrite Hsc. cbn [scan_fraction scan_exponent drop]. rewrite app_nil_r, R. done.
Qed.

(** Integers below [2 ^ 53] pass through [float64] unchanged. *)
Lemma float_integer n : 0 <= n < 2 ^ 53 -> exists f, ParseFloat (itoa n) = Some f /\ format_float f = itoa n.
Proof.
  intros Hn. unfold ParseFloat. rewrite decimal_of_itoa by lia. destruct (n =? 0) eqn:E.
  - assert (n = 0) as -> by lia. eexists. split; [done|]. by vm_compute.
  - assert (Hp : 0 < n < 2 ^ 53) by lia. pose proof (itoa_bounds n ltac:(lia)) as [B _].
    assert (zlen (itoa n) <= 17).
    { destruct (decide (zlen (itoa n) <= 17)); [done|]. assert (10 ^ 17 <= 10 ^ (zlen (itoa n) - 1)) by (apply Z.pow_le_mono_r; lia). lia. }
    pose proof (zlen_nonneg (itoa n)).
    assert (310 <? zlen (itoa n) + 0 = false) as -> by lia. assert (zlen (itoa n) + 0 <? -330 = false) as -> by lia.
    rewrite round_decimal_int, Z.pow_0_r, Z.mul_1_r, round_int by lia.
    eexists. split; [done|]. by apply (format_integer n Hp false).
Qed.
