(* ===== verification/Canonical.v ===== *)
(** Canonical JSON of terminal evidence ([src/internal/terminalevidence/json.go]): strict
    parsing with bounds, and printing with the keys in the order of their UTF-16 units
    (RFC 8785). A [float64] is kept as the text [json.Marshal] prints for it. *)

From S2P Require Import Prelude Utf8 Patterns Strconv Json Float.

Definition MaxEnvelopeBytes : Z := 2 ^ 20.
Definition maxJSONDepth : nat := 64.
Definition maxJSONNodes : Z := 100000.
Definition maxJSONArray : Z := 1000.

(** ** Parsing *)

(** Escaped surrogates come in pairs. [inString] tells whether the byte is inside a string. *)
Fixpoint surrogates_ok (inString : bool) (raw : bytes) : bool :=
  match raw with
  | [] => negb inString
  | b :: rest =>
      if b =? 0x22 then surrogates_ok (negb inString) rest
      else if negb inString || negb (b =? 0x5C) then surrogates_ok inString rest
      else
        match rest with
        | [] => false
        | u :: rest =>
            if negb (u =? 0x75) then surrogates_ok inString rest
            else
              match rest with
              | h1 :: h2 :: h3 :: h4 :: rest =>
                  match hex4 h1 h2 h3 h4 with
                  | None => false
                  | Some unit =>
                      if in_range 0xDC00 0xDFFF unit then false
                      else if negb (in_range 0xD800 0xDBFF unit) then surrogates_ok inString rest
                      else
                        match rest with
                        | b1 :: b2 :: l1 :: l2 :: l3 :: l4 :: rest =>
                            (b1 =? 0x5C) && (b2 =? 0x75)
                            && match hex4 l1 l2 l3 l4 with Some low => in_range 0xDC00 0xDFFF low | None => false end
                            && surrogates_ok inString rest
                        | _ => false
                        end
                  end
              | _ => false
              end
        end
  end.

Definition validJSONSurrogates (raw : bytes) : bool := surrogates_ok false raw.

(** A [float64] as its text. *)
Definition float_text (lit : bytes) : option bytes := format_float <$> ParseFloat lit.

(** The values of a document, itself included. *)
Fixpoint nodes (v : json) : Z :=
  match v with
  | JArray vs => 1 + foldr Z.add 0 (map nodes vs)
  | JObject ms => 1 + foldr Z.add 0 (map (fun kv => nodes (snd kv)) ms)
  | _ => 1
  end.

(** The tokens of [json.Decoder] follow the grammar of [Json.parse]; [decodeValue] is what
    the code checks and stores on the way. [depth] is the nesting still allowed. *)
Fixpoint decodeValue (depth : nat) (v : json) : option json :=
  match depth with
  | O => None
  | S depth =>
      match v with
      | JNumber lit => JNumber <$> float_text lit
      | JArray vs => if maxJSONArray <? zlen vs then None else JArray <$> mapM (decodeValue depth) vs
      | JObject ms =>
          if bool_decide (NoDup (map fst ms))
          then (fun l => JObject (map_of l)) <$> mapM (fun kv => pair (fst kv) <$> decodeValue depth (snd kv)) ms
          else None
      | _ => Some v
      end
  end.

Definition parseJSON (raw : bytes) : option json :=
  if (zlen raw =? 0) || (MaxEnvelopeBytes <? zlen raw) || negb (Utf8.Valid raw)
     || bool_decide (take 3 raw = [0xEF; 0xBB; 0xBF]) || negb (validJSONSurrogates raw)
  then None
  else
    match Json.parse raw with
    | Some v => if maxJSONNodes <? nodes v then None else decodeValue (S maxJSONDepth) v
    | None => None
    end.

(** ** Printing *)

(** [utf16.Encode([]rune(s))] *)
Fixpoint utf16_loop (fuel : nat) (p : bytes) : list Z :=
  match fuel, p with
  | O, _ => []
  | _, [] => []
  | S fuel, _ =>
      let d := DecodeRune p in
      let r := if decode_failed d then 0xFFFD else fst d in
      (if r <? 0x10000 then [r]
       else [0xD800 + Z.shiftr (r - 0x10000) 10; 0xDC00 + Z.land (r - 0x10000) 0x3FF])
      ++ utf16_loop fuel (drop (Nat.max 1 (snd d)) p)
  end.

Definition utf16_units (s : bytes) : list Z := utf16_loop (length s) s.

Definition utf16_le (a b : bytes) : Prop := Automaton.bytes_leb (utf16_units a) (utf16_units b) = true.

(** A rune of a string as it is printed. *)
Definition canonical_rune (r : Z) : bytes :=
  if (r =? 0x22) || (r =? 0x5C) then [0x5C; r]
  else if r =? 0x08 then bs "\b" else if r =? 0x09 then bs "\t" else if r =? 0x0A then bs "\n"
  else if r =? 0x0C then bs "\f" else if r =? 0x0D then bs "\r"
  else if r <? 0x20 then unicode_escape r
  else EncodeRune r.

Fixpoint canonical_runes (fuel : nat) (p : bytes) : bytes :=
  match fuel, p with
  | O, _ => []
  | _, [] => []
  | S fuel, _ =>
      let d := DecodeRune p in
      canonical_rune (if decode_failed d then 0xFFFD else fst d) ++ canonical_runes fuel (drop (Nat.max 1 (snd d)) p)
  end.

Definition appendJSONString (value : bytes) : bytes := 0x22 :: canonical_runes (length value) value ++ [0x22].

(** A number: zero has no sign, and what an integer of 53 bits cannot bound is refused. *)
Definition canonical_number (lit : bytes) : option bytes :=
  match ParseFloat lit with
  | None => None
  | Some f =>
      if 9007199254740991 * scale_den (fe f) <? scale_num (fm f) (fe f) then None
      else if fm f =? 0 then Some [0x30] else Some (format_float f)
  end.

#[export] Instance utf16_key_dec (a b : bytes * bytes) : Decision (utf16_le (fst a) (fst b)).
Proof. unfold utf16_le. apply _. Defined.

Fixpoint appendCanonical (v : json) : option bytes :=
  match v with
  | JNull => Some (bs "null")
  | JBool b => Some (if b then bs "true" else bs "false")
  | JString s => Some (appendJSONString s)
  | JNumber lit => canonical_number lit
  | JArray vs => (fun l => 0x5B :: join l ++ [0x5D]) <$> mapM appendCanonical vs
  | JObject ms =>
      (fun l => 0x7B :: join (map (fun kv => appendJSONString (fst kv) ++ 0x3A :: snd kv)
                                (merge_sort (fun a b => utf16_le (fst a) (fst b)) l)) ++ [0x7D])
      <$> mapM (fun kv => pair (fst kv) <$> appendCanonical (snd kv)) ms
  end.

Definition canonicalJSON (v : json) : option bytes := appendCanonical v.

Example canonical_example :
  (let q := [0x22] in
   (parseJSON (bs "{ " ++ q ++ bs "b" ++ q ++ bs " : 1.50e1, " ++ q ++ bs "a<" ++ q ++ bs ":[-0, null]}") ≫= canonicalJSON)
   = Some (bs "{" ++ q ++ bs "a<" ++ q ++ bs ":[0,null]," ++ q ++ bs "b" ++ q ++ bs ":15}")).
Proof. vm_compute. reflexivity. Qed.

(** ** [json.Unmarshal] into an [any]

    The last of the members with one key stays, and a number becomes a [float64]. *)
Fixpoint any_value (v : json) : option json :=
  match v with
  | JNumber lit => JNumber <$> float_text lit
  | JArray vs => JArray <$> mapM any_value vs
  | JObject ms => (fun l => JObject (map_of l)) <$> mapM (fun kv => pair (fst kv) <$> any_value (snd kv)) ms
  | _ => Some v
  end.

Definition unmarshal_any (raw : bytes) : option json := Json.parse raw ≫= any_value.
