(* ===== verification/Events.v ===== *)
(** Structured events: the configuration of a collector and the validation of an
    event ([src/internal/evidence/types.go]), and its sanitization
    ([src/internal/evidence/structured_redaction.go]). *)

From S2P Require Import Prelude Utf8 Sanitize Patterns AutomatonCorrect Redactor Json JsonLaws Processor.
Import Automaton.

(** * Limits and configuration *)

Module Config.

Definition DefaultMaxLineBytes : Z := 16 * 1024.
Definition DefaultMaxTotalBytes : Z := 1024 * 1024.
Definition DefaultMaxCompleteLogBytes : Z := 256 * 1024 * 1024.
Definition DefaultMaxEvents : Z := 1024.
Definition DefaultMaxEventBytes : Z := 64 * 1024.
Definition MaximumLineBytes : Z := 1024 * 1024.
Definition MaximumTotalBytes : Z := 64 * 1024 * 1024.
Definition MaximumCompleteLogBytes : Z := 256 * 1024 * 1024.
Definition MaximumEvents : Z := 1024.
Definition MaximumEventBytes : Z := 64 * 1024.

Record config := {
  patterns : option secretPatterns;
  MaxLineBytes : Z;
  MaxTotalBytes : Z;
  MaxCompleteLogBytes : Z;
  MaxEvents : Z;
  MaxEventBytes : Z;
  Secrets : list bytes;
  StructuredLinePrefix : bytes;
  StructuredLineKind : bytes
}.

Record EventInput := { Kind : bytes; Payload : bytes }.

Inductive eventError :=
  | KindEmpty | KindTooLong | KindNotUTF8 | PayloadNotJSON | PayloadTooLong
  | LineTooLong | CannotSanitize | GuestRefused.

Definition validateEvent (input : EventInput) (maximumBytes : Z) : option eventError :=
  if bool_decide (Kind input = []) then Some KindEmpty
  else if 128 <? zlen (Kind input) then Some KindTooLong
  else if negb (Utf8.Valid (Kind input)) then Some KindNotUTF8
  else if negb (Json.Valid (Payload input)) then Some PayloadNotJSON
  else if maximumBytes <? zlen (Payload input) then Some PayloadTooLong
  else None.

Inductive configError :=
  | NegativeLimit | LimitTooLarge | PrefixWithoutKind | PrefixInvalid | KindInvalid (e : eventError)
  | SecretEmpty | SecretNotUTF8 | TooManySecrets | ExpansionTooLarge.

Definition or_default (v d : Z) : Z := if v =? 0 then d else v.

(** The loop over the secrets; [seen] are the distinct ones so far and [total]
    their bytes. *)
Fixpoint check_secrets (seen : gset bytes) (total : Z) (secrets : list bytes) : option configError :=
  match secrets with
  | [] => None
  | secret :: rest =>
      if bool_decide (secret = []) then Some SecretEmpty
      else if negb (Utf8.Valid secret) then Some SecretNotUTF8
      else if bool_decide (secret ∈ seen) then check_secrets seen total rest
      else
        let seen := {[secret]} ∪ seen in
        let total := total + zlen secret in
        if (64 <? Z.of_nat (base.size seen)) || (64 * 1024 <? total) then Some TooManySecrets
        else check_secrets seen total rest
  end.

(** [strings.ContainsAny(s, "\r\n")] *)
Definition has_line_break (s : bytes) : bool := existsb (fun b => (b =? 0x0D) || (b =? 0x0A)) s.

Definition with_limits (c : config) (line total complete events event : Z) : config :=
  {| patterns := patterns c; MaxLineBytes := line; MaxTotalBytes := total; MaxCompleteLogBytes := complete;
     MaxEvents := events; MaxEventBytes := event; Secrets := Secrets c;
     StructuredLinePrefix := StructuredLinePrefix c; StructuredLineKind := StructuredLineKind c |}.

Definition with_patterns (c : config) (p : secretPatterns) : config :=
  {| patterns := Some p; MaxLineBytes := MaxLineBytes c; MaxTotalBytes := MaxTotalBytes c;
     MaxCompleteLogBytes := MaxCompleteLogBytes c; MaxEvents := MaxEvents c;
     MaxEventBytes := MaxEventBytes c; Secrets := Secrets c;
     StructuredLinePrefix := StructuredLinePrefix c; StructuredLineKind := StructuredLineKind c |}.

(** The part of [withDefaults] after the limits are settled. *)
Definition check_rest (c : config) : config + configError :=
  if negb (Bool.eqb (bool_decide (StructuredLinePrefix c = [])) (bool_decide (StructuredLineKind c = [])))
  then inr PrefixWithoutKind
  else if (128 <? zlen (StructuredLinePrefix c)) || has_line_break (StructuredLinePrefix c)
          || negb (Utf8.Valid (StructuredLinePrefix c))
  then inr PrefixInvalid
  else
    match (if bool_decide (StructuredLineKind c = []) then None
           else validateEvent {| Kind := StructuredLineKind c; Payload := bs "{}" |} (MaxEventBytes c)) with
    | Some e => inr (KindInvalid e)
    | None =>
        match check_secrets ∅ 0 (Secrets c) with
        | Some e => inr e
        | None =>
            match compileSecrets (Secrets c) with
            | None => inr ExpansionTooLarge
            | Some p => inl (with_patterns c p)
            end
        end
    end.

Definition withDefaults (c : config) : config + configError :=
  if (MaxLineBytes c <? 0) || (MaxTotalBytes c <? 0) || (MaxCompleteLogBytes c <? 0)
     || (MaxEvents c <? 0) || (MaxEventBytes c <? 0)
  then inr NegativeLimit
  else
    let line := or_default (MaxLineBytes c) DefaultMaxLineBytes in
    let total := or_default (MaxTotalBytes c) DefaultMaxTotalBytes in
    let complete := or_default (MaxCompleteLogBytes c) DefaultMaxCompleteLogBytes in
    let events := or_default (MaxEvents c) DefaultMaxEvents in
    let event := or_default (MaxEventBytes c) DefaultMaxEventBytes in
    if (MaximumLineBytes <? line) || (MaximumTotalBytes <? total) || (MaximumCompleteLogBytes <? complete)
       || (MaximumEvents <? events) || (MaximumEventBytes <? event)
    then inr LimitTooLarge
    else
      let line := if bool_decide (StructuredLinePrefix c = []) && (total <? line) then total else line in
      check_rest (with_limits c line total complete events event).

Definition ValidateConfig (c : config) : option configError :=
  match withDefaults c with inl _ => None | inr e => Some e end.

(** What a validated configuration guarantees. *)
Record validated (c : config) : Prop := {
  va_line : 0 < MaxLineBytes c <= MaximumLineBytes;
  va_total : 0 < MaxTotalBytes c <= MaximumTotalBytes;
  va_complete : 0 < MaxCompleteLogBytes c <= MaximumCompleteLogBytes;
  va_events : 0 < MaxEvents c <= MaximumEvents;
  va_event : 0 < MaxEventBytes c <= MaximumEventBytes;
  va_prefix_kind : StructuredLinePrefix c = [] <-> StructuredLineKind c = [];
  va_prefix : zlen (StructuredLinePrefix c) <= 128 /\ 0x0A ∉ StructuredLinePrefix c /\
              Utf8.Valid (StructuredLinePrefix c) = true;
  va_kind : StructuredLineKind c <> [] ->
            validateEvent {| Kind := StructuredLineKind c; Payload := bs "{}" |} (MaxEventBytes c) = None;
  va_secrets : Forall (fun s => s <> [] /\ Utf8.Valid s = true) (Secrets c);
  va_patterns : exists p, patterns c = Some p /\ compileSecrets (Secrets c) = Some p
}.

Lemma check_secrets_valid seen total secrets :
  check_secrets seen total secrets = None -> Forall (fun s => s <> [] /\ Utf8.Valid s = true) secrets.
Proof.
  revert seen total. induction secrets as [|s secrets IH]; intros seen total; cbn [check_secrets]; [constructor|].
  destruct (bool_decide (s = [])) eqn:E1; [done|]. destruct (Utf8.Valid s) eqn:E2; [|done]. cbn [negb].
  bool_norm. intros H. constructor; [done|]. destruct (bool_decide (s ∈ seen)); [by eapply IH|].
  destruct (_ || _); [done|by eapply IH].
Qed.

Lemma check_rest_validated c c' :
  check_rest c = inl c' ->
  0 < MaxLineBytes c <= MaximumLineBytes -> 0 < MaxTotalBytes c <= MaximumTotalBytes ->
  0 < MaxCompleteLogBytes c <= MaximumCompleteLogBytes -> 0 < MaxEvents c <= MaximumEvents ->
  0 < MaxEventBytes c <= MaximumEventBytes -> validated c'.
Proof.
  intros H. intros. unfold check_rest in H.
  destruct (Bool.eqb _ _) eqn:E1; [|done]. cbn [negb] in H. apply Bool.eqb_prop in E1.
  destruct (_ || _ || _) eqn:E2; [done|]. apply orb_false_elim in E2 as [E2 E3].
  apply orb_false_elim in E2 as [E2 E4]. bool_norm.
  destruct (if bool_decide _ then _ else _) eqn:E5; [done|].
  destruct (check_secrets _ _ _) eqn:E6; [done|]. destruct (compileSecrets _) as [p|] eqn:E7; [|done].
  injection H as <-. split; cbn; try done.
  - rewrite <-(bool_decide_eq_true (StructuredLinePrefix c = [])), E1. apply bool_decide_eq_true.
  - split_and!; [lia| |done]. intros Hin. unfold has_line_break in E4.
    assert (existsb (fun b => (b =? 0x0D) || (b =? 0x0A)) (StructuredLinePrefix c) = true); [|congruence].
    apply existsb_exists. exists 0x0A. split; [by apply list_elem_of_In|done].
  - intros Hk. rewrite bool_decide_false in E5; done.
  - by eapply check_secrets_valid.
  - by exists p.
Qed.

(** A configuration that passes validation is usable: every limit is positive
    and within its maximum, prefix and kind are set together, the prefix holds no
    line feed and is UTF-8, every secret is non-empty UTF-8, and the patterns are
    those compiled from the secrets. *)
Lemma withDefaults_validated (c c' : config) : withDefaults c = inl c' -> validated c'.
Proof.
  unfold withDefaults. destruct (_ || _ || _ || _ || _) eqn:E1; [done|].
  destruct (_ || _ || _ || _ || _) eqn:E2 in |- *; [done|]. intros H.
  repeat match goal with H : (_ || _) = false |- _ => apply orb_false_elim in H as [? ?] end. bool_norm.
  eapply check_rest_validated; [exact H|..]; cbn [MaxLineBytes MaxTotalBytes MaxCompleteLogBytes MaxEvents
    MaxEventBytes with_limits]; unfold or_default, DefaultMaxLineBytes, DefaultMaxTotalBytes,
    DefaultMaxCompleteLogBytes, DefaultMaxEvents, DefaultMaxEventBytes, MaximumLineBytes, MaximumTotalBytes,
    MaximumCompleteLogBytes, MaximumEvents, MaximumEventBytes in *; repeat case_match; bool_norm; lia.
Qed.

End Config.

(** * Sanitization of events *)

Module Structured.
Import Config.

(** [sanitizeString]: the text and whether it differs from the value. *)
Definition is_redacted (o : output) : bool := match o with Emit _ r => r | Observe _ _ => false end.

Definition sanitizeString (value : bytes) (p : secretPatterns) : bytes * bool :=
  let out := Redactor.run (newSecretRedactor (Some p) false)
               (map (fun b => [b]) (Encodings.normalized value)) in
  (text out, existsb is_redacted out || negb (bool_decide (text out = value))).

Definition changed (value : bytes) (p : secretPatterns) : bool := snd (sanitizeString value p).
Arguments sanitizeString : simpl never.
Arguments changed : simpl never.

(** [uniqueJSONKeys] on the value the tokens spell. *)
Fixpoint uniqueJSONKeys (depth : Z) (v : json) : bool :=
  if 128 <? depth then false
  else
    match v with
    | JArray vs => forallb (uniqueJSONKeys (depth + 1)) vs
    | JObject ms => bool_decide (NoDup (map fst ms)) && forallb (fun kv => uniqueJSONKeys (depth + 1) kv.2) ms
    | _ => true
    end.

(** The closure [visit]; [None] is [errStructuredRedaction]. *)
Fixpoint visit (p : secretPatterns) (depth : Z) (v : json) : option json :=
  if 128 <? depth then None
  else
    match v with
    | JNumber lit => if changed lit p then None else Some v
    | JString s => Some (JString (fst (sanitizeString s p)))
    | JArray vs =>
        option_map JArray
          (foldr (fun v acc => match visit p (depth + 1) v, acc with
                               | Some v, Some l => Some (v :: l)
                               | _, _ => None
                               end) (Some []) vs)
    | JObject ms =>
        option_map JObject
          (foldr (fun kv acc => if changed kv.1 p then None
                                else match visit p (depth + 1) kv.2, acc with
                                     | Some v, Some l => Some ((kv.1, v) :: l)
                                     | _, _ => None
                                     end) (Some []) ms)
    | _ => Some v
    end.

Definition judge (p : secretPatterns) (payload : bytes) : list (Z * bool) :=
  decisions (Redactor.run (newSecretRedactor (Some p) true) [payload]).

Definition unsafeSerializedJSON (payload : bytes) (p : secretPatterns) : bool :=
  Router.unsafe_from false false (judge p payload).

(** The payload has passed [json.Valid] in both callers. *)
Definition sanitizeEvent (input : EventInput) (patterns : option secretPatterns) (maximum : Z)
  : option EventInput :=
  match patterns with
  | None => Some input
  | Some p =>
      if (count p =? 0)%nat then Some input
      else if changed (Kind input) p then None
      else
        match decode_prefix (Payload input) with
        | None => None
        | Some (v, _) =>
            if negb (uniqueJSONKeys 0 v) then None
            else
              match visit p 0 (any_of v) with
              | None => None
              | Some clean =>
                  let payload := Marshal clean in
                  if maximum <? zlen payload then None
                  else if unsafeSerializedJSON (Payload input) p || unsafeSerializedJSON payload p then None
                  else Some {| Kind := Kind input; Payload := payload |}
              end
        end
  end.

(** ** The result is JSON *)

Lemma foldr_option_Forall {A B} (f : A -> option B) (P : B -> Prop) (Q : A -> Prop) l l' :
  Forall (fun x => forall y, f x = Some y -> Q x -> P y) l -> Forall Q l ->
  foldr (fun x acc => match f x, acc with Some y, Some k => Some (y :: k) | _, _ => None end) (Some []) l = Some l' ->
  Forall P l'.
Proof.
  intros H. revert l'. induction H as [|x l Hx _ IH]; intros l' HQ; cbn.
  { intros [= <-]. constructor. }
  apply Forall_cons in HQ as [Hq HQ]. destruct (f x) as [y|] eqn:E; [|done].
  destruct (foldr _ _ l) as [k|] eqn:Ek; [|done]. intros [= <-].
  constructor; [by apply Hx|]. by apply IH.
Qed.

Lemma visit_printable p v clean d depth :
  visit p d v = Some clean -> printable depth v -> printable depth clean.
Proof.
  revert d depth clean. induction v as [|b|lit|s|vs IH|ms IH] using json_nested_ind;
    intros d depth clean; cbn [visit]; destruct (128 <? d); try done; try (by intros [= <-]).
  - destruct (changed lit p); [done|]. by intros [= <-].
  - destruct (foldr _ _ vs) as [l|] eqn:E; [|done]. intros [= <-]. rewrite !shaped_array.
    intros [Hd Hv]. split; [done|]. revert E.
    apply (foldr_option_Forall (visit p (d + 1)) _ (printable (pred depth))); [|done].
    eapply Forall_impl; [exact IH|]. eauto.
  - destruct (foldr _ _ ms) as [l|] eqn:E; [|done]. intros [= <-]. rewrite !shaped_object.
    intros [Hd Hv]. split; [done|].
    pose proof (foldr_option_Forall
      (fun kv : bytes * json => if changed kv.1 p then None else option_map (pair kv.1) (visit p (d + 1) kv.2))
      (fun kv => True /\ printable (pred depth) kv.2)
      (fun kv => True /\ printable (pred depth) kv.2) ms l) as H.
    apply H; [|done|].
    + eapply Forall_impl; [exact IH|]. intros [k v] Hkv [k' v']. cbn. destruct (changed k p); [done|].
      destruct (visit p (d + 1) v) eqn:Ev; [|done]. intros [= <- <-] [_ Hp]. cbn. eauto.
    + rewrite <-E. clear. induction ms as [|[k v] ms IHm]; [done|]. cbn. rewrite IHm.
      destruct (changed k p); [done|]. by destruct (visit p (d + 1) v).
Qed.

Lemma decode_printable p v q : decode_prefix p = Some (v, q) -> printable maxNestingDepth (any_of v).
Proof.
  intros H. apply (shaped_weaken (fun s => Utf8.Valid s = true) (fun _ => True)); [done|].
  apply any_of_well_formed. by eapply decode_well_formed.
Qed.

Lemma sanitizeEvent_valid input patterns maximum out :
  sanitizeEvent input patterns maximum = Some out ->
  Json.Valid (Payload input) = true -> zlen (Payload input) <= maximum ->
  Kind out = Kind input /\ Json.Valid (Payload out) = true /\ zlen (Payload out) <= maximum.
Proof.
  unfold sanitizeEvent. destruct patterns as [p|]; [|by intros [= <-]].
  destruct (count p =? 0)%nat; [by intros [= <-]|]. destruct (changed (Kind input) p); [done|].
  destruct (decode_prefix (Payload input)) as [[v q]|] eqn:Ed; [|done].
  destruct (uniqueJSONKeys 0 v); [|done]. cbn [negb].
  destruct (visit p 0 (any_of v)) as [clean|] eqn:Ev; [|done].
  destruct (maximum <? zlen (Marshal clean)) eqn:El; [done|]. destruct (_ || _); [done|].
  intros [= <-] _ _. cbn. bool_norm. split_and!; [done| |done].
  apply Valid_Marshal. eapply visit_printable; [exact Ev|]. by eapply decode_printable.
Qed.

(** ** Where a secret can still stand *)

(** For every byte of a JSON text, whether it lies in the body of a string. *)
Fixpoint string_bodies (string escape : bool) (s : bytes) : list bool :=
  match s with
  | [] => []
  | v :: rest =>
      Router.in_body string escape v ::
      (let '(string, escape) := Router.scan_json string escape v in string_bodies string escape rest)
  end.

Lemma unsafe_from_false string escape ds :
  Router.unsafe_from string escape ds = false ->
  forall i b, ds !! i = Some (b, true) -> string_bodies string escape (map fst ds) !! i = Some true.
Proof.
  revert string escape. induction ds as [|[v m] ds IH]; intros string escape; cbn; [done|].
  intros H. apply orb_false_elim in H as [H1 H2].
  destruct (Router.scan_json string escape v) as [st es]. intros [|i] b Hi; cbn in *.
  - injection Hi as -> ->. by destruct (Router.in_body string escape b).
  - by eapply IH.
Qed.

Lemma judged_bodies secrets p payload secret k a i :
  compileSecrets secrets = Some p -> unsafeSerializedJSON payload p = false ->
  secret ∈ secrets -> k ∈ Encodings.variants secret -> k `prefix_of` drop a payload ->
  (a <= i < a + length k)%nat -> string_bodies false false payload !! i = Some true.
Proof.
  intros ->%compileSecrets_automaton Hu Hs Hk Hp Hi. unfold unsafeSerializedJSON, judge in Hu.
  destruct (run_ok (patterns_of secrets) (patterns_of_nonempty _) true [payload]) as (ds & Hl & Hf & Hd).
  cbn [concat] in *. rewrite app_nil_r in *. cbn in Hd. rewrite Hd in Hu.
  assert (Hbytes : map fst ds = payload).
  { apply list_eq_same_length with (length payload); [done|by rewrite length_map|].
    intros j x y _ Hx Hy. apply list_lookup_fmap_Some in Hx as ([b m] & -> & Hx).
    apply Hf in Hx as [Hx _]. cbn in *. congruence. }
  assert (Hlt : (i < length payload)%nat).
  { destruct Hp as [r Hr]. apply (f_equal length) in Hr. rewrite length_drop, length_app in Hr. lia. }
  destruct (lookup_lt_is_Some_2 ds i) as [[b m] Hi']; [lia|]. rewrite <-Hbytes.
  eapply unsafe_from_false; [exact Hu|]. rewrite Hi'. f_equal. f_equal.
  apply Hf in Hi' as [_ Hm]. apply Hm. apply covered_variants. by exists secret, k, a.
Qed.



End Structured.
