(* ===== verification/Collector.v ===== *)
(** The evidence collector: the spool of the complete log
    ([src/internal/evidence/archive.go]) and [Collector]
    ([src/internal/evidence/collector.go]), which joins the two raw processors, the
    live output, the spool and the structured events. *)

From S2P Require Import Prelude Utf8 Sanitize Patterns AutomatonCorrect Redactor Processor LiveOutput.
From S2P Require Import Json JsonLaws Events.
Import Config Structured.

(** * The complete log *)

Module Spool.

Inductive spoolState := Open | Truncated | Failed.

Record archiveSpool := {
  stdout : option bytes;
  stderr : option bytes;
  maximum : Z;
  spooled : Z;
  stdoutBytes : Z;
  stderrBytes : Z;
  state : spoolState;
  redacted : bool
}.

Definition header (s : Stream) : bytes :=
  match s with StreamStdout => bs "[stdout]" ++ [0x0A] | StreamStderr => bs "[stderr]" ++ [0x0A] end.

Definition completeLogOverhead : Z := zlen (header StreamStdout) + zlen (header StreamStderr) + 2.

Definition newArchiveSpool (maximum : Z) : archiveSpool :=
  {| stdout := Some []; stderr := Some []; maximum := maximum; spooled := 0; stdoutBytes := 0;
     stderrBytes := 0; state := Open; redacted := false |}.

(** [discardSources] and the state that goes with it. *)
Definition close (s : archiveSpool) (st : spoolState) : archiveSpool :=
  {| stdout := None; stderr := None; maximum := maximum s; spooled := spooled s;
     stdoutBytes := stdoutBytes s; stderrBytes := stderrBytes s; state := st; redacted := redacted s |}.

Definition discardSources (s : archiveSpool) : archiveSpool := close s (state s).

Section spool.

(** The disk: [None] when the next write succeeds, [Some n] when it fails after [n]
    bytes. A successful write moves [spooled], so any course of events is such a
    function. *)
Context (disk : Stream -> Z -> bytes -> option nat).

(** [writeArchive] on one of the files: the bytes written and whether all went well;
    a file that was closed refuses the write. *)
Definition writeArchive (file : option bytes) (s : Stream) (spooled : Z) (content : bytes) : bytes * bool :=
  match file, disk s spooled content with
  | None, _ => ([], false)
  | Some _, None => (content, true)
  | Some _, Some n => (take n content, false)
  end.

Definition file (a : archiveSpool) (s : Stream) : option bytes :=
  match s with StreamStdout => stdout a | StreamStderr => stderr a end.

Definition append (a : archiveSpool) (s : Stream) (content : bytes) : archiveSpool :=
  match state a with
  | Open =>
      if zlen content =? 0 then a
      else if zlen content >? maximum a - completeLogOverhead - spooled a then close a Truncated
      else
        let '(written, ok) := writeArchive (file a s) s (spooled a) content in
        let out := match s with StreamStdout => written | StreamStderr => [] end in
        let err := match s with StreamStdout => [] | StreamStderr => written end in
        let a := {| stdout := option_map (fun f => f ++ out) (stdout a);
                    stderr := option_map (fun f => f ++ err) (stderr a);
                    maximum := maximum a; spooled := spooled a + zlen written;
                    stdoutBytes := stdoutBytes a + zlen out; stderrBytes := stderrBytes a + zlen err;
                    state := Open; redacted := redacted a |} in
        if ok then a else close a Failed
  | _ => a
  end.

(** One stream of [writeCompleteLog]: nothing for an empty stream, otherwise its
    header and its bytes, ended by a line feed; [None] when the file is closed. *)
Definition section (s : Stream) (file : option bytes) (count : Z) : option bytes :=
  if count =? 0 then Some []
  else
    match file with
    | None => None
    | Some f =>
        let content := take (Z.to_nat count) f in
        Some (header s ++ content ++ (if bool_decide (last content = Some 0x0A) then [] else [0x0A]))
    end.

Definition writeCompleteLog (a : archiveSpool) : option bytes :=
  match section StreamStdout (stdout a) (stdoutBytes a), section StreamStderr (stderr a) (stderrBytes a) with
  | Some out, Some err => Some (out ++ err)
  | _, _ => None
  end.

(** ** A complete log holds every line *)

Fixpoint append_all (a : archiveSpool) (lines : list (Stream * bytes)) : archiveSpool :=
  match lines with
  | [] => a
  | (s, c) :: rest => append_all (append a s c) rest
  end.

(** The text of a complete log: each stream that wrote anything, under its header. *)
Definition log_section (s : Stream) (content : bytes) : bytes :=
  if bool_decide (content = []) then []
  else header s ++ content ++ (if bool_decide (last content = Some 0x0A) then [] else [0x0A]).

Record spooling (m : Z) (a : archiveSpool) (hist : list (Stream * bytes)) : Prop := {
  sp_maximum : maximum a = m;
  sp_open : state a = Open;
  sp_stdout : stdout a = Some (of_stream StreamStdout hist);
  sp_stderr : stderr a = Some (of_stream StreamStderr hist);
  sp_stdoutBytes : stdoutBytes a = zlen (of_stream StreamStdout hist);
  sp_stderrBytes : stderrBytes a = zlen (of_stream StreamStderr hist);
  sp_spooled : spooled a = total hist;
  sp_bound : hist = [] \/ total hist <= Z.max 0 (m - completeLogOverhead)
}.

Lemma append_spooling m a hist s c :
  spooling m a hist -> spooling m (append a s c) (hist ++ [(s, c)]) \/ state (append a s c) <> Open.
Proof.
  intros [E1 E2 E3 E4 E5 E6 E7 E8]. unfold append. rewrite E2.
  destruct (zlen c =? 0) eqn:Ec; bool_norm.
  { left. assert (c = []) as -> by (destruct c; [done|unfold zlen in Ec; cbn in Ec; lia]).
    assert (forall s', of_stream s' (hist ++ [(s, [])]) = of_stream s' hist) as Hs.
    { intros s'. rewrite of_stream_snoc. case_decide; apply app_nil_r. }
    assert (total (hist ++ [(s, [])]) = total hist) as Ht by (rewrite total_snoc, zlen_nil; lia).
    split; rewrite ?Hs, ?Ht; try done. right. destruct E8 as [->|]; [cbn; lia|done]. }
  destruct (zlen c >? _) eqn:El; [by right|]. rewrite Z.gtb_ltb in El. bool_norm.
  assert (Hfile : exists f, file a s = Some f) by (destruct s; cbn; eauto). destruct Hfile as [f Hfile].
  unfold writeArchive. rewrite Hfile. destruct (disk s (spooled a) c) as [n|]; [by right|]. left.
  assert (Hb : total (hist ++ [(s, c)]) <= m - completeLogOverhead) by (rewrite total_snoc; lia).
  split; cbn; rewrite ?E3, ?E4; cbn; try done; try (by rewrite total_snoc, E7).
  1-4: rewrite of_stream_snoc; destruct s; rewrite ?decide_True, ?decide_False by done;
    rewrite ?zlen_app, ?zlen_nil, ?app_nil_r; try done; lia.
  right. lia.
Qed.

Lemma append_closed a s c : state a <> Open -> append a s c = a.
Proof. intros H. unfold append. by destruct (state a). Qed.

Lemma append_all_spooling m a hist lines :
  spooling m a hist -> spooling m (append_all a lines) (hist ++ lines) \/ state (append_all a lines) <> Open.
Proof.
  revert a hist. induction lines as [|[s c] lines IH]; intros a hist H; cbn [append_all].
  { left. by rewrite app_nil_r. }
  destruct (append_spooling m a hist s c H) as [H1|H1].
  - destruct (IH _ _ H1) as [H2|H2]; [left|by right]. by rewrite <-(assoc_L (++)) in H2.
  - right. clear -H1. induction lines as [|[s' c'] lines IH]; [done|]. cbn [append_all].
    by rewrite append_closed.
Qed.

Lemma new_spooling m : spooling m (newArchiveSpool m) [].
Proof. split; try done. by left. Qed.

Lemma section_log s content : section s (Some content) (zlen content) = Some (log_section s content).
Proof.
  unfold section, log_section.
  assert (Z.to_nat (zlen content) = length content) as -> by (unfold zlen; lia).
  rewrite firstn_all. destruct content as [|b c]; [done|].
  assert (zlen (b :: c) =? 0 = false) as -> by (unfold zlen; cbn; lia).
  by rewrite (bool_decide_false (b :: c = [])) by done.
Qed.

Lemma log_section_length s content : zlen (log_section s content) <= zlen (header s) + zlen content + 1.
Proof.
  unfold log_section. case_bool_decide; [rewrite zlen_nil; pose proof (zlen_nonneg content); pose proof (zlen_nonneg (header s)); lia|].
  rewrite !zlen_app. case_bool_decide; rewrite ?zlen_cons, ?zlen_nil; lia.
Qed.


End spool.


End Spool.

(** * [Collector] *)

Module Coll.

Record StructuredEvent := { Sequence : Z; EKind : bytes; EPayload : bytes }.

Record LiveEntry := { LStream : Stream; LData : bytes; LPartial : bool; LRedacted : bool }.

Record CompleteLog := {
  LogState : Spool.spoolState;   (* [Spool.Open] stands for "complete" *)
  LogRedacted : bool;
  LogTruncated : bool;
  LogText : option bytes         (* the uncompressed content of the archive *)
}.

Record Usage := {
  RawBytesObserved : Z;
  CapturedBytes : Z;
  StructuredEventCount : Z;
  StructuredEventBytes : Z;
  CompleteLogBytes : Z;
  TruncatedLineCount : Z;
  OutputTruncated : bool;
  CompleteLogTruncated : bool;
  EventsTruncated : bool
}.

Record Bundle := {
  Stdout : bytes;
  Stderr : bytes;
  Events : list StructuredEvent;
  Complete : CompleteLog;
  BundleUsage : Usage;
  StructuredEventError : option eventError
}.

Record Collector := {
  config : Config.config;
  procStdout : RawProcessor.rawProcessor;
  procStderr : RawProcessor.rawProcessor;
  live : boundedOutput;
  complete : Spool.archiveSpool;
  events : list StructuredEvent;
  eventBytes : Z;
  rawObserved : Z;
  truncatedLines : Z;
  eventsTruncated : bool;
  structuredEventError : option eventError;
  closed : bool;
  guestConsumed : bool;
  snapshot : option (Bundle * bool)   (* the bundle, and whether the archive failed *)
}.

(** Field updates. *)
Definition set_processors (c : Collector) (o e : RawProcessor.rawProcessor) : Collector :=
  {| config := config c; procStdout := o; procStderr := e; live := live c; complete := complete c;
     events := events c; eventBytes := eventBytes c; rawObserved := rawObserved c;
     truncatedLines := truncatedLines c; eventsTruncated := eventsTruncated c;
     structuredEventError := structuredEventError c; closed := closed c;
     guestConsumed := guestConsumed c; snapshot := snapshot c |}.
Definition set_raw (c : Collector) (l : boundedOutput) (a : Spool.archiveSpool) (n : Z) : Collector :=
  {| config := config c; procStdout := procStdout c; procStderr := procStderr c; live := l; complete := a;
     events := events c; eventBytes := eventBytes c; rawObserved := rawObserved c;
     truncatedLines := n; eventsTruncated := eventsTruncated c;
     structuredEventError := structuredEventError c; closed := closed c;
     guestConsumed := guestConsumed c; snapshot := snapshot c |}.
Definition set_events (c : Collector) (es : list StructuredEvent) (n : Z) (t : bool) : Collector :=
  {| config := config c; procStdout := procStdout c; procStderr := procStderr c; live := live c;
     complete := complete c; events := es; eventBytes := n; rawObserved := rawObserved c;
     truncatedLines := truncatedLines c; eventsTruncated := t;
     structuredEventError := structuredEventError c; closed := closed c;
     guestConsumed := guestConsumed c; snapshot := snapshot c |}.
Definition set_flags (c : Collector) (observed : Z) (e : option eventError) (cl g : bool)
    (a : Spool.archiveSpool) (s : option (Bundle * bool)) : Collector :=
  {| config := config c; procStdout := procStdout c; procStderr := procStderr c; live := live c;
     complete := a; events := events c; eventBytes := eventBytes c; rawObserved := observed;
     truncatedLines := truncatedLines c; eventsTruncated := eventsTruncated c;
     structuredEventError := e; closed := cl; guestConsumed := g; snapshot := s |}.

Definition setStructuredEventError (c : Collector) (e : eventError) : Collector :=
  set_flags c (rawObserved c) (match structuredEventError c with Some e0 => Some e0 | None => Some e end)
    (closed c) (guestConsumed c) (complete c) (snapshot c).

Definition set_observed (c : Collector) (n : Z) : Collector :=
  set_flags c n (structuredEventError c) (closed c) (guestConsumed c) (complete c) (snapshot c).
Definition set_closed (c : Collector) : Collector :=
  set_flags c (rawObserved c) (structuredEventError c) true (guestConsumed c) (complete c) (snapshot c).

(** The limit of the line limiters of a stream, as [newRawProcessor] computes it. *)
Definition line_limit (cfg : Config.config) (s : Stream) : Z :=
  match s with
  | StreamStdout =>
      if bool_decide (StructuredLinePrefix cfg = []) then MaxLineBytes cfg
      else Z.max (MaxLineBytes cfg) (zlen (StructuredLinePrefix cfg) + MaxEventBytes cfg)
  | StreamStderr => MaxLineBytes cfg
  end.

Definition stream_prefix (cfg : Config.config) (s : Stream) : bytes :=
  match s with StreamStdout => StructuredLinePrefix cfg | StreamStderr => [] end.

Definition newProcessor (cfg : Config.config) (s : Stream) : RawProcessor.rawProcessor :=
  RawProcessor.newRawProcessor (Config.patterns cfg) (stream_prefix cfg s) (line_limit cfg s).

Definition NewCollector (cfg : Config.config) : Collector + configError :=
  match withDefaults cfg with
  | inr e => inr e
  | inl cfg =>
      inl {| config := cfg; procStdout := newProcessor cfg StreamStdout;
             procStderr := newProcessor cfg StreamStderr; live := LiveOutput.new (MaxTotalBytes cfg);
             complete := Spool.newArchiveSpool (MaxCompleteLogBytes cfg); events := []; eventBytes := 0;
             rawObserved := 0; truncatedLines := 0; eventsTruncated := false;
             structuredEventError := None; closed := false; guestConsumed := false; snapshot := None |}
  end.

Definition recordEventLocked (c : Collector) (input : EventInput) : Collector :=
  match sanitizeEvent input (Config.patterns (config c)) (MaxEventBytes (config c)) with
  | None => setStructuredEventError c CannotSanitize
  | Some clean =>
      if MaxEvents (config c) <=? zlen (events c) then set_events c (events c) (eventBytes c) true
      else
        set_events c
          (events c ++ [{| Sequence := zlen (events c) + 1; EKind := Kind clean; EPayload := Payload clean |}])
          (eventBytes c + zlen (Payload clean)) (eventsTruncated c)
  end.

(** [bytes.TrimSuffix] with a suffix of one byte. *)
Definition trim_suffix (b : Z) (s : bytes) : bytes :=
  if bool_decide (last s = Some b) then removelast s else s.

Definition rawContentLength (line : bytes) : Z := zlen (trim_suffix 0x0D (trim_suffix 0x0A line)).

Definition truncateRawLine (line : bytes) (maximum : Z) : bytes :=
  let newline := bool_decide (last line = Some 0x0A) in
  let content := trim_suffix 0x0D (trim_suffix 0x0A line) in
  trim_valid (take (Z.to_nat maximum) content) ++ LineLimiter.LineTruncationMarker
    ++ (if newline then [0x0A] else []).

Section collector.
Context (disk : Stream -> Z -> bytes -> option nat).

(** The structured branch of [emitRawLine]; [None] is the panic of
    [line[len(prefix):]] on a shorter line. *)
Definition emit_structured (c : Collector) (e : LineLimiter.emitted) : option Collector :=
  if LineLimiter.truncated e then Some (setStructuredEventError c LineTooLong)
  else
    let prefix := StructuredLinePrefix (config c) in
    if zlen (LineLimiter.content e) <? zlen prefix then None
    else
      let payload := trim_suffix 0x0D (trim_suffix 0x0A (drop (length prefix) (LineLimiter.content e))) in
      let input := {| Kind := StructuredLineKind (config c); Payload := payload |} in
      match validateEvent input (MaxEventBytes (config c)) with
      | Some err => Some (setStructuredEventError c err)
      | None => Some (recordEventLocked c input)
      end.

(** The raw branch of [emitRawLine]; [None] is a panic in the live output. *)
Definition emit_raw (c : Collector) (s : Stream) (e : LineLimiter.emitted) : option (Collector * LiveEntry) :=
  let too_long := MaxLineBytes (config c) <? rawContentLength (LineLimiter.content e) in
  let line := if too_long then truncateRawLine (LineLimiter.content e) (MaxLineBytes (config c))
              else LineLimiter.content e in
  let truncated := too_long || LineLimiter.truncated e in
  let count := if truncated then truncatedLines c + 1 else truncatedLines c in
  let spool := Spool.append disk (complete c) s line in
  let spool := match Spool.state spool with
               | Spool.Open =>
                   if LineLimiter.has_redaction e then
                     {| Spool.stdout := Spool.stdout spool; Spool.stderr := Spool.stderr spool;
                        Spool.maximum := Spool.maximum spool; Spool.spooled := Spool.spooled spool;
                        Spool.stdoutBytes := Spool.stdoutBytes spool; Spool.stderrBytes := Spool.stderrBytes spool;
                        Spool.state := Spool.Open; Spool.redacted := true |}
                   else spool
               | _ => spool
               end in
  match LiveOutput.append (live c) s line with
  | None => None
  | Some l =>
      Some (set_raw c l spool count,
            {| LStream := s; LData := line; LPartial := LineLimiter.partial e;
               LRedacted := LineLimiter.has_redaction e |})
  end.

(** What the processors hand over, one after the other. *)
Definition handle (c : Collector) (s : Stream) (r : Router.routed) : option (Collector * list LiveEntry) :=
  match r with
  | Router.RawLine e => option_map (fun '(c, l) => (c, [l])) (emit_raw c s e)
  | Router.StructuredLine e => option_map (fun c => (c, [])) (emit_structured c e)
  | Router.StructuredUnsafe => Some (setStructuredEventError c CannotSanitize, [])
  end.

Fixpoint handle_all (c : Collector) (s : Stream) (rs : list Router.routed) : option (Collector * list LiveEntry) :=
  match rs with
  | [] => Some (c, [])
  | r :: rest =>
      match handle c s r with
      | None => None
      | Some (c, l1) =>
          match handle_all c s rest with
          | None => None
          | Some (c, l2) => Some (c, l1 ++ l2)
          end
      end
  end.

Definition processor (c : Collector) (s : Stream) : RawProcessor.rawProcessor :=
  match s with StreamStdout => procStdout c | StreamStderr => procStderr c end.

Definition set_processor (c : Collector) (s : Stream) (p : RawProcessor.rawProcessor) : Collector :=
  match s with
  | StreamStdout => set_processors c p (procStderr c)
  | StreamStderr => set_processors c (procStdout c) p
  end.

(** [Write] on the raw writer of a stream. *)
Definition Write (c : Collector) (s : Stream) (content : bytes) : option (Collector * list LiveEntry) :=
  if RawProcessor.finished (processor c s) then Some (c, [])
  else
    let c := set_observed c (rawObserved c + zlen content) in
    let '(p, out) := RawProcessor.Write (processor c s) content in
    handle_all (set_processor c s p) s out.

Definition finish_processor (c : Collector) (s : Stream) : option (Collector * list LiveEntry) :=
  let '(p, out) := RawProcessor.finish (processor c s) in
  handle_all (set_processor c s p) s out.

Inductive recordError := Cancelled | Invalid (e : eventError) | IsClosed.

Definition RecordEvent (c : Collector) (cancelled : bool) (input : EventInput) : Collector * option recordError :=
  if cancelled then (c, Some Cancelled)
  else
    match validateEvent input (MaxEventBytes (config c)) with
    | Some e => (c, Some (Invalid e))
    | None => if closed c then (c, Some IsClosed) else (recordEventLocked c input, None)
    end.

(** [archiveSpool.finalize]; [failing] says whether compressing, syncing or
    rewinding the archive fails. *)
Definition finalize (a : Spool.archiveSpool) (failing : bool) : Spool.archiveSpool * CompleteLog * bool :=
  let unavailable st := {| LogState := st; LogRedacted := false;
                           LogTruncated := match st with Spool.Truncated => true | _ => false end;
                           LogText := None |} in
  match Spool.state a with
  | Spool.Open =>
      match (if failing then None else Spool.writeCompleteLog a) with
      | None => (Spool.close a Spool.Failed, unavailable Spool.Failed, true)
      | Some text =>
          (Spool.discardSources a,
           {| LogState := Spool.Open; LogRedacted := Spool.redacted a; LogTruncated := false;
              LogText := Some text |}, false)
      end
  | st => (a, unavailable st, true)
  end.

Definition bundle_of (c : Collector) (log : CompleteLog) : Bundle :=
  {| Stdout := LiveOutput.stdout (live c); Stderr := LiveOutput.stderr (live c); Events := events c;
     Complete := log;
     BundleUsage :=
       {| RawBytesObserved := rawObserved c; CapturedBytes := captured (live c);
          StructuredEventCount := zlen (events c); StructuredEventBytes := eventBytes c;
          CompleteLogBytes := match LogText log with Some t => zlen t | None => 0 end;
          TruncatedLineCount := truncatedLines c;
          OutputTruncated := truncated (live c) || (0 <? truncatedLines c);
          CompleteLogTruncated := LogTruncated log; EventsTruncated := eventsTruncated c |};
     StructuredEventError := structuredEventError c |}.

(** [Snapshot]: [inr] the bundle and whether the archive failed, [inl] the error of
    a cancelled context. *)
Definition Snapshot (c : Collector) (cancelled failing : bool)
  : option (Collector * list LiveEntry * option (Bundle * bool)) :=
  if cancelled then Some (c, [], None)
  else
    match snapshot c with
    | Some b => Some (c, [], Some b)
    | None =>
        match finish_processor (set_closed c) StreamStdout with
        | None => None
        | Some (c, l1) =>
            match finish_processor c StreamStderr with
            | None => None
            | Some (c, l2) =>
                let '(a, log, err) := finalize (complete c) failing in
                let b := bundle_of c log in
                Some (set_flags c (rawObserved c) (structuredEventError c) (closed c) (guestConsumed c) a
                        (Some (b, err)), l1 ++ l2, Some (b, err))
            end
        end
    end.

Definition Close (c : Collector) : Collector :=
  set_flags c (rawObserved c) (structuredEventError c) true (guestConsumed c)
    (match snapshot c with None => Spool.discardSources (complete c) | Some _ => complete c end) (snapshot c).

(** The calls a collector receives, in any order. *)
Inductive call :=
  | CWrite (s : Stream) (content : bytes)
  | CRecord (cancelled : bool) (input : EventInput)
  | CSnapshot (cancelled failing : bool)
  | CClose.

Definition perform (c : Collector) (k : call) : option Collector :=
  match k with
  | CWrite s content => option_map fst (Write c s content)
  | CRecord cancelled input => Some (fst (RecordEvent c cancelled input))
  | CSnapshot cancelled failing => option_map (fun r => fst (fst r)) (Snapshot c cancelled failing)
  | CClose => Some (Close c)
  end.

Fixpoint perform_all (c : Collector) (ks : list call) : option Collector :=
  match ks with
  | [] => Some c
  | k :: rest => match perform c k with Some c => perform_all c rest | None => None end
  end.

End collector.
End Coll.
