(* ===== verification/CollectorInv.v ===== *)
(** Invariants of the collector: no call panics, and the limits of the
    configuration hold of everything it keeps. *)

From Stdlib Require Import ZifyBool.
From S2P Require Import Prelude Utf8 Sanitize Patterns AutomatonCorrect Redactor Processor LiveOutput.
From S2P Require Import Json JsonLaws Events Collector.
Import Config Structured.

(** ** What a line limiter hands over *)

Definition limited (m : Z) (l : LineLimiter.lineLimiter) : Prop :=
  LineLimiter.maximum l = m /\ zlen (LineLimiter.line l) <= m.

Lemma fold_limited m l c :
  limited m l ->
  limited m (fst (fold_step LineLimiter.step l c)) /\
  Forall (LineLimiter.bounded m) (snd (fold_step LineLimiter.step l c)).
Proof.
  intros H. rewrite RawProcessor.fold_step_feed.
  apply (RawProcessor.feed_Forall LineLimiter.step (limited m)); [|done].
  intros l' v [H1 H2]. rewrite <-H1 in H2. pose proof (LineLimiter.step_bounded l' v H2) as H3.
  destruct (LineLimiter.step l' v) as [l2 o]. destruct H3 as (E1 & E2 & E3). unfold limited. cbn.
  rewrite <-H1. rewrite E1 in E2. auto.
Qed.

Lemma write_limited m l c r :
  limited m l ->
  limited m (fst (LineLimiter.write l c r)) /\ Forall (LineLimiter.bounded m) (snd (LineLimiter.write l c r)).
Proof. intros H. unfold LineLimiter.write. apply fold_limited. done. Qed.

Lemma finish_limited m l :
  0 <= m -> limited m l ->
  limited m (fst (LineLimiter.finish l)) /\ Forall (LineLimiter.bounded m) (snd (LineLimiter.finish l)).
Proof.
  intros Hm [H1 H2]. unfold LineLimiter.finish. destruct (_ || _); [|by split; [|constructor]].
  rewrite <-H1 in H2 |- *. split; [|by apply LineLimiter.flush_bounded].
  unfold limited. cbn. rewrite zlen_nil. lia.
Qed.

(** ** The router *)

Section router.
Context (pre : bytes) (m : Z).
Context (Hm : zlen pre <= m) (Hv : Utf8.Valid pre = true).

(** A structured line that was not cut starts with the prefix. *)
Definition handed_over (o : Router.routed) : Prop :=
  match o with
  | Router.RawLine e => Utf8.Valid (LineLimiter.content e) = true
  | Router.StructuredLine e => pre <> [] /\ pre `prefix_of` LineLimiter.content e
  | Router.StructuredUnsafe => True
  end.

Record sound (r : Router.router) : Prop := {
  so_prefix : Router.prefix r = pre;
  so_line : limited m (Router.line r);
  so_route : Router.route r = 2%nat ->
    pre <> [] /\ exists l, Router.structuredLine r = LineLimiter.holding m l /\ pre `prefix_of` map fst l;
  so_small : (Router.route r <= 2)%nat;
  so_raw : Router.route r <> 2%nat -> Router.structuredLine r = LineLimiter.new m
}.

Lemma cut_prefix nl l :
  pre `prefix_of` map fst l -> pre `prefix_of` LineLimiter.content (LineLimiter.cut_line m nl l).
Proof.
  intros [k Hk]. cbn. unfold LineLimiter.cut. rewrite Hk, <-(assoc_L (++)). apply prefix_app_r.
  apply trim_valid_fuel_spec; [lia| |done].
  rewrite take_app_ge by (unfold zlen in *; lia). by apply prefix_app_r.
Qed.

Lemma raw_handed out : Forall (LineLimiter.bounded m) out -> Forall handed_over (map Router.RawLine out).
Proof.
  intros H. apply Forall_map. eapply Forall_impl; [exact H|]. intros e [_ He]. exact He.
Qed.

Lemma emitMatchedRaw_sound r v :
  sound r -> sound (fst (Router.emitMatchedRaw r v)) /\ Forall handed_over (snd (Router.emitMatchedRaw r v)).
Proof.
  intros [S1 S2 S3 S0 S4]. destruct v as [v h]. unfold Router.emitMatchedRaw, Router.write_line.
  assert (Hc : forall c f, sound (fst (let '(l, out) := LineLimiter.write (Router.line r) c f in
                       (Router.set_rawMasked (Router.set_line r l) h, map Router.RawLine out))) /\
               Forall handed_over (snd (let '(l, out) := LineLimiter.write (Router.line r) c f in
                       (Router.set_rawMasked (Router.set_line r l) h, map Router.RawLine out)))).
  { intros c f. destruct (write_limited m (Router.line r) c f S2) as [W1 W2].
    destruct (LineLimiter.write (Router.line r) c f) as [l out]. split; [by split|by apply raw_handed]. }
  destruct h; [destruct (Router.rawMasked r)|].
  - split; [by split|constructor].
  - specialize (Hc RedactionMarker true). by destruct (LineLimiter.write _ _ _).
  - specialize (Hc [v] false). by destruct (LineLimiter.write _ _ _).
Qed.

Lemma emit_all_sound r vs :
  sound r -> sound (fst (feed Router.emitMatchedRaw r vs)) /\
             Forall handed_over (snd (feed Router.emitMatchedRaw r vs)).
Proof. apply (RawProcessor.feed_Forall Router.emitMatchedRaw sound). apply emitMatchedRaw_sound. Qed.

Lemma structured_byte_sound r v h :
  0x0A ∉ pre -> pre <> [] -> sound r -> Router.route r = 2%nat ->
  let '(r', out) := Router.structured_byte r v h in
  Forall handed_over out /\ Router.prefix r' = pre /\ limited m (Router.line r') /\ Router.route r' = 2%nat /\
  if v =? 0x0A then Router.structuredLine r' = LineLimiter.new m
  else exists l, Router.structuredLine r' = LineLimiter.holding m l /\ pre `prefix_of` map fst l.
Proof.
  intros Hn Hne [S1 S2 S3 S0 S4] Hr. destruct (S3 Hr) as (_ & l & E & Hl).
  unfold Router.structured_byte.
  set (r0 := if h then r else Router.set_rawMasked r false).
  assert (E0 : Router.structuredLine r0 = LineLimiter.holding m l /\ Router.prefix r0 = pre /\
               Router.route r0 = 2%nat /\ Router.line r0 = Router.line r) by (by destruct h).
  destruct E0 as (E1 & E2 & E3 & E4). clearbody r0.
  destruct (Router.scan_json _ _ _) as [st es]. unfold Router.write_structured.
  cbn [Router.structuredLine Router.set_json]. rewrite E1.
  pose proof (LineLimiter.write_symbols (LineLimiter.holding m l) ([v], false)) as W.
  unfold LineLimiter.write_pair, LineLimiter.symbols_of in W. cbn [fst snd map] in W. rewrite W by done.
  cbn [feed]. destruct (v =? 0x0A) eqn:Ev.
  - apply Z.eqb_eq in Ev as ->. unfold LineLimiter.step_symbol, LineLimiter.step. cbn [fst snd Z.eqb Pos.eqb].
    change (LineLimiter.mark (LineLimiter.holding m l) false) with (LineLimiter.holding m l).
    rewrite LineLimiter.flush_holding. cbn [map app].
    split_and!; cbn [Router.line Router.prefix Router.route Router.structuredLine Router.set_structuredLine
                     Router.set_json]; rewrite ?E4; try done.
    constructor; [|constructor]. unfold Router.structured_emit. destruct (Router.structuredUnsafe _); [done|].
    split; [done|by apply cut_prefix].
  - rewrite LineLimiter.step_holding by (cbn; pose proof (zlen_nonneg pre); lia). cbn [map app].
    split_and!; cbn [Router.line Router.prefix Router.route Router.structuredLine Router.set_structuredLine
                     Router.set_json]; rewrite ?E4; try done.
    exists (l ++ [(v, false)]). split; [done|].
    rewrite map_app. by apply prefix_app_r.
Qed.

Lemma probe_byte_sound r vm :
  0x0A ∉ pre -> pre <> [] -> sound r -> Router.route r = 0%nat ->
  let '(r', out) := Router.probe_byte r vm in
  Forall handed_over out /\ sound r' /\ (Router.route r' = 2%nat -> fst vm <> 0x0A).
Proof.
  intros Hn Hne HS Hr. unfold Router.probe_byte. cbn [Router.probe Router.set_probe Router.prefix].
  pose proof HS as [S1 S2 S3 S0 S4]. rewrite S1. specialize (S4 ltac:(lia)).
  destruct (bool_decide _) eqn:Eb; cbn [negb].
  - apply bool_decide_eq_true in Eb. destruct (_ =? _)%nat eqn:El.
    + apply Nat.eqb_eq in El. set (r0 := Router.start_structured _).
      assert (E0 : Router.structuredLine r0 = LineLimiter.holding m [] /\ Router.prefix r0 = pre /\
                   Router.route r0 = 2%nat /\ Router.line r0 = Router.line r).
      { unfold r0, Router.start_structured. rewrite <-LineLimiter.new_holding by (pose proof (zlen_nonneg pre); lia).
        by destruct (forallb _ _). }
      destruct E0 as (E1 & E2 & E3 & E4). clearbody r0.
      set (seen := map fst (Router.probe r ++ [vm])) in *.
      assert (Hseen : seen = pre).
      { destruct Eb as [k Ek]. destruct k; [by rewrite Ek, app_nil_r|].
        rewrite Ek, length_app in El. cbn in El. lia. }
      unfold Router.write_structured. rewrite E1.
      pose proof (LineLimiter.write_symbols (LineLimiter.holding m []) (seen, false)) as W.
      unfold LineLimiter.write_pair, LineLimiter.symbols_of in W. cbn [fst snd] in W. rewrite W by done.
      rewrite Hseen. rewrite Router.holding_run by
        (pose proof (zlen_nonneg pre); try lia; apply Forall_map, Forall_forall; intros b Hb; cbn; congruence).
      cbn [map app]. split_and!; [constructor| |].
      * split; cbn; try congruence; [|lia].
        intros _. split; [done|]. exists (map (fun b => (b, false)) pre). split; [done|]. rewrite map_map. cbn. by rewrite map_id.
      * intros _ E. apply Hn. rewrite <-Hseen. unfold seen. rewrite map_app, <-E. set_solver.
    + split_and!; [constructor| |cbn; lia]. split; cbn; try done.
  - set (r0 := Router.set_route _ 1).
    assert (HS0 : sound r0) by (split; cbn; try done; try lia).
    destruct (emit_all_sound r0 (Router.probe r ++ [vm]) HS0) as [H1 H2].
    assert (Hr1 : Router.route (fst (feed Router.emitMatchedRaw r0 (Router.probe r ++ [vm]))) = 1%nat).
    { rewrite Router.emit_raw. by destruct (feed LineLimiter.write_pair _ _). }
    destruct (feed Router.emitMatchedRaw r0 _) as [r1 o1]. cbn in *. destruct H1 as [T1 T2 T3 T0 T4].
    split_and!; [done|by split|cbn; lia].
Qed.

Lemma route_byte_sound r vm :
  0x0A ∉ pre -> sound r ->
  sound (fst (Router.route_byte r vm)) /\ Forall handed_over (snd (Router.route_byte r vm)).
Proof.
  intros Hn HS. pose proof HS as [S1 S2 S3 S0 S4]. unfold Router.route_byte. rewrite S1.
  destruct (length pre =? 0)%nat eqn:E0; [by apply emitMatchedRaw_sound|].
  assert (Hne : pre <> []) by (by destruct pre).
  destruct (Router.route r) as [|[|k]] eqn:Er.
  - pose proof (probe_byte_sound r vm Hn Hne HS Er) as H. destruct (Router.probe_byte r vm) as [r1 o1].
    destruct H as (H1 & [T1 T2 T3 T0 T4] & H3). cbn [fst snd]. split; [|done].
    destruct (fst vm =? 0x0A) eqn:Ev; [|by split].
    split; cbn; try done; try lia. intros _. apply T4. intros E. apply (H3 E). by apply Z.eqb_eq.
  - destruct (emitMatchedRaw_sound r vm HS) as [[T1 T2 T3 T0 T4] H2].
    assert (Hr1 : Router.route (fst (Router.emitMatchedRaw r vm)) = 1%nat).
    { rewrite <-Er. destruct vm as [v h]. unfold Router.emitMatchedRaw, Router.write_line.
      repeat case_match; by simplify_eq. }
    destruct (Router.emitMatchedRaw r vm) as [r1 o1]. cbn in *. split; [|done].
    destruct (fst vm =? 0x0A); [|by split]. split; cbn; try done; try lia. intros _. apply T4. lia.
  - destruct (decide (k = 0)%nat) as [->|Hk].
    + pose proof (structured_byte_sound r (fst vm) (snd vm) Hn Hne HS Er) as H.
      destruct (Router.structured_byte r _ _) as [r1 o1]. destruct H as (H1 & H2 & H3 & H4 & H5).
      cbn [fst snd]. split; [|done]. destruct (fst vm =? 0x0A); split; cbn; try done; try lia.
    + lia.
Qed.

Lemma route_bytes_sound r vs :
  0x0A ∉ pre -> sound r ->
  sound (fst (feed Router.route_byte r vs)) /\ Forall handed_over (snd (feed Router.route_byte r vs)).
Proof.
  intros Hn. apply (RawProcessor.feed_Forall Router.route_byte sound). intros. by apply route_byte_sound.
Qed.

Lemma router_finish_sound r : sound r -> Forall handed_over (snd (Router.finish r)).
Proof.
  intros HS. unfold Router.finish.
  destruct (emit_all_sound r (Router.probe r) HS) as [[T1 T2 T3 T0 T4] H2].
  destruct (feed Router.emitMatchedRaw r (Router.probe r)) as [r1 o1]. cbn [fst snd] in *.
  cbn [Router.structuredLine Router.set_probe Router.line].
  assert (Hst : Forall handed_over (map (Router.structured_emit (Router.set_probe r1 []))
                                      (snd (LineLimiter.finish (Router.structuredLine r1))))).
  { destruct (decide (Router.route r1 = 2%nat)) as [Er|Er].
    - destruct (T3 Er) as (Hne & l & -> & Hl). rewrite LineLimiter.finish_holding by (pose proof (zlen_nonneg pre); lia).
      destruct (0 <? zlen l); [|constructor]. constructor; [|constructor].
      unfold Router.structured_emit. destruct (Router.structuredUnsafe _); [done|].
      split; [done|by apply cut_prefix].
    - rewrite T4 by done. constructor. }
  destruct (LineLimiter.finish (Router.structuredLine r1)) as [l2 o2].
  destruct (finish_limited m (Router.line r1)) as [_ H3]; [pose proof (zlen_nonneg pre); lia|done|].
  destruct (LineLimiter.finish (Router.line r1)) as [l3 o3]. cbn [snd] in *.
  apply Forall_app. split; [done|]. apply Forall_app. split; [done|]. by apply raw_handed.
Qed.
End router.

(** ** The processor *)

Section processor.
Context (pre : bytes) (m : Z).
Context (Hm : zlen pre <= m) (Hv : Utf8.Valid pre = true) (Hn : 0x0A ∉ pre).

Definition proc_sound (p : RawProcessor.rawProcessor) : Prop := sound pre m (RawProcessor.router p).

Lemma observe_sound t out :
  sound pre m t ->
  sound pre m (fst (feed RawProcessor.observe t out)) /\
  Forall (handed_over pre) (snd (feed RawProcessor.observe t out)).
Proof.
  apply (RawProcessor.feed_Forall RawProcessor.observe (sound pre m)). intros t' o HS. destruct o as [c h|c h].
  - by apply route_bytes_sound.
  - by split; [|constructor].
Qed.

Lemma push_sound p cs :
  proc_sound p ->
  proc_sound (fst (RawProcessor.push_ansi p cs)) /\ Forall (handed_over pre) (snd (RawProcessor.push_ansi p cs)).
Proof.
  intros HS. unfold RawProcessor.push_ansi. destruct (feed Ansi.write _ cs) as [a st].
  destruct (feed Redactor.write _ _) as [r j]. pose proof (observe_sound (RawProcessor.router p) j HS) as H.
  by destruct (feed RawProcessor.observe (RawProcessor.router p) j).
Qed.

Lemma Write_sound p c :
  proc_sound p ->
  proc_sound (fst (RawProcessor.Write p c)) /\ Forall (handed_over pre) (snd (RawProcessor.Write p c)).
Proof.
  intros HS. unfold RawProcessor.Write. destruct (RawProcessor.finished p); [by split; [|constructor]|].
  destruct (Normalizer.write _ c) as [n cs]. by apply push_sound.
Qed.

(** After [finish] a processor takes no more writes. *)
Lemma finish_sound p :
  proc_sound p -> RawProcessor.finished p = false ->
  RawProcessor.finished (fst (RawProcessor.finish p)) = true /\
  Forall (handed_over pre) (snd (RawProcessor.finish p)).
Proof.
  intros HS Hf. unfold RawProcessor.finish. rewrite Hf. destruct (Normalizer.finish _) as [n cs].
  destruct (push_sound (RawProcessor.set_normalizer p n) cs HS) as [H1 H2].
  destruct (RawProcessor.push_ansi _ cs) as [p1 o1]. cbn [fst snd] in *.
  destruct (Redactor.finish _) as [r j]. destruct (observe_sound _ j H1) as [H3 H4].
  destruct (feed RawProcessor.observe _ j) as [t o2]. cbn [fst snd] in *.
  pose proof (router_finish_sound pre m Hm Hv t H3) as H5. destruct (Router.finish t) as [t' o3]. cbn in *.
  split; [done|]. by rewrite !Forall_app.
Qed.

Lemma new_sound patterns : 0 <= m -> proc_sound (RawProcessor.newRawProcessor patterns pre m).
Proof. intros H0. split; cbn; try done; lia. Qed.
End processor.

(** ** The collector *)

Module Invariant.
Import Coll.

Definition event_bytes (es : list StructuredEvent) : Z := foldr (fun e n => zlen (EPayload e) + n) 0 es.

Definition proc_ok (cfg : Config.config) (s : Stream) (p : RawProcessor.rawProcessor) : Prop :=
  RawProcessor.finished p = true \/ proc_sound (stream_prefix cfg s) (line_limit cfg s) p.

Record coll_ok (c : Collector) : Prop := {
  co_config : validated (config c);
  co_processor s : proc_ok (config c) s (processor c s);
  co_live : (exists hist, fits (MaxTotalBytes (config c)) (live c) hist) \/
            overflowed (MaxTotalBytes (config c)) (live c);
  co_count : zlen (events c) <= MaxEvents (config c);
  co_sequence i e : events c !! i = Some e -> Sequence e = Z.of_nat i + 1;
  co_payload : Forall (fun e => Json.Valid (EPayload e) = true /\ zlen (EPayload e) <= MaxEventBytes (config c) /\
                                EKind e <> []) (events c);
  co_bytes : eventBytes c = event_bytes (events c)
}.

Lemma event_bytes_app a b : event_bytes (a ++ b) = event_bytes a + event_bytes b.
Proof. unfold event_bytes. induction a as [|e a IH]; cbn [app foldr]; lia. Qed.

(** Two collectors that agree on what the invariant looks at. *)
Lemma coll_ok_same c c' :
  coll_ok c -> config c' = config c -> (forall s, processor c' s = processor c s) -> live c' = live c ->
  events c' = events c -> eventBytes c' = eventBytes c -> coll_ok c'.
Proof.
  intros [H1 H2 H3 H4 H5 H6 H7] E1 E2 E3 E4 E5.
  split; intros; rewrite ?E1, ?E2, ?E3, ?E4, ?E5 in *; eauto.
Qed.

Lemma setError_ok c e : coll_ok c -> coll_ok (setStructuredEventError c e).
Proof. intros H. apply (coll_ok_same c); done. Qed.

Lemma validateEvent_ok input m :
  validateEvent input m = None ->
  Kind input <> [] /\ Json.Valid (Payload input) = true /\ zlen (Payload input) <= m.
Proof.
  unfold validateEvent.
  destruct (bool_decide _) eqn:E1; [done|]. destruct (128 <? _); [done|]. destruct (negb (Utf8.Valid _)); [done|].
  destruct (Json.Valid (Payload input)) eqn:E2; [|done]. destruct (m <? _) eqn:E3; [done|].
  intros _. bool_norm. done.
Qed.

Lemma recordEvent_ok c input :
  coll_ok c -> validateEvent input (MaxEventBytes (config c)) = None -> coll_ok (recordEventLocked c input).
Proof.
  intros Hc Hv. unfold recordEventLocked.
  destruct (sanitizeEvent _ _ _) as [clean|] eqn:Es; [|by apply setError_ok].
  destruct (validateEvent_ok _ _ Hv) as (K & V & L).
  destruct (sanitizeEvent_valid _ _ _ _ Es V L) as (K' & V' & L').
  destruct (_ <=? _) eqn:El; [by apply (coll_ok_same c)|].
  destruct Hc as [H1 H2 H3 H4 H5 H6 H7]. split; cbn; try done.
  - rewrite zlen_app, zlen_cons, zlen_nil. lia.
  - intros i e Hi. apply lookup_app_Some in Hi as [Hi|[Hl Hi]]; [by apply H5|].
    apply list_lookup_singleton_Some in Hi as [Hi <-]. cbn. unfold zlen. lia.
  - apply Forall_app. split; [done|]. constructor; [|constructor]. cbn. rewrite K'. done.
  - rewrite event_bytes_app. unfold event_bytes at 2. cbn. lia.
Qed.

Section calls.
Context (disk : Stream -> Z -> bytes -> option nat).

Lemma live_append c s line :
  coll_ok c -> Utf8.Valid line = true ->
  exists l, LiveOutput.append (live c) s line = Some l /\
    ((exists hist, fits (MaxTotalBytes (config c)) l hist) \/ overflowed (MaxTotalBytes (config c)) l).
Proof.
  intros Hc Hl. pose proof (va_total _ (co_config _ Hc)) as Ht.
  destruct (co_live _ Hc) as [[hist Hf]|Ho].
  - destruct (append_all_ok (MaxTotalBytes (config c)) (live c) hist [(s, line)] ltac:(lia) Hf) as (o & E & H); [by repeat constructor|].
    cbn [append_all] in E. destruct (LiveOutput.append (live c) s line) as [l|]; [|done]. injection E as ->.
    exists o. split; [done|]. destruct (_ <? _); [by right|]. destruct H as (h' & F & _). left. eauto.
  - exists (live c). split; [by eapply append_overflowed|by right].
Qed.

Lemma truncateRawLine_Valid line n : Utf8.Valid (truncateRawLine line n) = true.
Proof.
  unfold truncateRawLine. apply Valid_app; [apply trim_valid_Valid|]. apply Valid_app; [done|]. by case_bool_decide.
Qed.

Lemma handle_ok c s r :
  coll_ok c -> handed_over (stream_prefix (config c) s) r ->
  exists c' l, handle disk c s r = Some (c', l) /\ coll_ok c' /\ config c' = config c /\
    forall s, processor c' s = processor c s.
Proof.
  intros Hc Hr. destruct r as [e|e|]; cbn [handle].
  - unfold emit_raw.
    set (line := if MaxLineBytes (config c) <? _ then _ else LineLimiter.content e).
    assert (Hl : Utf8.Valid line = true).
    { unfold line. destruct (_ <? _); [apply truncateRawLine_Valid|exact Hr]. }
    destruct (live_append c s line Hc Hl) as (l & -> & HL). cbn [option_map].
    do 2 eexists. split; [reflexivity|]. split; [|split; [done|by intros []]].
    destruct Hc as [H1 H2 H3 H4 H5 H6 H7]. by split.
  - destruct Hr as [Hne Hp]. destruct s; [|done]. cbn in Hp. unfold emit_structured.
    destruct (LineLimiter.truncated e).
    { do 2 eexists. split; [reflexivity|]. split; [by apply setError_ok|]. split; [done|by intros []]. }
    assert (_ <? _ = false) as ->.
    { apply prefix_length in Hp. apply Z.ltb_ge. unfold zlen. lia. }
    set (input := {| Kind := _; Payload := _ |}). destruct (validateEvent input _) eqn:Ev; cbn [option_map].
    + do 2 eexists. split; [reflexivity|]. split; [by apply setError_ok|]. split; [done|by intros []].
    + do 2 eexists. split; [reflexivity|]. split; [by apply recordEvent_ok|].
      unfold recordEventLocked. destruct (sanitizeEvent _ _ _); [destruct (_ <=? _)|]; (split; [done|by intros []]).
  - do 2 eexists. split; [reflexivity|]. split; [by apply setError_ok|]. split; [done|by intros []].
Qed.

Lemma handle_all_ok c s rs :
  coll_ok c -> Forall (handed_over (stream_prefix (config c) s)) rs ->
  exists c' l, handle_all disk c s rs = Some (c', l) /\ coll_ok c' /\ config c' = config c /\
    forall s, processor c' s = processor c s.
Proof.
  intros Hc Hr. revert c Hc Hr. induction rs as [|r rs IH]; intros c Hc Hr; cbn [handle_all]; [by eauto 10|].
  apply Forall_cons in Hr as [H1 H2]. destruct (handle_ok c s r Hc H1) as (c1 & l1 & -> & O1 & C1 & P1).
  destruct (IH c1 O1) as (c2 & l2 & -> & O2 & C2 & P2); [by rewrite C1|].
  do 2 eexists. split; [reflexivity|]. split; [done|]. split; [congruence|]. intros s'. by rewrite P2, P1.
Qed.

Lemma handle_all_snapshot c s rs c' l :
  handle_all disk c s rs = Some (c', l) ->
  snapshot c' = snapshot c /\ closed c' = closed c /\ guestConsumed c' = guestConsumed c.
Proof.
  revert c l. induction rs as [|r rs IH]; intros c l; cbn [handle_all]; [by intros [= <- <-]|].
  destruct (handle disk c s r) as [[c1 l1]|] eqn:E; [|done].
  destruct (handle_all disk c1 s rs) as [[c2 l2]|] eqn:E2; [|done]. intros [= <- <-].
  apply IH in E2 as (-> & -> & ->).
  destruct r as [e|e|]; cbn [handle] in E.
  - unfold emit_raw in E. destruct (LiveOutput.append _ _ _); [|done]. cbn in E. by simplify_eq.
  - unfold emit_structured in E. destruct (LineLimiter.truncated e); [cbn in E; by simplify_eq|].
    destruct (_ <? _); [done|]. destruct (validateEvent _ _); cbn in E; [by simplify_eq|].
    unfold recordEventLocked in E. repeat case_match; by simplify_eq.
  - by simplify_eq.
Qed.

Lemma stream_facts c s :
  validated (config c) ->
  zlen (stream_prefix (config c) s) <= line_limit (config c) s /\
  Utf8.Valid (stream_prefix (config c) s) = true /\ 0x0A ∉ stream_prefix (config c) s.
Proof.
  intros [V1 V2 V3 V4 V5 V6 (V7 & V8 & V9) _ _ _]. destruct s; cbn.
  - split_and!; try done. case_bool_decide as E; [rewrite E, zlen_nil; lia|lia].
  - split_and!; [change (0 <= MaxLineBytes (config c)); lia|done|set_solver].
Qed.

Lemma set_processor_ok c s p :
  coll_ok c -> proc_ok (config c) s p -> coll_ok (set_processor c s p).
Proof.
  intros [H1 H2 H3 H4 H5 H6 H7] Hp. destruct s; split; try done; intros s'; pose proof (H2 s'); by destruct s'.
Qed.

Lemma Write_ok c s content :
  coll_ok c ->
  exists c' l, Write disk c s content = Some (c', l) /\ coll_ok c' /\ config c' = config c /\
    (forall s', RawProcessor.finished (processor c' s') = RawProcessor.finished (processor c s')) /\
    (RawProcessor.finished (processor c s) = true -> c' = c) /\
    snapshot c' = snapshot c /\ closed c' = closed c /\ guestConsumed c' = guestConsumed c.
Proof.
  intros Hc. unfold Write. destruct (RawProcessor.finished (processor c s)) eqn:Ef; [by eauto 10|].
  set (c0 := set_observed c _).
  assert (H0 : coll_ok c0) by (by apply (coll_ok_same c)).
  destruct (stream_facts c0 s (co_config _ H0)) as (F1 & F2 & F3).
  pose proof (co_processor _ H0 s) as [Hp|Hp]; [by destruct s; cbn in *; congruence|].
  destruct (Write_sound _ _ F1 F2 F3 _ content Hp) as [S1 S2].
  assert (Hfin : RawProcessor.finished (fst (RawProcessor.Write (processor c0 s) content)) = false).
  { unfold RawProcessor.Write. assert (RawProcessor.finished (processor c0 s) = false) as Ef0 by (by destruct s).
    rewrite Ef0. destruct (Normalizer.write _ content) as [n cs]. by rewrite (proj2 (RawProcessor.push_ansi_kept _ cs)). }
  destruct (RawProcessor.Write _ content) as [p out]. cbn [fst snd] in *.
  assert (H1 : coll_ok (set_processor c0 s p)) by (apply set_processor_ok; [done|by right]).
  destruct (handle_all_ok (set_processor c0 s p) s out H1) as (c' & l & E & O & C & P).
  { by destruct s. }
  pose proof (handle_all_snapshot _ _ _ _ _ E) as (G1 & G2 & G3).
  exists c', l. split_and!; try done;
    [rewrite C; by destruct s| |rewrite G1; by destruct s|rewrite G2; by destruct s|rewrite G3; by destruct s].
  intros s'. rewrite P. destruct s, s'; cbn in *; congruence.
Qed.

Lemma finish_processor_ok c s :
  coll_ok c -> RawProcessor.finished (processor c s) = false ->
  exists c' l, finish_processor disk c s = Some (c', l) /\ coll_ok c' /\ config c' = config c /\
    RawProcessor.finished (processor c' s) = true /\
    (forall s', s' <> s -> processor c' s' = processor c s') /\
    snapshot c' = snapshot c /\ closed c' = closed c.
Proof.
  intros Hc Ef. unfold finish_processor.
  destruct (stream_facts c s (co_config _ Hc)) as (F1 & F2 & F3).
  pose proof (co_processor _ Hc s) as [Hp|Hp]; [congruence|].
  destruct (finish_sound _ _ F1 F2 F3 _ Hp Ef) as [S1 S2].
  destruct (RawProcessor.finish _) as [p out]. cbn [fst snd] in *.
  assert (H1 : coll_ok (set_processor c s p)) by (apply set_processor_ok; [done|by left]).
  destruct (handle_all_ok (set_processor c s p) s out H1) as (c' & l & E & O & C & P).
  { by destruct s. }
  pose proof (handle_all_snapshot _ _ _ _ _ E) as (G1 & G2 & G3).
  exists c', l. split_and!; try done;
    [rewrite C; by destruct s|rewrite P; by destruct s| |rewrite G1; by destruct s|rewrite G2; by destruct s].
  intros s' Hs. rewrite P. by destruct s, s'.
Qed.

(** A collector that was finished, or not at all. *)
Definition settled (c : Collector) : Prop :=
  (snapshot c = None /\ forall s, RawProcessor.finished (processor c s) = false) \/
  (snapshot c <> None /\ closed c = true /\ forall s, RawProcessor.finished (processor c s) = true).


Lemma Snapshot_ok c cancelled failing :
  coll_ok c -> settled c ->
  exists c' l b, Snapshot disk c cancelled failing = Some (c', l, b) /\ coll_ok c' /\ settled c' /\
    config c' = config c /\ (snapshot c <> None -> c' = c).
Proof.
  intros Hc Hs. unfold Snapshot. destruct cancelled; [by eauto 10|].
  destruct (snapshot c) as [b|] eqn:Eb; [by eauto 10|].
  destruct Hs as [[_ Hf]|[? _]]; [|done].
  assert (H0 : coll_ok (set_closed c)) by (by apply (coll_ok_same c)).
  destruct (finish_processor_ok (set_closed c) StreamStdout H0) as (c1 & l1 & -> & O1 & C1 & F1 & P1 & S1 & K1).
  { apply (Hf StreamStdout). }
  destruct (finish_processor_ok c1 StreamStderr O1) as (c2 & l2 & -> & O2 & C2 & F2 & P2 & S2 & K2).
  { rewrite P1 by done. apply (Hf StreamStderr). }
  destruct (finalize (complete c2) failing) as [[a log] err].
  do 3 eexists. split; [reflexivity|]. split; [by apply (coll_ok_same c2)|]. split.
  - right. cbn. split_and!; [done|by rewrite K2, K1|]. intros []; cbn; [|exact F2].
    specialize (P2 StreamStdout ltac:(done)). cbn in P2, F1. by rewrite P2.
  - split; [|done]. cbn. by rewrite C2, C1.
Qed.

Lemma perform_ok c k :
  coll_ok c -> settled c ->
  exists c', perform disk c k = Some c' /\ coll_ok c' /\ settled c' /\ config c' = config c.
Proof.
  intros Hc Hs. destruct k as [s content|cancelled input|cancelled failing|]; cbn [perform].
  - destruct (Write_ok c s content Hc) as (c' & l & -> & O & C & F & _ & S & K & _). cbn. eexists. split_and!; try done.
    destruct Hs as [[H1 H2]|(H1 & H2 & H3)]; [left|right]; rewrite S, ?K; setoid_rewrite F; done.
  - eexists. split; [reflexivity|]. unfold RecordEvent. destruct cancelled; [done|].
    destruct (validateEvent input _) eqn:Ev; [done|]. destruct (closed c) eqn:Ec; [done|]. cbn [fst].
    split; [by apply recordEvent_ok|].
    unfold recordEventLocked. destruct Hs as [[H1 H2]|(H1 & H2 & H3)]; [|congruence].
    destruct (sanitizeEvent _ _ _); [destruct (_ <=? _)|]; (split; [left|done]); by split.
  - destruct (Snapshot_ok c cancelled failing Hc Hs) as (c' & l & b & -> & O & S & C & _). cbn. by exists c'.
  - eexists. split; [reflexivity|]. split; [by apply (coll_ok_same c)|]. split; [|done].
    destruct Hs as [[H1 H2]|(H1 & H2 & H3)]; [left|right]; by split_and!.
Qed.

Lemma perform_all_ok c ks :
  coll_ok c -> settled c ->
  exists c', perform_all disk c ks = Some c' /\ coll_ok c' /\ settled c' /\ config c' = config c.
Proof.
  revert c. induction ks as [|k ks IH]; intros c Hc Hs; cbn [perform_all]; [by eauto|].
  destruct (perform_ok c k Hc Hs) as (c1 & -> & O1 & S1 & C1).
  destruct (IH c1 O1 S1) as (c2 & -> & O2 & S2 & C2). exists c2. split_and!; try done. congruence.
Qed.

Lemma NewCollector_ok cfg c : NewCollector cfg = inl c -> coll_ok c /\ settled c.
Proof.
  unfold NewCollector. destruct (withDefaults cfg) as [cfg'|e] eqn:E; [|done]. intros [= <-].
  apply withDefaults_validated in E. split; [|left; split; [done|by intros []]].
  set (c := Build_Collector _ _ _ _ _ _ _ _ _ _ _ _ _ _).
  split; cbn; try done.
  - intros s. right. destruct (stream_facts c s E) as (F1 & F2 & F3).
    destruct s; apply new_sound; try done; pose proof (zlen_nonneg (stream_prefix cfg' StreamStdout)); cbn in *;
      pose proof (va_line _ E); lia.
  - left. exists []. apply new_fits. pose proof (va_total _ E). lia.
  - pose proof (va_events _ E). unfold zlen. cbn. lia.
Qed.

(** C27: the collector keeps its promises under any sequence of calls. Starting from
    an accepted configuration, whatever is written to the two streams, recorded,
    snapshotted or closed, in any order, and however the disk behaves, no call
    panics; the live output stays within its budget, counted exactly and valid
    UTF-8; there are never more events than allowed, they are numbered from 1, and
    every payload is valid JSON within the event limit. *)
Theorem collector_sound (cfg : Config.config) (c : Collector) (ks : list call) :
  NewCollector cfg = inl c ->
  exists c', perform_all disk c ks = Some c' /\
    (let o := live c' in
     captured o = zlen (LiveOutput.stdout o) + zlen (LiveOutput.stderr o) /\
     captured o <= MaxTotalBytes (config c) /\
     Utf8.Valid (LiveOutput.stdout o) = true /\ Utf8.Valid (LiveOutput.stderr o) = true) /\
    zlen (events c') <= MaxEvents (config c) /\
    (forall i e, events c' !! i = Some e ->
       Sequence e = Z.of_nat i + 1 /\ Json.Valid (EPayload e) = true /\
       zlen (EPayload e) <= MaxEventBytes (config c)) /\
    eventBytes c' = event_bytes (events c').
Proof.
  intros E. destruct (NewCollector_ok cfg c E) as [H1 H2].
  destruct (perform_all_ok c ks H1 H2) as (c' & -> & [O1 O2 O3 O4 O5 O6 O7] & _ & C).
  exists c'. rewrite C in *. split_and!; try done.
  - destruct O3 as [[hist [Fh Fm _ Fb _ _]]|[Ow _ Ob _]].
    + pose proof (holds_within _ _ Fh) as [W1 W2 W3 _].
      split_and!; try done. by rewrite (ho_captured _ _ Fh).
    + destruct Ow as [W1 W2 W3 _]. by split_and!.
  - intros i e Hi. split; [by apply O5|].
    rewrite Forall_lookup in O6. destruct (O6 i e Hi) as (P1 & P2 & _). done.
Qed.

(** What is left after a snapshot does not change any more. *)
Lemma perform_frozen c k b :
  coll_ok c -> settled c -> snapshot c = Some b ->
  exists c', perform disk c k = Some c' /\ snapshot c' = Some b /\ coll_ok c' /\ settled c' /\
    live c' = live c /\ events c' = events c.
Proof.
  intros Hc Hs Hb. destruct (perform_ok c k Hc Hs) as (c1 & E & O & S & _). rewrite E. exists c1.
  destruct Hs as [[? _]|(_ & Hcl & Hf)]; [congruence|].
  destruct k as [s content|cancelled input|cancelled failing|]; cbn [perform] in E.
  - destruct (Write_ok c s content Hc) as (c' & l & W & _ & _ & _ & Hsame & _). rewrite W in E.
    cbn in E. rewrite (Hsame (Hf s)) in E. injection E as <-. done.
  - unfold RecordEvent in E. rewrite Hcl in E.
    destruct cancelled, (validateEvent input (MaxEventBytes (config c))); cbn in E; injection E as <-; done.
  - unfold Snapshot in E. rewrite Hb in E. destruct cancelled; cbn in E; injection E as <-; done.
  - injection E as <-. done.
Qed.

Lemma perform_all_frozen c ks b :
  coll_ok c -> settled c -> snapshot c = Some b ->
  exists c', perform_all disk c ks = Some c' /\ snapshot c' = Some b.
Proof.
  revert c. induction ks as [|k ks IH]; intros c Hc Hs Hb; cbn [perform_all]; [by eauto|].
  destruct (perform_frozen c k b Hc Hs Hb) as (c1 & -> & Hb1 & O1 & S1 & _). by apply IH.
Qed.

(** A snapshot is final. After any calls, the bundle a snapshot returns is what
    every later snapshot returns, no matter what is written, recorded or closed in
    between. *)
Theorem snapshot_final (cfg : Config.config) (c : Collector) (before between : list call) (failing : bool) :
  NewCollector cfg = inl c ->
  exists c1 c2 c3 l r,
    perform_all disk c before = Some c1 /\
    Snapshot disk c1 false failing = Some (c2, l, Some r) /\
    perform_all disk c2 between = Some c3 /\
    forall failing', Snapshot disk c3 false failing' = Some (c3, [], Some r).
Proof.
  intros E. destruct (NewCollector_ok cfg c E) as [H1 H2].
  destruct (perform_all_ok c before H1 H2) as (c1 & E1 & O1 & S1 & _).
  destruct (Snapshot_ok c1 false failing O1 S1) as (c2 & l & b & E2 & O2 & S2 & _).
  assert (exists r, b = Some r /\ snapshot c2 = Some r) as (r & -> & Hr).
  { clear -E2. unfold Snapshot in E2. destruct (snapshot c1) as [r|] eqn:Er; [simplify_eq; eauto|].
    destruct (finish_processor _ _ _) as [[c3 l1]|]; [|done].
    destruct (finish_processor _ _ _) as [[c4 l2]|]; [|done].
    destruct (finalize _ _) as [[a log] err]. simplify_eq. cbn. eauto. }
  destruct (perform_all_frozen c2 between r O2 S2 Hr) as (c3 & E3 & Hr3).
  exists c1, c2, c3, l, r. split_and!; try done. intros failing'. unfold Snapshot. by rewrite Hr3.
Qed.
End calls.

Definition sample : Config.config :=
  {| Config.patterns := None; MaxLineBytes := 0; MaxTotalBytes := 40; MaxCompleteLogBytes := 0; MaxEvents := 0;
     MaxEventBytes := 0; Secrets := [bs "pw"]; StructuredLinePrefix := bs "@"; StructuredLineKind := bs "probe" |}.

Definition sample_calls : list call :=
  [CWrite StreamStdout (bs "@[1]" ++ [0x0A] ++ bs "a pw"); CWrite StreamStderr (bs "e" ++ [0x0A]);
   CSnapshot false false; CWrite StreamStderr (bs "late")].

Ltac sampled c E :=
  destruct (NewCollector sample) as [c|] eqn:E; [|vm_compute in E; discriminate];
  exists c; split; [reflexivity|].

Lemma collector_sound_witness :
  exists c, NewCollector sample = inl c /\
    option_map (fun c => (LiveOutput.stdout (live c), map EPayload (events c)))
      (perform_all (fun _ _ _ => None) c sample_calls) = Some (bs "a [REDACTED]", [bs "[1]"]) /\
    exists c', perform_all (fun _ _ _ => None) c sample_calls = Some c' /\ captured (live c') <= MaxTotalBytes (config c).
Proof.
  sampled c E. split.
  - vm_compute in E. injection E as <-. vm_compute. reflexivity.
  - destruct (collector_sound (fun _ _ _ => None) sample c sample_calls E) as (c' & E' & (_ & H & _) & _).
    exists c'. split; assumption.
Defined.

Lemma snapshot_final_witness :
  exists c, NewCollector sample = inl c /\
    exists c1 c2 c3 l r,
      perform_all (fun _ _ _ => None) c (take 2 sample_calls) = Some c1 /\
      Snapshot (fun _ _ _ => None) c1 false false = Some (c2, l, Some r) /\
      perform_all (fun _ _ _ => None) c2 (drop 3 sample_calls) = Some c3 /\
      forall failing', Snapshot (fun _ _ _ => None) c3 false failing' = Some (c3, [], Some r).
Proof.
  sampled c E. exact (snapshot_final (fun _ _ _ => None) sample c (take 2 sample_calls) (drop 3 sample_calls) false E).
Defined.

End Invariant.
