(* ===== verification/GuestOutput.v ===== *)
(** The framed output of a measured guest ([src/internal/guestoutput]): the encoder
    and the reader of frames, the reader of a whole stream, the startup marker; and
    the names of Paper plugins ([src/internal/pluginname]). *)

From Stdlib Require Import ZifyBool.
From S2P Require Import Prelude Utf8 Strconv Json.

(** * Frames *)

Module Frames.

Definition MaximumChunk : Z := 32 * 1024.

(** The constants of [Kind]; the byte on the wire is [kind_byte]. *)
Inductive Kind := Stdout | Stderr | Events | Outcome.

#[global] Instance Kind_eq_dec : EqDecision Kind.
Proof. solve_decision. Defined.

Definition kind_byte (k : Kind) : Z :=
  match k with Stdout => 1 | Stderr => 2 | Events => 3 | Outcome => 4 end.

Definition kind_of_byte (b : Z) : option Kind :=
  if b =? 1 then Some Stdout else if b =? 2 then Some Stderr
  else if b =? 3 then Some Events else if b =? 4 then Some Outcome else None.

Definition magic : bytes := bs "PVG1".

(** [binary.BigEndian.PutUint32] and [Uint32]. *)
Definition put_uint32 (n : Z) : bytes :=
  [Z.land (Z.shiftr n 24) 0xFF; Z.land (Z.shiftr n 16) 0xFF; Z.land (Z.shiftr n 8) 0xFF; Z.land n 0xFF].

Definition uint32 (a b c d : Z) : Z :=
  Z.lor d (Z.lor (Z.shiftl c 8) (Z.lor (Z.shiftl b 16) (Z.shiftl a 24))).

(** The encoder: whether it has failed, and what it has written. *)
Record Encoder := { failed : bool; written : bytes }.

Definition NewEncoder : Encoder := {| failed := false; written := [] |}.

Definition header (k : Kind) (n : Z) : bytes := magic ++ [kind_byte k] ++ put_uint32 n.

(** [sink] says what becomes of the next write: [None] when the output takes it,
    [Some n] when only [n] bytes of the frame get out. *)
Definition Write (e : Encoder) (k : Kind) (data : bytes) (sink : option nat) : Encoder * bool :=
  if failed e || (zlen data =? 0) || (MaximumChunk <? zlen data)
  then ({| failed := true; written := written e |}, false)
  else
    let frame := header k (zlen data) ++ data in
    match sink with
    | None => ({| failed := false; written := written e ++ frame |}, true)
    | Some n => ({| failed := true; written := written e ++ take n frame |}, false)
    end.

(** A reader: the bytes still to come and whether they end in [io.EOF] or in another
    error. *)
Record reader := { data : bytes; clean : bool }.

Inductive frame :=
  | Frame (k : Kind) (raw : bytes) (rest : reader)
  | EndOfStream
  | BadFrame.

(** [io.ReadFull] for [n] bytes. *)
Definition read_full (r : reader) (n : nat) : option (bytes * reader) :=
  if (n <=? length (data r))%nat
  then Some (take n (data r), {| data := drop n (data r); clean := clean r |})
  else None.

Definition Read (r : reader) : frame :=
  match read_full r 9 with
  | None => if (length (data r) =? 0)%nat && clean r then EndOfStream else BadFrame
  | Some (h, r) =>
      match h with
      | [m1; m2; m3; m4; k; a; b; c; d] =>
          let length := uint32 a b c d in
          match kind_of_byte k with
          | Some k =>
              if bool_decide ([m1; m2; m3; m4] = magic) && negb (length =? 0) && (length <=? MaximumChunk)
              then match read_full r (Z.to_nat length) with
                   | Some (raw, r) => Frame k raw r
                   | None => BadFrame
                   end
              else BadFrame
          | None => BadFrame
          end
      | _ => BadFrame
      end
  end.

(** ** What is written is read back *)

Lemma land_255 n : Z.land n 0xFF = n mod 256.
Proof. change 0xFF with (Z.ones 8). by rewrite Z.land_ones. Qed.

Lemma uint32_put n :
  0 <= n < 65536 ->
  match put_uint32 n with [a; b; c; d] => uint32 a b c d = n | _ => False end.
Proof.
  intros Hn. unfold put_uint32. rewrite !land_255, !Z.shiftr_div_pow2 by lia.
  assert ((n / 2 ^ 24) mod 256 = 0) as -> by (change (2 ^ 24) with 16777216; Z.to_euclidean_division_equations; lia).
  assert ((n / 2 ^ 16) mod 256 = 0) as -> by (change (2 ^ 16) with 65536; Z.to_euclidean_division_equations; lia).
  unfold uint32. rewrite !Z.shiftl_0_l, !Z.lor_0_r.
  assert (Hlow : Z.land (Z.shiftl ((n / 2 ^ 8) mod 256) 8) (n mod 256) = 0).
  { apply Z.bits_inj'. intros i Hi. rewrite Z.land_spec, Z.bits_0.
    destruct (Z.lt_ge_cases i 8).
    - by rewrite Z.shiftl_spec_low.
    - change 256 with (2 ^ 8). rewrite Z.mod_pow2_bits_high by lia. apply andb_false_r. }
  pose proof (Z.add_lor_land (Z.shiftl ((n / 2 ^ 8) mod 256) 8) (n mod 256)) as H.
  rewrite Z.lor_comm. rewrite Hlow, Z.add_0_r in H. rewrite H, Z.shiftl_mul_pow2 by lia.
  change (2 ^ 8) with 256. Z.to_euclidean_division_equations. lia.
Qed.

(** A frame the encoder would write. *)
Definition proper (kd : Kind * bytes) : Prop := 0 < zlen kd.2 <= MaximumChunk.

Definition encode (kd : Kind * bytes) : bytes := header kd.1 (zlen kd.2) ++ kd.2.

Lemma kind_of_kind_byte k : kind_of_byte (kind_byte k) = Some k.
Proof. by destruct k. Qed.

Lemma Read_encode kd rest c :
  proper kd -> Read {| data := encode kd ++ rest; clean := c |} = Frame kd.1 kd.2 {| data := rest; clean := c |}.
Proof.
  destruct kd as [k raw]. unfold proper, MaximumChunk, encode. cbn [fst snd]. intros Hp.
  pose proof (uint32_put (zlen raw) ltac:(lia)) as Hu. unfold header.
  destruct (put_uint32 (zlen raw)) as [|a [|b [|cc [|d [|]]]]] eqn:E; try done.
  unfold Read, read_full. cbn [data clean magic bs app].
  assert ((9 <=? length _)%nat = true) as -> by (cbn [length app]; apply Nat.leb_le; lia).
  cbn [take drop app]. rewrite kind_of_kind_byte, Hu.
  rewrite bool_decide_true by done.
  assert (zlen raw =? 0 = false) as -> by lia. cbn [negb andb].
  unfold MaximumChunk. assert (zlen raw <=? 32 * 1024 = true) as -> by lia. cbn [data clean].
  assert (Z.to_nat (zlen raw) = length raw) as -> by (unfold zlen; lia).
  rewrite take_0, drop_0.
  assert ((length raw <=? length (raw ++ rest))%nat = true) as -> by (rewrite length_app; apply Nat.leb_le; lia).
  by rewrite take_app_length, drop_app_length.
Qed.

(** Every frame shortens the stream. *)
Lemma Read_shorter r k raw r' :
  Read r = Frame k raw r' -> (length (data r') < length (data r))%nat /\ clean r' = clean r /\
  zlen raw <= MaximumChunk.
Proof.
  unfold Read, read_full. destruct (9 <=? length (data r))%nat eqn:E9; [|by destruct (_ && _)].
  apply Nat.leb_le in E9. destruct (take 9 (data r)) as [|m1 [|m2 [|m3 [|m4 [|kb [|a [|b [|c [|d [|]]]]]]]]]]; try done.
  destruct (kind_of_byte kb); [|done]. destruct (_ && _ && _) eqn:Eb; [|done]. cbn [data clean].
  destruct (_ <=? _)%nat eqn:El; [|done]. intros [= <- <- <-]. cbn [data clean]. rewrite !length_drop.
  bool_norm. split_and!; [lia|done|]. unfold zlen, MaximumChunk in *. rewrite length_take. lia.
Qed.

(** Frames one after the other, to the end of the stream. *)
Fixpoint read_all (fuel : nat) (r : reader) : option (list (Kind * bytes)) :=
  match fuel with
  | O => None
  | S fuel =>
      match Read r with
      | Frame k raw r => option_map (cons (k, raw)) (read_all fuel r)
      | EndOfStream => Some []
      | BadFrame => None
      end
  end.

Fixpoint write_all (e : Encoder) (frames : list (Kind * bytes)) : Encoder * bool :=
  match frames with
  | [] => (e, true)
  | (k, raw) :: rest =>
      match Write e k raw None with
      | (e, true) => write_all e rest
      | (e, false) => (e, false)
      end
  end.

Lemma write_all_encode e frames :
  failed e = false -> Forall proper frames ->
  write_all e frames = ({| failed := false; written := written e ++ concat (map encode frames) |}, true).
Proof.
  intros Hf Hp. revert e Hf. induction Hp as [|[k raw] frames Hp _ IH]; intros e Hf; cbn [write_all map concat].
  { rewrite app_nil_r. destruct e; cbn in *. by rewrite Hf. }
  unfold Write. rewrite Hf. unfold proper, MaximumChunk in *. cbn [fst snd] in Hp.
  assert (zlen raw =? 0 = false) as -> by lia. assert (32 * 1024 <? zlen raw = false) as -> by lia. cbn [orb].
  rewrite IH by done. cbn [written]. unfold encode at 2. cbn [fst snd]. by rewrite <-!(assoc_L (++)).
Qed.

Lemma read_all_encode fuel frames :
  Forall proper frames -> (length frames < fuel)%nat ->
  read_all fuel {| data := concat (map encode frames); clean := true |} = Some frames.
Proof.
  intros Hp. revert fuel. induction Hp as [|[k raw] frames Hp _ IH]; intros fuel Hf; (destruct fuel as [|fuel]; [cbn in Hf; lia|]);
    cbn [read_all map concat]; [done|].
  rewrite (Read_encode (k, raw)) by done. cbn [length] in Hf. rewrite IH by lia. done.
Qed.

(** Frames survive the wire. Any sequence of frames the encoder accepts, of any
    kinds and contents, is read back as exactly that sequence, followed by the end
    of the stream. *)
Theorem frames_roundtrip (frames : list (Kind * bytes)) :
  Forall proper frames ->
  exists e, write_all NewEncoder frames = (e, true) /\
    read_all (S (length (written e))) {| data := written e; clean := true |} = Some frames.
Proof.
  intros Hp. exists {| failed := false; written := concat (map encode frames) |}. split.
  - by rewrite write_all_encode.
  - cbn [written]. apply read_all_encode; [done|].
    induction Hp as [|[k raw] frames Hp _ IH]; [cbn; lia|]. cbn [map concat length] in *.
    rewrite length_app. unfold encode at 1, header. rewrite !length_app. cbn [length]. lia.
Qed.

Lemma frames_roundtrip_witness :
  let frames := [(Stdout, bs "log"); (Events, bs "{}"); (Outcome, [0; 255])] in
  exists e, write_all NewEncoder frames = (e, true) /\ length (written e) = 34%nat /\
    read_all (S (length (written e))) {| data := written e; clean := true |} = Some frames.
Proof.
  intros frames. destruct (frames_roundtrip frames) as (e & E & H).
  - repeat (apply Forall_cons; split); try apply Forall_nil; try done; split; vm_compute; congruence.
  - exists e. split; [exact E|]. split; [|exact H]. vm_compute in E. injection E as <-. reflexivity.
Defined.

End Frames.

(** * The outcome frame *)

Module Claim.

Record claim := { ExitCode : Z; InfrastructureFailure : bool }.

Definition key_exitCode : bytes := bs "exitCode".
Definition key_infrastructureFailure : bytes := bs "infrastructureFailure".

(** [json.Marshal(claim)] *)
Definition canonical (c : claim) : bytes :=
  let q := [0x22] in
  bs "{" ++ q ++ key_exitCode ++ q ++ bs ":" ++ itoa (ExitCode c) ++ bs "," ++ q ++
  key_infrastructureFailure ++ q ++ bs ":" ++
  (if InfrastructureFailure c then bs "true" else bs "false") ++ bs "}".

Arguments canonical : simpl never.

(** One member of the object, as [json.Unmarshal] stores it: field names match up
    to letter case, [null] leaves the field alone, unknown names are ignored. *)
Definition store (c : option claim) (kv : bytes * json) : option claim :=
  match c with
  | None => None
  | Some c =>
      if bool_decide (to_lower kv.1 = to_lower key_exitCode) then
        match kv.2 with
        | JNumber lit => option_map (fun n => {| ExitCode := n; InfrastructureFailure := InfrastructureFailure c |})
                           (parse_int64 lit)
        | JNull => Some c
        | _ => None
        end
      else if bool_decide (to_lower kv.1 = to_lower key_infrastructureFailure) then
        match kv.2 with
        | JBool b => Some {| ExitCode := ExitCode c; InfrastructureFailure := b |}
        | JNull => Some c
        | _ => None
        end
      else Some c
  end.

Definition unmarshal (raw : bytes) : option claim :=
  match parse raw with
  | Some (JObject ms) => foldl store (Some {| ExitCode := 0; InfrastructureFailure := false |}) ms
  | Some JNull => Some {| ExitCode := 0; InfrastructureFailure := false |}
  | _ => None
  end.

(** The case [Outcome] of [ReadStream]. *)
Definition accept (raw : bytes) : option claim :=
  if 64 <? zlen raw then None
  else
    match unmarshal raw with
    | None => None
    | Some c =>
        if negb (bool_decide (raw = canonical c)) || (ExitCode c <? 0) || (255 <? ExitCode c)
           || negb (Bool.eqb (ExitCode c =? 125) (InfrastructureFailure c))
        then None
        else Some c
    end.

(** The claims a guest can make. *)
Definition claimable (c : claim) : Prop :=
  0 <= ExitCode c <= 255 /\ InfrastructureFailure c = (ExitCode c =? 125).

Lemma accept_canonical c : claimable c -> accept (canonical c) = Some c.
Proof.
  destruct c as [n b]. intros [Hn Hb]. cbn [ExitCode InfrastructureFailure] in *. subst b.
  assert (H : n ∈ seqZ 0 256) by (apply elem_of_seqZ; lia). clear Hn. revert n H.
  assert (H : forallb (fun n => bool_decide (option_map (fun c => (ExitCode c, InfrastructureFailure c))
              (accept (canonical {| ExitCode := n; InfrastructureFailure := n =? 125 |})) = Some (n, n =? 125)))
              (seqZ 0 256) = true) by (vm_compute; reflexivity).
  intros n Hn. rewrite forallb_forall in H. apply list_elem_of_In in Hn. specialize (H n Hn).
  apply bool_decide_eq_true in H. destruct (accept _) as [[n' b']|]; [|done]. cbn in H. by simplify_eq.
Qed.

Lemma accept_inv raw c : accept raw = Some c -> raw = canonical c /\ claimable c.
Proof.
  unfold accept. destruct (64 <? zlen raw); [done|]. destruct (unmarshal raw) as [c'|]; [|done].
  destruct (_ || _ || _ || _) eqn:E; [done|]. intros [= <-].
  repeat (apply orb_false_elim in E as [E ?]). bool_norm. split; [done|]. split; [lia|].
  match goal with H : Bool.eqb _ _ = true |- _ => apply Bool.eqb_prop in H end. done.
Qed.

End Claim.

(** * The whole stream *)

Module Stream.
Import Frames Claim.

Definition MaximumLogBytes : Z := 16 * 1024 * 1024.
Definition MaximumEventBytes : Z := 4 * 1024 * 1024.
Definition MaximumFrames : Z := 16384.

Record Transcript := {
  exitCode : Z;
  infrastructureFailure : bool;
  events : bytes;
  logBytes : Z
}.

Definition empty_transcript : Transcript :=
  {| exitCode := 0; infrastructureFailure := false; events := []; logBytes := 0 |}.

(** The variables of the loop. *)
Record progress := { t : Transcript; eventsStarted : bool; outcomeSeen : bool }.

Definition start : progress := {| t := empty_transcript; eventsStarted := false; outcomeSeen := false |}.

Definition add_log (t : Transcript) (n : Z) : Transcript :=
  {| exitCode := exitCode t; infrastructureFailure := infrastructureFailure t; events := events t;
     logBytes := logBytes t + n |}.
Definition add_events (t : Transcript) (raw : bytes) : Transcript :=
  {| exitCode := exitCode t; infrastructureFailure := infrastructureFailure t; events := events t ++ raw;
     logBytes := logBytes t |}.
Definition set_claim (t : Transcript) (c : claim) : Transcript :=
  {| exitCode := ExitCode c; infrastructureFailure := InfrastructureFailure c; events := events t;
     logBytes := logBytes t |}.

(** The switch on the kind of a frame: the new variables and the log to deliver. *)
Definition take_frame (maximum : Z) (p : progress) (k : Kind) (raw : bytes) : option progress :=
  match k with
  | Stdout | Stderr =>
      if eventsStarted p || (maximum - logBytes (t p) <? zlen raw) then None
      else Some {| t := add_log (t p) (zlen raw); eventsStarted := eventsStarted p; outcomeSeen := false |}
  | Events =>
      if MaximumEventBytes - zlen (events (t p)) <? zlen raw then None
      else Some {| t := add_events (t p) raw; eventsStarted := true; outcomeSeen := false |}
  | Outcome =>
      match accept raw with
      | None => None
      | Some c => Some {| t := set_claim (t p) c; eventsStarted := eventsStarted p; outcomeSeen := true |}
      end
  end.

Section read.
Context {St : Type}.

(** [onLog] on the state it changes; [false] is an error. *)
Context (onLog : St -> Kind -> bytes -> St * bool).

(** Whether the context is done when frame [n] is about to be read. *)
Context (cancelled : Z -> bool).

Fixpoint read_loop (fuel : nat) (maximum : Z) (frames : Z) (p : progress) (s : St) (r : reader)
  : St * option Transcript :=
  match fuel with
  | O => (s, None)
  | S fuel =>
      if cancelled frames then (s, None)
      else
        match Read r with
        | EndOfStream => (s, if outcomeSeen p && negb (cancelled (frames + 1)) then Some (t p) else None)
        | BadFrame => (s, None)
        | Frame k raw r =>
            if outcomeSeen p || (MaximumFrames <=? frames) then (s, None)
            else
              match take_frame maximum p k raw with
              | None => (s, None)
              | Some p =>
                  match k with
                  | Stdout | Stderr =>
                      let '(s, ok) := onLog s k raw in
                      if ok then read_loop fuel maximum (frames + 1) p s r else (s, None)
                  | _ => read_loop fuel maximum (frames + 1) p s r
                  end
              end
        end
  end.

(** Every frame takes bytes from the reader, so its length bounds the turns. *)
Definition ReadStream (maximum : Z) (s : St) (r : reader) : St * option Transcript :=
  if (maximum <? 1) || (MaximumLogBytes <? maximum) then (s, None)
  else read_loop (S (length (data r))) maximum 0 start s r.
End read.

(** ** Which streams are accepted *)

Fixpoint take_frames (maximum n : Z) (p : progress) (frames : list (Kind * bytes)) : option progress :=
  match frames with
  | [] => Some p
  | (k, raw) :: rest =>
      if outcomeSeen p || (MaximumFrames <=? n) then None
      else match take_frame maximum p k raw with
           | Some p => take_frames maximum (n + 1) p rest
           | None => None
           end
  end.

Definition is_log (f : Kind * bytes) : Prop := f.1 = Stdout \/ f.1 = Stderr.

(** The logs a stream delivers, in order. *)
Definition deliver {St} (onLog : St -> Kind -> bytes -> St * bool) (s : St) (frames : list (Kind * bytes)) : St :=
  foldl (fun s f => fst (onLog s f.1 f.2)) s
    (filter (fun f => f.1 = Stdout \/ f.1 = Stderr) frames).

Definition log_total (frames : list (Kind * bytes)) : Z := foldr (fun f n => zlen f.2 + n) 0 frames.

(** A well-formed stream: log frames, then event frames, then one outcome. *)
Record accepted (maximum : Z) (frames logs : list (Kind * bytes)) (evs : list bytes) (c : claim) : Prop := {
  ac_frames : frames = logs ++ map (pair Events) evs ++ [(Outcome, canonical c)];
  ac_logs : Forall is_log logs;
  ac_log_total : log_total logs <= maximum;
  ac_events : zlen (concat evs) <= MaximumEventBytes;
  ac_count : zlen frames <= MaximumFrames;
  ac_claim : claimable c
}.

(** What [p] lacks to become the transcript of [p']. *)
Definition completes (maximum n : Z) (p p' : progress) (frames : list (Kind * bytes)) : Prop :=
  exists logs evs c, frames = logs ++ map (pair Events) evs ++ [(Outcome, canonical c)] /\ Forall is_log logs /\
    (eventsStarted p = true -> logs = []) /\ logBytes (t p) + log_total logs <= maximum /\
    zlen (events (t p)) + zlen (concat evs) <= MaximumEventBytes /\ n + zlen frames <= MaximumFrames /\
    claimable c /\
    t p' = {| exitCode := ExitCode c; infrastructureFailure := InfrastructureFailure c;
              events := events (t p) ++ concat evs; logBytes := logBytes (t p) + log_total logs |}.

Lemma log_frame_inv maximum n p p' k raw frames :
  is_log (k, raw) -> eventsStarted p = false -> n <= MaximumFrames ->
  completes maximum (n + 1) {| t := add_log (t p) (zlen raw); eventsStarted := eventsStarted p; outcomeSeen := false |}
    p' frames ->
  completes maximum n p p' ((k, raw) :: frames).
Proof.
  intros Hk Hs Hn (logs & evs & c & -> & L & _ & B & E & C & K & T). cbn in *.
  exists ((k, raw) :: logs), evs, c.
  assert (Ht : log_total ((k, raw) :: logs) = zlen raw + log_total logs) by done. rewrite Ht.
  split_and!; try done; try lia; [by constructor|rewrite zlen_cons; lia|].
  rewrite T. f_equal. lia.
Qed.

Lemma take_frames_inv maximum frames : forall n p p',
  take_frames maximum n p frames = Some p' -> outcomeSeen p = false -> outcomeSeen p' = true ->
  logBytes (t p) <= maximum -> zlen (events (t p)) <= MaximumEventBytes -> n <= MaximumFrames ->
  completes maximum n p p' frames.
Proof.
  induction frames as [|[k raw] frames IH]; intros n p p'; cbn [take_frames]; [intros; simplify_eq; congruence|].
  intros H Hp Hp' Hl He Hn. rewrite Hp in H. cbn [orb] in H.
  destruct (MaximumFrames <=? n) eqn:En; [done|]. destruct (take_frame maximum p k raw) as [p1|] eqn:E; [|done].
  assert (Hz : zlen ((k, raw) :: frames) = 1 + zlen frames) by apply zlen_cons.
  destruct k; cbn [take_frame] in E.
  - destruct (_ || _) eqn:Eg; [done|]. apply orb_false_elim in Eg as [Eg1 Eg2]. injection E as <-.
    eapply (log_frame_inv maximum n p p' Stdout); [by left|exact Eg1|exact Hn|]. eapply IH; [exact H|..]; cbn; try done; lia.
  - destruct (_ || _) eqn:Eg; [done|]. apply orb_false_elim in Eg as [Eg1 Eg2]. injection E as <-.
    eapply (log_frame_inv maximum n p p' Stderr); [by right|exact Eg1|exact Hn|]. eapply IH; [exact H|..]; cbn; try done; lia.
  - destruct (_ <? _) eqn:Eg; [done|]. injection E as <-.
    destruct (IH _ _ _ H) as (logs & evs & c & -> & L & S & B & E' & C & K & T); cbn in *; try done; try lia.
    { rewrite zlen_app. lia. }
    specialize (S eq_refl) as ->. cbn [app] in *. exists [], (raw :: evs), c. cbn [concat map app log_total foldr] in *.
    rewrite zlen_app in E'. split_and!; try done; try lia.
    + rewrite zlen_app. lia.
    + rewrite T, <-(assoc_L (++)). done.
  - destruct (accept raw) as [c|] eqn:Ea; [|done]. injection E as <-.
    apply accept_inv in Ea as [-> Hc]. destruct frames as [|f frames].
    + cbn in H. injection H as <-. exists [], [], c. change (zlen [(Outcome, canonical c)]) with 1.
      change (log_total []) with 0. cbn [concat map app t set_claim].
      rewrite app_nil_r, Z.add_0_r. change (zlen (@nil Z)) with 0. split_and!; try done; lia.
    + destruct f. cbn in H. done.
Qed.

Lemma take_frames_app maximum n p a b p1 :
  take_frames maximum n p a = Some p1 ->
  take_frames maximum n p (a ++ b) = take_frames maximum (n + zlen a) p1 b.
Proof.
  revert n p. induction a as [|[k raw] a IH]; intros n p; cbn [take_frames app].
  { intros [= ->]. rewrite zlen_nil. f_equal. lia. }
  destruct (_ || _); [done|]. destruct (take_frame maximum p k raw); [|done]. intros H.
  rewrite (IH _ _ H), zlen_cons. f_equal. lia.
Qed.

Lemma take_logs maximum logs : forall n p,
  Forall is_log logs -> outcomeSeen p = false -> eventsStarted p = false -> n + zlen logs <= MaximumFrames ->
  logBytes (t p) + log_total logs <= maximum ->
  take_frames maximum n p logs =
  Some {| t := add_log (t p) (log_total logs); eventsStarted := false; outcomeSeen := false |}.
Proof.
  induction logs as [|[k raw] logs IH]; intros n p Hl Hp Hs Hn Hb; cbn [take_frames].
  { destruct p as [[] es os]. cbn in *. subst. unfold add_log. cbn. repeat f_equal. lia. }
  apply Forall_cons in Hl as [Hk Hl]. rewrite zlen_cons in Hn.
  change (log_total ((k, raw) :: logs)) with (zlen raw + log_total logs) in *.
  pose proof (zlen_nonneg logs).
  assert (0 <= log_total logs).
  { clear. unfold log_total. induction logs as [|f l IH]; cbn [foldr]; [lia|]. pose proof (zlen_nonneg f.2). lia. }
  rewrite Hp. assert (MaximumFrames <=? n = false) as -> by lia. cbn [orb].
  assert (take_frame maximum p k raw =
          Some {| t := add_log (t p) (zlen raw); eventsStarted := false; outcomeSeen := false |}) as ->.
  { assert (maximum - logBytes (t p) <? zlen raw = false) as E by lia.
    destruct Hk as [Hk|Hk]; cbn in Hk; subst k; cbn [take_frame]; by rewrite Hs, E. }
  rewrite IH; [|done|done|done|cbn; lia|cbn; lia]. unfold add_log. cbn [t exitCode infrastructureFailure events logBytes]. by rewrite Z.add_assoc.
Qed.

Lemma take_events maximum evs : forall n p,
  outcomeSeen p = false -> n + zlen evs <= MaximumFrames ->
  zlen (events (t p)) + zlen (concat evs) <= MaximumEventBytes ->
  exists es, take_frames maximum n p (map (pair Events) evs) =
  Some {| t := add_events (t p) (concat evs); eventsStarted := es; outcomeSeen := false |}.
Proof.
  induction evs as [|raw evs IH]; intros n p Hp Hn Hb; cbn [take_frames map concat] in *.
  { exists (eventsStarted p). destruct p as [[] es os]. cbn in *. subst. unfold add_events. cbn.
    by rewrite app_nil_r. }
  rewrite zlen_cons in Hn. rewrite zlen_app in Hb. pose proof (zlen_nonneg evs). pose proof (zlen_nonneg (concat evs)).
  rewrite Hp. assert (MaximumFrames <=? n = false) as -> by lia. cbn [orb take_frame].
  assert (MaximumEventBytes - zlen (events (t p)) <? zlen raw = false) as -> by lia.
  destruct (IH (n + 1) {| t := add_events (t p) raw; eventsStarted := true; outcomeSeen := false |}) as [es E].
  - done.
  - lia.
  - cbn. rewrite zlen_app. lia.
  - exists es. rewrite E. cbn. unfold add_events. cbn. by rewrite <-(assoc_L (++)).
Qed.

(** On encoded frames the loop is [take_frames], and it delivers every log. *)
Lemma read_loop_frames {St} (onLog : St -> Kind -> bytes -> St * bool) maximum frames :
  (forall s k raw, snd (onLog s k raw) = true) -> Forall proper frames ->
  forall fuel n p s, (length frames < fuel)%nat ->
  let r := read_loop onLog (fun _ => false) fuel maximum n p s
             {| data := concat (map encode frames); clean := true |} in
  match take_frames maximum n p frames with
  | Some p' => r = (deliver onLog s frames, if outcomeSeen p' then Some (t p') else None)
  | None => snd r = None
  end.
Proof.
  intros Hok Hp. induction Hp as [|[k raw] frames Hp _ IH]; intros fuel n p s Hf;
    (destruct fuel as [|fuel]; [cbn in Hf; lia|]); cbn [read_loop map concat take_frames].
  { cbn. by destruct (outcomeSeen p). }
  rewrite (Read_encode (k, raw)) by done. cbn [fst snd length] in *.
  destruct (_ || _); [done|]. destruct (take_frame maximum p k raw) as [p1|]; [|done].
  assert (Hd : deliver onLog s ((k, raw) :: frames) =
               deliver onLog (match k with Stdout | Stderr => fst (onLog s k raw) | _ => s end) frames).
  { unfold deliver. rewrite filter_cons. cbn [fst snd].
    destruct k; [rewrite decide_True by auto|rewrite decide_True by auto|rewrite decide_False by naive_solver|
                 rewrite decide_False by naive_solver]; done. }
  rewrite Hd. pose proof (Hok s k raw) as Hk.
  destruct k; try (apply IH; lia); destruct (onLog s _ raw) as [s1 ok]; cbn in Hk; subst ok; cbn [fst]; apply IH; lia.
Qed.

Lemma frames_shorter frames : Forall proper frames -> (length frames <= length (concat (map encode frames)))%nat.
Proof.
  induction 1 as [|[k raw] frames Hp _ IH]; [cbn; lia|]. cbn [map concat length] in *.
  rewrite length_app. unfold encode at 1, header. rewrite !length_app. cbn [length]. lia.
Qed.

(** C40: exactly the well-formed streams are accepted. A stream of frames yields a
    transcript if and only if it is log frames within the log limit, then event
    frames within the event limit, then one canonical outcome with a consistent exit
    code, at most 16384 frames in all; the transcript is then the claimed exit, the
    events in order and the size of the logs, and every log has been delivered in
    order. *)
Theorem stream_accepts {St} (onLog : St -> Kind -> bytes -> St * bool) (maximum : Z)
    (frames : list (Kind * bytes)) (s s' : St) (tr : Transcript) :
  (forall s k raw, snd (onLog s k raw) = true) -> Forall proper frames ->
  1 <= maximum <= MaximumLogBytes ->
  ReadStream onLog (fun _ => false) maximum s {| data := concat (map encode frames); clean := true |}
  = (s', Some tr)
  <-> s' = deliver onLog s frames /\
      exists logs evs c, accepted maximum frames logs evs c /\
        tr = {| exitCode := ExitCode c; infrastructureFailure := InfrastructureFailure c;
                events := concat evs; logBytes := log_total logs |}.
Proof.
  intros Hok Hp Hm. unfold ReadStream.
  assert ((maximum <? 1) || (MaximumLogBytes <? maximum) = false) as -> by lia. cbn [data].
  pose proof (read_loop_frames onLog maximum frames Hok Hp
    (S (length (concat (map encode frames)))) 0 start s) as H.
  specialize (H ltac:(pose proof (frames_shorter frames Hp); lia)). cbn zeta in H.
  destruct (read_loop _ _ _ _ _ _ _ _) as [s1 o1]. split.
  - intros [= -> ->]. destruct (take_frames maximum 0 start frames) as [p'|] eqn:E; [|done].
    destruct (outcomeSeen p') eqn:Eo; [|done]. injection H as -> ->. split; [done|].
    destruct (take_frames_inv _ _ _ _ _ E eq_refl Eo) as (logs & evs & c & Ef & L & _ & B & Ev & C & K & T);
      [cbn; lia|done|done|].
    cbn in *. exists logs, evs, c. split; [by split|]. by rewrite T.
  - intros (-> & logs & evs & c & [Ef L B Ev C K] & ->).
    assert (E : exists es, take_frames maximum 0 start frames = Some {| t :=
       {| exitCode := ExitCode c; infrastructureFailure := InfrastructureFailure c;
          events := concat evs; logBytes := log_total logs |}; eventsStarted := es; outcomeSeen := true |}).
    { rewrite Ef in C |- *. rewrite !zlen_app in C.
      change (zlen [(Outcome, canonical c)]) with 1 in C.
      assert (Hz : zlen (map (pair Events) evs) = zlen evs) by (unfold zlen; by rewrite length_map).
      pose proof (zlen_nonneg logs). pose proof (zlen_nonneg evs).
      rewrite (take_frames_app _ _ _ _ _ _ (take_logs maximum logs 0 start L eq_refl eq_refl ltac:(lia) ltac:(cbn; lia))).
      destruct (take_events maximum evs (0 + zlen logs)
        {| t := add_log (t start) (log_total logs); eventsStarted := false; outcomeSeen := false |}) as [es Es];
        [done|lia|cbn; change (zlen (@nil Z)) with 0; lia|].
      rewrite (take_frames_app _ _ _ _ _ _ Es). exists es. cbn [take_frames outcomeSeen orb].
      assert (MaximumFrames <=? 0 + zlen logs + zlen (map (pair Events) evs) = false) as -> by lia.
      cbn [take_frame]. rewrite accept_canonical by done. done. }
    destruct E as [es E]. rewrite E in H. cbn in H. exact H.
Qed.

Definition sample_frames : list (Kind * bytes) :=
  [(Stdout, bs "out"); (Stderr, bs "err"); (Events, bs "{}"); (Outcome, canonical {| ExitCode := 3; InfrastructureFailure := false |})].

Definition keep (s : list (Kind * bytes)) (k : Kind) (raw : bytes) : list (Kind * bytes) * bool :=
  (s ++ [(k, raw)], true).

Lemma stream_accepts_witness :
  ReadStream keep (fun _ => false) 100 [] {| data := concat (map encode sample_frames); clean := true |}
  = ([(Stdout, bs "out"); (Stderr, bs "err")],
     Some {| exitCode := 3; infrastructureFailure := false; events := bs "{}"; logBytes := 6 |}).
Proof.
  apply (stream_accepts keep 100 sample_frames [] _ _).
  - done.
  - repeat (apply Forall_cons; split); try apply Forall_nil; split; vm_compute; congruence.
  - split; vm_compute; congruence.
  - split; [reflexivity|].
    exists [(Stdout, bs "out"); (Stderr, bs "err")], [bs "{}"], {| ExitCode := 3; InfrastructureFailure := false |}.
    split; [|reflexivity]. split; try reflexivity; try (vm_compute; congruence).
    + apply Forall_cons; split; [by left|]. apply Forall_cons; split; [by right|constructor].
    + split; [cbn; lia|reflexivity].
Defined.

End Stream.

(** * The startup marker *)

Module Startup.

Definition startupMarker : bytes := bs "PVREADY1".

(** [sink]: [None] when the pipe takes the marker, [Some n] when only [n] bytes. *)
Definition WriteStartup (sink : option nat) : bytes * bool :=
  match sink with None => (startupMarker, true) | Some n => (take n startupMarker, false) end.

(** What [ReadStartup] leaves unread, or [None] when the marker is not there. *)
Definition ReadStartup (r : Frames.reader) : option Frames.reader :=
  match Frames.read_full r (length startupMarker) with
  | None => None
  | Some (raw, r) => if bool_decide (raw = startupMarker) then Some r else None
  end.

Lemma startup_roundtrip rest c :
  ReadStartup {| Frames.data := fst (WriteStartup None) ++ rest; Frames.clean := c |}
  = Some {| Frames.data := rest; Frames.clean := c |}.
Proof.
  unfold ReadStartup, Frames.read_full. cbn [WriteStartup fst Frames.data Frames.clean].
  assert ((length startupMarker <=? length (startupMarker ++ rest))%nat = true) as ->
    by (rewrite length_app; apply Nat.leb_le; lia).
  rewrite take_app_length, drop_app_length. by rewrite bool_decide_true.
Qed.

End Startup.

(** * Plugin names *)

Module PluginName.

Definition asciiAlphanumeric (v : Z) : bool := is_upper v || is_lower v || is_digit v.

Definition name_byte (v : Z) : bool := asciiAlphanumeric v || (v =? 0x5F) || (v =? 0x2E) || (v =? 0x2D).

Definition reserved : list bytes := [bs "bukkit"; bs "minecraft"; bs "mojang"; bs "spigot"; bs "paper"].

Definition ValidPaper (value : bytes) : bool :=
  match value with
  | [] => false
  | first :: rest =>
      if (64 <? zlen value) || negb (asciiAlphanumeric first) then false
      else if negb (forallb name_byte rest) then false
      else negb (bool_decide (to_lower value ∈ reserved))
  end.

End PluginName.
