(* ===== verification/Guest.v ===== *)
(** [Collector.ConsumeGuest] ([src/internal/evidence/guest.go]): the framed output of
    a measured guest goes through the collector, logs to the raw writers and event
    lines to the structured events. *)

From Stdlib Require Import ZifyBool.
From S2P Require Import Prelude Utf8 Processor LiveOutput Json Events Collector CollectorInv GuestOutput.
Import Config Coll Invariant.

(** [bufio.Scanner] with [ScanLines] on a text that ends in a line feed: the lines,
    a carriage return at their end dropped, and whether every line fits the buffer
    of [limit] bytes. Lines after one that does not fit are not seen. *)
Fixpoint scan_lines (limit : Z) (line raw : bytes) : list bytes * bool :=
  match raw with
  | [] => ([], true)
  | b :: rest =>
      if limit <? zlen line + 1 then ([], false)
      else if b =? 0x0A then
        let '(ls, ok) := scan_lines limit [] rest in (trim_suffix 0x0D line :: ls, ok)
      else scan_lines limit (line ++ [b]) rest
  end.

(** [scanner.Buffer(make([]byte, 4096), MaxEventBytes+2)]: the buffer grows to the
    larger of the two. *)
Definition scan_limit (cfg : Config.config) : Z := Z.max 4096 (MaxEventBytes cfg + 2).

Definition set_guestConsumed (c : Collector) : Collector :=
  set_flags c (rawObserved c) (structuredEventError c) (closed c) true (complete c) (snapshot c).

Definition stream_of (k : Frames.Kind) : Stream :=
  match k with Frames.Stderr => StreamStderr | _ => StreamStdout end.

(** When the context is seen done: before a frame, before an event line, at the end. *)
Record cancellation := { at_start : bool; at_frame : Z -> bool; at_line : Z -> bool; at_end : bool }.

Section guest.
Context (disk : Stream -> Z -> bytes -> option nat).

(** The [onLog] callback; [None] is a panic of the collector. *)
Definition onLog (c : option Collector) (k : Frames.Kind) (raw : bytes) : option Collector * bool :=
  match c with
  | None => (None, false)
  | Some c =>
      match Coll.Write disk c (stream_of k) raw with
      | Some (c, _) => (Some c, true)
      | None => (None, false)
      end
  end.

(** The loop over the event lines; [false] is a refusal. *)
Fixpoint record_lines (cancelled : Z -> bool) (count : Z) (c : Collector) (lines : list bytes) : Collector * bool :=
  match lines with
  | [] => (c, true)
  | line :: rest =>
      let count := count + 1 in
      if (MaxEvents (config c) <? count) || (zlen line =? 0) then (c, false)
      else
        match RecordEvent c (cancelled count) {| Kind := bs "probe"; Payload := line |} with
        | (c, Some _) => (c, false)
        | (c, None) =>
            if negb (bool_decide (structuredEventError c = None)) || eventsTruncated c || closed c
            then (c, false)
            else record_lines cancelled count c rest
        end
  end.

(** The deferred function on an error. *)
Definition refuse (c : Collector) : option (Collector * option Stream.Transcript) :=
  Some (setStructuredEventError c GuestRefused, None).

Definition ConsumeGuest (c : Collector) (k : cancellation) (r : Frames.reader) (maximumLogBytes : Z)
  : option (Collector * option Stream.Transcript) :=
  if at_start k then Some (c, None)
  else if closed c || guestConsumed c || negb (bool_decide (StructuredLinePrefix (config c) = []))
          || negb (rawObserved c =? 0) || negb (zlen (events c) =? 0)
  then Some (c, None)
  else
    match Stream.ReadStream onLog (at_frame k) maximumLogBytes (Some (set_guestConsumed c)) r with
    | (None, _) => None
    | (Some c, None) => refuse c
    | (Some c, Some tr) =>
        let raw := Stream.events tr in
        if negb (zlen raw =? 0) && negb (bool_decide (last raw = Some 0x0A)) then refuse c
        else
          let '(lines, fits) := scan_lines (scan_limit (config c)) [] raw in
          match record_lines (at_line k) 0 c lines with
          | (c, false) => refuse c
          | (c, true) =>
              if negb fits || at_end k || closed c then refuse c
              else Some (c, Some tr)
          end
    end.

(** ** The collector stays sound *)

Lemma read_loop_invariant {St} (log : St -> Frames.Kind -> bytes -> St * bool) (Inv : St -> Prop) cancelled :
  (forall s k raw, Inv s -> Inv (fst (log s k raw))) ->
  forall fuel maximum n p s r, Inv s -> Inv (fst (Stream.read_loop log cancelled fuel maximum n p s r)).
Proof.
  intros H fuel. induction fuel as [|fuel IH]; intros maximum n p s r Hs; cbn [Stream.read_loop]; [done|].
  destruct (cancelled n); [done|]. destruct (Frames.Read r) as [k raw r'| |]; [|done|done].
  destruct (_ || _); [done|]. destruct (Stream.take_frame maximum p k raw) as [p1|]; [|done].
  specialize (H s k raw Hs).
  destruct k; try (by apply IH); destruct (log s _ raw) as [s1 []]; cbn in H |- *; try done; by apply IH.
Qed.

(** The state the callback threads: a sound collector that has consumed a guest. *)
Definition consuming (c0 : Collector) (c : option Collector) : Prop :=
  exists c', c = Some c' /\ coll_ok c' /\ settled c' /\ config c' = config c0 /\ guestConsumed c' = true /\
    closed c' = closed c0 /\ snapshot c' = snapshot c0 /\ events c' = [].

(** Without a structured prefix the raw writers record no event. *)
Lemma handle_all_events c s rs c' l :
  Forall (handed_over []) rs -> handle_all disk c s rs = Some (c', l) -> events c' = events c.
Proof.
  intros Hr. revert c l. induction Hr as [|r rs Hr _ IH]; intros c l; cbn [handle_all]; [by intros [= <- <-]|].
  destruct (handle disk c s r) as [[c1 l1]|] eqn:E; [|done].
  destruct (handle_all disk c1 s rs) as [[c2 l2]|] eqn:E2; [|done]. intros [= <- <-].
  apply IH in E2 as ->. destruct r as [e|e|]; cbn [handle] in E.
  - unfold emit_raw in E. destruct (LiveOutput.append _ _ _); [|done]. cbn in E. by simplify_eq.
  - by destruct Hr.
  - by simplify_eq.
Qed.

Lemma Write_events c s content c' l :
  coll_ok c -> StructuredLinePrefix (config c) = [] ->
  Coll.Write disk c s content = Some (c', l) -> events c' = events c.
Proof.
  intros Hc Hp. unfold Coll.Write. destruct (RawProcessor.finished _) eqn:Ef; [by intros [= <- <-]|].
  set (c1 := set_observed c _).
  destruct (stream_facts c1 s (co_config _ Hc)) as (F1 & F2 & F3).
  pose proof (co_processor _ Hc s) as [H|H]; [congruence|].
  assert (Hpre : stream_prefix (config c1) s = []) by (destruct s; [exact Hp|done]).
  destruct (Write_sound _ _ F1 F2 F3 _ content H) as [_ S2]. rewrite Hpre in S2.
  assert (processor c1 s = processor c s) as -> by (by destruct s).
  destruct (RawProcessor.Write (processor c s) content) as [p out]. intros E.
  apply handle_all_events in E; [|exact S2]. rewrite E. by destruct s.
Qed.

Lemma onLog_consuming c0 c k raw :
  StructuredLinePrefix (config c0) = [] -> consuming c0 c -> consuming c0 (fst (onLog c k raw)).
Proof.
  intros Hp (c1 & -> & O & S & C & G & K & N & E0). cbn [onLog].
  destruct (Write_ok disk c1 (stream_of k) raw O) as (c' & l & E & O' & C' & F & _ & N' & K' & G').
  rewrite E. exists c'. split_and!; try done; try congruence; [|rewrite <-E0; eapply Write_events; [exact O| |exact E]; congruence].
  destruct S as [[H1 H2]|(H1 & H2 & H3)]; [left|right]; rewrite N', ?K'; setoid_rewrite F; done.
Qed.

(** The event a line becomes. *)
Definition event_of (cfg : Config.config) (line : bytes) (e : StructuredEvent) : Prop :=
  exists clean, Structured.sanitizeEvent {| Kind := bs "probe"; Payload := line |} (Config.patterns cfg)
                  (MaxEventBytes cfg) = Some clean /\ EPayload e = Payload clean /\ EKind e = bs "probe".

Lemma recordEventLocked_cases c line :
  validateEvent {| Kind := bs "probe"; Payload := line |} (MaxEventBytes (config c)) = None ->
  let c' := recordEventLocked c {| Kind := bs "probe"; Payload := line |} in
  structuredEventError c' <> None \/ eventsTruncated c' = true \/
  exists e, events c' = events c ++ [e] /\ event_of (config c) line e.
Proof.
  intros Hv. unfold recordEventLocked. destruct (Structured.sanitizeEvent _ _ _) as [clean|] eqn:E.
  - destruct (_ <=? _); [by right; left|]. right. right. eexists. split; [reflexivity|]. exists clean.
    split_and!; try done. destruct (validateEvent_ok _ _ Hv) as (_ & V & L).
    by destruct (Structured.sanitizeEvent_valid _ _ _ _ E V L).
  - left. cbn. by destruct (structuredEventError c).
Qed.

Lemma recordEventLocked_kept c input :
  let c' := recordEventLocked c input in
  config c' = config c /\ guestConsumed c' = guestConsumed c /\ closed c' = closed c /\ snapshot c' = snapshot c /\
  (forall s, processor c' s = processor c s).
Proof.
  unfold recordEventLocked. destruct (Structured.sanitizeEvent _ _ _); [destruct (_ <=? _)|];
    (split_and!; try done; by intros []).
Qed.

Lemma record_lines_ok cancelled lines : forall count c,
  coll_ok c ->
  let '(c', ok) := record_lines cancelled count c lines in
  coll_ok c' /\ config c' = config c /\ guestConsumed c' = guestConsumed c /\
  (ok = true -> exists es, events c' = events c ++ es /\ Forall2 (event_of (config c)) lines es).
Proof.
  induction lines as [|line lines IH]; intros count c Hc; cbn [record_lines].
  { split_and!; try done. intros _. exists []. by rewrite app_nil_r. }
  destruct (_ || _); [done|]. unfold RecordEvent. destruct (cancelled (count + 1)); [done|].
  set (input := {| Kind := bs "probe"; Payload := line |}).
  destruct (validateEvent input _) eqn:Ev; [done|]. destruct (closed c) eqn:Ec; [done|].
  pose proof (recordEvent_ok c input Hc Ev) as O1.
  pose proof (recordEventLocked_kept c input) as (K1 & K2 & K3 & _). cbn zeta in *.
  pose proof (recordEventLocked_cases c line Ev) as Hcases. fold input in Hcases. cbn zeta in Hcases.
  destruct (_ || _ || _) eqn:Eb; [by split_and!|].
  apply orb_false_elim in Eb as [Eb _]. apply orb_false_elim in Eb as [Eb1 Eb2]. bool_norm.
  specialize (IH (count + 1) (recordEventLocked c input) O1).
  destruct (record_lines cancelled (count + 1) (recordEventLocked c input) lines) as [c' ok].
  destruct IH as (I1 & I2 & I3 & I4). split_and!; [done|congruence|congruence|].
  intros Hok. destruct (I4 Hok) as (es & E & F). destruct Hcases as [?|[?|(e & He & Hev)]]; [congruence..|].
  exists (e :: es). rewrite E, He, <-(assoc_L (++)). split; [done|]. rewrite K1 in F. by constructor.
Qed.

Lemma refuse_ok c : coll_ok c -> exists c', refuse c = Some (c', None) /\ coll_ok c'.
Proof. intros H. eexists. split; [reflexivity|]. by apply setError_ok. Qed.

End guest.

Definition sample_config : Config.config :=
  {| Config.patterns := None; MaxLineBytes := 0; MaxTotalBytes := 40; MaxCompleteLogBytes := 0; MaxEvents := 0;
     MaxEventBytes := 0; Secrets := [bs "pw"]; StructuredLinePrefix := []; StructuredLineKind := [] |}.

Definition never : cancellation :=
  {| at_start := false; at_frame := fun _ => false; at_line := fun _ => false; at_end := false |}.

Definition sample_guest : Frames.reader :=
  {| Frames.data := concat (map Frames.encode
       [(Frames.Stdout, bs "a pw"); (Frames.Events, bs "[1]" ++ [0x0A]);
        (Frames.Outcome, Claim.canonical {| Claim.ExitCode := 0; Claim.InfrastructureFailure := false |})]);
     Frames.clean := true |}.

