(* ===== verification/World.v ===== *)
(** What the stateful components share: a state monad over the world the program
    runs in, time, and Go's [context.Context] as far as it decides results. *)

From S2P Require Import Prelude.

(** ** The state monad

    Code that calls into an interface threads the world [W]: the state of
    everything behind the interface, the clock included. *)

Definition M (W A : Type) : Type := W -> A * W.

Definition ret {W A} (a : A) : M W A := fun w => (a, w).

Definition bind {W A B} (m : M W A) (k : A -> M W B) : M W B := fun w => let '(a, w) := m w in k a w.

Declare Scope world_scope.
Delimit Scope world_scope with world.

Notation "'let!' x := m 'in' k" := (bind m (fun x => k))
  (at level 200, x name, m at level 100, k at level 200, only parsing) : world_scope.
Notation "'let!' ( x , y ) := m 'in' k" := (bind m (fun '(x, y) => k))
  (at level 200, x name, y name, m at level 100, k at level 200, only parsing) : world_scope.
Notation "m ;; k" := (bind m (fun _ => k))
  (at level 100, k at level 200, right associativity, only parsing) : world_scope.

(** Reading something of the world, the clock for instance. *)
Definition reads {W A} (f : W -> A) : M W A := fun w => (f w, w).

Definition changes {W} (f : W -> W) : M W unit := fun w => (tt, f w).

(** ** Contexts

    Times are nanoseconds. A context becomes done once, at a time and for a reason
    the program does not know beforehand; [None] never does. *)

Inductive ctxErr := Canceled | DeadlineExceeded.

#[export] Instance ctxErr_eq_dec : EqDecision ctxErr.
Proof. solve_decision. Defined.

Abbreviation context := (option (Z * ctxErr)) (only parsing).

(** [ctx.Err()] *)
Definition Err (ctx : context) (now : Z) : option ctxErr :=
  match ctx with
  | Some (t, e) => if t <=? now then Some e else None
  | None => None
  end.

(** [context.WithTimeout]. A child is done as soon as its parent is, for the
    parent's reason, also when the timeout has already passed. *)
Definition WithTimeout (parent : context) (now d : Z) : context :=
  match parent with
  | Some (t, e) => if t <=? Z.max now (now + d) then parent else Some (now + d, DeadlineExceeded)
  | None => Some (now + d, DeadlineExceeded)
  end.

(** [context.WithoutCancel] *)
Definition WithoutCancel (parent : context) : context := None.

Lemma Err_done t e now : t <= now -> Err (Some (t, e)) now = Some e.
Proof. intros H. cbn. by rewrite (proj2 (Z.leb_le _ _) H). Qed.

(** A context that is done stays so. *)
Lemma Err_later ctx e now later : Err ctx now = Some e -> now <= later -> Err ctx later = Some e.
Proof.
  destruct ctx as [[t e0]|]; [|done]. cbn. destruct (t <=? now) eqn:E; [|done]. intros [= ->] ?.
  assert (t <=? later = true) as -> by lia. done.
Qed.

(** A child of a context that is done is done for the same reason. *)
Lemma WithTimeout_done ctx e now d : Err ctx now = Some e -> WithTimeout ctx now d = ctx.
Proof.
  destruct ctx as [[t e0]|]; [|done]. cbn. destruct (t <=? now) eqn:E; [|done]. intros [= ->].
  assert (t <=? Z.max now (now + d) = true) as -> by lia. done.
Qed.
