(* ===== verification/Execution.v ===== *)
(** Local jobs ([src/internal/localjob/job.go]) and the executor that runs one
    ([src/internal/execution]): the provider registry, the phases of an execution,
    how failures are classified, and the supervision of network authority. *)

From Stdlib Require Import ZifyBool.
From S2P Require Import Prelude Utf8 Strconv World.

Open Scope world_scope.

(** * Local jobs *)

Module LocalJob.

Definition SchemaVersion : bytes := bs "provenance.local-job/v1alpha1".
Definition Millisecond : Z := 1000000.
Definition DefaultTimeout : Z := 5 * 60 * 1000 * Millisecond.
Definition MaximumTimeout : Z := 60 * 60 * 1000 * Millisecond.
Definition DefaultMaxOutputBytes : Z := 2 ^ 20.
Definition MaximumOutputBytes : Z := 16 * 2 ^ 20.

Record Job := {
  schemaVersion : bytes;
  ID : bytes;
  Provider : bytes;
  TimeoutMilliseconds : Z;
  PreparationTimeoutMilliseconds : Z;
  GracefulShutdownTimeoutMilliseconds : Z;
  MaxOutputBytes : Z;
  JEnvironment : bytes;
}.

Definition alphanumeric (b : Z) : bool := is_upper b || is_lower b || is_digit b.

(** [^[A-Za-z0-9][A-Za-z0-9._:/-]*$] *)
Definition identifierPattern (s : bytes) : bool :=
  match s with
  | [] => false
  | b :: rest => alphanumeric b && forallb (fun b => alphanumeric b || existsb (Z.eqb b) (bs "._:/-")) rest
  end.

(** The error messages are part of a result. *)
Definition validateIdentifier (field value : bytes) (maximumLength : Z) : option bytes :=
  if zlen value =? 0 then Some (field ++ bs " is required")
  else if maximumLength <? zlen value then Some (field ++ bs " must be at most " ++ itoa maximumLength ++ bs " bytes")
  else if negb (identifierPattern value) then Some (field ++ bs " contains unsupported characters")
  else None.

Definition validateTimeout (field : bytes) (value : Z) : option bytes :=
  if (value <? 0) || (MaximumTimeout / Millisecond <? value)
  then Some (field ++ bs " must be between 1 and " ++ itoa (MaximumTimeout / Millisecond) ++ bs " when set")
  else None.

Definition first (checks : list (option bytes)) : option bytes :=
  foldr (fun c rest => match c with Some e => Some e | None => rest end) None checks.

Definition Validate (j : Job) : option bytes :=
  first [
    if negb (bool_decide (schemaVersion j = SchemaVersion))
    then Some (bs "schemaVersion must be " ++ [0x22] ++ SchemaVersion ++ [0x22]) else None;
    validateIdentifier (bs "id") (ID j) 128;
    validateIdentifier (bs "provider") (Provider j) 64;
    validateTimeout (bs "timeoutMilliseconds") (TimeoutMilliseconds j);
    validateTimeout (bs "preparationTimeoutMilliseconds") (PreparationTimeoutMilliseconds j);
    validateTimeout (bs "gracefulShutdownTimeoutMilliseconds") (GracefulShutdownTimeoutMilliseconds j);
    if negb (Bool.eqb (PreparationTimeoutMilliseconds j =? 0) (GracefulShutdownTimeoutMilliseconds j =? 0))
    then Some (bs "preparationTimeoutMilliseconds and gracefulShutdownTimeoutMilliseconds must be set together")
    else None;
    if (MaxOutputBytes j <? 0) || (MaximumOutputBytes <? MaxOutputBytes j)
    then Some (bs "maxOutputBytes must be between 1 and " ++ itoa MaximumOutputBytes ++ bs " when set") else None;
    if (zlen (JEnvironment j) =? 0) || bool_decide (TrimSpace (JEnvironment j) = bs "null")
    then Some (bs "environment is required") else None].

Definition Timeout (j : Job) : Z :=
  if TimeoutMilliseconds j =? 0 then DefaultTimeout else TimeoutMilliseconds j * Millisecond.

Definition UsesPhaseTimeouts (j : Job) : bool := negb (PreparationTimeoutMilliseconds j =? 0).

Definition PreparationTimeout (j : Job) : Z :=
  if PreparationTimeoutMilliseconds j =? 0 then Timeout j else PreparationTimeoutMilliseconds j * Millisecond.

Definition GracefulShutdownTimeout (j : Job) : Z :=
  if GracefulShutdownTimeoutMilliseconds j =? 0 then 0 else GracefulShutdownTimeoutMilliseconds j * Millisecond.

Definition OutputLimit (j : Job) : Z :=
  if MaxOutputBytes j =? 0 then DefaultMaxOutputBytes else MaxOutputBytes j.

End LocalJob.

(** * The data of an execution *)

Inductive Classification :=
  | ClassificationPassed | ClassificationInvalidJob | ClassificationWorkloadFailure
  | ClassificationInfrastructureFailure | ClassificationTimedOut | ClassificationCancelled.

Inductive Phase :=
  | PhaseValidation | PhaseResolution | PhasePreparation | PhaseExecution
  | PhaseCollection | PhaseCleanup | PhaseCompleted.

#[export] Instance Classification_eq_dec : EqDecision Classification.
Proof. solve_decision. Defined.
#[export] Instance Phase_eq_dec : EqDecision Phase.
Proof. solve_decision. Defined.

Inductive FailureStage := NoStage | FailureStagePreparation | FailureStageStartup | FailureStageExecution | OtherStage (s : bytes).

Record Failure := { Stage : FailureStage; FClassification : Classification; Code : bytes; Message : bytes }.

(** A Go error: its message, and what [errors.As] finds of a [classifiedError] in it. *)
Record error := { etext : bytes; classified : option Failure }.

Definition NewFailure (c : Classification) (code message : bytes) : Failure :=
  {| Stage := NoStage; FClassification := c; Code := code; Message := message |}.

Definition NewClassifiedError (c : Classification) (code : bytes) (err : option error) : option error :=
  match err with
  | None => None
  | Some e => Some {| etext := code ++ bs ": " ++ etext e; classified := Some (NewFailure c code (etext e)) |}
  end.

Definition NewStagedClassifiedError (c : Classification) (code : bytes) (stage : FailureStage) (err : option error)
  : option error :=
  match NewClassifiedError c code err with
  | Some {| etext := t; classified := Some f |} =>
      let stage := match stage with
                   | FailureStagePreparation | FailureStageStartup | FailureStageExecution => stage
                   | _ => Stage f
                   end in
      Some {| etext := t;
              classified := Some {| Stage := stage; FClassification := FClassification f; Code := Code f;
                                    Message := Message f |} |}
  | e => e
  end.

Record ResourceClass := {
  CPUMillis : Z; MemoryBytes : Z; ProcessCount : Z; DiskBytes : Z; Network : bytes;
  MaximumConnections : Z; MaximumBandwidthBytesPerSecond : Z;
}.

Record ResourceUsage := {
  CPUTime : Z; PeakMemoryBytes : Z; DiskReadBytes : Z; DiskWriteBytes : Z;
  NetworkReceiveBytes : Z; NetworkTransmitBytes : Z;
}.

Record ExecutionOutcome := { OExitCode : option Z; OFailure : option Failure }.

Record StructuredEvent := { Sequence : Z; Kind : bytes; Payload : bytes }.

Record CompleteLog := {
  Redacted : bool; State : bytes; Truncated : bool; LError : bytes; ContentType : bytes; ContentEncoding : bytes;
  SHA256 : bytes; UncompressedBytes : Z; CompressedBytes : Z; Archive : option Z;
}.

Record EvidenceUsage := {
  RawBytesObserved : Z; ECapturedBytes : Z; EStructuredEventCount : Z; EStructuredEventBytes : Z;
  ECompleteLogBytes : Z; ECompressedLogBytes : Z; ETruncatedLineCount : Z; EOutputTruncated : bool;
  ECompleteLogState : bytes; ECompleteLogTruncated : bool; EventsTruncated : bool;
  EEventChannelMaximumBytes : Z; EEventChannelBufferedBytes : Z; EEventChannelResourceBytes : Z;
  EEventChannelOverflowed : bool; EEventChannelRemoved : bool;
}.

Record EnvironmentResult := { RProvider : bytes; Identity : bytes }.

Record ExecutionResult := { ExitCode : option Z }.

Record LogsResult := {
  Stdout : bytes; Stderr : bytes; CapturedBytes : Z; ObservedBytes : Z; OutputTruncated : bool; LogsError : bytes;
}.

Record CleanupResult := { Attempted : bool; Succeeded : bool; DurationMilliseconds : Z; CleanupError : bytes }.

Record UsageResult := {
  UResourceClass : option ResourceClass; WallTimeMilliseconds : Z; RawOutputBytes : Z; CapturedOutputBytes : Z;
  StructuredEventCount : Z; StructuredEventBytes : Z; CompleteLogBytes : Z; CompressedLogBytes : Z;
  TruncatedLineCount : Z; UOutputTruncated : bool; CompleteLogState : bytes; CompleteLogTruncated : bool;
  StructuredEventsTruncated : bool; EventChannelMaximumBytes : Z; EventChannelBufferedBytes : Z;
  EventChannelResourceBytes : Z; EventChannelOverflowed : bool; EventChannelRemoved : bool;
  MeasuredResources : option ResourceUsage;
}.

Definition no_usage : UsageResult := {|
  UResourceClass := None; WallTimeMilliseconds := 0; RawOutputBytes := 0; CapturedOutputBytes := 0;
  StructuredEventCount := 0; StructuredEventBytes := 0; CompleteLogBytes := 0; CompressedLogBytes := 0;
  TruncatedLineCount := 0; UOutputTruncated := false; CompleteLogState := []; CompleteLogTruncated := false;
  StructuredEventsTruncated := false; EventChannelMaximumBytes := 0; EventChannelBufferedBytes := 0;
  EventChannelResourceBytes := 0; EventChannelOverflowed := false; EventChannelRemoved := false;
  MeasuredResources := None |}.

(** The statuses the executor writes. *)
Definition passed : bytes := bs "passed".
Definition failed : bytes := bs "failed".
Definition ResultSchemaVersion : bytes := bs "provenance.local-result/v1alpha1".

(** * The executor

    The measured observations pass through the executor unread: their types are
    parameters. [W] is the world behind the provider interfaces, [now] its clock,
    [Observer] the observer a context may carry. *)

Module Executor.

Section executor.
Context {NetworkObservation Snapshot Observation TerminalContext Observer : Type}.
Context {W : Type} (now : W -> Z).

Record CollectedOutput := {
  OMeasuredNetwork : option NetworkObservation;
  OMeasuredRuntime : option Snapshot;
  OTerminalObservations : list Observation;
  OStdout : bytes;
  OStderr : bytes;
  OCapturedBytes : Z;
  OObservedBytes : Z;
  OOutputTruncated : bool;
  OStructuredEvents : list StructuredEvent;
  OCompleteLog : option CompleteLog;
  OEvidenceUsage : EvidenceUsage;
  OStructuredEventError : bytes;
  OResourceUsage : option ResourceUsage;
}.

Record Result := {
  MeasuredNetwork : option NetworkObservation;
  MeasuredRuntime : option Snapshot;
  TerminalObservations : list Observation;
  RTerminalContext : option TerminalContext;
  SchemaVersion : bytes;
  JobID : bytes;
  Status : bytes;
  RClassification : Classification;
  RPhase : Phase;
  Environment : option EnvironmentResult;
  Execution : option ExecutionResult;
  Logs : option LogsResult;
  StructuredEvents : list StructuredEvent;
  RCompleteLog : option CompleteLog;
  Cleanup : option CleanupResult;
  Usage : UsageResult;
  RFailure : option Failure;
  StartedAt : Z;
  CompletedAt : Z;
}.

(** ** The interfaces a provider implements *)

Record PreparedEnvironment := {
  PExecute : context -> M W (ExecutionOutcome * option error);
  PCollect : context -> M W (CollectedOutput * option error);
  PCleanup : context -> M W (option error);
  AttachObserver : option (Observer -> M W unit);   (* [None]: not an ObserverAttacher *)
}.

Record EnvironmentI := {
  EIdentity : bytes;
  EPrepare : context -> M W (option PreparedEnvironment * option error);
  EResourceClass : option ResourceClass;            (* [None]: not a ResourceClassReporter *)
}.

Record Request := { TerminalEvidenceV2 : bool; QJobID : bytes; QEnvironment : bytes; QMaxOutputBytes : Z }.

Record EnvironmentProvider := {
  Name : bytes;
  Resolve : context -> Request -> M W (option EnvironmentI * option error);
}.

(** ** The registry *)

Definition Registry := gmap bytes EnvironmentProvider.

Inductive registerError := ProviderNil | NameEmpty | DuplicateName (name : bytes).

Fixpoint register (r : Registry) (providers : list (option EnvironmentProvider)) : Registry + registerError :=
  match providers with
  | [] => inl r
  | None :: _ => inr ProviderNil
  | Some p :: rest =>
      let name := TrimSpace (Name p) in
      if zlen name =? 0 then inr NameEmpty
      else match r !! name with
           | Some _ => inr (DuplicateName name)
           | None => register (<[name := p]> r) rest
           end
  end.

Definition NewRegistry (providers : list (option EnvironmentProvider)) : Registry + registerError :=
  register ∅ providers.

(** ** Failures *)

Definition message (e : ctxErr) : bytes :=
  match e with Canceled => bs "context canceled" | DeadlineExceeded => bs "context deadline exceeded" end.

Definition contextFailure (parent operation : context) (t : Z) : option Failure :=
  match Err parent t, Err operation t with
  | Some Canceled, _ => Some (NewFailure ClassificationCancelled (bs "job_cancelled") (message Canceled))
  | _, Some DeadlineExceeded => Some (NewFailure ClassificationTimedOut (bs "job_timeout") (message DeadlineExceeded))
  | _, Some Canceled => Some (NewFailure ClassificationCancelled (bs "job_cancelled") (message Canceled))
  | _, None => None
  end.

Definition classifyError (parent operation : context) (t : Z) (defaultCode : bytes) (err : error) : Failure :=
  match contextFailure parent operation t with
  | Some f => f
  | None => match classified err with
            | Some f => f
            | None => NewFailure ClassificationInfrastructureFailure defaultCode (etext err)
            end
  end.

Definition classifyDetachedError (operation : context) (t : Z) (defaultCode : bytes) (err : error) : Failure :=
  match Err operation t with
  | Some DeadlineExceeded =>
      NewFailure ClassificationInfrastructureFailure (defaultCode ++ bs "_timeout") (message DeadlineExceeded)
  | _ => match classified err with
         | Some f => f
         | None => NewFailure ClassificationInfrastructureFailure defaultCode (etext err)
         end
  end.

(** ** Results, field by field *)

Definition with_outcome (r : Result) (status : bytes) (c : Classification) (p : Phase) (f : option Failure) : Result :=
  {| MeasuredNetwork := MeasuredNetwork r; MeasuredRuntime := MeasuredRuntime r;
     TerminalObservations := TerminalObservations r; RTerminalContext := RTerminalContext r;
     SchemaVersion := SchemaVersion r; JobID := JobID r; Status := status; RClassification := c; RPhase := p;
     Environment := Environment r; Execution := Execution r; Logs := Logs r; StructuredEvents := StructuredEvents r;
     RCompleteLog := RCompleteLog r; Cleanup := Cleanup r; Usage := Usage r; RFailure := f;
     StartedAt := StartedAt r; CompletedAt := CompletedAt r |}.

Definition with_phase (r : Result) (p : Phase) : Result :=
  with_outcome r (Status r) (RClassification r) p (RFailure r).

Definition with_steps (r : Result) (env : option EnvironmentResult) (ex : option ExecutionResult)
    (cl : option CleanupResult) (u : UsageResult) (completed : Z) : Result :=
  {| MeasuredNetwork := MeasuredNetwork r; MeasuredRuntime := MeasuredRuntime r;
     TerminalObservations := TerminalObservations r; RTerminalContext := RTerminalContext r;
     SchemaVersion := SchemaVersion r; JobID := JobID r; Status := Status r; RClassification := RClassification r;
     RPhase := RPhase r; Environment := env; Execution := ex; Logs := Logs r;
     StructuredEvents := StructuredEvents r; RCompleteLog := RCompleteLog r; Cleanup := cl; Usage := u;
     RFailure := RFailure r; StartedAt := StartedAt r; CompletedAt := completed |}.

Definition with_environment (r : Result) (e : EnvironmentResult) : Result :=
  with_steps r (Some e) (Execution r) (Cleanup r) (Usage r) (CompletedAt r).
Definition with_execution (r : Result) (e : ExecutionResult) : Result :=
  with_steps r (Environment r) (Some e) (Cleanup r) (Usage r) (CompletedAt r).
Definition with_cleanup (r : Result) (c : CleanupResult) : Result :=
  with_steps r (Environment r) (Execution r) (Some c) (Usage r) (CompletedAt r).

Definition usage_timed (u : UsageResult) (c : option ResourceClass) (wall : Z) : UsageResult := {|
  UResourceClass := c; WallTimeMilliseconds := wall; RawOutputBytes := RawOutputBytes u;
  CapturedOutputBytes := CapturedOutputBytes u; StructuredEventCount := StructuredEventCount u;
  StructuredEventBytes := StructuredEventBytes u; CompleteLogBytes := CompleteLogBytes u;
  CompressedLogBytes := CompressedLogBytes u; TruncatedLineCount := TruncatedLineCount u;
  UOutputTruncated := UOutputTruncated u; CompleteLogState := CompleteLogState u;
  CompleteLogTruncated := CompleteLogTruncated u; StructuredEventsTruncated := StructuredEventsTruncated u;
  EventChannelMaximumBytes := EventChannelMaximumBytes u; EventChannelBufferedBytes := EventChannelBufferedBytes u;
  EventChannelResourceBytes := EventChannelResourceBytes u; EventChannelOverflowed := EventChannelOverflowed u;
  EventChannelRemoved := EventChannelRemoved u; MeasuredResources := MeasuredResources u |}.

Definition with_resourceClass (r : Result) (c : ResourceClass) : Result :=
  with_steps r (Environment r) (Execution r) (Cleanup r)
    (usage_timed (Usage r) (Some c) (WallTimeMilliseconds (Usage r))) (CompletedAt r).

(** What [collectPrepared] copies of the collected output. *)
Definition with_collected (r : Result) (o : CollectedOutput) (logsError : bytes) : Result :=
  let e := OEvidenceUsage o in
  {| MeasuredNetwork := OMeasuredNetwork o;
     MeasuredRuntime := match OMeasuredRuntime o with Some m => Some m | None => MeasuredRuntime r end;
     TerminalObservations := OTerminalObservations o; RTerminalContext := RTerminalContext r;
     SchemaVersion := SchemaVersion r; JobID := JobID r; Status := Status r; RClassification := RClassification r;
     RPhase := RPhase r; Environment := Environment r; Execution := Execution r;
     Logs := Some {| Stdout := OStdout o; Stderr := OStderr o; CapturedBytes := OCapturedBytes o;
                     ObservedBytes := OObservedBytes o; OutputTruncated := OOutputTruncated o;
                     LogsError := logsError |};
     StructuredEvents := OStructuredEvents o;
     RCompleteLog := match OCompleteLog o with Some l => Some l | None => RCompleteLog r end;
     Cleanup := Cleanup r;
     Usage := {| UResourceClass := UResourceClass (Usage r); WallTimeMilliseconds := WallTimeMilliseconds (Usage r);
                 RawOutputBytes := RawBytesObserved e; CapturedOutputBytes := ECapturedBytes e;
                 StructuredEventCount := EStructuredEventCount e; StructuredEventBytes := EStructuredEventBytes e;
                 CompleteLogBytes := ECompleteLogBytes e; CompressedLogBytes := ECompressedLogBytes e;
                 TruncatedLineCount := ETruncatedLineCount e; UOutputTruncated := EOutputTruncated e;
                 CompleteLogState := ECompleteLogState e; CompleteLogTruncated := ECompleteLogTruncated e;
                 StructuredEventsTruncated := EventsTruncated e;
                 EventChannelMaximumBytes := EEventChannelMaximumBytes e;
                 EventChannelBufferedBytes := EEventChannelBufferedBytes e;
                 EventChannelResourceBytes := EEventChannelResourceBytes e;
                 EventChannelOverflowed := EEventChannelOverflowed e;
                 EventChannelRemoved := EEventChannelRemoved e;
                 MeasuredResources := match OResourceUsage o with
                                      | Some u => Some u
                                      | None => MeasuredResources (Usage r)
                                      end |};
     RFailure := RFailure r; StartedAt := StartedAt r; CompletedAt := CompletedAt r |}.

(** The first failure wins. *)
Definition setFailure (r : Result) (phase : Phase) (failure : option Failure) : Result :=
  match RFailure r, failure with
  | None, Some f => with_outcome r failed (FClassification f) phase (Some f)
  | _, _ => r
  end.

Definition millis (ns : Z) : Z := Z.quot ns LocalJob.Millisecond.

Definition finishResult (r : Result) : M W Result :=
  let! t := reads now in
  let r := with_steps r (Environment r) (Execution r) (Cleanup r)
             (usage_timed (Usage r) (UResourceClass (Usage r)) (millis (t - StartedAt r))) t in
  ret (match RFailure r with None => with_phase r PhaseCompleted | Some _ => r end).

Definition fresh (jobID : bytes) (phase : Phase) (env : option EnvironmentResult) (t : Z) : Result :=
  {| MeasuredNetwork := None; MeasuredRuntime := None; TerminalObservations := []; RTerminalContext := None;
     SchemaVersion := ResultSchemaVersion; JobID := jobID; Status := passed; RClassification := ClassificationPassed;
     RPhase := phase; Environment := env; Execution := None; Logs := None; StructuredEvents := [];
     RCompleteLog := None; Cleanup := None; Usage := no_usage; RFailure := None; StartedAt := t; CompletedAt := 0 |}.

Definition FailedResult (jobID : bytes) (phase : Phase) (c : Classification) (code text : bytes) : M W Result :=
  let! t := reads now in
  ret {| MeasuredNetwork := None; MeasuredRuntime := None; TerminalObservations := []; RTerminalContext := None;
         SchemaVersion := ResultSchemaVersion; JobID := jobID; Status := failed; RClassification := c;
         RPhase := phase; Environment := None; Execution := None; Logs := None; StructuredEvents := [];
         RCompleteLog := None; Cleanup := None; Usage := no_usage; RFailure := Some (NewFailure c code text);
         StartedAt := t; CompletedAt := t |}.

(** ** The phases *)

Definition detachedTimeout (parent : context) (t timeout : Z) : context :=
  WithTimeout (WithoutCancel parent) t timeout.

Record ExecutionStart := { SJobID : bytes; SProvider : bytes; SIdentity : bytes }.

Definition executePrepared (parent run : context) (prepared : PreparedEnvironment) (start : ExecutionStart)
    (beforeExecute : option (context -> ExecutionStart -> M W (option error))) (r : Result) : M W Result :=
  let r := with_phase r PhaseExecution in
  let! stop := match beforeExecute with
               | None => ret None
               | Some before =>
                   let! err := before run start in
                   let! t := reads now in
                   ret (match err with
                        | Some e => Some (classifyError parent run t (bs "before_execute_failed") e)
                        | None => contextFailure parent run t
                        end)
               end in
  match stop with
  | Some f => ret (setFailure r PhaseExecution (Some f))
  | None =>
      let! (outcome, err) := PExecute prepared run in
      let r := with_execution r {| ExitCode := OExitCode outcome |} in
      let! t := reads now in
      match err with
      | Some e => ret (setFailure r PhaseExecution (Some (classifyError parent run t (bs "environment_execution_failed") e)))
      | None =>
          match contextFailure parent run t with
          | Some f => ret (setFailure r PhaseExecution (Some f))
          | None => ret (setFailure r PhaseExecution (OFailure outcome))
          end
      end
  end.

Definition collectPrepared (parent : context) (prepared : PreparedEnvironment) (timeout : Z) (r : Result) : M W Result :=
  let! t := reads now in
  let ctx := detachedTimeout parent t timeout in
  let! (output, err) := PCollect prepared ctx in
  let! t := reads now in
  ret (match err with
       | None => with_collected r output []
       | Some e =>
           let r := with_collected r output (etext e) in
           setFailure r PhaseCollection (Some (classifyDetachedError ctx t (bs "output_collection_failed") e))
       end).

Definition cleanupPrepared (parent : context) (prepared : PreparedEnvironment) (timeout : Z) (r : Result) : M W Result :=
  let! started := reads now in
  let ctx := detachedTimeout parent started timeout in
  let! err := PCleanup prepared ctx in
  let! t := reads now in
  let cleanup := {| Attempted := true; Succeeded := match err with None => true | Some _ => false end;
                    DurationMilliseconds := millis (t - started);
                    CleanupError := match err with Some e => etext e | None => [] end |} in
  ret (with_cleanup
         (match err with
          | Some e => setFailure r PhaseCleanup (Some (classifyDetachedError ctx t (bs "environment_cleanup_failed") e))
          | None => r
          end) cleanup).

Definition attach (observer : option Observer) (prepared : PreparedEnvironment) : M W unit :=
  match observer, AttachObserver prepared with
  | Some o, Some f => f o
  | _, _ => ret tt
  end.

Record Executor := {
  terminalEvidenceV2 : bool;
  registry : Registry;
  collectionTimeout : Z;
  cleanupTimeout : Z;
  beforeExecute : option (context -> ExecutionStart -> M W (option error));
}.

Definition defaultCollectionTimeout : Z := 5 * 1000 * LocalJob.Millisecond.
Definition defaultCleanupTimeout : Z := 10 * 1000 * LocalJob.Millisecond.

Inductive executorError := RegistryNil | CollectionTimeoutNegative | CleanupTimeoutNegative.

Definition NewExecutor (r : option Registry) (v2 : bool) (collection cleanup : Z)
    (before : option (context -> ExecutionStart -> M W (option error))) : Executor + executorError :=
  match r with
  | None => inr RegistryNil
  | Some r =>
      if collection <? 0 then inr CollectionTimeoutNegative
      else if cleanup <? 0 then inr CleanupTimeoutNegative
      else inl {| terminalEvidenceV2 := v2; registry := r;
                  collectionTimeout := if collection =? 0 then defaultCollectionTimeout else collection;
                  cleanupTimeout := if cleanup =? 0 then defaultCleanupTimeout else cleanup;
                  beforeExecute := before |}
  end.

(** The part of [Execute] that runs once an environment is prepared. *)
Definition run_prepared (e : Executor) (parent preparation : context) (observer : option Observer) (job : LocalJob.Job)
    (start : ExecutionStart) (prepared : PreparedEnvironment) (r : Result) : M W Result :=
  attach observer prepared ;;
  let! t := reads now in
  let! r := match RFailure r with
            | Some _ => ret r
            | None =>
                match contextFailure parent preparation t with
                | Some f => ret (setFailure r PhasePreparation (Some f))
                | None =>
                    let run := if LocalJob.UsesPhaseTimeouts job
                               then WithTimeout parent t (LocalJob.Timeout job) else preparation in
                    executePrepared parent run prepared start (beforeExecute e) r
                end
            end in
  let! r := collectPrepared parent prepared (collectionTimeout e) r in
  let timeout := if LocalJob.UsesPhaseTimeouts job then LocalJob.GracefulShutdownTimeout job else cleanupTimeout e in
  let! r := cleanupPrepared parent prepared timeout r in
  finishResult r.

Definition Execute (e : Executor) (parent : context) (observer : option Observer) (job : LocalJob.Job) : M W Result :=
  let! startedAt := reads now in
  let r := fresh (LocalJob.ID job) PhaseValidation None startedAt in
  match LocalJob.Validate job with
  | Some text =>
      finishResult (setFailure r PhaseValidation (Some (NewFailure ClassificationInvalidJob (bs "invalid_job") text)))
  | None =>
      match registry e !! LocalJob.Provider job with
      | None =>
          finishResult (setFailure r PhaseResolution (Some (NewFailure ClassificationInvalidJob (bs "provider_not_found")
            (bs "provider " ++ [0x22] ++ LocalJob.Provider job ++ [0x22] ++ bs " is not registered"))))
      | Some provider =>
          let! t := reads now in
          let preparation := WithTimeout parent t (LocalJob.PreparationTimeout job) in
          let r := with_phase r PhaseResolution in
          let! (environment, err) := Resolve provider preparation
            {| TerminalEvidenceV2 := terminalEvidenceV2 e; QJobID := LocalJob.ID job;
               QEnvironment := LocalJob.JEnvironment job; QMaxOutputBytes := LocalJob.OutputLimit job |} in
          let! t := reads now in
          match err, contextFailure parent preparation t, environment with
          | Some err, _, _ =>
              finishResult (setFailure r PhaseResolution
                (Some (classifyError parent preparation t (bs "provider_resolution_failed") err)))
          | None, Some f, _ => finishResult (setFailure r PhaseResolution (Some f))
          | None, None, None =>
              finishResult (setFailure r PhaseResolution (Some (NewFailure ClassificationInfrastructureFailure
                (bs "provider_returned_no_environment") (bs "provider returned a nil environment"))))
          | None, None, Some environment =>
              let r := with_environment r {| RProvider := Name provider; Identity := EIdentity environment |} in
              let r := match EResourceClass environment with Some c => with_resourceClass r c | None => r end in
              let r := with_phase r PhasePreparation in
              let! (prepared, prepareErr) := EPrepare environment preparation in
              let! t := reads now in
              let r := match prepareErr with
                       | Some err => setFailure r PhasePreparation
                                       (Some (classifyError parent preparation t (bs "environment_preparation_failed") err))
                       | None => r
                       end in
              match prepared with
              | None =>
                  finishResult (setFailure r PhasePreparation (Some (NewFailure ClassificationInfrastructureFailure
                    (bs "provider_returned_no_prepared_environment") (bs "provider returned a nil prepared environment"))))
              | Some prepared =>
                  run_prepared e parent preparation observer job
                    {| SJobID := LocalJob.ID job; SProvider := Name provider; SIdentity := EIdentity environment |}
                    prepared r
              end
          end
      end
  end.

(** [ctx] and [prepared] may be nil. *)
Definition ExecuteOwned (ctx : option context) (observer : option Observer) (start : ExecutionStart)
    (prepared : option PreparedEnvironment) : M W Result :=
  match ctx, prepared with
  | Some ctx, Some prepared =>
      let! startedAt := reads now in
      let r := fresh (SJobID start) PhasePreparation
                 (Some {| RProvider := SProvider start; Identity := SIdentity start |}) startedAt in
      attach observer prepared ;;
      let! t := reads now in
      let! r := match contextFailure ctx ctx t with
                | Some f => ret (setFailure r PhasePreparation (Some f))
                | None => executePrepared ctx ctx prepared start None r
                end in
      let! r := collectPrepared ctx prepared defaultCollectionTimeout r in
      let! r := cleanupPrepared ctx prepared (15 * 1000 * LocalJob.Millisecond) r in
      finishResult r
  | _, _ =>
      FailedResult (SJobID start) PhasePreparation ClassificationInfrastructureFailure
        (bs "owned_session_missing") (bs "owned session is unavailable")
  end.

End executor.
End Executor.
