(* ===== verification/ExecutionTrace.v ===== *)
(** What an execution does to its provider: the executor of [Execution.v] run
    against a provider whose every call is recorded. *)

From Stdlib Require Import ZifyBool.
From S2P Require Import Prelude Utf8 Strconv World Execution.
Import Executor.

Open Scope world_scope.

(** ** Recording the calls *)

Inductive call :=
  | CResolve (found : bool)
  | CPrepare (found : bool)
  | CAttach
  | CBefore
  | CExecute (failure : option Failure)
  | CCollect
  | CCleanup.

(** A call, the context it was given, the error it returned and when it returned. *)
Record event := { ecall : call; ectx : context; eerr : option error; finished : Z }.

Section traced.
Context {NetworkObservation Snapshot Observation TerminalContext Observer : Type}.
Context {W : Type} (now : W -> Z).

Abbreviation TW := (W * list event)%type.
Abbreviation Prepared W := (@PreparedEnvironment NetworkObservation Snapshot Observation Observer W).
Abbreviation Env W := (@EnvironmentI NetworkObservation Snapshot Observation Observer W).
Abbreviation Provider W := (@EnvironmentProvider NetworkObservation Snapshot Observation Observer W).
Abbreviation Exec W := (@Executor NetworkObservation Snapshot Observation Observer W).
Abbreviation Res := (@Result NetworkObservation Snapshot Observation TerminalContext).

Definition tnow (w : TW) : Z := now (fst w).

Definition traced {A} (ctx : context) (describe : A -> call * option error) (m : M W A) : M TW A :=
  fun '(w, tr) =>
    let '(a, w) := m w in
    (a, (w, tr ++ [{| ecall := fst (describe a); ectx := ctx; eerr := snd (describe a); finished := now w |}])).

Definition traced_prepared (p : Prepared W) : Prepared TW := {|
  PExecute := fun ctx => traced ctx (fun a => (CExecute (OFailure (fst a)), snd a)) (PExecute p ctx);
  PCollect := fun ctx => traced ctx (fun a => (CCollect, snd a)) (PCollect p ctx);
  PCleanup := fun ctx => traced ctx (fun a => (CCleanup, a)) (PCleanup p ctx);
  AttachObserver := (fun f o => traced None (fun _ => (CAttach, None)) (f o)) <$> AttachObserver p |}.

Definition found {A} (o : option A) : bool := match o with Some _ => true | None => false end.

Definition traced_environment (e : Env W) : Env TW := {|
  EIdentity := EIdentity e;
  EPrepare := fun ctx =>
    let! (p, err) := traced ctx (fun a => (CPrepare (found (fst a)), snd a)) (EPrepare e ctx) in
    ret (traced_prepared <$> p, err);
  EResourceClass := EResourceClass e |}.

Definition traced_provider (p : Provider W) : Provider TW := {|
  Name := Name p;
  Resolve := fun ctx q =>
    let! (e, err) := traced ctx (fun a => (CResolve (found (fst a)), snd a)) (Resolve p ctx q) in
    ret (traced_environment <$> e, err) |}.

Definition traced_before (b : context -> ExecutionStart -> M W (option error))
  : context -> ExecutionStart -> M TW (option error) :=
  fun ctx start => traced ctx (fun a => (CBefore, a)) (b ctx start).

Definition traced_executor (e : Exec W) : Exec TW := {|
  terminalEvidenceV2 := terminalEvidenceV2 e;
  registry := traced_provider <$> registry e;
  collectionTimeout := collectionTimeout e;
  cleanupTimeout := cleanupTimeout e;
  beforeExecute := traced_before <$> beforeExecute e |}.

(** ** What a trace amounts to *)

(** The failure one call amounts to. The context of the preparation is looked at
    once more at [t], after the observer has been attached. *)
Definition fault (parent : context) (ev : event) (t : Z) : option (Phase * Failure) :=
  let ctx := ectx ev in
  let checked phase code t (rest : option Failure) :=
    pair phase <$> match eerr ev with
                   | Some e => Some (classifyError parent ctx (finished ev) code e)
                   | None => match contextFailure parent ctx t with Some f => Some f | None => rest end
                   end in
  let detached phase code :=
    (fun e => (phase, classifyDetachedError ctx (finished ev) code e)) <$> eerr ev in
  match ecall ev with
  | CResolve found =>
      checked PhaseResolution (bs "provider_resolution_failed") (finished ev)
        (if found then None
         else Some (NewFailure ClassificationInfrastructureFailure (bs "provider_returned_no_environment")
                      (bs "provider returned a nil environment")))
  | CPrepare false =>
      match eerr ev with
      | Some e => Some (PhasePreparation, classifyError parent ctx (finished ev) (bs "environment_preparation_failed") e)
      | None => Some (PhasePreparation, NewFailure ClassificationInfrastructureFailure
                        (bs "provider_returned_no_prepared_environment")
                        (bs "provider returned a nil prepared environment"))
      end
  | CPrepare true => checked PhasePreparation (bs "environment_preparation_failed") t None
  | CAttach => None
  | CBefore => checked PhaseExecution (bs "before_execute_failed") (finished ev) None
  | CExecute failure => checked PhaseExecution (bs "environment_execution_failed") (finished ev) failure
  | CCollect => detached PhaseCollection (bs "output_collection_failed")
  | CCleanup => detached PhaseCleanup (bs "environment_cleanup_failed")
  end.

(** The first fault of a run. *)
Fixpoint verdict (parent : context) (tr : list event) : option (Phase * Failure) :=
  match tr with
  | [] => None
  | ev :: rest =>
      let t := match rest with
               | {| ecall := CAttach; finished := t |} :: _ => t
               | _ => finished ev
               end in
      match fault parent ev t with Some b => Some b | None => verdict parent rest end
  end.

(** The outcome a result reports. *)
Definition reports (r : Res) (b : option (Phase * Failure)) : Prop :=
  match b with
  | None => RFailure r = None /\ Status r = passed /\ RClassification r = ClassificationPassed /\
            RPhase r = PhaseCompleted
  | Some (p, f) => RFailure r = Some f /\ Status r = failed /\ RClassification r = FClassification f /\ RPhase r = p
  end.

(** A context that only its own timeout ends. *)
Definition detached (ctx : context) : Prop := exists t, ctx = Some (t, DeadlineExceeded).

Definition is_call (c : call) (ctx : context) (ev : event) : Prop := ecall ev = c /\ ectx ev = ctx.

(** Collection and cleanup, each once, each with its own timeout. *)
Inductive closing : list event -> Prop :=
  | closing_intro collect cleanup :
      ecall collect = CCollect -> ecall cleanup = CCleanup ->
      detached (ectx collect) -> detached (ectx cleanup) -> closing [collect; cleanup].

(** What may run between preparation and collection. *)
Inductive running (run : context) : list event -> Prop :=
  | running_nothing : running run []
  | running_stopped before : is_call CBefore run before -> running run [before]
  | running_bare execute f : is_call (CExecute f) run execute -> running run [execute]
  | running_full before execute f :
      is_call CBefore run before -> is_call (CExecute f) run execute -> running run [before; execute].

Definition attaching (tr : list event) : Prop := tr = [] \/ exists ev, tr = [ev] /\ ecall ev = CAttach.

(** The calls of one execution. *)
Inductive lifecycle (preparation : context) : list event -> Prop :=
  | lifecycle_unresolved resolve found :
      is_call (CResolve found) preparation resolve -> lifecycle preparation [resolve]
  | lifecycle_unprepared resolve prepare :
      is_call (CResolve true) preparation resolve -> is_call (CPrepare false) preparation prepare ->
      lifecycle preparation [resolve; prepare]
  | lifecycle_prepared resolve prepare attach run body close :
      is_call (CResolve true) preparation resolve -> is_call (CPrepare true) preparation prepare ->
      attaching attach -> running run body -> closing close ->
      lifecycle preparation ([resolve; prepare] ++ attach ++ body ++ close).

(** ** The phases against a recorded provider *)

Definition blame (r : Res) : option (Phase * Failure) :=
  match RFailure r with Some f => Some (RPhase r, f) | None => None end.

Definition coherent (r : Res) : Prop :=
  match RFailure r with
  | None => Status r = passed /\ RClassification r = ClassificationPassed
  | Some f => Status r = failed /\ RClassification r = FClassification f
  end.

Definition or_else (a b : option (Phase * Failure)) : option (Phase * Failure) :=
  match a with Some _ => a | None => b end.

(** [r'] is [r] after steps whose first fault is [b]. *)
Definition follows (r : Res) (b : option (Phase * Failure)) (r' : Res) : Prop :=
  coherent r' /\ blame r' = or_else (blame r) b.

Lemma setFailure_follows r p f : coherent r -> follows r (pair p <$> f) (setFailure r p f).
Proof.
  unfold follows, coherent, blame, setFailure. destruct (RFailure r) eqn:E; [by rewrite E|].
  destruct f; cbn; by rewrite ?E.
Qed.

Lemma follows_trans r1 r2 r3 a b : follows r1 a r2 -> follows r2 b r3 -> follows r1 (or_else a b) r3.
Proof. intros [_ H1] [H2 H3]. split; [done|]. rewrite H3, H1. by destruct (blame r1). Qed.

Lemma finish_reports r b w :
  coherent r -> blame r = b -> exists r', finishResult tnow r w = (r', w) /\ reports r' b /\ Cleanup r' = Cleanup r.
Proof.
  intros Hc <-. unfold finishResult, bind, reads, ret. eexists. split; [reflexivity|].
  unfold coherent, blame in *. cbn. destruct (RFailure r) eqn:E; cbn; rewrite ?E; by destruct Hc.
Qed.

Lemma fault_collect parent ctx err t0 t :
  fault parent {| ecall := CCollect; ectx := ctx; eerr := err; finished := t0 |} t
  = (fun e => (PhaseCollection, classifyDetachedError ctx t0 (bs "output_collection_failed") e)) <$> err.
Proof. reflexivity. Qed.

Lemma collect_traced parent p d r w tr :
  coherent r ->
  exists r' w' ev, collectPrepared tnow parent (traced_prepared p) d r (w, tr) = (r', (w', tr ++ [ev])) /\
    ecall ev = CCollect /\ detached (ectx ev) /\ (forall t, follows r (fault parent ev t) r') /\ Cleanup r' = Cleanup r.
Proof.
  intros Hc. unfold collectPrepared, bind, reads, ret. cbn [traced_prepared PCollect]. unfold traced.
  destruct (PCollect p _ w) as [[output err] w1]. cbn [fst snd].
  eexists _, w1, _. split; [reflexivity|]. cbn [ecall ectx]. split_and!; [done|eexists; reflexivity| |].
  - intros t. rewrite fault_collect. destruct err as [e|]; cbn [fmap option_fmap option_map].
    + by apply (setFailure_follows (with_collected r output (etext e)) PhaseCollection (Some _)).
    + split; [done|]. by destruct (blame r) eqn:E.
  - destruct err; [|done]. unfold setFailure. by destruct (RFailure _).
Qed.

Lemma cleanup_traced parent p d r w tr :
  coherent r ->
  exists r' w' ev cl, cleanupPrepared tnow parent (traced_prepared p) d r (w, tr) = (r', (w', tr ++ [ev])) /\
    ecall ev = CCleanup /\ detached (ectx ev) /\ (forall t, follows r (fault parent ev t) r') /\
    Cleanup r' = Some cl /\ Attempted cl = true /\ Succeeded cl = negb (found (eerr ev)).
Proof.
  intros Hc. unfold cleanupPrepared, bind, reads, ret. cbn [traced_prepared PCleanup]. unfold traced.
  destruct (PCleanup p _ w) as [err w1]. cbn [fst snd].
  eexists _, w1, _, _. split; [reflexivity|]. cbn [ecall ectx eerr]. split_and!; [done|eexists; reflexivity| |done|done|].
  - intros t. unfold fault. cbn [ecall eerr ectx]. destruct err as [e|]; cbn [fmap option_fmap option_map].
    + by apply (setFailure_follows r PhaseCleanup (Some _)).
    + split; [done|]. unfold blame. cbn. by destruct (RFailure r).
  - by destruct err.
Qed.

(** A step that sets at most one failure on a result without one. *)
Lemma stopped_follows r r1 p f b :
  RFailure r = None -> RFailure r1 = None -> Status r1 = Status r -> RClassification r1 = RClassification r ->
  Cleanup r1 = Cleanup r -> coherent r -> pair p <$> f = b ->
  follows r b (setFailure r1 p f) /\ Cleanup (setFailure r1 p f) = Cleanup r.
Proof.
  intros H H1 S C K Hc <-. unfold follows, coherent, blame, setFailure in *. rewrite H, H1 in *.
  destruct f; cbn; by rewrite ?H1, ?S, ?C.
Qed.

Definition execute_event (run : context) (outcome : ExecutionOutcome) (err : option error) (t : Z) : event :=
  {| ecall := CExecute (OFailure outcome); ectx := run; eerr := err; finished := t |}.

(** What [executePrepared] does once [beforeExecute] has let it pass. *)
Definition execute_rest (parent run : context) (r : Res) (outcome : ExecutionOutcome) (err : option error) (t : Z) : Res :=
  let r := with_execution (with_phase r PhaseExecution) {| ExitCode := OExitCode outcome |} in
  match err with
  | Some e => setFailure r PhaseExecution (Some (classifyError parent run t (bs "environment_execution_failed") e))
  | None => match contextFailure parent run t with
            | Some f => setFailure r PhaseExecution (Some f)
            | None => setFailure r PhaseExecution (OFailure outcome)
            end
  end.

Lemma execute_rest_follows parent run r outcome err t :
  coherent r -> RFailure r = None ->
  follows r (verdict parent [execute_event run outcome err t]) (execute_rest parent run r outcome err t) /\
  Cleanup (execute_rest parent run r outcome err t) = Cleanup r.
Proof.
  intros Hc Hn. unfold execute_rest, execute_event, verdict, fault. cbn [ecall ectx eerr Execution.Executor.RFailure finished].
  destruct err as [e|]; [|destruct (contextFailure parent run t) as [f|]];
    (apply stopped_follows; try done).
  by destruct (OFailure outcome).
Qed.

Lemma execute_traced parent run p start before r w tr :
  coherent r -> RFailure r = None ->
  exists r' w' body,
    executePrepared tnow parent run (traced_prepared p) start (traced_before <$> before) r (w, tr) = (r', (w', tr ++ body)) /\
    running run body /\ follows r (verdict parent body) r' /\ Cleanup r' = Cleanup r.
Proof.
  intros Hc Hn. unfold executePrepared. destruct before as [before|]; cbn [fmap option_fmap option_map].
  - unfold bind at 1 2 3, traced_before, traced. destruct (before run start w) as [err w1].
    cbn [fst snd]. unfold reads, ret, tnow at 1 2. cbn [fst].
    set (ev := {| ecall := CBefore; ectx := run; eerr := err; finished := now w1 |}).
    set (stop := match err with Some e => _ | None => _ end).
    assert (Hf : forall t, fault parent ev t = pair PhaseExecution <$> stop).
    { intros t. unfold fault, ev, stop. cbn. destruct err; [done|]. by destruct (contextFailure _ _ _). }
    destruct stop as [f|].
    + destruct (stopped_follows r (with_phase r PhaseExecution) PhaseExecution (Some f) (verdict parent [ev]))
        as [F C]; try done; [cbn [verdict]; rewrite Hf; done|].
      eexists _, w1, [ev]. split; [reflexivity|]. split_and!; [by constructor|done|done].
    + unfold bind. cbn [traced_prepared PExecute]. unfold traced. destruct (PExecute p run w1) as [[outcome err2] w2].
      cbn [fst snd]. destruct (execute_rest_follows parent run r outcome err2 (now w2) Hc Hn) as [F C].
      exists (execute_rest parent run r outcome err2 (now w2)), w2, [ev; execute_event run outcome err2 (now w2)].
      split_and!; [|by eapply running_full| |done].
      * unfold execute_rest, tnow. cbn [fst]. rewrite <-(assoc_L (++)). destruct err2; [done|]. by destruct (contextFailure _ _ _).
      * replace (verdict parent [ev; _]) with (verdict parent [execute_event run outcome err2 (now w2)]); [done|].
        cbn [verdict]. by rewrite (Hf _).
  - unfold bind, ret, reads. cbn [traced_prepared PExecute]. unfold traced. destruct (PExecute p run w) as [[outcome err2] w2].
    cbn [fst snd]. destruct (execute_rest_follows parent run r outcome err2 (now w2) Hc Hn) as [F C].
    exists (execute_rest parent run r outcome err2 (now w2)), w2, [execute_event run outcome err2 (now w2)].
    split_and!; [|by eapply running_bare|done|done].
    unfold execute_rest, tnow. cbn [fst]. destruct err2; [done|]. by destruct (contextFailure _ _ _).
Qed.

Definition attaches (tr : list event) : bool :=
  match tr with {| ecall := CAttach |} :: _ => true | _ => false end.

Lemma verdict_app parent a b :
  attaches b = false -> verdict parent (a ++ b) = or_else (verdict parent a) (verdict parent b).
Proof.
  intros H. induction a as [|ev a IH]; [done|]. cbn [app verdict]. rewrite IH.
  replace (match a ++ b with {| ecall := CAttach; finished := t |} :: _ => t | _ => finished ev end)
    with (match a with {| ecall := CAttach; finished := t |} :: _ => t | _ => finished ev end).
  - by destruct (fault parent ev _).
  - destruct a; [|done]. cbn. destruct b as [|[[] ? ? ?] ?]; done.
Qed.

Lemma closing_attaches close rest : closing close -> attaches (close ++ rest) = false.
Proof. intros [[] [] H ? ? ?]. cbn in *. by rewrite H. Qed.

(** Collection and cleanup always run, and the result names the outcome of the cleanup. *)
Lemma close_traced parent p d1 d2 r w tr :
  coherent r ->
  exists r1 w1 r' w' close ev cl,
    collectPrepared tnow parent (traced_prepared p) d1 r (w, tr) = (r1, w1) /\
    cleanupPrepared tnow parent (traced_prepared p) d2 r1 w1 = (r', (w', tr ++ close)) /\
    closing close /\ last close = Some ev /\ follows r (verdict parent close) r' /\
    Cleanup r' = Some cl /\ Attempted cl = true /\ Succeeded cl = negb (found (eerr ev)).
Proof.
  intros Hc. destruct (collect_traced parent p d1 r w tr Hc) as (r1 & w1 & ev1 & E1 & C1 & D1 & F1 & _).
  destruct (cleanup_traced parent p d2 r1 w1 (tr ++ [ev1]) (proj1 (F1 0))) as (r2 & w2 & ev2 & cl & E2 & C2 & D2 & F2 & K).
  exists r1, (w1, tr ++ [ev1]), r2, w2, [ev1; ev2], ev2, cl.
  split_and!; try done; try (by destruct K as (? & ? & ?)); [by rewrite E2, <-(assoc_L (++))|].
  pose proof (follows_trans _ _ _ _ _ (F1 (finished ev1)) (F2 (finished ev2))) as F.
  assert (verdict parent [ev1; ev2] = or_else (fault parent ev1 (finished ev1)) (fault parent ev2 (finished ev2))) as ->; [|done].
  destruct ev2 as [c2 ? ? t2]. cbn in C2. subst c2. cbn [verdict finished].
  by destruct (fault parent ev1 _), (fault parent {| ecall := CCleanup |} _).
Qed.

Definition last_finished (t : Z) (tr : list event) : Z := match tr with ev :: _ => finished ev | [] => t end.

Lemma attach_traced observer p w tr :
  exists w' att, attach observer (traced_prepared p) (w, tr) = (tt, (w', tr ++ att)) /\ attaching att /\
    now w' = last_finished (now w) att.
Proof.
  unfold attach. cbn [traced_prepared AttachObserver]. destruct observer as [o|], (AttachObserver p) as [f|];
    cbn [fmap option_fmap option_map]; try (exists w, []; rewrite app_nil_r; split_and!; [done|by left|done]).
  unfold traced. destruct (f o w) as [[] w']. eexists w', [_]. split; [reflexivity|].
  split; [|done]. right. eexists. by split.
Qed.

Lemma run_prepared_traced e parent preparation observer job start p r w tr :
  coherent r ->
  exists r' w' att run body close ev cl,
    run_prepared tnow (traced_executor e) parent preparation observer job start (traced_prepared p) r (w, tr)
    = (r', (w', tr ++ att ++ body ++ close)) /\
    attaching att /\ running run body /\ closing close /\ last close = Some ev /\
    reports r' (or_else (blame r) (or_else (pair PhasePreparation <$> contextFailure parent preparation (last_finished (now w) att))
                                     (verdict parent (body ++ close)))) /\
    Cleanup r' = Some cl /\ Attempted cl = true /\ Succeeded cl = negb (found (eerr ev)).
Proof.
  intros Hc. unfold run_prepared. unfold bind at 1.
  destruct (attach_traced observer p w tr) as (w1 & att & -> & Ha & Ht). unfold bind at 1, reads.
  unfold tnow at 1 2. cbn [fst]. rewrite Ht. set (t := last_finished (now w) att). unfold bind at 1.
  set (first := match RFailure r with Some _ => ret r | None => _ end).
  assert (exists r1 w2 run body, first (w1, tr ++ att) = (r1, (w2, (tr ++ att) ++ body)) /\ running run body /\
    follows r (or_else (pair PhasePreparation <$> contextFailure parent preparation t) (verdict parent body)) r1)
    as (r1 & w2 & run & body & E1 & R1 & F1).
  { unfold first. destruct (RFailure r) eqn:En.
    { exists r, w1, preparation, []. rewrite app_nil_r. split; [done|]; split; [apply running_nothing|]; split; [done|]. unfold blame. by rewrite En. }
    destruct (contextFailure parent preparation t) as [f|] eqn:Ef.
    - exists (setFailure r PhasePreparation (Some f)), w1, preparation, []. rewrite app_nil_r.
      split; [done|]; split; [apply running_nothing|]; by apply (setFailure_follows r PhasePreparation (Some f)).
    - set (run := if LocalJob.UsesPhaseTimeouts job then _ else _).
      destruct (execute_traced parent run p start (beforeExecute e) r w1 (tr ++ att) Hc En)
        as (r1 & w2 & body & E & R & F & _).
      exists r1, w2, run, body. split; [exact E|]. by split. }
  rewrite E1. clear E1 first.
  destruct (close_traced parent p (collectionTimeout e)
    (if LocalJob.UsesPhaseTimeouts job then LocalJob.GracefulShutdownTimeout job else cleanupTimeout e)
    r1 w2 ((tr ++ att) ++ body) (proj1 F1)) as (r2 & w3 & r3 & w4 & close & ev & cl & E2 & E3 & H).
  unfold bind. cbn [traced_executor collectionTimeout cleanupTimeout]. rewrite E2, E3.
  destruct H as (Hclose & Hlast & F2 & K1 & K2 & K3).
  destruct (follows_trans _ _ _ _ _ F1 F2) as [Hc3 Hb].
  destruct (finish_reports r3 _ (w4, ((tr ++ att) ++ body) ++ close) Hc3 eq_refl) as (r4 & -> & R4 & K4).
  exists r4, w4, att, run, body, close, ev, cl.
  split_and!; try done; [by rewrite <-!(assoc_L (++))| |by rewrite K4].
  rewrite verdict_app by (rewrite <-(app_nil_r close); by apply closing_attaches).
  rewrite Hb in R4. replace (or_else _ (or_else _ (or_else _ _))) with
    (or_else (blame r) (or_else (or_else (pair PhasePreparation <$> contextFailure parent preparation t) (verdict parent body))
       (verdict parent close))); [done|]. by destruct (pair _ <$> _).
Qed.

(** The result names the outcome of the cleanup when there was one. *)
Definition names_cleanup (r : Res) (tr : list event) : Prop :=
  match last tr with
  | Some {| ecall := CCleanup; eerr := err |} =>
      exists cl, Cleanup r = Some cl /\ Attempted cl = true /\ Succeeded cl = negb (found err)
  | _ => Cleanup r = None
  end.

Definition sound_run (parent preparation : context) (x : Res * TW) : Prop :=
  let '(r, (_, tr)) := x in
  lifecycle preparation tr /\ reports r (verdict parent tr) /\ names_cleanup r tr.

Lemma resolution_stops parent ctx r ev w f :
  coherent r -> RFailure r = None -> Cleanup r = None -> (exists b, is_call (CResolve b) ctx ev) ->
  fault parent ev (finished ev) = Some (PhaseResolution, f) ->
  sound_run parent ctx (finishResult tnow (setFailure r PhaseResolution (Some f)) (w, [ev])).
Proof.
  intros Hc Hn Hk [b He] Hf. destruct (setFailure_follows r PhaseResolution (Some f) Hc) as [Hc1 Hb1].
  destruct (finish_reports _ _ (w, [ev]) Hc1 Hb1) as (r' & -> & R & K).
  split_and!; [by econstructor| |].
  - cbn [verdict]. rewrite Hf. unfold blame in R. by rewrite Hn in R.
  - unfold names_cleanup. cbn [last]. destruct He as [E _], ev. cbn in E. subst. rewrite K. unfold setFailure.
    by rewrite Hn.
Qed.

Lemma preparation_stops parent ctx r ev1 ev2 w :
  coherent r -> RFailure r = None -> Cleanup r = None ->
  is_call (CResolve true) ctx ev1 -> fault parent ev1 (finished ev1) = None -> is_call (CPrepare false) ctx ev2 ->
  forall f, fault parent ev2 (finished ev2) = Some (PhasePreparation, f) ->
  sound_run parent ctx (finishResult tnow (setFailure r PhasePreparation (Some f)) (w, [ev1; ev2])).
Proof.
  intros Hc Hn Hk H1 Hf1 H2 f Hf. destruct (setFailure_follows r PhasePreparation (Some f) Hc) as [Hc1 Hb1].
  destruct (finish_reports _ _ (w, [ev1; ev2]) Hc1 Hb1) as (r' & -> & R & K).
  unfold sound_run, names_cleanup. cbn [last verdict]. destruct H2 as [E2 X2], ev2 as [c2 x2 e2 t2]. cbn in E2, X2. subst c2 x2.
  cbn [finished] in *. rewrite Hf1, Hf. split_and!; [by apply lifecycle_unprepared| |].
  - unfold blame in R. by rewrite Hn in R.
  - rewrite K. unfold setFailure. by rewrite Hn.
Qed.

Lemma prepared_runs e parent ctx observer job start p r0 ev1 ev2 w :
  coherent r0 -> RFailure r0 = None -> Cleanup r0 = None ->
  is_call (CResolve true) ctx ev1 -> fault parent ev1 (finished ev1) = None -> is_call (CPrepare true) ctx ev2 ->
  finished ev2 = now w ->
  let r := match eerr ev2 with
           | Some err => setFailure r0 PhasePreparation
                           (Some (classifyError parent ctx (finished ev2) (bs "environment_preparation_failed") err))
           | None => r0
           end in
  sound_run parent ctx
    (run_prepared tnow (traced_executor e) parent ctx observer job start (traced_prepared p) r (w, [ev1; ev2])).
Proof.
  intros Hc Hn Hk H1 Hf1 H2 Ht r.
  assert (Hr : coherent r) by (unfold r; destruct (eerr ev2); [by apply (setFailure_follows r0 PhasePreparation (Some _))|done]).
  destruct (run_prepared_traced e parent ctx observer job start p r w [ev1; ev2] Hr)
    as (r' & w' & att & run & body & close & ev & cl & -> & A & B & C & L & R & K).
  split_and!; [by eapply lifecycle_prepared| |].
  - cbn [app verdict]. destruct H2 as [E2 X2], ev2 as [c2 x2 e2 t2]. cbn in E2, X2, Ht. subst c2 x2 t2.
    rewrite Hf1. unfold fault. cbn [ecall eerr ectx finished].
    replace (match att ++ body ++ close with {| ecall := CAttach; finished := t |} :: _ => t | _ => now w end)
      with (last_finished (now w) att).
    2:{ destruct A as [->|([[] ? ? ?] & -> & E)]; try done. cbn. destruct B as [|[[] ? ? ?] [E _]|[[] ? ? ?] ? [E _]|[[] ? ? ?] ? ? [E _] _]; try done.
        destruct C as [[] ? E ? ? ?]. cbn in E. by subst. }
    assert (Hv : verdict parent (att ++ body ++ close) = verdict parent (body ++ close)).
    { destruct A as [->|(a & -> & E)]; [done|]. cbn [app verdict]. unfold fault at 1. by rewrite E. }
    rewrite Hv. unfold r in R. cbn [eerr finished] in R. destruct e2 as [e2|].
    + unfold blame, setFailure in R. rewrite Hn in R. exact R.
    + unfold blame in R. rewrite Hn in R. cbn [or_else] in R.
      by destruct (contextFailure parent ctx (last_finished (now w) att)).
  - unfold names_cleanup. rewrite !(assoc_L (++)), last_app, L.
    inversion C as [c1 c2 E1 E2 D1 D2]; subst. injection L as <-. destruct c2. cbn in E2. subst. by exists cl.
Qed.

(** Every run of [Execute] against a recorded provider. *)
Lemma execute_all (e : Exec W) (p : Provider W) parent observer job w :
  LocalJob.Validate job = None -> registry e !! LocalJob.Provider job = Some p ->
  sound_run parent (WithTimeout parent (now w) (LocalJob.PreparationTimeout job))
    (Execute tnow (traced_executor e) parent observer job (w, [])).
Proof.
  intros Hv Hp. unfold Execute. unfold bind at 1, reads. rewrite Hv.
  assert (registry (traced_executor e) !! LocalJob.Provider job = Some (traced_provider p)) as ->.
  { cbn [traced_executor registry]. etransitivity; [apply (lookup_fmap traced_provider (registry e))|].
    exact (f_equal (fmap traced_provider) Hp). }
  unfold bind at 1. change (tnow (w, [])) with (now w). set (t0 := now w).
  set (ctx := WithTimeout parent t0 _). set (r0 := with_phase (fresh _ _ _ _) _).
  unfold bind at 1. cbn [traced_provider Resolve Name]. unfold bind at 1, traced.
  destruct (Resolve p ctx _ w) as [[env err] w1]. cbn [fst snd app]. unfold bind at 1, ret at 1.
  set (ev1 := {| ecall := CResolve _; ectx := ctx; eerr := err; finished := now w1 |}).
  change (tnow (w1, [ev1])) with (now w1). destruct err as [err|]; [apply resolution_stops; try done; by eexists|].
  destruct (contextFailure parent ctx (now w1)) as [f|] eqn:Ef.
  { apply resolution_stops; try done; [by eexists|]. unfold fault. cbn [ev1 ecall eerr ectx finished]. by rewrite Ef. }
  destruct env as [env|]; cbn [fmap option_fmap option_map].
  2:{ apply resolution_stops; try done; [by eexists|]. unfold fault. cbn [ev1 ecall eerr ectx finished found]. by rewrite Ef. }
  assert (Hf1 : fault parent ev1 (finished ev1) = None).
  { unfold fault. cbn [ev1 ecall eerr ectx finished found]. by rewrite Ef. }
  set (r1 := with_phase (match _ with Some c => _ | None => _ end) PhasePreparation).
  assert (coherent r1 /\ RFailure r1 = None /\ Cleanup r1 = None) as (Hc & Hn & Hk)
    by (unfold r1; cbn; by destruct (EResourceClass env)).
  unfold bind at 1. cbn [traced_environment EPrepare]. unfold bind at 1, traced.
  destruct (EPrepare env ctx w1) as [[prepared err] w2]. cbn [fst snd app]. unfold bind at 1, ret at 1.
  set (ev2 := {| ecall := CPrepare _; ectx := ctx; eerr := err; finished := now w2 |}).
  change (tnow (w2, [ev1; ev2])) with (now w2). destruct prepared as [prepared|]; cbn [fmap option_fmap option_map].
  - by apply (prepared_runs e parent ctx observer job _ prepared r1 ev1 ev2 w2).
  - destruct err as [err|].
    + set (f := classifyError parent ctx (now w2) _ err).
      replace (setFailure (setFailure r1 PhasePreparation (Some f)) PhasePreparation _)
        with (setFailure r1 PhasePreparation (Some f)) by (unfold setFailure; by rewrite Hn).
      by apply (preparation_stops parent ctx r1 ev1 ev2 w2).
    + by apply (preparation_stops parent ctx r1 ev1 ev2 w2).
Qed.

(** C3: an execution of a valid job calls its provider in one of a few orders: it
    resolves, prepares, runs at most once, and whenever preparation handed over an
    environment, whatever went wrong, it collects and then cleans up, each exactly
    once and with a context that no cancellation of the job reaches; the result
    reports that cleanup and its outcome. *)
Theorem executor_lifecycle (e : Exec W) (p : Provider W) (parent : context) (observer : option Observer)
    (job : LocalJob.Job) (w : W) :
  LocalJob.Validate job = None -> registry e !! LocalJob.Provider job = Some p ->
  let '(r, (_, tr)) := Execute tnow (traced_executor e) parent observer job (w, []) in
  lifecycle (WithTimeout parent (now w) (LocalJob.PreparationTimeout job)) tr /\
  names_cleanup (r : Res) tr.
Proof.
  intros Hv Hp. pose proof (execute_all e p parent observer job w Hv Hp) as H. unfold sound_run in H.
  destruct (Execute _ _ _ _ _ _) as [r [w' tr]]. by destruct H as (? & ? & ?).
Qed.

(** C4: the result of an execution reports the first fault of the calls it made,
    errors, contexts that ran out and failing workloads alike, and passes exactly
    when there was none. *)
Theorem executor_reports_first_fault (e : Exec W) (p : Provider W) (parent : context) (observer : option Observer)
    (job : LocalJob.Job) (w : W) :
  LocalJob.Validate job = None -> registry e !! LocalJob.Provider job = Some p ->
  let '(r, (_, tr)) := Execute tnow (traced_executor e) parent observer job (w, []) in
  reports (r : Res) (verdict parent tr).
Proof.
  intros Hv Hp. pose proof (execute_all e p parent observer job w Hv Hp) as H. unfold sound_run in H.
  destruct (Execute _ _ _ _ _ _) as [r [w' tr]]. by destruct H as (? & ? & ?).
Qed.

(** A job that is cancelled before it starts is reported as cancelled, and
    nothing of it is prepared or run. *)
Theorem executor_cancelled_early (e : Exec W) (p : Provider W) (parent : context) (observer : option Observer)
    (job : LocalJob.Job) (w : W) :
  LocalJob.Validate job = None -> registry e !! LocalJob.Provider job = Some p ->
  (forall ctx q w, now w <= now (snd (Resolve p ctx q w))) ->
  Err parent (now w) = Some Canceled ->
  let '(r, (_, tr)) := Execute tnow (traced_executor e) parent observer job (w, []) in
  RClassification (r : Res) = ClassificationCancelled /\ RPhase r = PhaseResolution /\
  exists ev b, tr = [ev] /\ ecall ev = CResolve b.
Proof.
  intros Hv Hp Hclock Hcan. unfold Execute. unfold bind at 1, reads. rewrite Hv.
  assert (registry (traced_executor e) !! LocalJob.Provider job = Some (traced_provider p)) as ->.
  { cbn [traced_executor registry]. etransitivity; [apply (lookup_fmap traced_provider (registry e))|].
    exact (f_equal (fmap traced_provider) Hp). }
  unfold bind at 1. change (tnow (w, [])) with (now w). rewrite (WithTimeout_done _ _ _ _ Hcan).
  unfold bind at 1. cbn [traced_provider Resolve Name]. unfold bind at 1, traced.
  match goal with |- context [Resolve p parent ?q w] => pose proof (Hclock parent q w) as Hw end.
  destruct (Resolve p parent _ w) as [[env err] w1]. cbn [fst snd app] in *. unfold bind at 1, ret at 1.
  change (tnow (w1, ?l)) with (now w1).
  assert (contextFailure parent parent (now w1)
          = Some (NewFailure ClassificationCancelled (bs "job_cancelled") (message Canceled))) as Ef.
  { unfold contextFailure. by rewrite (Err_later _ _ _ _ Hcan Hw). }
  unfold classifyError. rewrite Ef. destruct err as [err|]; cbn; (split_and!; [done|done|by eexists _, _]).
Qed.

(** An owned session, once handed over, is always collected and cleaned up,
    exactly once each, also when the context was done before anything ran, and its
    result reports the first fault. *)
Theorem owned_always_cleaned (ctx : context) (observer : option Observer) (start : ExecutionStart) (p : Prepared W) (w : W) :
  exists (r : Res) w' att body close ev cl,
    ExecuteOwned tnow (Some ctx) observer start (Some (traced_prepared p)) (w, []) = (r, (w', att ++ body ++ close)) /\
    attaching att /\ running ctx body /\ closing close /\ last close = Some ev /\
    reports r (or_else (pair PhasePreparation <$> contextFailure ctx ctx (last_finished (now w) att))
                       (verdict ctx (body ++ close))) /\
    Cleanup r = Some cl /\ Attempted cl = true /\ Succeeded cl = negb (found (eerr ev)).
Proof.
  unfold ExecuteOwned. unfold bind at 1, reads. set (r0 := fresh _ _ _ _). unfold bind at 1.
  destruct (attach_traced observer p w []) as (w1 & att & -> & Ha & Ht). unfold bind at 1.
  change (tnow (w1, [] ++ att)) with (now w1). rewrite Ht. set (t := last_finished (now w) att). unfold bind at 1.
  assert (Hc : coherent r0) by done.
  set (first := match contextFailure ctx ctx t with Some _ => _ | None => _ end).
  assert (exists r1 w2 body, first (w1, [] ++ att) = (r1, (w2, att ++ body)) /\ running ctx body /\
    follows r0 (or_else (pair PhasePreparation <$> contextFailure ctx ctx t) (verdict ctx body)) r1)
    as (r1 & w2 & body & E1 & R1 & F1).
  { unfold first. destruct (contextFailure ctx ctx t) as [f|] eqn:Ef.
    - exists (setFailure r0 PhasePreparation (Some f)), w1, []. rewrite app_nil_r.
      split; [done|]; split; [apply running_nothing|]; by apply (setFailure_follows r0 PhasePreparation (Some f)).
    - destruct (execute_traced ctx ctx p start None r0 w1 att Hc eq_refl) as (r1 & w2 & body & E & R & F & _).
      exists r1, w2, body. split; [exact E|]. by split. }
  rewrite E1. clear E1 first.
  destruct (close_traced ctx p defaultCollectionTimeout (15 * 1000 * LocalJob.Millisecond) r1 w2 (att ++ body) (proj1 F1))
    as (r2 & w3 & r3 & w4 & close & ev & cl & E2 & E3 & Hclose & Hlast & F2 & K1 & K2 & K3).
  unfold bind. rewrite E2, E3. destruct (follows_trans _ _ _ _ _ F1 F2) as [Hc3 Hb].
  destruct (finish_reports r3 _ (w4, (att ++ body) ++ close) Hc3 eq_refl) as (r4 & -> & R4 & K4).
  exists r4, w4, att, body, close, ev, cl. split_and!; try done; [by rewrite <-!(assoc_L (++))| |by rewrite K4].
  rewrite verdict_app by (rewrite <-(app_nil_r close); by apply closing_attaches).
  rewrite Hb in R4. cbn [blame r0 fresh RFailure or_else] in R4. by destruct (pair _ <$> _).
Qed.

End traced.

(** ** A sample provider

    Its world is a clock that every call moves; its workload fails and so does its
    cleanup. *)

Definition tick {A} (a : A) : M Z A := fun t => (a, t + 1).

Definition plain_error (text : bytes) : error := {| etext := text; classified := None |}.

Definition sample_output : @CollectedOutput unit unit unit := {|
  OMeasuredNetwork := None; OMeasuredRuntime := None; OTerminalObservations := []; OStdout := bs "out"; OStderr := [];
  OCapturedBytes := 3; OObservedBytes := 3; OOutputTruncated := false; OStructuredEvents := []; OCompleteLog := None;
  OEvidenceUsage := {| RawBytesObserved := 3; ECapturedBytes := 3; EStructuredEventCount := 0; EStructuredEventBytes := 0;
    ECompleteLogBytes := 0; ECompressedLogBytes := 0; ETruncatedLineCount := 0; EOutputTruncated := false;
    ECompleteLogState := []; ECompleteLogTruncated := false; EventsTruncated := false; EEventChannelMaximumBytes := 0;
    EEventChannelBufferedBytes := 0; EEventChannelResourceBytes := 0; EEventChannelOverflowed := false;
    EEventChannelRemoved := false |};
  OStructuredEventError := []; OResourceUsage := None |}.

Definition sample_prepared : @PreparedEnvironment unit unit unit unit Z := {|
  PExecute := fun _ => tick ({| OExitCode := Some 1;
    OFailure := Some (NewFailure ClassificationWorkloadFailure (bs "exit") (bs "exit status 1")) |}, None);
  PCollect := fun _ => tick (sample_output, None);
  PCleanup := fun _ => tick (Some (plain_error (bs "busy")));
  AttachObserver := Some (fun _ => tick tt) |}.

Definition sample_environment : @EnvironmentI unit unit unit unit Z := {|
  EIdentity := bs "env"; EPrepare := fun _ => tick (Some sample_prepared, None); EResourceClass := None |}.

Definition sample_provider : @EnvironmentProvider unit unit unit unit Z := {|
  Name := bs "sample"; Resolve := fun _ _ => tick (Some sample_environment, None) |}.

Definition sample_executor : @Executor unit unit unit unit Z := {|
  terminalEvidenceV2 := false; registry := {[bs "sample" := sample_provider]};
  collectionTimeout := defaultCollectionTimeout; cleanupTimeout := defaultCleanupTimeout; beforeExecute := None |}.

Definition sample_job : LocalJob.Job := {|
  LocalJob.schemaVersion := LocalJob.SchemaVersion; LocalJob.ID := bs "job-1"; LocalJob.Provider := bs "sample";
  LocalJob.TimeoutMilliseconds := 0; LocalJob.PreparationTimeoutMilliseconds := 0;
  LocalJob.GracefulShutdownTimeoutMilliseconds := 0; LocalJob.MaxOutputBytes := 0; LocalJob.JEnvironment := bs "{}" |}.

Definition sample_run (parent : context) : @Result unit unit unit unit * (Z * list event) :=
  Execute (tnow (fun t => t)) (traced_executor (fun t => t) sample_executor) parent (Some tt) sample_job (0, []).

Lemma executor_lifecycle_witness :
  map ecall (snd (snd (sample_run None)))
  = [CResolve true; CPrepare true; CAttach;
     CExecute (Some (NewFailure ClassificationWorkloadFailure (bs "exit") (bs "exit status 1"))); CCollect; CCleanup] /\
  (let '(r, (_, tr)) := sample_run None in
   lifecycle (WithTimeout None 0 (LocalJob.PreparationTimeout sample_job)) tr /\ names_cleanup r tr).
Proof.
  split; [vm_compute; reflexivity|]. unfold sample_run.
  apply (executor_lifecycle (fun t => t) sample_executor sample_provider None (Some tt) sample_job 0).
  - vm_compute. reflexivity.
  - reflexivity.
Defined.

Lemma executor_reports_first_fault_witness :
  (let '(r, (_, tr)) := sample_run None in reports r (verdict None tr)) /\
  verdict None (snd (snd (sample_run None)))
  = Some (PhaseExecution, NewFailure ClassificationWorkloadFailure (bs "exit") (bs "exit status 1")).
Proof.
  split; [|vm_compute; reflexivity]. unfold sample_run.
  apply (executor_reports_first_fault (fun t => t) sample_executor sample_provider None (Some tt) sample_job 0).
  - vm_compute. reflexivity.
  - reflexivity.
Defined.

Lemma executor_cancelled_early_witness :
  let '(r, (_, tr)) := sample_run (Some (0, Canceled)) in
  RClassification r = ClassificationCancelled /\ RPhase r = PhaseResolution /\
  exists ev b, tr = [ev] /\ ecall ev = CResolve b.
Proof.
  unfold sample_run.
  apply (executor_cancelled_early (fun t => t) sample_executor sample_provider (Some (0, Canceled)) (Some tt) sample_job 0).
  - vm_compute. reflexivity.
  - reflexivity.
  - intros ctx q t. cbn. lia.
  - reflexivity.
Defined.
