(* ===== verification/Sha256.v ===== *)
(** Go's [crypto/sha256], executable: the digests several components pin, compare
    and print. *)

From S2P Require Import Prelude.

Definition word (n : Z) : Z := n mod 2 ^ 32.
Definition rotr (n : Z) (k : Z) : Z := Z.lor (Z.shiftr n k) (word (Z.shiftl n (32 - k))).
Definition not32 (n : Z) : Z := Z.lxor n 0xFFFFFFFF.

(** The constants, as FIPS 180-4 defines them: the first 32 bits of the fractional
    parts of the cube roots of the first 64 primes, and of the square roots of the
    first 8. *)
Definition prime (p : Z) : bool :=
  forallb (fun d => negb (p mod d =? 0)) (map Z.of_nat (seq 2 (Z.to_nat (Z.sqrt p) - 1))).

Definition primes : list Z := List.filter prime (map Z.of_nat (seq 2 310)).

(** The integer cube root of [n], found bit by bit from bit [k - 1] down. *)
Fixpoint cbrt (k : nat) (n r : Z) : Z :=
  match k with
  | O => r
  | S k => let r' := r + 2 ^ Z.of_nat k in cbrt k n (if r' ^ 3 <=? n then r' else r)
  end.

Definition round_constants : list Z := Eval vm_compute in
  map (fun p => word (cbrt 40 (p * 2 ^ 96) 0)) primes.

Definition initial_state : list Z := Eval vm_compute in
  map (fun p => word (Z.sqrt (p * 2 ^ 64))) (take 8 primes).

(** Four bytes, most significant first. *)
Definition be32 (n : Z) : bytes :=
  [Z.shiftr n 24; Z.shiftr n 16 mod 256; Z.shiftr n 8 mod 256; n mod 256].

Fixpoint words_of (n : nat) (s : bytes) : list Z :=
  match n, s with
  | S n, a :: b :: c :: d :: rest => (a * 2 ^ 24 + b * 2 ^ 16 + c * 2 ^ 8 + d) :: words_of n rest
  | _, _ => []
  end.

(** The message schedule, newest word first. *)
Fixpoint schedule (n : nat) (w : list Z) : list Z :=
  match n with
  | O => w
  | S n =>
      let x15 := nth 14 w 0 in
      let x2 := nth 1 w 0 in
      let s0 := Z.lxor (Z.lxor (rotr x15 7) (rotr x15 18)) (Z.shiftr x15 3) in
      let s1 := Z.lxor (Z.lxor (rotr x2 17) (rotr x2 19)) (Z.shiftr x2 10) in
      schedule n (word (nth 15 w 0 + s0 + nth 6 w 0 + s1) :: w)
  end.

Definition sha_round (st : list Z) (kw : Z * Z) : list Z :=
  match st with
  | [a; b; c; d; e; f; g; h] =>
      let s1 := Z.lxor (Z.lxor (rotr e 6) (rotr e 11)) (rotr e 25) in
      let ch := Z.lxor (Z.land e f) (Z.land (not32 e) g) in
      let t1 := h + s1 + ch + fst kw + snd kw in
      let s0 := Z.lxor (Z.lxor (rotr a 2) (rotr a 13)) (rotr a 22) in
      let maj := Z.lxor (Z.lxor (Z.land a b) (Z.land a c)) (Z.land b c) in
      [word (t1 + s0 + maj); a; b; c; word (d + t1); e; f; g]
  | _ => st
  end.

Definition compress (st : list Z) (block : bytes) : list Z :=
  let w := rev (schedule 48 (rev (words_of 16 block))) in
  let out := fold_left sha_round (combine round_constants w) st in
  map (fun p => word (fst p + snd p)) (combine st out).

Fixpoint blocks (n : nat) (st : list Z) (s : bytes) : list Z :=
  match n with
  | O => st
  | S n => blocks n (compress st (take 64 s)) (drop 64 s)
  end.

(** [sha256.Sum256]: the padded message has a whole number of blocks. *)
Definition Sum256 (s : bytes) : bytes :=
  let n := zlen s in
  let zeros := Z.to_nat ((55 - n) mod 64) in
  let padded := s ++ [0x80] ++ repeat 0 zeros ++ be32 (Z.shiftr (8 * n) 32) ++ be32 (word (8 * n)) in
  concat (map be32 (blocks (length padded / 64) initial_state padded)).

Definition hex_digit (n : Z) : Z := if n <? 10 then 0x30 + n else 0x57 + n.

(** [hex.EncodeToString] *)
Definition hex (s : bytes) : bytes := concat (map (fun b => [hex_digit (b / 16 mod 16); hex_digit (b mod 16)]) s).

Lemma concat_map_length {A} (f : A -> bytes) k l :
  (forall x, x ∈ l -> length (f x) = k) -> length (concat (map f l)) = (k * length l)%nat.
Proof.
  intros H. induction l as [|x l IH]; [cbn; lia|]. cbn [map concat length].
  rewrite length_app, H by left. rewrite IH by (intros; apply H; by right). lia.
Qed.

Lemma sha_round_length st kw : length st = 8%nat -> length (sha_round st kw) = 8%nat.
Proof. do 9 (destruct st as [|? st]; try done). Qed.

Lemma blocks_length n : forall st s, length st = 8%nat -> length (blocks n st s) = 8%nat.
Proof.
  induction n as [|n IH]; intros st s H; [done|]. cbn [blocks]. apply IH. unfold compress.
  rewrite length_map, length_combine.
  assert (forall l st, length st = 8%nat -> length (fold_left sha_round l st) = 8%nat) as H8; [|by rewrite (H8 _ _ H), H].
  induction l as [|x l IHl]; intros st0 H0; [done|]. cbn [fold_left]. apply IHl. by apply sha_round_length.
Qed.

(** A digest has 32 bytes. *)
Lemma Sum256_length s : length (Sum256 s) = 32%nat.
Proof. unfold Sum256. rewrite (concat_map_length _ 4) by done. by rewrite blocks_length. Qed.

(** The published digests of two messages, one of them of two blocks. *)
Example sha256_abc : hex (Sum256 (bs "abc")) = bs "ba7816bf8f01cfea414140de5dae2223b00361a396177a9cb410ff61f20015ad".
Proof. vm_compute. reflexivity. Qed.

Example sha256_two_blocks :
  hex (Sum256 (bs "abcdbcdecdefdefgefghfghighijhijkijkljklmklmnlmnomnopnopq"))
  = bs "248d6a61d20638b8e5c026930c3e6039a33ce45964ff2167f6ecedd419db06c1".
Proof. vm_compute. reflexivity. Qed.
