(* ===== verification/Policy.v ===== *)
(** Network policies ([src/internal/networkpolicy]): host names and ports
    ([bindings.go]), the wire form of a policy and its maximum ([wire_v2.go]), and
    the addresses a policy may reach ([addresses.go]). *)

From Stdlib Require Import ZifyBool Sorted.
From S2P Require Import Prelude Utf8 Patterns Strconv Sha256.

(** * Host names, ports and identifiers *)

Module Names.

Fixpoint split_on (sep : Z) (s : bytes) : list bytes :=
  match s with
  | [] => [[]]
  | b :: rest =>
      match split_on sep rest with
      | l :: ls => if b =? sep then [] :: l :: ls else (b :: l) :: ls
      | [] => [[]]
      end
  end.

Definition is_hex (b : Z) : bool := is_digit b || in_range 0x61 0x66 b.

(** [^(?:[0-9]+|0x[0-9a-f]+)$] *)
Definition numericAddressLabel (label : bytes) : bool :=
  (negb (zlen label =? 0) && forallb is_digit label)
  || match label with
     | 0x30 :: 0x78 :: rest => negb (zlen rest =? 0) && forallb is_hex rest
     | _ => false
     end.

(** A field of a dotted IPv4 address: no leading zero, at most 255. *)
Definition octet (field : bytes) : bool :=
  match field with
  | [] => false
  | [d] => is_digit d
  | d :: _ => negb (d =? 0x30) && (zlen field <=? 3) && forallb is_digit field
              && match read_digits 0 field with Some v => v <=? 255 | None => false end
  end.

(** [netip.ParseAddr] succeeds on a dotted IPv4 address. It also does on IPv6
    addresses, whose colons no host name has. *)
Definition dotted_ipv4 (host : bytes) : bool :=
  let fields := split_on 0x2E host in (zlen fields =? 4) && forallb octet fields.

Definition label_byte (c : Z) : bool := is_lower c || (c =? 0x2D) || is_digit c.

Definition label_ok (label : bytes) : bool :=
  (1 <=? zlen label) && (zlen label <=? 63) && negb (bool_decide (head label = Some 0x2D))
  && negb (bool_decide (last label = Some 0x2D)) && forallb label_byte label.

Definition hostname (host : bytes) : bool :=
  let labels := split_on 0x2E host in
  (1 <=? zlen host) && (zlen host <=? 253) && bool_decide (host = to_lower host) && existsb (Z.eqb 0x2E) host
  && negb (dotted_ipv4 host) && forallb label_ok labels
  && existsb (existsb is_lower) labels && negb (forallb numericAddressLabel labels).

Definition blockedPort (port : Z) : bool := existsb (Z.eqb port) [0; 25; 465; 587; 53; 853].

Fixpoint hex_groups (sizes : list nat) (s : bytes) : bool :=
  match sizes with
  | [] => false
  | [n] => (length s =? n)%nat && forallb is_hex s
  | n :: sizes =>
      (n <? length s)%nat && forallb is_hex (take n s) && bool_decide (s !! n = Some 0x2D) && hex_groups sizes (drop (S n) s)
  end.

(** [^[a-f0-9]{8}-[a-f0-9]{4}-[a-f0-9]{4}-[a-f0-9]{4}-[a-f0-9]{12}$] *)
Definition jobID (s : bytes) : bool := hex_groups [8; 4; 4; 4; 12]%nat s.

Definition nilID : bytes := bs "00000000-0000-0000-0000-000000000000".

Definition validAuthorityID (id : bytes) : bool := jobID id && negb (bool_decide (id = nilID)).

(** A host name has only label bytes and dots. *)
Lemma split_on_bytes sep (P : Z -> Prop) s :
  Forall (Forall P) (split_on sep s) -> Forall (fun b => b = sep \/ P b) s.
Proof.
  induction s as [|b s IH]; [constructor|]. cbn [split_on]. destruct (split_on sep s) as [|l ls] eqn:E.
  { destruct s; cbn in E; [done|]. destruct (split_on sep s); [done|]. destruct (_ =? sep); done. }
  destruct (b =? sep) eqn:Eb; intros H.
  - constructor; [left; lia|]. apply IH. by apply Forall_inv_tail in H.
  - apply Forall_cons in H as [H1 H2]. apply Forall_cons in H1 as [H1 H3].
    constructor; [by right|]. apply IH. by constructor.
Qed.

Lemma hostname_bytes host : hostname host = true -> Forall (fun b => b = 0x2E \/ label_byte b = true) host.
Proof.
  unfold hostname. intros H. bool_norm. apply split_on_bytes, Forall_forall. intros l Hl.
  match goal with X : forallb label_ok _ = true |- _ => rewrite forallb_forall in X; specialize (X l) end.
  apply Forall_forall. intros b Hb. match goal with X : In l _ -> _ |- _ => unfold label_ok in X; specialize (X (proj1 (list_elem_of_In _ _) Hl)) end.
  bool_norm. match goal with X : forallb label_byte l = true |- _ => rewrite forallb_forall in X; apply X end.
  by apply list_elem_of_In.
Qed.

End Names.

(** * The generated protocol

    The numbers of the protocol's enums are those of code generated elsewhere; the
    network policy only compares them. *)

Class RunnerProto := {
  NETWORK_MODE_NONE : Z;
  NETWORK_MODE_RESTRICTED : Z;
  NETWORK_MODE_ALLOWLIST : Z;
  NETWORK_TRANSPORT_V2_TCP : Z;
  NETWORK_TRANSPORT_V2_UDP : Z;
  SANDBOX_KIND_UNSPECIFIED : Z;
  ENVIRONMENT_REQUIREMENT_UNSPECIFIED : Z;
  DIGEST_ALGORITHM_SHA256 : Z;
  LEASE_STATUS_OFFERED : Z;
  LEASE_STATUS_ACCEPTED : Z;
  LEASE_STATUS_ACTIVE : Z;
  LEASE_STATUS_COMPLETED : Z;
  LEASE_STATUS_RELEASED : Z;
  JOB_PHASE_CANCELLING : Z;
  NETWORK_AUTHORITY_STATE_V2_CURRENT : Z;
  NETWORK_AUTHORITY_STATE_V2_WITHDRAWN : Z;
}.

(** One numbering, to run the model with. *)
Definition sample_proto : RunnerProto := {|
  NETWORK_MODE_NONE := 1; NETWORK_MODE_RESTRICTED := 2; NETWORK_MODE_ALLOWLIST := 3;
  NETWORK_TRANSPORT_V2_TCP := 1; NETWORK_TRANSPORT_V2_UDP := 2;
  SANDBOX_KIND_UNSPECIFIED := 0; ENVIRONMENT_REQUIREMENT_UNSPECIFIED := 0; DIGEST_ALGORITHM_SHA256 := 1;
  LEASE_STATUS_OFFERED := 1; LEASE_STATUS_ACCEPTED := 2; LEASE_STATUS_ACTIVE := 3; LEASE_STATUS_COMPLETED := 4;
  LEASE_STATUS_RELEASED := 7; JOB_PHASE_CANCELLING := 6;
  NETWORK_AUTHORITY_STATE_V2_CURRENT := 1; NETWORK_AUTHORITY_STATE_V2_WITHDRAWN := 2 |}.

(** * The wire form of a policy *)

Module Wire.

Import Names.

(** What [protoreflect] shows of a message: whether it is a message at all, its
    unknown bytes and its populated fields; of an enum, whether its number is
    declared. *)
Inductive message :=
  | Msg (isValid : bool) (unknown : bytes) (fields : list field)
with field :=
  | MapField
  | EnumField (declared : list bool)
  | MessageField (values : list message)
  | OtherField.

Fixpoint closedWireV2 (m : message) : bool :=
  match m with
  | Msg isValid unknown fields =>
      isValid && (zlen unknown =? 0) &&
      (fix closed_fields (fs : list field) : bool :=
         match fs with
         | [] => true
         | MapField :: _ => false
         | EnumField declared :: rest => forallb id declared && closed_fields rest
         | MessageField values :: rest =>
             (fix closed_all (ms : list message) : bool :=
                match ms with [] => true | m :: ms => closedWireV2 m && closed_all ms end) values && closed_fields rest
         | OtherField :: rest => closed_fields rest
         end) fields
  end.


Record NetworkPermissionV2 := { punknown : bytes; Hostname : bytes; Port : Z; Transport : Z }.

#[export] Instance permission_eq_dec : EqDecision NetworkPermissionV2.
Proof. solve_decision. Defined.

(** A repeated message field can hold nil. *)
Record NetworkPolicyV2 := {
  unknown : bytes;
  Mode : Z;
  Permissions : list (option NetworkPermissionV2);
  MaximumConnections : Z;
  MaximumBytesPerSecond : Z;
}.

(** [strings.Compare] *)
Fixpoint bytes_compare (a b : bytes) : Z :=
  match a, b with
  | [], [] => 0
  | [], _ => -1
  | _, [] => 1
  | x :: a, y :: b => if x <? y then -1 else if y <? x then 1 else bytes_compare a b
  end.

Definition compareWirePermissionV2 (a b : NetworkPermissionV2) : Z :=
  let c := bytes_compare (Hostname a) (Hostname b) in
  if negb (c =? 0) then c
  else if Port a <? Port b then -1
  else if Port a >? Port b then 1
  else if Transport a <? Transport b then -1
  else if Transport a >? Transport b then 1
  else 0.

Section validate.
Context `{PB : RunnerProto}.

Definition permission_ok (p : NetworkPermissionV2) : bool :=
  (zlen (punknown p) =? 0) && hostname (Hostname p) && (Port p <=? 65535) && negb (blockedPort (Port p))
  && ((Transport p =? NETWORK_TRANSPORT_V2_TCP) || (Transport p =? NETWORK_TRANSPORT_V2_UDP)).

Fixpoint permissions_ok (previous : option NetworkPermissionV2) (ps : list (option NetworkPermissionV2)) : bool :=
  match ps with
  | [] => true
  | None :: _ => false
  | Some p :: rest =>
      permission_ok p
      && match previous with Some q => compareWirePermissionV2 q p <? 0 | None => true end
      && permissions_ok (Some p) rest
  end.

(** [true]: no error. *)
Definition ValidateWireV2 (p : option NetworkPolicyV2) : bool :=
  match p with
  | None => false
  | Some p =>
      if negb (zlen (unknown p) =? 0) || (128 <? zlen (Permissions p)) then false
      else if Mode p =? NETWORK_MODE_NONE then
        (zlen (Permissions p) =? 0) && (MaximumConnections p =? 0) && (MaximumBytesPerSecond p =? 0)
      else if (negb (Mode p =? NETWORK_MODE_RESTRICTED) && negb (Mode p =? NETWORK_MODE_ALLOWLIST))
              || (zlen (Permissions p) =? 0) || (MaximumConnections p =? 0) || (MaximumBytesPerSecond p =? 0)
      then false
      else permissions_ok None (Permissions p)
  end.

(** The grants of a validated policy, which has no nil among them. *)
Definition grants (p : NetworkPolicyV2) : list NetworkPermissionV2 := omap id (Permissions p).

(** Advance in the maximum's permissions while they are below the granted one. *)
Fixpoint skip_below (p : NetworkPermissionV2) (maximum : list NetworkPermissionV2) : list NetworkPermissionV2 :=
  match maximum with
  | [] => []
  | q :: rest => if compareWirePermissionV2 q p <? 0 then skip_below p rest else maximum
  end.

Fixpoint covered (effective maximum : list NetworkPermissionV2) : bool :=
  match effective with
  | [] => true
  | p :: rest =>
      match skip_below p maximum with
      | [] => false
      | q :: maximum => if compareWirePermissionV2 q p =? 0 then covered rest (q :: maximum) else false
      end
  end.

Definition WithinLocalMaximumV2 (effective maximum : option NetworkPolicyV2) : bool :=
  match effective, maximum with
  | Some e, Some m =>
      if negb (ValidateWireV2 effective) || negb (ValidateWireV2 maximum) then false
      else if Mode e =? NETWORK_MODE_NONE then true
      else if (Mode m =? NETWORK_MODE_NONE) || (MaximumConnections e >? MaximumConnections m)
              || (MaximumBytesPerSecond e >? MaximumBytesPerSecond m)
      then false
      else covered (grants e) (grants m)
  | _, _ => false
  end.

(** ** The order of permissions *)

Lemma bytes_compare_refl a : bytes_compare a a = 0.
Proof. induction a as [|x a IH]; [done|]. cbn. by rewrite Z.ltb_irrefl. Qed.

Lemma bytes_compare_eq a b : bytes_compare a b = 0 -> a = b.
Proof.
  revert b. induction a as [|x a IH]; intros [|y b]; cbn; try done.
  destruct (x <? y) eqn:E1; [done|]. destruct (y <? x) eqn:E2; [done|]. intros ?%IH. f_equal; [lia|done].
Qed.

Lemma bytes_compare_trans a b c : bytes_compare a b < 0 -> bytes_compare b c < 0 -> bytes_compare a c < 0.
Proof.
  revert b c. induction a as [|x a IH]; intros [|y b] [|z c]; cbn; try lia.
  destruct (x <? y) eqn:E1, (y <? x) eqn:E2, (y <? z) eqn:E3, (z <? y) eqn:E4; try lia; intros H1 H2;
    try (assert (x <? z = true) as -> by lia; lia).
  assert (x <? z = false) as -> by lia. assert (z <? x = false) as -> by lia. by apply (IH b).
Qed.

(** Two permissions are the same grant; unknown bytes apart, which validated ones
    do not have. *)
Definition same_grant (a b : NetworkPermissionV2) : Prop :=
  Hostname a = Hostname b /\ Port a = Port b /\ Transport a = Transport b.

Lemma compare_same a b : compareWirePermissionV2 a b = 0 <-> same_grant a b.
Proof.
  unfold compareWirePermissionV2, same_grant. split.
  - destruct (_ =? 0) eqn:E; cbn [negb]; [|lia]. assert (Hh : bytes_compare (Hostname a) (Hostname b) = 0) by lia.
    apply bytes_compare_eq in Hh. destruct (Port a <? Port b) eqn:P1; [done|]. destruct (Port a >? Port b) eqn:P2; [done|].
    destruct (Transport a <? Transport b) eqn:T1; [done|]. destruct (Transport a >? Transport b) eqn:T2; [done|].
    intros _. split_and!; [done|lia|lia].
  - intros (-> & -> & ->). rewrite bytes_compare_refl. cbn [Z.eqb negb].
    rewrite !Z.ltb_irrefl. by rewrite !Z.gtb_ltb, !Z.ltb_irrefl.
Qed.

Lemma compare_below a b :
  compareWirePermissionV2 a b < 0 <->
  bytes_compare (Hostname a) (Hostname b) < 0 \/
  (Hostname a = Hostname b /\ (Port a < Port b \/ (Port a = Port b /\ Transport a < Transport b))).
Proof.
  unfold compareWirePermissionV2. destruct (bytes_compare _ _ =? 0) eqn:E; cbn [negb].
  - assert (Hh : bytes_compare (Hostname a) (Hostname b) = 0) by lia. pose proof (bytes_compare_eq _ _ Hh).
    destruct (Port a <? Port b) eqn:P1; [split; [intros; right; split; [done|left; lia]|lia]|].
    destruct (Port a >? Port b) eqn:P2; [split; [lia|intros [?|(_ & [?|[? ?]])]; lia]|].
    destruct (Transport a <? Transport b) eqn:T1; [split; [intros; right; split; [done|right; lia]|lia]|].
    destruct (Transport a >? Transport b) eqn:T2; (split; [lia|intros [?|(_ & [?|[? ?]])]; lia]).
  - split; [by left|]. intros [?|[Hh _]]; [done|]. rewrite Hh, bytes_compare_refl in E. done.
Qed.

Lemma compare_trans a b c :
  compareWirePermissionV2 a b < 0 -> compareWirePermissionV2 b c < 0 -> compareWirePermissionV2 a c < 0.
Proof.
  rewrite !compare_below. intros [H1|[E1 H1]] [H2|[E2 H2]].
  - left. by eapply bytes_compare_trans.
  - left. by rewrite <-E2.
  - left. by rewrite E1.
  - right. split; [congruence|lia].
Qed.

Lemma compare_same_l a b c : same_grant a b -> compareWirePermissionV2 a c = compareWirePermissionV2 b c.
Proof. intros (H1 & H2 & H3). unfold compareWirePermissionV2. by rewrite H1, H2, H3. Qed.

Lemma compare_same_r a b c : same_grant a b -> compareWirePermissionV2 c a = compareWirePermissionV2 c b.
Proof. intros (H1 & H2 & H3). unfold compareWirePermissionV2. by rewrite H1, H2, H3. Qed.

Definition below (a b : NetworkPermissionV2) : Prop := compareWirePermissionV2 a b < 0.

(** A validated list of permissions has no nil and is strictly increasing. *)
Lemma permissions_ok_sorted ps previous :
  permissions_ok previous ps = true ->
  exists qs, ps = map Some qs /\ Forall (fun p => permission_ok p = true) qs /\ StronglySorted below qs /\
    match previous with Some q => Forall (below q) qs | None => True end.
Proof.
  revert previous. induction ps as [|[p|] ps IH]; intros previous H; cbn in H; [| |done].
  { exists []. split_and!; try constructor. by destruct previous. }
  bool_norm. destruct (IH (Some p)) as (qs & -> & Hok & Hsort & Hbelow); [done|].
  exists (p :: qs). split_and!; [done|by constructor|by constructor|].
  destruct previous as [q|]; [|done]. bool_norm. constructor; [done|].
  eapply Forall_impl; [exact Hbelow|]. intros x Hx. eapply compare_trans; [|exact Hx]. done.
Qed.

Lemma grants_map qs p : Permissions p = map Some qs -> grants p = qs.
Proof.
  intros E. unfold grants. rewrite E. clear E. induction qs as [|q qs IH]; [done|]. cbn. by f_equal.
Qed.

Lemma skip_below_elem p m q : StronglySorted below m -> q ∈ m -> compareWirePermissionV2 q p = 0 -> 
  exists q' rest, skip_below p m = q' :: rest /\ same_grant q' p /\ StronglySorted below (q' :: rest) /\
    (forall x, x ∈ m -> below p x -> x ∈ rest).
Proof.
  induction m as [|r m IH]; intros Hs Hq Hc; [by apply not_elem_of_nil in Hq|].
  inversion Hs as [|? ? Hs' Hr]; subst. cbn [skip_below]. rewrite Forall_forall in Hr.
  apply elem_of_cons in Hq as [<-|Hq].
  - assert (compareWirePermissionV2 q p <? 0 = false) as -> by lia. exists q, m.
    apply compare_same in Hc. split_and!; [done|done|done|]. intros x Hx Hb.
    apply elem_of_cons in Hx as [->|Hx]; [|done]. unfold below in Hb. rewrite <-(compare_same_l _ _ _ Hc) in Hb.
    rewrite (proj2 (compare_same q q)) in Hb; [lia|by repeat split].
  - pose proof (Hr q Hq) as Hrq. assert (Hrp : below r p).
    { unfold below in *. apply compare_same in Hc. by rewrite <-(compare_same_r _ _ _ Hc). }
    unfold below in Hrp. assert (compareWirePermissionV2 r p <? 0 = true) as -> by lia.
    destruct (IH Hs' Hq Hc) as (q' & rest & -> & H1 & H2 & H3). exists q', rest. split_and!; [done|done|done|].
    intros x Hx Hb. apply elem_of_cons in Hx as [->|Hx]; [|by apply H3].
    pose proof (compare_trans _ _ _ Hrp Hb) as Hbad. rewrite (proj2 (compare_same r r)) in Hbad; [lia|by repeat split].
Qed.

Lemma skip_below_incl p m : forall x, x ∈ skip_below p m -> x ∈ m.
Proof.
  induction m as [|q m IH]; [done|]. cbn. destruct (_ <? 0); [|done]. intros x Hx. right. by apply IH.
Qed.

Lemma covered_spec e : forall m,
  StronglySorted below e -> StronglySorted below m ->
  covered e m = true <-> (forall p, p ∈ e -> exists q, q ∈ m /\ same_grant q p).
Proof.
  induction e as [|p e IH]; intros m He Hm; cbn [covered].
  { split; [|done]. intros _ p Hp. by apply not_elem_of_nil in Hp. }
  inversion He as [|? ? He' Hp]; subst. rewrite Forall_forall in Hp. split.
  - destruct (skip_below p m) as [|q rest] eqn:E; [done|]. destruct (_ =? 0) eqn:Ec; [|done]. intros Hcov.
    assert (Hin : forall x, x ∈ q :: rest -> x ∈ m) by (rewrite <-E; apply skip_below_incl).
    assert (Hsr : StronglySorted below (q :: rest)).
    { destruct (skip_below_elem p m q Hm) as (q' & rest' & E' & _ & Hs & _); [apply Hin; left|lia|].
      rewrite E in E'. injection E' as -> ->. done. }
    pose proof (proj1 (IH _ He' Hsr) Hcov) as Hall. clear Hcov.
    intros x Hx. apply elem_of_cons in Hx as [->|Hx].
    + exists q. split; [apply Hin; left|apply compare_same; lia].
    + destruct (Hall x Hx) as (y & Hy & Hs). exists y. split; [by apply Hin|done].
  - intros H1. destruct (H1 p) as (q & Hq & Hs); [left|].
    destruct (skip_below_elem p m q Hm Hq) as (q' & rest & -> & Hs' & Hsort & Hkeep); [by apply compare_same|].
    rewrite (proj2 (compare_same q' p) Hs'), Z.eqb_refl. apply (proj2 (IH _ He' Hsort)).
    intros x Hx. destruct (H1 x) as (y & Hy & Hsx); [by right|]. exists y. split; [|done]. right.
    apply Hkeep; [done|]. unfold below. rewrite (compare_same_r _ _ _ Hsx). by apply Hp.
Qed.

(** What it means for a policy to stay within a maximum. *)
Definition within (e m : NetworkPolicyV2) : Prop :=
  Mode e = NETWORK_MODE_NONE \/
  (Mode m <> NETWORK_MODE_NONE /\ MaximumConnections e <= MaximumConnections m /\
   MaximumBytesPerSecond e <= MaximumBytesPerSecond m /\
   forall p, Some p ∈ Permissions e -> exists q, Some q ∈ Permissions m /\ same_grant q p).

Lemma validated_permissions p :
  ValidateWireV2 (Some p) = true ->
  exists qs, Permissions p = map Some qs /\ StronglySorted below qs /\ Forall (fun p => permission_ok p = true) qs.
Proof.
  unfold ValidateWireV2. destruct (_ || _); [done|]. destruct (Mode p =? _) eqn:E.
  - intros Hv. bool_norm. exists []. split_and!; [|constructor..]. destruct (Permissions p); [done|].
    rewrite zlen_cons in *. pose proof (zlen_nonneg l). lia.
  - destruct (_ || _ || _ || _); [done|]. intros Hv. destruct (permissions_ok_sorted _ _ Hv) as (qs & E1 & E2 & E3 & _).
    by exists qs.
Qed.

Lemma within_exact (e m : NetworkPolicyV2) :
  WithinLocalMaximumV2 (Some e) (Some m) = true <->
  ValidateWireV2 (Some e) = true /\ ValidateWireV2 (Some m) = true /\ within e m.
Proof.
  unfold WithinLocalMaximumV2, within.
  destruct (ValidateWireV2 (Some e)) eqn:Ve; cbn [negb orb]; [|by split; [done|intros (? & ? & ?)]].
  destruct (ValidateWireV2 (Some m)) eqn:Vm; cbn [negb orb]; [|by split; [done|intros (? & ? & ?)]].
  destruct (Mode e =? NETWORK_MODE_NONE) eqn:E0; [split; [|done]; intros _; split_and!; [done|done|left; lia]|].
  destruct (validated_permissions e Ve) as (es & Ee & Se & _), (validated_permissions m Vm) as (ms & Em & Sm & _).
  rewrite (grants_map es e Ee), (grants_map ms m Em), Ee, Em.
  destruct ((Mode m =? NETWORK_MODE_NONE) || _ || _) eqn:E1.
  { split; [done|]. intros (_ & _ & [?|(? & ? & ? & _)]); [lia|]. lia. }
  rewrite (covered_spec es ms Se Sm). split.
  - intros Hc. split_and!; [done|done|]. right. split_and!; [lia..|].
    intros p Hp. apply list_elem_of_fmap in Hp as (p' & [= <-] & Hp). destruct (Hc p Hp) as (q & Hq & Hs).
    exists q. split; [|done]. by apply list_elem_of_fmap_2.
  - intros (_ & _ & [?|(_ & _ & _ & Hc)]); [lia|]. intros p Hp.
    destruct (Hc p) as (q & Hq & Hs); [by apply list_elem_of_fmap_2|].
    apply list_elem_of_fmap in Hq as (q' & [= <-] & Hq). by exists q.
Qed.

(** The one-pass comparison of a granted policy with the local maximum accepts
    it exactly when both are well formed and no grant, connection limit or byte rate
    of it exceeds the maximum, permission by permission, as whole tuples. *)
Theorem within_maximum_exact (e m : NetworkPolicyV2) :
  WithinLocalMaximumV2 (Some e) (Some m) = true <->
  ValidateWireV2 (Some e) = true /\ ValidateWireV2 (Some m) = true /\ within e m.
Proof. apply within_exact. Qed.

End validate.
End Wire.

(** * Addresses *)

Module Addresses.

(** [netip.Addr]: the zero value, an IPv4 address, an IPv6 address with its zone. *)
Inductive Addr :=
  | NoAddr
  | V4 (a : Z)
  | V6 (a : Z) (zone : bytes).

#[export] Instance Addr_eq_dec : EqDecision Addr.
Proof. solve_decision. Defined.

#[export] Instance Addr_countable : Countable Addr.
Proof.
  refine (inj_countable'
    (fun a => match a with NoAddr => inl () | V4 a => inr (inl a) | V6 a z => inr (inr (a, z)) end)
    (fun x => match x with inl _ => NoAddr | inr (inl a) => V4 a | inr (inr (a, z)) => V6 a z end) _).
  by intros [].
Defined.

Definition BitLen (a : Addr) : Z := match a with NoAddr => 0 | V4 _ => 32 | V6 _ _ => 128 end.
Definition bits_of (a : Addr) : Z := match a with NoAddr => 0 | V4 a => a | V6 a _ => a end.
Definition Zone (a : Addr) : bytes := match a with V6 _ z => z | _ => [] end.
Definition IsValid (a : Addr) : bool := match a with NoAddr => false | _ => true end.
Definition Is4 (a : Addr) : bool := match a with V4 _ => true | _ => false end.
Definition Is6 (a : Addr) : bool := match a with V6 _ _ => true | _ => false end.
Definition Is4In6 (a : Addr) : bool := match a with V6 a _ => a / 2 ^ 32 =? 0xFFFF | _ => false end.

Record Prefix := { paddr : Addr; pbits : Z }.

#[export] Instance Prefix_eq_dec : EqDecision Prefix.
Proof. solve_decision. Defined.

Definition prefix_valid (p : Prefix) : bool := IsValid (paddr p) && (0 <=? pbits p) && (pbits p <=? BitLen (paddr p)).

(** The leading [bits] bits of an address. *)
Definition leading (a : Addr) (bits : Z) : Z := bits_of a / 2 ^ (BitLen a - bits).

Definition Contains (p : Prefix) (a : Addr) : bool :=
  prefix_valid p && IsValid a && (zlen (Zone a) =? 0) && (BitLen (paddr p) =? BitLen a)
  && (leading (paddr p) (pbits p) =? leading a (pbits p)).

(** [prefix.Masked()] of a valid prefix. *)
Definition Masked (p : Prefix) : Prefix :=
  let keep a := leading (paddr p) (pbits p) * 2 ^ (BitLen (paddr p) - pbits p) in
  {| paddr := match paddr p with NoAddr => NoAddr | V4 a => V4 (keep a) | V6 a z => V6 (keep a) [] end;
     pbits := pbits p |}.

Definition ipv4 (a b c d : Z) : Addr := V4 (a * 2 ^ 24 + b * 2 ^ 16 + c * 2 ^ 8 + d).
Definition net4 (a b c d bits : Z) : Prefix := {| paddr := ipv4 a b c d; pbits := bits |}.
(** The first three groups of an IPv6 prefix; the others are zero. *)
Definition net6 (a b c bits : Z) : Prefix :=
  {| paddr := V6 (a * 2 ^ 112 + b * 2 ^ 96 + c * 2 ^ 80) []; pbits := bits |}.

Definition IsLoopback (a : Addr) : bool :=
  match a with NoAddr => false | V4 a => a / 2 ^ 24 =? 127 | V6 a _ => a =? 1 end.
Definition IsMulticast (a : Addr) : bool :=
  match a with NoAddr => false | V4 a => a / 2 ^ 28 =? 0xE | V6 a _ => a / 2 ^ 120 =? 0xFF end.
Definition IsLinkLocalUnicast (a : Addr) : bool :=
  match a with NoAddr => false | V4 a => a / 2 ^ 16 =? 169 * 256 + 254 | V6 a _ => a / 2 ^ 118 =? 0x3FA end.
Definition IsUnspecified (a : Addr) : bool :=
  match a with NoAddr => false | V4 a => a =? 0 | V6 a z => (a =? 0) && (zlen z =? 0) end.

(** For addresses that are not IPv4 mapped into IPv6. *)
Definition IsGlobalUnicast (a : Addr) : bool :=
  IsValid a && negb (bool_decide (a = V4 (2 ^ 32 - 1))) && negb (IsUnspecified a) && negb (IsLoopback a)
  && negb (IsMulticast a) && negb (IsLinkLocalUnicast a).

Definition IsPrivate (a : Addr) : bool :=
  match a with
  | NoAddr => false
  | V4 a => (a / 2 ^ 24 =? 10) || (a / 2 ^ 20 =? 172 * 16 + 1) || (a / 2 ^ 16 =? 192 * 256 + 168)
  | V6 a _ => a / 2 ^ 121 =? 0x7E
  end.

Definition special : list Prefix := [
  net4 0 0 0 0 8; net4 10 0 0 0 8; net4 100 64 0 0 10; net4 127 0 0 0 8;
  net4 169 254 0 0 16; net4 172 16 0 0 12; net4 192 0 0 0 24; net4 192 0 2 0 24;
  net4 192 31 196 0 24; net4 192 52 193 0 24; net4 192 88 99 0 24; net4 192 168 0 0 16;
  net4 192 175 48 0 24; net4 198 18 0 0 15; net4 198 51 100 0 24; net4 203 0 113 0 24;
  net4 224 0 0 0 4; net4 240 0 0 0 4; net6 0x2001 0 0 23; net6 0x2001 0xDB8 0 32;
  net6 0x2002 0 0 16; net6 0x2620 0x4F 0x8000 48; net6 0x3FFF 0 0 20].

Definition globalIPv6 : Prefix := net6 0x2000 0 0 3.

Definition public (sensitive : list Prefix) (a : Addr) : bool :=
  negb (negb (IsValid a) || negb (zlen (Zone a) =? 0) || Is4In6 a || negb (IsGlobalUnicast a) || IsPrivate a
        || (Is6 a && negb (Contains globalIPv6 a)))
  && negb (existsb (fun p => Contains p a) special)
  && negb (existsb (fun p => Contains p a) sensitive).

(** ** Order and text *)

(** [Addr.Compare] *)
Definition Compare (a b : Addr) : Z :=
  if BitLen a <? BitLen b then -1 else if BitLen b <? BitLen a then 1
  else if bits_of a <? bits_of b then -1 else if bits_of b <? bits_of a then 1
  else Wire.bytes_compare (Zone a) (Zone b).

Definition addr_le (a b : Addr) : Prop := Compare a b <= 0.

#[export] Instance addr_le_dec : RelDecision addr_le.
Proof. intros a b. unfold addr_le. apply _. Defined.

Definition group (a : Z) (i : nat) : Z := (a / 2 ^ (16 * (7 - Z.of_nat i))) mod 2 ^ 16.

(** The digits of a group in hexadecimal, without leading zeros. *)
Definition hex_group (g : Z) : bytes :=
  let ds := [g / 4096; g / 256 mod 16; g / 16 mod 16; g mod 16] in
  map hex_digit (match ds with
                 | [a; b; c; d] =>
                     if negb (a =? 0) then ds else if negb (b =? 0) then [b; c; d] else if negb (c =? 0) then [c; d] else [d]
                 | _ => ds
                 end).

(** The length of the run of zero groups that starts at [i]. *)
Fixpoint zero_run (fuel : nat) (a : Z) (i : nat) : nat :=
  match fuel with
  | O => O
  | S fuel => if (i <? 8)%nat && (group a i =? 0) then S (zero_run fuel a (S i)) else O
  end.

(** The first longest run of at least two zero groups: its start and end. *)
Definition longest_run (a : Z) : nat * nat :=
  fold_left (fun '(s, e) i => let n := zero_run 8 a i in
                              if (2 <=? n)%nat && (e - s <? n)%nat then (i, (i + n)%nat) else (s, e))
    (seq 0 8) (255, 255)%nat.

Fixpoint print_groups (fuel : nat) (a : Z) (s e i : nat) : bytes :=
  match fuel with
  | O => []
  | S fuel =>
      if (8 <=? i)%nat then []
      else if (i =? s)%nat then
        bs "::" ++ (if (8 <=? e)%nat then [] else hex_group (group a e) ++ print_groups fuel a s e (S e))
      else (if (0 <? i)%nat then bs ":" else []) ++ hex_group (group a i) ++ print_groups fuel a s e (S i)
  end.

Definition print4 (a : Z) : bytes :=
  itoa (a / 2 ^ 24) ++ bs "." ++ itoa (a / 2 ^ 16 mod 256) ++ bs "." ++ itoa (a / 2 ^ 8 mod 256) ++ bs "." ++ itoa (a mod 256).

(** [Addr.String] of an address that is not IPv4 mapped into IPv6 and has no zone. *)
Definition addr_string (a : Addr) : bytes :=
  match a with
  | NoAddr => bs "invalid IP"
  | V4 a => print4 a
  | V6 a _ => let '(s, e) := longest_run a in print_groups 9 a s e 0
  end.

Example addr_string_samples :
  map addr_string [ipv4 8 8 4 4; paddr (net6 0x2001 0xDB8 0 32); V6 (0x2001 * 2 ^ 112 + 0xA * 2 ^ 32 + 1) []]
  = [bs "8.8.4.4"; bs "2001:db8::"; bs "2001::a:0:1"].
Proof. vm_compute. reflexivity. Qed.

End Addresses.
