(* ===== verification/Binder.v ===== *)
(** The binder ([src/internal/networkpolicy/bindings.go], [dns.go], [wire_v2.go]):
    controlled DNS answers bound to the grants of one job, each host name pinned to
    the first set of addresses it resolved to. *)

From Stdlib Require Import ZifyBool Sorted.
From S2P Require Import Prelude Utf8 Patterns Strconv Sha256 World Policy.
Import Names Wire Addresses.

Open Scope world_scope.

Definition Second : Z := 1000000000.
Definition Minute : Z := 60 * Second.

(** ** Grants and bindings *)

Record Permission := { PHostname : bytes; PPort : Z; PProtocol : bytes }.

#[export] Instance Permission_eq_dec : EqDecision Permission.
Proof. solve_decision. Defined.

Record Limits := { Connections : Z; BytesPerSecond : Z }.

#[export] Instance Limits_eq_dec : EqDecision Limits.
Proof. solve_decision. Defined.

Definition no_limits : Limits := {| Connections := 0; BytesPerSecond := 0 |}.

Record Options := {
  JobID : bytes;
  OMode : bytes;
  OPermissions : list Permission;
  OLimits : Limits;
  SensitiveNetworks : list Prefix;
  MaximumTTL : Z;
}.

(** Times are nanoseconds since Go's zero time. *)
Record Binding := {
  job : bytes;
  hostname_of : bytes;
  addresses : list Addr;
  permissions_of : list Permission;
  limits_of : Limits;
  issued : Z;
  expires : Z;
}.

#[export] Instance Binding_eq_dec : EqDecision Binding.
Proof. solve_decision. Defined.

Definition ValidAt (b : Binding) (now : Z) : bool :=
  negb (zlen (job b) =? 0) && negb (now =? 0) && negb (now <? issued b) && (now <? expires b).

Record Binder := {
  bjob : bytes;
  permissions : gmap bytes (list Permission);
  limits : Limits;
  sensitive : list Prefix;
  maxTTL : Z;
  pins : gmap bytes bytes;
  poisoned : gset bytes;
}.

Inductive netError := ErrPolicy | ErrDenied | ErrDNS | ErrRebinding | ErrExpired.

#[export] Instance netError_eq_dec : EqDecision netError.
Proof. solve_decision. Defined.

Definition tcp : bytes := bs "tcp".
Definition udp : bytes := bs "udp".

(** The order the grants of a host are kept in. *)
Definition perm_le (a b : Permission) : Prop :=
  PPort a < PPort b \/ (PPort a = PPort b /\ bytes_compare (PProtocol a) (PProtocol b) <= 0).

#[export] Instance perm_le_dec : RelDecision perm_le.
Proof. intros a b. unfold perm_le. apply _. Defined.

Definition grant_ok (p : Permission) : bool :=
  hostname (PHostname p) && negb (blockedPort (PPort p))
  && (bool_decide (PProtocol p = tcp) || bool_decide (PProtocol p = udp)).

(** The loop over the grants: each well formed and new. *)
Fixpoint collect_grants (seen : list Permission) (acc : gmap bytes (list Permission)) (ps : list Permission)
  : option (gmap bytes (list Permission)) :=
  match ps with
  | [] => Some acc
  | p :: rest =>
      if negb (grant_ok p) || bool_decide (p ∈ seen) then None
      else collect_grants (p :: seen) (<[PHostname p := default [] (acc !! PHostname p) ++ [p]]> acc) rest
  end.

Definition sensitive_ok (p : Prefix) : bool :=
  prefix_valid p && bool_decide (p = Masked p) && negb (Is4In6 (paddr p)) && (zlen (Zone (paddr p)) =? 0).

(** [resolver]: whether there is one. *)
Definition New (o : Options) (resolver : bool) : Binder + netError :=
  if negb (jobID (JobID o)) || bool_decide (JobID o = nilID) || (zlen (SensitiveNetworks o) =? 0)
     || (256 <? zlen (SensitiveNetworks o))
  then inr ErrPolicy
  else if negb (forallb sensitive_ok (SensitiveNetworks o)) then inr ErrPolicy
  else if (if bool_decide (OMode o = bs "none")
           then negb (zlen (OPermissions o) =? 0) || negb (bool_decide (OLimits o = no_limits)) || negb (MaximumTTL o =? 0)
           else (negb (bool_decide (OMode o = bs "restricted")) && negb (bool_decide (OMode o = bs "allowlist")))
                || negb resolver || (zlen (OPermissions o) =? 0) || (128 <? zlen (OPermissions o))
                || (Connections (OLimits o) =? 0) || (BytesPerSecond (OLimits o) =? 0)
                || (MaximumTTL o <? Second) || (5 * Minute <? MaximumTTL o))
  then inr ErrPolicy
  else
    match collect_grants [] ∅ (OPermissions o) with
    | None => inr ErrPolicy
    | Some m => inl {| bjob := JobID o; permissions := merge_sort perm_le <$> m; limits := OLimits o;
                       sensitive := SensitiveNetworks o; maxTTL := MaximumTTL o; pins := ∅; poisoned := ∅ |}
    end.

(** ** DNS messages

    [golang.org/x/net/dns/dnsmessage] packs and unpacks them; their content is
    data. A [Name] is its text, with the final dot. *)

Definition TypeA : Z := 1.
Definition TypeCNAME : Z := 5.
Definition TypeAAAA : Z := 28.
Definition TypeOPT : Z := 41.
Definition ClassINET : Z := 1.
Definition RCodeSuccess : Z := 0.
Definition RCodeServerFailure : Z := 2.
Definition RCodeRefused : Z := 5.

Record Question := { QName : bytes; QType : Z; QClass : Z }.

#[export] Instance Question_eq_dec : EqDecision Question.
Proof. solve_decision. Defined.

Inductive ResourceBody :=
  | CNAMEResource (target : bytes)
  | AResource (a : Z)
  | AAAAResource (a : Z)
  | OPTResource (options : list bytes)
  | OtherResource.

Record Resource := { RName : bytes; RType : Z; RClass : Z; RTTL : Z; RLength : Z; RBody : ResourceBody }.

Record Message := {
  MID : Z; Response : bool; OpCode : Z; Authoritative : bool; Truncated : bool; RecursionDesired : bool;
  RecursionAvailable : bool; AuthenticData : bool; RCode : Z;
  Questions : list Question; Answers : list Resource; Authorities : list Resource; Additionals : list Resource;
}.

(** ** Where a message ends *)

Definition maxDNSBytes : Z := 4096.

Definition at_ (raw : bytes) (i : Z) : Z := nth (Z.to_nat i) raw 0.

Definition be16 (raw : bytes) (i : Z) : Z := at_ raw i * 256 + at_ raw (i + 1).

(** The offset behind a name; 128 labels at most. *)
Fixpoint name_end (labels : nat) (raw : bytes) (offset : Z) : option Z :=
  match labels with
  | O => None
  | S labels =>
      if zlen raw <=? offset then None
      else
        let length := at_ raw offset in
        let offset := offset + 1 in
        if length =? 0 then Some offset
        else if Z.land length 0xC0 =? 0xC0 then (if zlen raw <=? offset then None else Some (offset + 1))
        else if (63 <? length) || (zlen raw <? offset + length) then None
        else name_end labels raw (offset + length)
  end.

Definition record_end (raw : bytes) (section : Z) (offset : Z) : option Z :=
  match name_end 128 raw offset with
  | None => None
  | Some offset =>
      let next := if section =? 0 then Some (offset + 4)
                  else if zlen raw <? offset + 10 then None
                  else Some (offset + 10 + be16 raw (offset + 8)) in
      match next with
      | Some offset => if zlen raw <? offset then None else Some offset
      | None => None
      end
  end.

Fixpoint records_end (count : nat) (raw : bytes) (section : Z) (offset : Z) : option Z :=
  match count with
  | O => Some offset
  | S count => match record_end raw section offset with Some offset => records_end count raw section offset | None => None end
  end.

Fixpoint sections_end (sections : list Z) (raw : bytes) (offset : Z) : option Z :=
  match sections with
  | [] => Some offset
  | s :: rest =>
      let count := be16 raw (4 + s * 2) in
      if 64 <? count then None
      else match records_end (Z.to_nat count) raw s offset with Some offset => sections_end rest raw offset | None => None end
  end.

Definition wireEnd (raw : bytes) : bool :=
  if zlen raw <? 12 then false
  else match sections_end [0; 1; 2; 3] raw 12 with Some offset => offset =? zlen raw | None => false end.

(** ** Reading an answer *)

Definition trim_dot (name : bytes) : bytes :=
  match last name with Some 0x2E => take (length name - 1) name | _ => name end.

Definition owner_of (name : bytes) : bytes := to_lower (trim_dot name).

Record answers := { cnames : gmap bytes bytes; found : gmap bytes (list Addr); ttl : Z }.

Definition cname (a : answers) (owner : bytes) : bytes := default [] (cnames a !! owner).

(** One answer record of a reply to a question of type [qtype]. *)
Definition take_record (sens : list Prefix) (qtype : Z) (a : answers) (r : Resource) : answers + netError :=
  let owner := owner_of (RName r) in
  if negb (hostname owner) || negb (RClass r =? ClassINET) || (RTTL r =? 0) then inr ErrDNS
  else
    let t := Z.min (ttl a) (RTTL r * Second) in
    let address v want size :=
      if negb (qtype =? want) || negb (RLength r =? size) || negb (zlen (cname a owner) =? 0) then inr ErrDNS
      else if negb (public sens v) then inr ErrDenied
      else inl {| cnames := cnames a; found := <[owner := default [] (found a !! owner) ++ [v]]> (found a); ttl := t |} in
    match RBody r with
    | CNAMEResource target =>
        let target := owner_of target in
        if negb (hostname target) || negb (zlen (cname a owner) =? 0) || negb (zlen (default [] (found a !! owner)) =? 0)
        then inr ErrDNS
        else inl {| cnames := <[owner := target]> (cnames a); found := found a; ttl := t |}
    | AResource v => address (V4 v) TypeA 4
    | AAAAResource v => address (V6 v []) TypeAAAA 16
    | _ => inr ErrDNS
    end.

Fixpoint take_records (sens : list Prefix) (qtype : Z) (a : answers) (rs : list Resource) : answers + netError :=
  match rs with
  | [] => inl a
  | r :: rest => match take_record sens qtype a r with inl a => take_records sens qtype a rest | inr e => inr e end
  end.

(** The loop along the aliases; [more] is how many more may be visited. *)
Fixpoint follow (more : nat) (a : answers) (visited : list bytes) (current : bytes) : option (list bytes * bytes) :=
  if zlen (cname a current) =? 0 then Some (visited, current)
  else match more with
       | O => None
       | S more => if bool_decide (current ∈ visited) then None
                   else follow more a (current :: visited) (cname a current)
       end.

Definition read_answers (sens : list Prefix) (maximum : Z) (q : Question) (rs : list Resource) : (list Addr * Z) + netError :=
  match take_records sens (QType q) {| cnames := ∅; found := ∅; ttl := maximum |} rs with
  | inr e => inr e
  | inl a =>
      match follow 8 a [] (trim_dot (QName q)) with
      | None => inr ErrDNS
      | Some (visited, current) =>
          let here := default [] (found a !! current) in
          if bool_decide (current ∈ visited) || negb (zlen visited =? Z.of_nat (size (cnames a)))
             || (1 <? Z.of_nat (size (found a))) || ((Z.of_nat (size (found a)) =? 1) && (zlen here =? 0))
          then inr ErrDNS
          else if negb (Z.of_nat (size (cnames a)) =? 0) && (zlen here =? 0) then inr ErrDNS
          else inl (here, ttl a)
      end
  end.

(** ** Only public addresses come out of an answer *)

Definition all_public (sens : list Prefix) (m : gmap bytes (list Addr)) : Prop :=
  forall k l, m !! k = Some l -> Forall (fun a => public sens a = true) l.

Lemma take_record_public sens qtype a r a' :
  all_public sens (found a) -> take_record sens qtype a r = inl a' -> all_public sens (found a').
Proof.
  intros Ha. unfold take_record. destruct (_ || _ || _); [done|].
  assert (Haddr : forall v, public sens v = true ->
    all_public sens (<[owner_of (RName r) := default [] (found a !! owner_of (RName r)) ++ [v]]> (found a))).
  { intros v Hv k l Hl. apply lookup_insert_Some in Hl as [[_ <-]|[_ Hl]]; [|by eapply Ha].
    apply Forall_app. split; [|by constructor]. destruct (found a !! _) eqn:E; [by eapply Ha|constructor]. }
  destruct (RBody r) as [target|v|v| |]; try done.
  - destruct (_ || _ || _); [done|]. by intros [= <-].
  - destruct (_ || _ || _); [done|]. destruct (public sens (V4 v)) eqn:E; [|done]. intros [= <-]. by apply Haddr.
  - destruct (_ || _ || _); [done|]. destruct (public sens (V6 v [])) eqn:E; [|done]. intros [= <-]. by apply Haddr.
Qed.

Lemma take_records_public sens qtype rs : forall a a',
  all_public sens (found a) -> take_records sens qtype a rs = inl a' -> all_public sens (found a').
Proof.
  induction rs as [|r rs IH]; intros a a' Ha; cbn; [by intros [= <-]|].
  destruct (take_record sens qtype a r) as [a1|] eqn:E; [|done]. apply IH. by eapply take_record_public.
Qed.

Lemma read_answers_public sens maximum q rs addrs d :
  read_answers sens maximum q rs = inl (addrs, d) -> Forall (fun a => public sens a = true) addrs.
Proof.
  unfold read_answers. destruct (take_records _ _ _ _) as [a|] eqn:E; [|done].
  destruct (follow _ _ _ _) as [[visited current]|]; [|done]. destruct (_ || _ || _ || _); [done|].
  destruct (_ && _); [done|]. intros [= <- _]. apply take_records_public in E; [|intros k l Hl; cbn in Hl; by rewrite lookup_empty in Hl].
  destruct (found a !! current) eqn:Ef; [by eapply E|constructor].
Qed.

(** Resolution fails only as unavailable or denied. *)
Definition resolution_error (e : netError) : Prop := e = ErrDNS \/ e = ErrDenied.

Lemma take_records_error sens qtype rs : forall a e, take_records sens qtype a rs = inr e -> resolution_error e.
Proof.
  induction rs as [|r rs IH]; intros a e; cbn; [done|].
  destruct (take_record sens qtype a r) as [a1|e1] eqn:E; [apply IH|]. intros [= <-]. unfold take_record in E.
  repeat (case_match; simplify_eq; try (by left)); by right.
Qed.

Lemma read_answers_error sens maximum q rs e : read_answers sens maximum q rs = inr e -> resolution_error e.
Proof.
  unfold read_answers. destruct (take_records _ _ _ _) as [a|e1] eqn:E; [|intros [= <-]; by eapply take_records_error].
  destruct (follow _ _ _ _) as [[visited current]|]; [|intros [= <-]; by left].
  destruct (_ || _ || _ || _); [intros [= <-]; by left|]. destruct (_ && _); [intros [= <-]; by left|done].
Qed.

Section binder.
(** The message library; [W] holds the resolver, the random source and the clock. *)
Context (NewName : bytes -> option bytes) (Pack : Message -> option bytes) (Unpack : bytes -> option Message).
Context {W : Type} (now : W -> Z) (random : M W (option Z)) (Exchange : context -> bytes -> M W (option bytes)).

Definition parse (b : Binder) (query : Message) (raw : bytes) : (list Addr * Z) + netError :=
  if (maxDNSBytes <? zlen raw) || negb (wireEnd raw) then inr ErrDNS
  else
    match Unpack raw, Questions query with
    | Some r, q :: _ =>
        if negb (MID r =? MID query) || negb (Response r) || negb (OpCode r =? 0) || Truncated r
           || negb (RCode r =? RCodeSuccess) || negb (bool_decide (Questions r = [q]))
           || (64 <? zlen (Answers r)) || (16 <? zlen (Authorities r)) || (16 <? zlen (Additionals r))
        then inr ErrDNS
        else read_answers (sensitive b) (maxTTL b) q (Answers r)
    | _, _ => inr ErrDNS
    end.

Definition query_of (id : Z) (name : bytes) (family : Z) : Message :=
  {| MID := id; Response := false; OpCode := 0; Authoritative := false; Truncated := false; RecursionDesired := true;
     RecursionAvailable := false; AuthenticData := false; RCode := 0;
     Questions := [{| QName := name; QType := family; QClass := ClassINET |}]; Answers := []; Authorities := [];
     Additionals := [] |}.

(** One address family of a resolution. *)
Definition resolve_family (b : Binder) (ctx : context) (host : bytes) (family : Z) : M W ((list Addr * Z) + netError) :=
  match NewName (host ++ bs ".") with
  | None => ret (inr ErrDNS)
  | Some name =>
      let! id := random in
      match id with
      | None => ret (inr ErrDNS)
      | Some id =>
          match Pack (query_of id name family) with
          | None => ret (inr ErrDNS)
          | Some raw =>
              let! answer := Exchange ctx raw in
              let! t := reads now in
              ret (match answer, Err ctx t with
                   | Some answer, None =>
                       if maxDNSBytes <? zlen answer then inr ErrDNS else parse b (query_of id name family) answer
                   | _, _ => inr ErrDNS
                   end)
          end
      end
  end.

(** The distinct addresses, in the order of [Addr.Compare]. *)
Definition sorted_addresses (all : gset Addr) : list Addr := merge_sort addr_le (elements all).

Fixpoint resolve_loop (b : Binder) (ctx : context) (host : bytes) (all : gset Addr) (t : Z) (families : list Z)
  : M W ((list Addr * Z) + netError) :=
  match families with
  | [] => ret (if (Z.of_nat (size all) =? 0) || (64 <? Z.of_nat (size all)) then inr ErrDNS
               else inl (sorted_addresses all, t))
  | family :: rest =>
      let! r := resolve_family b ctx host family in
      match r with
      | inr e => ret (inr e)
      | inl (addrs, d) => resolve_loop b ctx host (all ∪ list_to_set addrs) (Z.min t d) rest
      end
  end.

Definition resolve (b : Binder) (ctx : context) (host : bytes) : M W ((list Addr * Z) + netError) :=
  resolve_loop b ctx host ∅ (maxTTL b) [TypeA; TypeAAAA].

Definition canonical (addrs : list Addr) : bytes := concat (map (fun a => addr_string a ++ [0x0A]) addrs).

Definition set_pins (b : Binder) (p : gmap bytes bytes) (x : gset bytes) : Binder :=
  {| bjob := bjob b; permissions := permissions b; limits := limits b; sensitive := sensitive b; maxTTL := maxTTL b;
     pins := p; poisoned := x |}.

Definition granted (b : Binder) (name : bytes) : list Permission := default [] (permissions b !! name).

(** [slot]: whether the resolver's slot came free before the context was done. *)
Definition Resolve (b : Binder) (parent : context) (slot : bool) (name : bytes) : M W (Binder * (Binding + netError)) :=
  if negb (hostname name) || (zlen (granted b name) =? 0) then ret (b, inr ErrDenied)
  else
    let! t := reads now in
    let ctx := WithTimeout parent t (5 * Second) in
    if negb slot then ret (b, inr ErrDNS)
    else if bool_decide (name ∈ poisoned b) then ret (b, inr ErrRebinding)
    else
      let! start := reads now in
      let! r := resolve b ctx name in
      match r with
      | inr e => ret (b, inr e)
      | inl (addrs, d) =>
          let! t := reads now in
          match Err ctx t with
          | Some _ => ret (b, inr ErrDNS)
          | None =>
              let deadline := start + Z.min d (maxTTL b) in
              if negb (t <? deadline) then ret (b, inr ErrExpired)
              else
                let digest := Sum256 (canonical addrs) in
                match pins b !! name with
                | Some prior =>
                    if bool_decide (prior = digest)
                    then ret (b, inl {| job := bjob b; hostname_of := name; addresses := addrs;
                                        permissions_of := granted b name; limits_of := limits b;
                                        issued := start; expires := deadline |})
                    else ret (set_pins b (pins b) ({[name]} ∪ poisoned b), inr ErrRebinding)
                | None =>
                    ret (set_pins b (<[name := digest]> (pins b)) (poisoned b),
                         inl {| job := bjob b; hostname_of := name; addresses := addrs;
                                permissions_of := granted b name; limits_of := limits b;
                                issued := start; expires := deadline |})
                end
          end
      end.

Lemma resolve_family_public b ctx host family w addrs d w' :
  resolve_family b ctx host family w = (inl (addrs, d), w') -> Forall (fun a => public (sensitive b) a = true) addrs.
Proof.
  unfold resolve_family, bind, ret, reads. destruct (NewName _) as [name|]; [|done].
  destruct (random w) as [[id|] w1]; [|done]. destruct (Pack _) as [raw|]; [|done].
  destruct (Exchange ctx raw w1) as [answer w2]. intros [= E <-]. destruct answer as [answer|]; [|done].
  destruct (Err ctx _); [done|]. destruct (_ <? _); [done|]. unfold parse in E. destruct (_ || _); [done|].
  destruct (Unpack answer) as [r|]; [|done]. cbn [Questions query_of] in E.
  destruct (_ || _ || _ || _ || _ || _ || _ || _ || _); [done|]. by eapply read_answers_public.
Qed.

(** The addresses of a resolution: public, distinct, in order, between 1 and 64. *)
Record good_addresses (b : Binder) (addrs : list Addr) : Prop := {
  ga_public : Forall (fun a => public (sensitive b) a = true) addrs;
  ga_distinct : NoDup addrs;
  ga_sorted : Sorted addr_le addrs;
  ga_some : 1 <= zlen addrs <= 64;
}.

#[local] Instance addr_le_total : Total addr_le.
Proof.
  intros a b. unfold addr_le, Compare.
  destruct (BitLen a <? BitLen b) eqn:E1; [left; lia|]. destruct (BitLen b <? BitLen a) eqn:E2; [right; lia|].
  destruct (bits_of a <? bits_of b) eqn:E3; [left; lia|]. destruct (bits_of b <? bits_of a) eqn:E4; [right; lia|].
  generalize (Zone a) (Zone b). intros x. induction x as [|c x IH]; intros [|c' x']; cbn; try lia.
  destruct (c <? c') eqn:E5; [left; lia|]. destruct (c' <? c) eqn:E6; [right; lia|]. apply IH.
Qed.

Lemma sorted_addresses_good b (all : gset Addr) :
  set_Forall (fun a => public (sensitive b) a = true) all -> 1 <= Z.of_nat (size all) <= 64 ->
  good_addresses b (sorted_addresses all).
Proof.
  intros Hp Hn. unfold sorted_addresses.
  pose proof (merge_sort_Permutation addr_le (elements all)) as Hperm.
  split.
  - rewrite Forall_forall. intros x Hx. rewrite Hperm in Hx. apply Hp. by apply elem_of_elements.
  - rewrite Hperm. apply NoDup_elements.
  - apply (Sorted_merge_sort addr_le).
  - unfold zlen. rewrite Hperm. exact Hn.
Qed.

Lemma resolve_loop_good b ctx host families : forall all t w addrs d w',
  set_Forall (fun a => public (sensitive b) a = true) all ->
  resolve_loop b ctx host all t families w = (inl (addrs, d), w') -> good_addresses b addrs.
Proof.
  induction families as [|f families IH]; intros all t w addrs d w' Hp; cbn [resolve_loop].
  - unfold ret. destruct (_ || _) eqn:E; [done|]. intros [= <- _ _]. apply sorted_addresses_good; [done|lia].
  - unfold bind, ret. destruct (resolve_family b ctx host f w) as [[[addrs1 d1]|e] w1] eqn:E; [|done].
    apply IH. apply resolve_family_public in E. intros x Hx. apply elem_of_union in Hx as [Hx|Hx]; [by apply Hp|].
    apply elem_of_list_to_set in Hx. rewrite Forall_forall in E. by apply E.
Qed.

Lemma resolve_family_error b ctx host family w e w' :
  resolve_family b ctx host family w = (inr e, w') -> resolution_error e.
Proof.
  unfold resolve_family, bind, ret, reads. destruct (NewName _) as [name|]; [|intros [= <- _]; by left].
  destruct (random w) as [[id|] w1]; [|intros [= <- _]; by left]. destruct (Pack _) as [raw|]; [|intros [= <- _]; by left].
  destruct (Exchange ctx raw w1) as [answer w2]. intros [= E _]. destruct answer as [answer|]; [|simplify_eq; by left].
  destruct (Err ctx _); [simplify_eq; by left|]. destruct (_ <? _); [simplify_eq; by left|].
  unfold parse in E. destruct (_ || _); [simplify_eq; by left|].
  destruct (Unpack answer) as [r|]; [|simplify_eq; by left]. cbn [Questions query_of] in E.
  destruct (_ || _ || _ || _ || _ || _ || _ || _ || _); [simplify_eq; by left|]. by eapply read_answers_error.
Qed.

Lemma resolve_loop_error b ctx host families : forall all t w e w',
  resolve_loop b ctx host all t families w = (inr e, w') -> resolution_error e.
Proof.
  induction families as [|f families IH]; intros all t w e w'; cbn [resolve_loop]; unfold bind, ret.
  - destruct (_ || _); [|done]. intros [= <- _]. by left.
  - destruct (resolve_family b ctx host f w) as [[[addrs1 d1]|e1] w1] eqn:E; [apply IH|].
    intros [= <- _]. by eapply resolve_family_error.
Qed.

(** What one successful resolution means. *)
Record sound_binding (b : Binder) (name : bytes) (start finish : Z) (bd : Binding) : Prop := {
  sb_name : hostname name = true /\ hostname_of bd = name;
  sb_owner : job bd = bjob b /\ limits_of bd = limits b;
  sb_granted : permissions_of bd = granted b name /\ granted b name <> [];
  sb_addresses : good_addresses b (addresses bd);
  sb_issued : issued bd = start;
  sb_expires : finish < expires bd <= start + maxTTL b;
}.

Lemma Resolve_cases b parent slot name w b' res w' :
  Resolve b parent slot name w = ((b', res), w') ->
  match res with
  | inl bd => sound_binding b name (now w) (now w') bd /\ name ∉ poisoned b /\
      let digest := Sum256 (canonical (addresses bd)) in
      (pins b !! name = None \/ pins b !! name = Some digest) /\
      b' = set_pins b (<[name := digest]> (pins b)) (poisoned b)
  | inr e => (b' = b /\ (e = ErrRebinding -> name ∈ poisoned b)) \/
             (e = ErrRebinding /\ b' = set_pins b (pins b) ({[name]} ∪ poisoned b))
  end.
Proof.
  unfold Resolve. destruct (negb (hostname name) || _) eqn:Eg.
  { intros [= <- <- <-]. left. split; [done|done]. }
  unfold bind, ret, reads. destruct slot; cbn [negb]; [|intros [= <- <- <-]; by left].
  case_bool_decide as Hpo; [intros [= <- <- <-]; left; by split|].
  set (ctx := WithTimeout parent (now w) (5 * Second)).
  destruct (resolve b ctx name w) as [[[addrs d]|e] w1] eqn:Er.
  2:{ intros [= <- <- <-]. left. split; [done|]. intros ->. unfold resolve in Er. apply resolve_loop_error in Er as [?|?]; done. }
  assert (Hgood : good_addresses b addrs) by (eapply resolve_loop_good; [|exact Er]; by intros x ?%elem_of_empty).
  destruct (Err ctx (now w1)); [intros [= <- <- <-]; by left|].
  destruct (now w1 <? _) eqn:Ed; cbn [negb]; [|intros [= <- <- <-]; by left].
  assert (Hs : sound_binding b name (now w) (now w1)
    {| job := bjob b; hostname_of := name; addresses := addrs; permissions_of := granted b name; limits_of := limits b;
       issued := now w; expires := now w + Z.min d (maxTTL b) |}).
  { bool_norm. split; cbn; try done; [|lia]. split; [done|]. intros Hn. rewrite Hn in *. done. }
  destruct (pins b !! name) as [prior|] eqn:Ep.
  - case_bool_decide as Hd; intros [= <- <- <-]; [|right; by split].
    split_and!; [done|done|right; by rewrite Hd|]. cbn [addresses]. rewrite <-Hd, (insert_id (pins b) name prior Ep). by destruct b.
  - intros [= <- <- <-]. split_and!; [done|done|by left|done].
Qed.

(** ** Any number of resolutions *)

Fixpoint resolve_all (b : Binder) (calls : list (context * bool * bytes))
  : M W (Binder * list (bytes * (Binding + netError))) :=
  match calls with
  | [] => ret (b, [])
  | (parent, slot, name) :: rest =>
      let! (b, res) := Resolve b parent slot name in
      let! (b, results) := resolve_all b rest in
      ret (b, (name, res) :: results)
  end.

Definition digest_of (bd : Binding) : bytes := Sum256 (canonical (addresses bd)).

(** What an earlier result of a name allows a later one to be. *)
Definition consistent (earlier later : bytes * (Binding + netError)) : Prop :=
  fst earlier = fst later ->
  match snd earlier, snd later with
  | inl b1, inl b2 => digest_of b1 = digest_of b2
  | inr ErrRebinding, inl _ => False
  | _, _ => True
  end.

Definition permitted (b : Binder) (r : bytes * (Binding + netError)) : Prop :=
  match snd r with
  | inl bd =>
      hostname_of bd = fst r /\ job bd = bjob b /\ limits_of bd = limits b /\ permissions_of bd = granted b (fst r) /\
      granted b (fst r) <> [] /\ good_addresses b (addresses bd) /\ expires bd <= issued bd + maxTTL b
  | inr _ => True
  end.

(** What the state of the binder still allows for a result. *)
Definition allowed (b : Binder) (r : bytes * (Binding + netError)) : Prop :=
  match snd r with
  | inl bd => fst r ∉ poisoned b /\ forall d, pins b !! fst r = Some d -> d = digest_of bd
  | inr _ => True
  end.

Lemma permitted_set_pins b p x r : permitted (set_pins b p x) r -> permitted b r.
Proof.
  destruct r as [n [bd|]]; [|done]. intros (H1 & H2 & H3 & H4 & H5 & H6 & H7).
  unfold permitted. cbn [fst snd]. split_and!; try done. destruct H6. by split.
Qed.

Lemma resolve_step b parent slot name w b' res w' :
  Resolve b parent slot name w = ((b', res), w') ->
  permitted b (name, res) /\ allowed b (name, res) /\
  (forall r, permitted b' r -> permitted b r) /\ (forall r, allowed b' r -> allowed b r) /\
  (forall r, allowed b' r -> consistent (name, res) r).
Proof.
  intros E. apply Resolve_cases in E. destruct res as [bd|e].
  - destruct E as ([[S1 S2] [S3 S4] [S5 S6] S7 S8 S9] & Hp & Hpin & ->). split_and!.
    + cbn. split_and!; try done. rewrite S8. lia.
    + unfold allowed. cbn [fst snd]. split; [done|]. intros d Hd. destruct Hpin as [Hn|Hn]; unfold digest_of; congruence.
    + intros r. apply permitted_set_pins.
    + intros [n [bd'|]] Hr; [|done]. unfold allowed in *. cbn [fst snd set_pins pins poisoned] in *. destruct Hr as [H1 H2]. split; [done|]. intros d Hd. apply H2.
      destruct (decide (n = name)) as [->|Hne]; [|by rewrite lookup_insert_ne].
      rewrite lookup_insert_eq. destruct Hpin as [Hn|Hn]; congruence.
    + intros [n [bd'|]] Hr Heq; [|done]. unfold allowed in Hr. cbn [fst snd set_pins pins poisoned] in *. subst n.
      destruct Hr as [_ Hr]. apply Hr. apply lookup_insert_eq.
  - destruct E as [[-> He]|[-> ->]]; cbn; (split; [done|]; split; [done|]).
    + split_and!; [done|done|]. intros [n [bd'|]] Hr; intros Heq; cbn in *; [|by destruct e]. subst n.
      destruct e; try done. destruct Hr as [Hr _]. apply Hr, He. done.
    + split_and!; [intros r; apply permitted_set_pins| |].
      * intros [n [bd'|]] Hr; [|done]. cbn in *. destruct Hr as [H1 H2]. split; [set_solver|done].
      * intros [n [bd'|]] Hr; intros Heq; cbn in *; [|done]. subst n. destruct Hr as [H1 _]. set_solver.
Qed.

Lemma resolve_all_ok calls : forall b w,
  let '((b', results), w') := resolve_all b calls w in
  Forall (permitted b) results /\ Forall (allowed b) results /\ ForallOrdPairs consistent results.
Proof.
  induction calls as [|[[parent slot] name] calls IH]; intros b w; cbn [resolve_all].
  { cbn. split_and!; constructor. }
  unfold bind, ret. destruct (Resolve b parent slot name w) as [[b1 res] w1] eqn:E.
  specialize (IH b1 w1). destruct (resolve_all b1 calls w1) as [[b2 results] w2].
  destruct (resolve_step _ _ _ _ _ _ _ _ E) as (H1 & H2 & H3 & H4 & H5), IH as (I1 & I2 & I3).
  split_and!; constructor; try done; first [by eapply Forall_impl; [exact I1|] | by eapply Forall_impl; [exact I2|]].
Qed.


End binder.

(** * Binders from a granted policy *)

Record Duration := { Seconds : Z; Nanos : Z }.

Record ResourceLimits := { CpuMillis : Z; RMemoryBytes : Z; RDiskBytes : Z; RProcessCount : Z }.

Record NetworkPolicy := { NMode : Z; Allowlist : list bytes; NMaximumConnections : Z }.

(** The generated message; [reflect] is what its reflection shows. *)
Record EffectivePolicy := {
  reflect : Wire.message;
  LegacyNetwork : option NetworkPolicy;
  NetworkV2 : option NetworkPolicyV2;
  Sandbox : Z;
  Requirement : Z;
  Resources : option ResourceLimits;
  PreparationTimeout : option Duration;
  ExecutionTimeout : option Duration;
  GracefulShutdownTimeout : option Duration;
}.

(** Whether the policy of the first version is there at all. *)
Definition Network (e : EffectivePolicy) : bool := match LegacyNetwork e with Some _ => true | None => false end.

(** The protobuf library: sizes, deterministic encoding, decoding, and whether a
    duration is in range. *)
Class PolicyCodec := {
  Size : EffectivePolicy -> Z;
  Marshal : EffectivePolicy -> option bytes;
  Unmarshal : bytes -> option EffectivePolicy;
  CheckValid : Duration -> bool;
}.

Record LocalV2Boundary := { Maximum : option NetworkPolicyV2; LSensitiveNetworks : list Prefix; LMaximumTTL : Z }.

Section granted.
Context `{PB : RunnerProto} `{CODEC : PolicyCodec}.

Definition positive_duration (d : option Duration) : bool :=
  match d with
  | None => false
  | Some d => CheckValid d && (0 <=? Seconds d) && (0 <=? Nanos d) && negb ((Seconds d =? 0) && (Nanos d =? 0))
  end.

Definition resources_ok (r : option ResourceLimits) : bool :=
  match r with
  | None => false
  | Some r => negb (CpuMillis r =? 0) && negb (RMemoryBytes r =? 0) && negb (RDiskBytes r =? 0) && negb (RProcessCount r =? 0)
  end.

Definition EffectivePolicyV2SHA256 (effective : option EffectivePolicy) : option bytes :=
  match effective with
  | None => None
  | Some e =>
      if (65536 <? Size e) || negb (closedWireV2 (reflect e)) || Network e || negb (ValidateWireV2 (NetworkV2 e)) then None
      else if (Sandbox e =? SANDBOX_KIND_UNSPECIFIED) || (Requirement e =? ENVIRONMENT_REQUIREMENT_UNSPECIFIED)
              || negb (resources_ok (Resources e))
      then None
      else if negb (forallb positive_duration [PreparationTimeout e; ExecutionTimeout e; GracefulShutdownTimeout e]) then None
      else Sum256 <$> Marshal e
  end.

Definition protocol_of (transport : Z) : bytes := if transport =? NETWORK_TRANSPORT_V2_UDP then udp else tcp.

Definition permission_of (p : NetworkPermissionV2) : Permission :=
  {| PHostname := Hostname p; PPort := Port p mod 2 ^ 16; PProtocol := protocol_of (Transport p) |}.

Definition NewV2Binder (job raw expected : bytes) (local : LocalV2Boundary) (resolver : bool) : Binder + netError :=
  if (zlen raw =? 0) || (65536 <? zlen raw) || negb (bool_decide (Sum256 raw = expected))
     || negb (ValidateWireV2 (Maximum local))
  then inr ErrPolicy
  else
    match Unmarshal raw with
    | None => inr ErrPolicy
    | Some effective =>
        if negb (bool_decide (EffectivePolicyV2SHA256 (Some effective) = Some expected)) then inr ErrPolicy
        else if negb (bool_decide (Marshal effective = Some raw))
                || negb (WithinLocalMaximumV2 (NetworkV2 effective) (Maximum local))
        then inr ErrPolicy
        else
          match NetworkV2 effective with
          | None => inr ErrPolicy
          | Some p =>
              let none := Mode p =? NETWORK_MODE_NONE in
              New {| JobID := job;
                     OMode := if none then bs "none"
                              else if Mode p =? NETWORK_MODE_ALLOWLIST then bs "allowlist" else bs "restricted";
                     OPermissions := if none then [] else map permission_of (grants p);
                     OLimits := if none then no_limits
                                else {| Connections := MaximumConnections p; BytesPerSecond := MaximumBytesPerSecond p |};
                     SensitiveNetworks := LSensitiveNetworks local;
                     MaximumTTL := if none then 0 else LMaximumTTL local |} resolver
          end
    end.

(** The grants a host ends up with are those given for it. *)
Lemma collect_grants_sound ps : forall seen acc m h x,
  collect_grants seen acc ps = Some m -> x ∈ default [] (m !! h) ->
  x ∈ default [] (acc !! h) \/ (x ∈ ps /\ PHostname x = h).
Proof.
  induction ps as [|p ps IH]; intros seen acc m h x; cbn [collect_grants]; [intros [= ->]; by left|].
  destruct (_ || _); [done|]. intros E Hx. destruct (IH _ _ _ _ _ E Hx) as [Hin|[Hin Hh]]; [|right; split; [by right|done]].
  destruct (decide (PHostname p = h)) as [<-|Hne].
  - rewrite lookup_insert_eq in Hin. cbn [default] in Hin. apply elem_of_app in Hin as [Hin|Hin]; [by left|].
    apply list_elem_of_singleton in Hin as ->. right. split; [left|done].
  - rewrite lookup_insert_ne in Hin by done. by left.
Qed.

Lemma collect_grants_complete ps : forall seen acc m h x,
  collect_grants seen acc ps = Some m -> (x ∈ default [] (acc !! h) \/ (x ∈ ps /\ PHostname x = h)) ->
  x ∈ default [] (m !! h).
Proof.
  induction ps as [|p ps IH]; intros seen acc m h x; cbn [collect_grants].
  { intros [= ->] [?|[[]%not_elem_of_nil _]]. done. }
  destruct (_ || _); [done|]. intros E Hx. apply (IH _ _ _ _ _ E).
  destruct Hx as [Hx|[Hx Hh]].
  - left. destruct (decide (PHostname p = h)) as [<-|Hne].
    + rewrite lookup_insert_eq. cbn [default]. apply elem_of_app. by left.
    + by rewrite lookup_insert_ne.
  - apply elem_of_cons in Hx as [->|Hx]; [|by right]. left. rewrite <-Hh, lookup_insert_eq. cbn [default].
    apply elem_of_app. right. by apply list_elem_of_singleton.
Qed.

Lemma New_granted o r b h x :
  New o r = inl b -> x ∈ granted b h <-> x ∈ OPermissions o /\ PHostname x = h.
Proof.
  unfold New. destruct (_ || _ || _ || _); [done|]. destruct (negb _); [done|].
  destruct (if bool_decide _ then _ else _); [done|]. destruct (collect_grants _ _ _) as [m|] eqn:E; [|done].
  intros [= <-]. unfold granted. cbn [permissions]. rewrite lookup_fmap.
  assert (x ∈ default [] (merge_sort perm_le <$> m !! h) <-> x ∈ default [] (m !! h)) as ->.
  { destruct (m !! h); [|done]. cbn. by rewrite merge_sort_Permutation. }
  split.
  - intros Hx. destruct (collect_grants_sound _ _ _ _ _ _ E Hx) as [Hin|?]; [|done].
    rewrite lookup_empty in Hin. by apply not_elem_of_nil in Hin.
  - intros Hx. eapply collect_grants_complete; [exact E|by right].
Qed.

(** A binder made from a granted policy carries exactly the grants of that
    policy, and each of them is one of the local maximum's, with no higher limits;
    the policy is the canonical encoding whose digest the caller expected. *)
Theorem v2_binder_exact (job raw expected : bytes) (local : LocalV2Boundary) (resolver : bool) (b : Binder) :
  NewV2Binder job raw expected local resolver = inl b ->
  exists e p m, Unmarshal raw = Some e /\ Marshal e = Some raw /\ Sum256 raw = expected /\
    NetworkV2 e = Some p /\ Maximum local = Some m /\ within p m /\ bjob b = job /\
    (Mode p <> NETWORK_MODE_NONE ->
     Connections (limits b) <= MaximumConnections m /\ BytesPerSecond (limits b) <= MaximumBytesPerSecond m) /\
    forall h x, x ∈ granted b h <->
      Mode p <> NETWORK_MODE_NONE /\ exists q, Some q ∈ Permissions p /\ x = permission_of q /\ Hostname q = h.
Proof.
  unfold NewV2Binder. destruct (_ || _ || _ || _) eqn:E0; [done|]. destruct (Unmarshal raw) as [e|] eqn:Eu; [|done].
  destruct (negb (bool_decide (EffectivePolicyV2SHA256 _ = _))); [done|].
  destruct (negb (bool_decide (Marshal e = Some raw)) || _) eqn:E1; [done|].
  destruct (NetworkV2 e) as [p|] eqn:Ep; [|done]. bool_norm.
  destruct (Maximum local) as [m|] eqn:Em; [|match goal with X : ValidateWireV2 None = true |- _ => by cbn in X end].
  intros Hn. match goal with Hw : WithinLocalMaximumV2 _ _ = true |- _ =>
    destruct (proj1 (within_exact p m) Hw) as (Hv & _ & Hwithin) end.
  exists e, p, m. split_and!; try done.
  - unfold New in Hn. repeat (case_match; [done|]). case_match; [|done]. by injection Hn as <-.
  - intros Hmode. destruct Hwithin as [?|(_ & ? & ? & _)]; [done|]. unfold New in Hn.
    repeat (case_match; [done|]). case_match; [|done]. injection Hn as <-. cbn [limits OLimits].
    assert (Mode p =? NETWORK_MODE_NONE = false) as -> by lia. done.
  - intros h x. rewrite (New_granted _ _ _ h x Hn). cbn [OPermissions].
    destruct (validated_permissions p Hv) as (qs & Eq & _). rewrite (grants_map qs p Eq), Eq.
    destruct (Mode p =? NETWORK_MODE_NONE) eqn:Emode.
    { split; [intros [[]%not_elem_of_nil _]|intros [? _]; lia]. }
    split.
    + intros [Hx Hh]. split; [lia|]. apply list_elem_of_fmap in Hx as (q & -> & Hq). exists q.
      split_and!; [by apply list_elem_of_fmap_2|done|done].
    + intros (_ & q & Hq & -> & Hh). apply list_elem_of_fmap in Hq as (q' & [= <-] & Hq).
      split; [by apply list_elem_of_fmap_2|done].
Qed.

End granted.

(** ** A sample policy *)

Definition sample_policy : NetworkPolicyV2 := {|
  unknown := []; Mode := 3;
  Permissions := [Some {| punknown := []; Hostname := bs "example.com"; Port := 443; Transport := 1 |}];
  MaximumConnections := 4; MaximumBytesPerSecond := 1000 |}.

Definition sample_effective : EffectivePolicy := {|
  reflect := Msg true [] []; LegacyNetwork := None; NetworkV2 := Some sample_policy; Sandbox := 1; Requirement := 1;
  Resources := Some {| CpuMillis := 1; RMemoryBytes := 1; RDiskBytes := 1; RProcessCount := 1 |};
  PreparationTimeout := Some {| Seconds := 1; Nanos := 0 |}; ExecutionTimeout := Some {| Seconds := 1; Nanos := 0 |};
  GracefulShutdownTimeout := Some {| Seconds := 1; Nanos := 0 |} |}.

Definition sample_codec : PolicyCodec := {|
  Size := fun _ => 1; Marshal := fun _ => Some (bs "p");
  Unmarshal := fun raw => if bool_decide (raw = bs "p") then Some sample_effective else None;
  CheckValid := fun _ => true |}.

Definition sample_job : bytes := bs "00000000-0000-4000-8000-000000000001".

Definition sample_local : LocalV2Boundary := {|
  Maximum := Some sample_policy; LSensitiveNetworks := [net4 10 0 0 0 8]; LMaximumTTL := 60 * Second |}.

Lemma v2_binder_exact_witness :
  exists b, NewV2Binder (PB := sample_proto) (CODEC := sample_codec) sample_job (bs "p") (Sum256 (bs "p")) sample_local true = inl b /\
    granted b (bs "example.com") = [{| PHostname := bs "example.com"; PPort := 443; PProtocol := tcp |}] /\
    exists m, Maximum sample_local = Some m /\ Connections (limits b) <= MaximumConnections m.
Proof.
  destruct (NewV2Binder (PB := sample_proto) (CODEC := sample_codec) sample_job (bs "p") (Sum256 (bs "p")) sample_local true)
    as [b|] eqn:E; [|vm_compute in E; discriminate].
  destruct (v2_binder_exact (PB := sample_proto) (CODEC := sample_codec) _ _ _ _ _ _ E)
    as (e & p & m & H1 & H2 & H3 & H4 & H5 & H6 & H7 & H8 & H9).
  exists b. split; [reflexivity|]. split; [vm_compute in E; injection E as <-; vm_compute; reflexivity|].
  exists m. split; [exact H5|]. apply H8. vm_compute in H1. injection H1 as <-. vm_compute in H4. injection H4 as <-.
  vm_compute. discriminate.
Defined.
