(* ===== verification/Messages.v ===== *)
(** The generated messages of the runner protocol, as far as the runner reads or
    writes them. The protobuf module is not part of the repository: its messages are
    records of their fields, its enums are numbers named by a class, and its codec
    and its timestamps are parameters. *)

From S2P Require Import Prelude Utf8 Strconv Sha256 Policy Binder.
Import Names Wire.

(** ** Times

    A time is nanoseconds since Go's zero time, which is 0. [timestamppb] converts
    between times and its messages. *)

Class Timestamps := {
  Timestamp : Type;
  AsTime : Timestamp -> Z;
  TimestampNew : Z -> Timestamp;
  TimestampValid : Timestamp -> bool;
  TimestampUnknown : Timestamp -> bytes;
  AsTime_New : forall t, AsTime (TimestampNew t) = t;
}.

(** One representation, to run the model with. *)
Definition sample_timestamps : Timestamps := {|
  Timestamp := Z; AsTime := id; TimestampNew := id; TimestampValid := fun t => 0 <=? t; TimestampUnknown := fun _ => [];
  AsTime_New := fun t => eq_refl |}.

(** [int64] arithmetic that saturates, as [time.Time.Sub] does. *)
Definition saturate (d : Z) : Z := Z.max (- 2 ^ 63) (Z.min (2 ^ 63 - 1) d).

(** [durationpb.Duration.AsDuration] of a duration whose parts have one sign; a
    missing duration is 0. *)
Definition AsDuration (d : option Duration) : Z :=
  match d with Some d => saturate (Seconds d * 1000000000 + Nanos d) | None => 0 end.

(** [durationpb.New] *)
Definition DurationNew (ns : Z) : Duration := {| Seconds := Z.quot ns 1000000000; Nanos := Z.rem ns 1000000000 |}.

(** ** Numbers of the generated enums

    The values of an enum are distinct, as protobuf requires. *)

Class GatewayProto `{PB : RunnerProto} := {
  JOB_PHASE_UNSPECIFIED : Z;
  JOB_PHASE_ACCEPTED : Z;
  JOB_PHASE_PREPARING : Z;
  JOB_PHASE_RUNNING : Z;
  LEASE_STATUS_CANCELLED : Z;
  LEASE_STATUS_EXPIRED : Z;
  DISPOSITION_APPLIED : Z;
  DISPOSITION_ALREADY_APPLIED : Z;
  DISPOSITION_STALE : Z;
  REASON_AT_CAPACITY : Z;
  REASON_DRAINING : Z;
  REASON_UNSUPPORTED : Z;
  REASON_OFFER_EXPIRED : Z;
  REASON_POLICY : Z;
  FAILURE_CATEGORY_INFRASTRUCTURE : Z;
  FAILURE_CATEGORY_POLICY : Z;
  FAILURE_CATEGORY_PLUGIN : Z;
  FAILURE_STAGE_LEASE : Z;
  FAILURE_STAGE_PREPARATION : Z;
  FAILURE_STAGE_STARTUP : Z;
  FAILURE_STAGE_EXECUTION : Z;
  FAILURE_STAGE_RESULT_UPLOAD : Z;
  FAILURE_STAGE_CLEANUP : Z;
  RESULT_OUTCOME_PASSED : Z;
  SANDBOX_KIND_GVISOR : Z;
  SERVER_PROVIDER_PAPER : Z;
  OPERATING_SYSTEM_LINUX : Z;
  ARCHITECTURE_AMD64 : Z;
  ENVIRONMENT_REQUIREMENT_REQUIRED : Z;
  ENVIRONMENT_REQUIREMENT_INFORMATIONAL : Z;
  FEATURE_DURABLE_LEASE_ACKNOWLEDGEMENTS : Z;
  FEATURE_CREDENTIAL_ROTATION : Z;
  FEATURE_JOB_CORRELATION_V1 : Z;
  FEATURE_RESTART_UPLOAD_RECOVERY : Z;
  FEATURE_OBJECT_UPLOAD_IDENTITY : Z;
  FEATURE_TERMINAL_EVIDENCE_V1 : Z;
  FEATURE_TERMINAL_EVIDENCE_V2 : Z;
  FEATURE_TEST_SECRETS_V1 : Z;
  FEATURE_NETWORK_POLICY_V2 : Z;
  FEATURE_NETWORK_AUTHORITY_V2 : Z;
  phases_distinct : NoDup [JOB_PHASE_UNSPECIFIED; JOB_PHASE_ACCEPTED; JOB_PHASE_PREPARING; JOB_PHASE_RUNNING; JOB_PHASE_CANCELLING];
  statuses_distinct : NoDup [LEASE_STATUS_OFFERED; LEASE_STATUS_ACCEPTED; LEASE_STATUS_ACTIVE; LEASE_STATUS_COMPLETED;
                             LEASE_STATUS_CANCELLED; LEASE_STATUS_EXPIRED; LEASE_STATUS_RELEASED];
}.

(** One numbering, to run the model with. *)
Program Definition sample_gateway_proto : GatewayProto (PB := sample_proto) := {|
  JOB_PHASE_UNSPECIFIED := 0; JOB_PHASE_ACCEPTED := 1; JOB_PHASE_PREPARING := 2; JOB_PHASE_RUNNING := 3;
  LEASE_STATUS_CANCELLED := 5; LEASE_STATUS_EXPIRED := 6;
  DISPOSITION_APPLIED := 1; DISPOSITION_ALREADY_APPLIED := 2; DISPOSITION_STALE := 3;
  REASON_AT_CAPACITY := 1; REASON_DRAINING := 2; REASON_UNSUPPORTED := 3; REASON_OFFER_EXPIRED := 4; REASON_POLICY := 5;
  FAILURE_CATEGORY_INFRASTRUCTURE := 1; FAILURE_CATEGORY_POLICY := 2; FAILURE_CATEGORY_PLUGIN := 3;
  FAILURE_STAGE_LEASE := 1; FAILURE_STAGE_PREPARATION := 2; FAILURE_STAGE_STARTUP := 3; FAILURE_STAGE_EXECUTION := 4;
  FAILURE_STAGE_RESULT_UPLOAD := 5; FAILURE_STAGE_CLEANUP := 6; RESULT_OUTCOME_PASSED := 1;
  SANDBOX_KIND_GVISOR := 1; SERVER_PROVIDER_PAPER := 1; OPERATING_SYSTEM_LINUX := 1; ARCHITECTURE_AMD64 := 1;
  ENVIRONMENT_REQUIREMENT_REQUIRED := 1; ENVIRONMENT_REQUIREMENT_INFORMATIONAL := 2;
  FEATURE_DURABLE_LEASE_ACKNOWLEDGEMENTS := 1; FEATURE_CREDENTIAL_ROTATION := 2; FEATURE_JOB_CORRELATION_V1 := 3;
  FEATURE_RESTART_UPLOAD_RECOVERY := 4; FEATURE_OBJECT_UPLOAD_IDENTITY := 5; FEATURE_TERMINAL_EVIDENCE_V1 := 6;
  FEATURE_TERMINAL_EVIDENCE_V2 := 7; FEATURE_TEST_SECRETS_V1 := 8; FEATURE_NETWORK_POLICY_V2 := 9;
  FEATURE_NETWORK_AUTHORITY_V2 := 10 |}.
Next Obligation. apply (bool_decide_unpack _). vm_compute. exact I. Qed.
Next Obligation. apply (bool_decide_unpack _). vm_compute. exact I. Qed.

Section messages.
Context `{TS : Timestamps}.

(** ** Identities and uploads *)

Record LeaseIdentity := {
  LeaseId : bytes; LJobId : bytes; ExecutionId : bytes; LExpiresAt : option Timestamp; lreflect : message;
}.

(** [arest] stands for the fields nothing here reads. *)
Record AttemptIdentity := {
  AttemptId : bytes; ReleaseCandidateId : bytes; MatrixEntryId : bytes; AttemptNumber : Z; arest : bytes;
  areflect : message;
}.

Record Digest := { Algorithm : Z; Value : bytes; dreflect : message }.

Record NetworkAuthorityV2 := {
  OPolicy : option Digest; CheckedAt : option Timestamp; State : Z; OExpiresAt : option Timestamp; oreflect : message;
}.

(** [urest] and [rrest] are what reflection shows of the fields that are not here. *)
Record ObjectUpload := {
  Uri : bytes; ObjectKey : bytes; UContentType : bytes; UExpiresAt : option Timestamp; uunknown : bytes; urest : list field;
}.

Record LeaseReconciliation := {
  RLease : option LeaseIdentity; RAttempt : option AttemptIdentity; Status : Z; CancellationId : bytes; RPhase : Z;
  Observed : option NetworkAuthorityV2; CompleteLogUpload : option ObjectUpload; Disposition : Z; TerminalMessageId : bytes;
  runknown : bytes; rrest : list field;
}.

Definition present (b : bytes) : list field := if bool_decide (b = []) then [] else [OtherField].

(** What reflection shows of an upload and of a reconciliation. *)
Definition ureflect (u : ObjectUpload) : message :=
  Msg true (uunknown u)
    (urest u ++ present (Uri u) ++ present (ObjectKey u) ++ present (UContentType u)
     ++ match UExpiresAt u with Some t => [MessageField [Msg true (TimestampUnknown t) []]] | None => [] end).

Definition rreflect (r : LeaseReconciliation) : message :=
  Msg true (runknown r)
    (rrest r ++ present (TerminalMessageId r)
     ++ match CompleteLogUpload r with Some u => [MessageField [ureflect u]] | None => [] end).

(** ** Jobs *)

Inductive OrganizationScope := PlatformScope | OrganizationScopeOf (id : bytes).

Record JobCorrelation := {
  Traceparent : bytes; COrganizationId : bytes; ProjectId : bytes; WorkflowId : bytes; cunknown : bytes;
}.

Record DependencyHash := { DependencyId : bytes; HFilename : bytes; HDigest : option Digest }.

Record JobHashes := {
  HArtifact : option Digest; HConfiguration : option Digest; HEnvironment : option Digest; HPolicy : option Digest;
  HDependencies : list (option DependencyHash);
}.

Record ResolvedEnvironment := {
  EProvider : Z; EOperatingSystem : Z; EArchitecture : Z; GameVersion : bytes; ServerVersion : bytes;
  JavaDistribution : bytes; JavaVersion : bytes; ServerBuild : Z; CatalogSnapshotId : bytes;
  RunnerImage : option Digest; ServerBinary : option Digest;
}.

Record ObjectDownload := {
  DUri : bytes; DSizeBytes : Z; DDigest : option Digest; DFilename : bytes; DExpiresAt : option Timestamp;
}.

Record DependencyInput := { IDependencyId : bytes; PluginName : bytes; IObject : option ObjectDownload }.

Record TestSecretReference := { SName : bytes; SecretId : bytes; SVersion : Z; sunknown : bytes }.

Record JobSpecification := {
  JLease : option LeaseIdentity; JAttempt : option AttemptIdentity; JEffectivePolicy : option EffectivePolicy;
  JHashes : option JobHashes; JOrganizationScope : option (option OrganizationScope); JCorrelation : option JobCorrelation;
  NormalizedConfigurationJson : bytes; JEnvironment : option ResolvedEnvironment; TargetPluginName : bytes;
  JDependencies : list (option DependencyInput); JArtifact : option ObjectDownload;
  JCompleteLogUpload : option ObjectUpload; TestSecrets : list (option TestSecretReference);
}.

(** [job.GetHashes().GetPolicy()] *)
Definition JPolicyHash (j : JobSpecification) : option Digest := JHashes j ≫= HPolicy.

Record LeaseOffer := { OfferJob : option JobSpecification; OfferExpiresAt : option Timestamp }.

(** ** Messages of the gateway *)

Record CancelJob := {
  KLease : option LeaseIdentity; KAttempt : option AttemptIdentity; KCancellationId : bytes; KReason : bytes;
  KDeadline : option Timestamp;
}.

Record RunnerEventAcknowledgement := {
  AckRunnerMessageId : bytes; AckCommittedAt : option Timestamp; AckReconciliation : option LeaseReconciliation;
}.

Record HeartbeatAcknowledgement := {
  HbRunnerMessageId : bytes; HbSequence : Z; HbCommittedAt : option Timestamp;
  HbReconciliations : list (option LeaseReconciliation);
}.

(** A drain or a shutdown. *)
Record Stopping := { StopId : bytes; StopReason : bytes; StopDeadline : option Timestamp }.

Record Authenticated := {
  AuRunnerId : bytes; ConnectionId : bytes; AuProtocolVersion : bytes; AuScope : option (option OrganizationScope);
  CredentialExpiresAt : option Timestamp; HeartbeatInterval : option Duration; LeaseDuration : option Duration;
  ServerTime : option Timestamp;
}.

Record RotateCredential := {
  RotationId : bytes; ConnectionCredential : bytes; CredentialFingerprint : bytes; IssuedAt : option Timestamp;
  RExpiresAt : option Timestamp; ReconnectBefore : option Timestamp;
}.

Inductive gateway_payload :=
  | OfferOf (offer : LeaseOffer)
  | CancelOf (cancel : CancelJob)
  | EventAcknowledgementOf (ack : RunnerEventAcknowledgement)
  | HeartbeatAcknowledgementOf (ack : HeartbeatAcknowledgement)
  | DrainOf (drain : Stopping)
  | ShutdownOf (shutdown : Stopping)
  | AuthenticatedOf (auth : Authenticated)
  | PolicyUpdateOf
  | CredentialRotationOf (rotation : RotateCredential)
  | TestSecretsDeliveryOf.

Record GatewayMessage := { GMessageId : bytes; GSentAt : option Timestamp; GPayload : option gateway_payload }.

(** ** Messages of the runner

    [Evidence] is the generated message of a frozen proof; nothing here looks inside. *)

Record LogObject := {
  LRedacted : bool; LObjectKey : bytes; LDigest : option Digest; LCompressedSizeBytes : Z; LContentType : bytes;
}.

Record FailureDetail := { FCategory : Z; FStage : Z; FCode : bytes; FSummary : bytes; FRetryable : bool }.

Record UsageMessage := {
  UmCpuTime : option Duration; UmPeakMemoryBytes : Z; UmDiskReadBytes : Z; UmDiskWriteBytes : Z;
  UmNetworkReceiveBytes : Z; UmNetworkTransmitBytes : Z;
}.

Record StructuredResult := {
  SOutcome : Z; SUsage : option UsageMessage; SCompleteLog : option LogObject; SStartedAt : option Timestamp;
  SCompletedAt : option Timestamp; ProcessExitCode : option Z;
}.

Record Capacity := { ConcurrentJobs : Z; AvailableJobs : Z; CapCpuMillis : Z; CapMemoryBytes : Z; CapDiskBytes : Z }.

Record HeartbeatLease := { HlLease : option LeaseIdentity; HlAttempt : option AttemptIdentity; HlPhase : Z }.

Record Heartbeat := {
  HSequence : Z; HCapacity : option Capacity; HActiveLeases : list HeartbeatLease; HObservedAt : option Timestamp;
}.

(** The policy a runner advertises: the mode of the first version, or the maximum of
    the second. *)
Record Capabilities := {
  RunnerVersion : bytes; CapCapacity : Capacity; CapNetwork : option Z; CapNetworkV2 : option NetworkPolicyV2;
  CapResources : ResourceLimits; CapFeatures : list Z;
}.

Record LogEntry := {
  EnSequence : Z; EnObservedAt : option Timestamp; EnStderr : bool; EnData : bytes; EnPartial : bool; EnRedacted : bool;
}.

Record LogBatch := {
  LbLease : option LeaseIdentity; LbAttempt : option AttemptIdentity; LbEntries : list LogEntry; DroppedEntryCount : Z;
}.

Record UsageReport := {
  UrLease : option LeaseIdentity; UrAttempt : option AttemptIdentity; UrSequence : Z; UrObservedAt : option Timestamp;
  UrCumulative : UsageMessage;
}.

Inductive runner_payload {Evidence : Type} :=
  | Authenticate (runnerId instanceId credential protocolVersion : bytes)
  | CapabilitiesOf (capabilities : Capabilities)
  | HeartbeatOf (heartbeat : Heartbeat)
  | LeaseAccepted (lease : option LeaseIdentity) (attempt : option AttemptIdentity) (acceptedAt : option Timestamp)
  | LeaseRejected (lease : option LeaseIdentity) (attempt : option AttemptIdentity) (reason : Z) (summary : bytes)
  | LeaseRenewal (lease : option LeaseIdentity) (attempt : option AttemptIdentity) (requestedExtension : Duration)
      (observedAt : option Timestamp)
  | JobPreparing (lease : option LeaseIdentity) (attempt : option AttemptIdentity) (startedAt : option Timestamp)
  | JobStarted (lease : option LeaseIdentity) (attempt : option AttemptIdentity) (startedAt : option Timestamp)
  | Completed (lease : option LeaseIdentity) (attempt : option AttemptIdentity) (result : StructuredResult)
      (evidence : option Evidence)
  | Failed (lease : option LeaseIdentity) (attempt : option AttemptIdentity) (failedAt : option Timestamp)
      (failure : FailureDetail) (usage : option UsageMessage) (completeLog : option LogObject) (evidence : option Evidence)
  | Cancelled (lease : option LeaseIdentity) (attempt : option AttemptIdentity) (cancellationId : bytes)
      (cancelledAt : option Timestamp) (cleanupCompleted : bool) (cleanupFailure : option FailureDetail)
  | LogBatchOf (batch : LogBatch)
  | UsageOf (usage : UsageReport)
  | TestSecretsRequestOf (lease : option LeaseIdentity) (attempt : option AttemptIdentity)
  | RotationAcknowledgementOf (rotationId fingerprint : bytes) (persistedAt : option Timestamp).
Arguments runner_payload : clear implicits.

Record RunnerMessage {Evidence : Type} := {
  MessageId : bytes; SentAt : option Timestamp; Payload : option (runner_payload Evidence);
}.
Arguments RunnerMessage : clear implicits.

End messages.

Arguments runner_payload {TS} Evidence.
Arguments RunnerMessage {TS} Evidence.
