(* ===== verification/Authority.v ===== *)
(** Network authority ([src/internal/networkpolicy/authority.go]): what one admitted
    job may currently reach, renewed only by authenticated observations and lost for
    good at the first doubt. *)

From Stdlib Require Import ZifyBool.
From S2P Require Import Prelude Utf8 Strconv Sha256 Policy Binder Messages.
Import Names Wire.

Section messages.
Context `{TS : Timestamps}.

(** [proto.Equal] of two attempts without unknown bytes. *)
Definition same_attempt (a b : AttemptIdentity) : bool :=
  bool_decide (AttemptId a = AttemptId b) && bool_decide (ReleaseCandidateId a = ReleaseCandidateId b)
  && bool_decide (MatrixEntryId a = MatrixEntryId b) && (AttemptNumber a =? AttemptNumber b)
  && bool_decide (arest a = arest b).

(** ** The state *)

Record Authority := {
  lease : LeaseIdentity;
  attempt : AttemptIdentity;
  policy : NetworkPolicyV2;
  digest : bytes;
  checked : Z;
  aexpires : Z;
  seen : bool;
  withdrawn : bool;
}.

Definition validAuthorityTime (t : option Timestamp) : bool :=
  match t with Some t => TimestampValid t && (zlen (TimestampUnknown t) =? 0) | None => false end.

Definition validAuthorityLease (l : option LeaseIdentity) : bool :=
  match l with
  | None => false
  | Some l => closedWireV2 (lreflect l) && validAuthorityID (LeaseId l) && validAuthorityID (LJobId l)
              && validAuthorityID (ExecutionId l) && validAuthorityTime (LExpiresAt l)
  end.

Definition validAuthorityAttempt (a : option AttemptIdentity) : bool :=
  match a with
  | None => false
  | Some a => closedWireV2 (areflect a) && validAuthorityID (AttemptId a) && validAuthorityID (ReleaseCandidateId a)
              && validAuthorityID (MatrixEntryId a) && (1 <=? AttemptNumber a) && (AttemptNumber a <=? 3)
  end.

Section authority.
Context `{PB : RunnerProto} `{CODEC : PolicyCodec}.

Definition NewAuthority (job : option JobSpecification) : option Authority :=
  match job with
  | None => None
  | Some job =>
      match JLease job, JAttempt job, EffectivePolicyV2SHA256 (JEffectivePolicy job), JPolicyHash job, JEffectivePolicy job with
      | Some l, Some a, Some d, Some claimed, Some e =>
          if negb (validAuthorityLease (Some l)) || negb (validAuthorityAttempt (Some a)) || negb (closedWireV2 (dreflect claimed))
             || negb (Algorithm claimed =? DIGEST_ALGORITHM_SHA256) || negb (bool_decide (d = Value claimed))
          then None
          else match NetworkV2 e with
               | Some p => Some {| lease := l; attempt := a; policy := p; digest := d; checked := 0; aexpires := 0;
                                   seen := false; withdrawn := false |}
               | None => None
               end
      | _, _, _, _, _ => None
      end
  end.

(** [None]: the feature list is refused; otherwise whether feature 10 is in it. *)
Fixpoint collect_features (seen : list Z) (features : list Z) : option (list Z) :=
  match features with
  | [] => Some seen
  | f :: rest => if (f <? 1) || (10 <? f) || bool_decide (f ∈ seen) then None else collect_features (f :: seen) rest
  end.

Definition authorityFeatures (features : list Z) : option bool :=
  match collect_features [] features with
  | None => None
  | Some s =>
      let has f := bool_decide (f ∈ s) in
      if has 10 && (negb (has 1) || negb (has 3) || negb (has 9)) then None else Some (has 10)
  end.

Definition set_withdrawn (a : Authority) : Authority :=
  {| lease := lease a; attempt := attempt a; policy := policy a; digest := digest a; checked := checked a;
     aexpires := aexpires a; seen := seen a; withdrawn := true |}.

Definition set_lease_expiry (a : Authority) (t : Z) : Authority :=
  {| lease := {| LeaseId := LeaseId (lease a); LJobId := LJobId (lease a); ExecutionId := ExecutionId (lease a);
                 LExpiresAt := Some (TimestampNew t); lreflect := lreflect (lease a) |};
     attempt := attempt a; policy := policy a; digest := digest a; checked := checked a; aexpires := aexpires a;
     seen := seen a; withdrawn := withdrawn a |}.

Definition set_observed (a : Authority) (c e : Z) : Authority :=
  {| lease := lease a; attempt := attempt a; policy := policy a; digest := digest a; checked := c; aexpires := e;
     seen := true; withdrawn := withdrawn a |}.

Definition as_time (t : option Timestamp) : Z := match t with Some t => AsTime t | None => 0 end.

(** An error is always [ErrAuthority]. *)
Definition reject (a : Authority) : Authority * bool := (set_withdrawn a, false).

(** The last part of [Reconcile]: a current observation within its bounds. *)
Definition accept_current (a : Authority) (checked_at expires_at leaseExpiry credentialExpiry now : Z) : Authority * bool :=
  let a := set_lease_expiry a leaseExpiry in
  if withdrawn a then (a, true)
  else if seen a && (aexpires a <=? now) then (set_withdrawn a, true)
  else if seen a && (checked_at =? checked a) && negb (expires_at =? aexpires a) then reject a
  else if seen a && (checked_at <=? checked a) then
    if credentialExpiry <? aexpires a then reject a else (a, true)
  else (set_observed a checked_at expires_at, true).

(** The observation a current lease needs. *)
Definition observe (a : Authority) (l : LeaseIdentity) (o : NetworkAuthorityV2) (credentialExpiry now : Z) : Authority * bool :=
  match OPolicy o with
  | None => reject a
  | Some d =>
      if negb (closedWireV2 (oreflect o)) || negb (Algorithm d =? DIGEST_ALGORITHM_SHA256)
         || negb (bool_decide (Value d = digest a)) || negb (validAuthorityTime (CheckedAt o))
      then reject a
      else
        let checked_at := as_time (CheckedAt o) in
        if now + 5 * Second <? checked_at then reject a
        else if State o =? NETWORK_AUTHORITY_STATE_V2_WITHDRAWN then
          match OExpiresAt o with Some _ => reject a | None => (set_withdrawn a, true) end
        else if negb (State o =? NETWORK_AUTHORITY_STATE_V2_CURRENT) then reject a
        else if negb (validAuthorityTime (OExpiresAt o)) then reject a
        else
          let expires_at := as_time (OExpiresAt o) in
          let leaseExpiry := Z.max (as_time (LExpiresAt (lease a))) (as_time (LExpiresAt l)) in
          if (expires_at <=? now) || (expires_at <=? checked_at) || (checked_at + Minute <? expires_at)
             || (leaseExpiry <? expires_at) || (credentialExpiry <? expires_at)
          then reject a
          else accept_current a checked_at expires_at leaseExpiry credentialExpiry now
  end.

(** [true]: no error. *)
Definition Reconcile (a : Authority) (reconciliation : option LeaseReconciliation) (features : list Z)
    (credentialExpiry now : Z) : Authority * bool :=
  match authorityFeatures features, reconciliation with
  | Some negotiated, Some r =>
      if (now =? 0) || negb (TimestampValid (TimestampNew now)) || negb (TimestampValid (TimestampNew credentialExpiry))
         || negb (closedWireV2 (rreflect r)) || negb (validAuthorityLease (RLease r)) || negb (validAuthorityAttempt (RAttempt r))
      then reject a
      else
        match RLease r, RAttempt r with
        | Some l, Some at_ =>
            if negb (bool_decide (LeaseId l = LeaseId (lease a))) || negb (bool_decide (LJobId l = LJobId (lease a)))
               || negb (bool_decide (ExecutionId l = ExecutionId (lease a))) || negb (same_attempt at_ (attempt a))
            then reject a
            else if (Status r <? LEASE_STATUS_OFFERED) || (LEASE_STATUS_RELEASED <? Status r) then reject a
            else
              let cancelling := negb (zlen (CancellationId r) =? 0) || (RPhase r =? JOB_PHASE_CANCELLING) in
              let needs := negb (Mode (policy a) =? NETWORK_MODE_NONE)
                           && ((Status r =? LEASE_STATUS_ACCEPTED) || (Status r =? LEASE_STATUS_ACTIVE)) && negb cancelling in
              if negb needs then
                match Observed r with
                | Some _ => reject a
                | None => if cancelling || (LEASE_STATUS_COMPLETED <=? Status r) then (set_withdrawn a, true) else (a, true)
                end
              else
                match Observed r with
                | Some o => if negotiated then observe a l o credentialExpiry now else reject a
                | None => reject a
                end
        | _, _ => reject a
        end
  | _, _ => reject a
  end.

Inductive authorityError := ErrAuthority | ErrExpiredAuthority.

Definition Deadline (a : Authority) (now : Z) : Authority * (Z + authorityError) :=
  if (now =? 0) || withdrawn a || negb (seen a) then (a, inr ErrAuthority)
  else if aexpires a <=? now then (set_withdrawn a, inr ErrExpiredAuthority)
  else (a, inl (aexpires a)).

Definition Withdraw (a : Authority) : Authority := set_withdrawn a.

(** The grants the policy holds, host by host, in its order. *)
Definition expected_grants (p : NetworkPolicyV2) : gmap bytes (list Permission) :=
  fold_left (fun m g => <[Hostname g := default [] (m !! Hostname g) ++ [permission_of g]]> m) (grants p) ∅.

Definition policy_limits (p : NetworkPolicyV2) : Limits :=
  {| Connections := MaximumConnections p; BytesPerSecond := MaximumBytesPerSecond p |}.

Definition bound_binding (deadline : Z) (b : Binding) : Binding :=
  {| job := job b; hostname_of := hostname_of b; addresses := addresses b; permissions_of := permissions_of b;
     limits_of := limits_of b; issued := issued b;
     expires := if deadline <? expires b then deadline else expires b |}.

Fixpoint constrain_loop (a : Authority) (deadline now : Z) (expected : gmap bytes (list Permission)) (bindings : list Binding)
  : option (list Binding) :=
  match bindings with
  | [] => Some []
  | b :: rest =>
      match expected !! hostname_of b with
      | None => None
      | Some gs =>
          if negb (bool_decide (job b = LJobId (lease a))) || negb (ValidAt b now)
             || negb (bool_decide (limits_of b = policy_limits (policy a))) || negb (bool_decide (permissions_of b = gs))
          then None
          else match constrain_loop a deadline now (delete (hostname_of b) expected) rest with
               | Some out => Some (bound_binding deadline b :: out)
               | None => None
               end
      end
  end.

Definition ConstrainBindings (a : Authority) (bindings : list Binding) (now : Z)
  : Authority * (list Binding + authorityError) :=
  match Deadline a now with
  | (a, inr e) => (a, inr e)
  | (a, inl deadline) =>
      let expected := expected_grants (policy a) in
      if negb (zlen bindings =? Z.of_nat (size expected)) then (set_withdrawn a, inr ErrAuthority)
      else match constrain_loop a deadline now expected bindings with
           | Some out => (a, inl out)
           | None => (set_withdrawn a, inr ErrAuthority)
           end
  end.

(** ** Runs *)

Inductive op :=
  | OpReconcile (r : option LeaseReconciliation) (features : list Z) (credentialExpiry now : Z)
  | OpDeadline (now : Z)
  | OpConstrain (bindings : list Binding) (now : Z)
  | OpWithdraw.

Definition perform (a : Authority) (o : op) : Authority :=
  match o with
  | OpReconcile r f c now => fst (Reconcile a r f c now)
  | OpDeadline now => fst (Deadline a now)
  | OpConstrain bs now => fst (ConstrainBindings a bs now)
  | OpWithdraw => Withdraw a
  end.

Definition perform_all (a : Authority) (os : list op) : Authority := fold_left perform os a.

(** An observation that grants authority to [a] until [expires_at]: current, for the
    very job, lease, attempt and policy, not from the future, and within one minute
    of its check, the lease and the credential. *)
Record grants_until (a : Authority) (o : op) (checked_at expires_at : Z) : Prop := {
  gu_op : exists r l at_ obs d f cred now,
    o = OpReconcile (Some r) f cred now /\ RLease r = Some l /\ RAttempt r = Some at_ /\ Observed r = Some obs /\
    OPolicy obs = Some d /\ authorityFeatures f = Some true /\
    LeaseId l = LeaseId (lease a) /\ LJobId l = LJobId (lease a) /\ ExecutionId l = ExecutionId (lease a) /\
    same_attempt at_ (attempt a) = true /\ Value d = digest a /\ State obs = NETWORK_AUTHORITY_STATE_V2_CURRENT /\
    as_time (CheckedAt obs) = checked_at /\ as_time (OExpiresAt obs) = expires_at /\
    now < expires_at <= cred /\ checked_at <= now + 5 * Second;
  gu_minute : checked_at < expires_at <= checked_at + Minute;
}.

(** What a step keeps: identity always, loss of authority for good. *)
Record kept (a a' : Authority) : Prop := {
  k_lease : LeaseId (lease a') = LeaseId (lease a) /\ LJobId (lease a') = LJobId (lease a) /\
            ExecutionId (lease a') = ExecutionId (lease a);
  k_attempt : attempt a' = attempt a;
  k_policy : policy a' = policy a /\ digest a' = digest a;
  k_withdrawn : withdrawn a = true -> withdrawn a' = true;
  k_seen : seen a = true -> seen a' = true;
}.

Lemma kept_refl a : kept a a.
Proof. by split. Qed.

Lemma kept_withdrawn a : kept a (set_withdrawn a).
Proof. by split. Qed.

Lemma accept_kept a c e l cred now :
  kept a (fst (accept_current a c e l cred now)).
Proof.
  unfold accept_current, reject. repeat case_match; by split.
Qed.

Lemma observe_kept a l o cred now : kept a (fst (observe a l o cred now)).
Proof.
  unfold observe, reject. repeat (case_match; try apply kept_withdrawn). apply accept_kept.
Qed.

Lemma Reconcile_kept a r f cred now : kept a (fst (Reconcile a r f cred now)).
Proof.
  unfold Reconcile, reject. repeat (case_match; try apply kept_withdrawn; try apply kept_refl; try apply observe_kept).
Qed.

Lemma Deadline_kept a now : kept a (fst (Deadline a now)).
Proof. unfold Deadline. repeat case_match; (apply kept_refl || apply kept_withdrawn). Qed.

Lemma perform_kept a o : kept a (perform a o).
Proof.
  destruct o as [r f c now|now|bs now|]; cbn; [apply Reconcile_kept|apply Deadline_kept| |apply kept_withdrawn].
  unfold ConstrainBindings. pose proof (Deadline_kept a now) as K. destruct (Deadline a now) as [a' [d|e]]; [|done].
  cbn in K. destruct K. repeat case_match; by split.
Qed.

(** The expiry of a state that has seen authority: an observation stands behind it. *)
Definition backed (history : list op) (a : Authority) : Prop :=
  seen a = true -> exists o, o ∈ history /\ grants_until a o (checked a) (aexpires a).

Definition times (a : Authority) : Z * Z * bool := (checked a, aexpires a, seen a).

(** A step either leaves the observed times alone, or they are the newer ones of an
    observation that grants authority. *)
Definition renewed (a a' : Authority) (o : op) : Prop :=
  times a' = times a \/
  (withdrawn a = false /\ (seen a = true -> checked a < checked a') /\ grants_until a o (checked a') (aexpires a')).

Lemma accept_renewed a c e l cred now :
  times (fst (accept_current a c e l cred now)) = times a \/
  (withdrawn a = false /\ (seen a = true -> checked a < c) /\ times (fst (accept_current a c e l cred now)) = (c, e, true)).
Proof.
  unfold accept_current, reject. cbn [withdrawn seen set_lease_expiry aexpires checked].
  destruct (withdrawn a); [by left|]. destruct (seen a) eqn:Es; cbn [andb].
  - destruct (aexpires a <=? now); [left; unfold times; cbn; by rewrite Es|].
    destruct ((c =? checked a) && _) eqn:E1; [left; unfold times; cbn; by rewrite Es|].
    destruct (c <=? checked a) eqn:E2; [destruct (cred <? aexpires a); left; unfold times; cbn; by rewrite Es|].
    right. split_and!; [done|lia|done].
  - right. by split_and!.
Qed.

Lemma observe_renewed a r f cred now l at_ obs :
  RLease r = Some l -> RAttempt r = Some at_ -> Observed r = Some obs -> authorityFeatures f = Some true ->
  LeaseId l = LeaseId (lease a) -> LJobId l = LJobId (lease a) -> ExecutionId l = ExecutionId (lease a) ->
  same_attempt at_ (attempt a) = true ->
  renewed a (fst (observe a l obs cred now)) (OpReconcile (Some r) f cred now).
Proof.
  intros Hl Ha Ho Hf H1 H2 H3 H4. unfold observe. destruct (OPolicy obs) as [d|] eqn:Ed; [|by left].
  destruct (_ || _ || _ || _) eqn:E1; [by left|]. destruct (_ <? as_time (CheckedAt obs)) eqn:E2; [by left|].
  destruct (State obs =? NETWORK_AUTHORITY_STATE_V2_WITHDRAWN); [destruct (OExpiresAt obs); by left|].
  destruct (negb (State obs =? _)) eqn:E3; [by left|]. destruct (negb (validAuthorityTime (OExpiresAt obs))); [by left|].
  cbn zeta. destruct (_ || _ || _ || _ || _) eqn:E4; [by left|]. bool_norm.
  match goal with |- renewed _ (fst (accept_current a ?c ?e ?le ?cr ?n)) _ =>
    destruct (accept_renewed a c e le cr n) as [?|(Hw & Hc & Ht)]; [by left|] end.
  right. unfold times in Ht. injection Ht as -> -> _. split_and!; [done|done|].
  split; [|lia]. exists r, l, at_, obs, d, f, cred, now. split_and!; done || lia.
Qed.

Lemma perform_renewed a o : renewed a (perform a o) o.
Proof.
  destruct o as [r f c now|now|bs now|]; cbn [perform].
  - unfold Reconcile. destruct (authorityFeatures f) as [negotiated|] eqn:Ef; [|by left]. destruct r as [r|]; [|by left].
    condition E0; [by left|].
    destruct (RLease r) as [l|] eqn:El; [|by left]. destruct (RAttempt r) as [at_|] eqn:Ea; [|by left].
    condition Eid; [by left|]. condition Est; [by left|]. cbn zeta. condition En; [repeat case_match; by left|].
    destruct (Observed r) as [obs|] eqn:Eo; [|by left]. destruct negotiated; [|by left].
    bool_norm. by apply (observe_renewed a r f c now l at_ obs).
  - left. unfold Deadline. by repeat case_match.
  - left. unfold ConstrainBindings, Deadline. repeat case_match; simplify_eq; done.
  - by left.
Qed.

Lemma grants_until_kept a a' o c e : kept a a' -> grants_until a o c e -> grants_until a' o c e.
Proof.
  intros [(K1 & K2 & K3) K4 [_ K5] _ _] [H M]. split; [|done]. by rewrite K1, K2, K3, K4, K5.
Qed.

Lemma backed_step h a o : backed h a -> backed (h ++ [o]) (perform a o).
Proof.
  intros Hb Hs. destruct (perform_renewed a o) as [Ht|(_ & _ & Hg)].
  - unfold times in Ht. injection Ht as -> -> Hseen. rewrite Hseen in Hs. destruct (Hb Hs) as (o' & Ho & Hg).
    exists o'. split; [apply elem_of_app; by left|]. by eapply grants_until_kept; [apply perform_kept|].
  - exists o. split; [apply elem_of_app; right; by apply list_elem_of_singleton|].
    by eapply grants_until_kept; [apply perform_kept|].
Qed.

Lemma authority_run_ok os : forall h a, backed h a -> backed (h ++ os) (perform_all a os) /\ kept a (perform_all a os).
Proof.
  induction os as [|o os IH]; intros h a Hb; [rewrite app_nil_r; split; [done|apply kept_refl]|].
  destruct (IH (h ++ [o]) (perform a o)) as [H1 H2]; [by apply backed_step|].
  rewrite <-(assoc_L (++)) in H1. split; [exact H1|]. cbn [perform_all fold_left]. fold (perform_all (perform a o) os).
  pose proof (perform_kept a o) as [(K1 & K2 & K3) K4 [K5 K6] K7 K8].
  destruct H2 as [(L1 & L2 & L3) L4 [L5 L6] L7 L8]. split; [split_and!; congruence|congruence|split; congruence|auto|auto].
Qed.

Lemma NewAuthority_fresh job a : NewAuthority job = Some a -> seen a = false /\ withdrawn a = false.
Proof. unfold NewAuthority. repeat case_match; intros; simplify_eq; done. Qed.

(** C31: authority comes from observations only. After any calls, a job that still
    has a deadline has it from a reconciliation among those calls: one for this very
    job, lease, attempt and policy, negotiated, current, at most a minute long, and
    within the credential that delivered it; and the deadline has not passed. *)
Theorem authority_needs_observation (job : option JobSpecification) (a : Authority) (os : list op) (now d : Z) :
  NewAuthority job = Some a -> snd (Deadline (perform_all a os) now) = inl d -> 
  now < d /\ exists o, o ∈ os /\ grants_until a o (checked (perform_all a os)) d.
Proof.
  intros Hn Hd. destruct (NewAuthority_fresh job a Hn) as [Hs _].
  destruct (authority_run_ok os [] a) as [Hb Hk]; [by intros ?; congruence|]. cbn [app] in Hb.
  unfold Deadline in Hd. destruct (_ || _ || _) eqn:E; [done|]. destruct (_ <=? now) eqn:E2; [done|].
  injection Hd as <-. bool_norm. split; [lia|]. destruct (Hb ltac:(done)) as (o & Ho & Hg). exists o. split; [done|].
  destruct Hk as [(K1 & K2 & K3) K4 [_ K5] _ _]. destruct Hg as [Hop M]. split; [|done].
  by rewrite <-K1, <-K2, <-K3, <-K4, <-K5.
Qed.

(** Losing authority is final. A refused reconciliation, a passed deadline, a
    refused set of bindings or an explicit withdrawal ends it, and after that no call
    gives a deadline or a binding again. *)
Theorem authority_loss_final (a : Authority) (os : list op) :
  (forall r f cred now, snd (Reconcile a r f cred now) = false -> withdrawn (fst (Reconcile a r f cred now)) = true) /\
  (forall bs now, snd (ConstrainBindings a bs now) = inr ErrAuthority -> seen a = true -> now <> 0 ->
     withdrawn (fst (ConstrainBindings a bs now)) = true) /\
  (withdrawn a = true -> withdrawn (perform_all a os) = true /\
     (forall now d, snd (Deadline (perform_all a os) now) <> inl d) /\
     (forall bs now out, snd (ConstrainBindings (perform_all a os) bs now) <> inl out)).
Proof.
  split_and!.
  - intros r f cred now. unfold Reconcile, observe, accept_current, reject. repeat case_match; done.
  - intros bs now. unfold ConstrainBindings, Deadline. repeat case_match; intros; simplify_eq; try done.
    bool_norm. repeat match goal with X : _ || _ = true |- _ => apply orb_prop in X as [X|X] end; bool_norm; try done; congruence.
  - intros Hw. assert (Hw' : withdrawn (perform_all a os) = true).
    { revert a Hw. induction os as [|o os IH]; intros a Hw; [done|]. cbn. apply IH. by apply (k_withdrawn _ _ (perform_kept a o)). }
    assert (Hd : forall now, snd (Deadline (perform_all a os) now) = inr ErrAuthority).
    { intros now. unfold Deadline. by rewrite Hw', orb_true_r. }
    split_and!; [done| |].
    + intros now d. by rewrite Hd.
    + intros bs now out. unfold ConstrainBindings. pose proof (Hd now) as Hn. destruct (Deadline _ now) as [a' []]; cbn in Hn; by simplify_eq.
Qed.

(** An observation cannot be replayed. A call moves the deadline of a job that has
    one only by an observation checked later than the one before, so an older or a
    repeated one never prolongs it. *)
Theorem authority_never_replayed (a : Authority) (o : op) :
  seen a = true ->
  (aexpires (perform a o) = aexpires a /\ checked (perform a o) = checked a) \/
  (withdrawn a = false /\ checked a < checked (perform a o) /\
   grants_until a o (checked (perform a o)) (aexpires (perform a o))).
Proof.
  intros Hs. destruct (perform_renewed a o) as [Ht|(Hw & Hc & Hg)]; [left|right].
  - unfold times in Ht. by injection Ht as -> -> _.
  - split_and!; [done|by apply Hc|done].
Qed.

(** ** Bindings under authority *)

Definition grants_for (p : NetworkPolicyV2) (h : bytes) : list NetworkPermissionV2 :=
  filter (fun g => Hostname g = h) (grants p).

Lemma expected_fold gs : forall (m : gmap bytes (list Permission)) h,
  fold_left (fun m g => <[Hostname g := default [] (m !! Hostname g) ++ [permission_of g]]> m) gs m !! h
  = match filter (fun g => Hostname g = h) gs with
    | [] => m !! h
    | l => Some (default [] (m !! h) ++ map permission_of l)
    end.
Proof.
  induction gs as [|g gs IH]; intros m h; [done|]. cbn [fold_left]. rewrite IH.
  destruct (decide (Hostname g = h)) as [<-|Hne].
  - rewrite filter_cons_True, lookup_insert_eq by done. cbn [default].
    destruct (filter _ gs) as [|x l]; [done|]. cbn [from_option id map]. by rewrite <-app_assoc.
  - rewrite filter_cons_False, lookup_insert_ne by done. done.
Qed.

Lemma expected_lookup p h :
  expected_grants p !! h = match grants_for p h with [] => None | l => Some (map permission_of l) end.
Proof.
  unfold expected_grants, grants_for. rewrite expected_fold, lookup_empty. by destruct (filter _ _).
Qed.

Lemma constrain_loop_ok a deadline now bs : forall expected out,
  constrain_loop a deadline now expected bs = Some out ->
  out = map (bound_binding deadline) bs /\ NoDup (map hostname_of bs) /\
  Forall (fun b => expected !! hostname_of b = Some (permissions_of b) /\ job b = LJobId (lease a) /\
                   ValidAt b now = true /\ limits_of b = policy_limits (policy a)) bs.
Proof.
  induction bs as [|b bs IH]; intros expected out; cbn [constrain_loop]; [intros [= <-]; split_and!; constructor|].
  destruct (expected !! hostname_of b) as [gs|] eqn:Eh; [|done]. condition E1; [done|]. bool_norm.
  destruct (constrain_loop a deadline now (delete _ expected) bs) as [out'|] eqn:Er; [|done]. intros [= <-].
  destruct (IH _ _ Er) as (-> & Hnd & Hall). rewrite Forall_forall in Hall. split_and!.
  - done.
  - cbn. apply NoDup_cons. split; [|done]. intros Hin. apply list_elem_of_fmap in Hin as (b' & Eb & Hb').
    destruct (Hall b' Hb') as (Hl & _). by rewrite <-Eb, lookup_delete_eq in Hl.
  - constructor; [split_and!; congruence|]. apply Forall_forall. intros b' Hb'.
    destruct (Hall b' Hb') as (Hl & ? & ? & ?). apply lookup_delete_Some in Hl as [_ Hl]. done.
Qed.

(** Constrained bindings are the ones given, with their lifetime cut to the
    deadline of the authority and nothing else changed; they cover every host of the
    policy exactly once, with exactly its grants and limits, for this very job. *)
Theorem constrain_exact (a : Authority) (bs out : list Binding) (now : Z) :
  snd (ConstrainBindings a bs now) = inl out ->
  exists deadline, snd (Deadline a now) = inl deadline /\ out = map (bound_binding deadline) bs /\
    NoDup (map hostname_of bs) /\
    (forall h, h ∈ map hostname_of bs <-> grants_for (policy a) h <> []) /\
    Forall (fun b => job b = LJobId (lease a) /\ limits_of b = policy_limits (policy a) /\
                     permissions_of b = map permission_of (grants_for (policy a) (hostname_of b))) bs /\
    Forall (fun b => now < expires b <= deadline) out.
Proof.
  unfold ConstrainBindings. destruct (Deadline a now) as [a1 [deadline|e]] eqn:Ed; [|done].
  assert (a1 = a /\ now < deadline) as [-> Hdl].
  { unfold Deadline in Ed. repeat case_match; simplify_eq. split; [done|lia]. }
  condition Es; [done|]. destruct (constrain_loop _ _ _ _ _) as [out'|] eqn:El; [|done]. intros [= ->].
  destruct (constrain_loop_ok _ _ _ _ _ _ El) as (-> & Hnd & Hall). rewrite Forall_forall in Hall.
  assert (Hperm : forall b, b ∈ bs -> grants_for (policy a) (hostname_of b) <> [] /\
    permissions_of b = map permission_of (grants_for (policy a) (hostname_of b))).
  { intros b Hb. destruct (Hall b Hb) as (Hl & _). rewrite expected_lookup in Hl. destruct (grants_for _ _); [done|].
    by injection Hl as <-. }
  exists deadline. split_and!; [done|done|done| |apply Forall_forall; intros b Hb|].
  - intros h. assert (Hset : list_to_set (map hostname_of bs) = dom (expected_grants (policy a))).
    { apply set_subseteq_size_eq.
      - intros x Hx. apply elem_of_list_to_set, list_elem_of_fmap in Hx as (b & -> & Hb).
        destruct (Hall b Hb) as (Hl & _). by eapply elem_of_dom_2.
      - rewrite size_list_to_set by done. rewrite size_dom, length_map. bool_norm. unfold zlen in *. lia. }
    assert (h ∈ map hostname_of bs <-> h ∈ (list_to_set (map hostname_of bs) : gset bytes)) as ->
      by (by rewrite elem_of_list_to_set).
    rewrite Hset, elem_of_dom, expected_lookup. unfold is_Some. destruct (grants_for (policy a) h); [|split; [done|intros _; by eexists]].
    split; [by intros [? ?]|done].
  - destruct (Hall b Hb) as (_ & ? & _ & ?), (Hperm b Hb). done.
  - apply Forall_forall. intros b Hb. apply list_elem_of_fmap in Hb as (b0 & -> & Hb0).
    destruct (Hall b0 Hb0) as (_ & _ & Hv & _). unfold ValidAt in Hv. cbn. destruct (deadline <? expires b0) eqn:E; lia.
Qed.

End authority.
End messages.

(** ** A sample job *)

Section sample.
#[local] Existing Instance sample_proto.
#[local] Existing Instance sample_codec.
#[local] Existing Instance sample_timestamps.

Definition sample_now : Z := 62135597800 * Second.

Definition sample_lease : LeaseIdentity := {|
  LeaseId := sample_job; LJobId := sample_job; ExecutionId := sample_job;
  LExpiresAt := Some (sample_now + 3600 * Second); lreflect := Msg true [] [] |}.

Definition sample_attempt : AttemptIdentity := {|
  AttemptId := sample_job; ReleaseCandidateId := sample_job; MatrixEntryId := sample_job; AttemptNumber := 1; arest := [];
  areflect := Msg true [] [] |}.

Definition sample_digest : Digest := {| Algorithm := 1; Value := Sum256 (bs "p"); dreflect := Msg true [] [] |}.

Definition sample_spec : JobSpecification := {|
  JLease := Some sample_lease; JAttempt := Some sample_attempt; JEffectivePolicy := Some sample_effective;
  JHashes := Some {| HArtifact := None; HConfiguration := None; HEnvironment := None; HPolicy := Some sample_digest;
                     HDependencies := [] |};
  JOrganizationScope := None; JCorrelation := None; NormalizedConfigurationJson := []; JEnvironment := None;
  TargetPluginName := []; JDependencies := []; JArtifact := None; JCompleteLogUpload := None; TestSecrets := [] |}.

Definition sample_reconciliation : LeaseReconciliation := {|
  RLease := Some sample_lease; RAttempt := Some sample_attempt; Status := 3; CancellationId := []; RPhase := 0;
  Observed := Some {| OPolicy := Some sample_digest; CheckedAt := Some sample_now; State := 1;
                      OExpiresAt := Some (sample_now + 30 * Second); oreflect := Msg true [] [] |};
  CompleteLogUpload := None; Disposition := 1; TerminalMessageId := []; runknown := []; rrest := [] |}.

Definition sample_op : op := OpReconcile (Some sample_reconciliation) [1; 3; 9; 10] (sample_now + 60 * Second) sample_now.

Definition sample_authority : Authority := {|
  lease := sample_lease; attempt := sample_attempt; policy := sample_policy; digest := Sum256 (bs "p"); checked := 0;
  aexpires := 0; seen := false; withdrawn := false |}.

Lemma sample_new : NewAuthority (Some sample_spec) = Some sample_authority.
Proof. vm_compute. reflexivity. Qed.

Lemma authority_needs_observation_witness :
  snd (Deadline (perform_all sample_authority [sample_op]) sample_now) = inl (sample_now + 30 * Second) /\
  exists o, o ∈ [sample_op] /\
    grants_until sample_authority o (checked (perform_all sample_authority [sample_op])) (sample_now + 30 * Second).
Proof.
  split; [vm_compute; reflexivity|].
  apply (authority_needs_observation (Some sample_spec) sample_authority [sample_op] sample_now).
  - exact sample_new.
  - vm_compute. reflexivity.
Defined.

Lemma authority_loss_final_witness :
  withdrawn (Withdraw sample_authority) = true /\
  forall now d, snd (Deadline (perform_all (Withdraw sample_authority) [sample_op]) now) <> inl d.
Proof.
  split; [reflexivity|].
  exact (proj1 (proj2 (proj2 (proj2 (authority_loss_final (Withdraw sample_authority) [sample_op])) eq_refl))).
Defined.

Lemma authority_never_replayed_witness :
  let a := perform sample_authority sample_op in
  seen a = true /\
  ((aexpires (perform a sample_op) = aexpires a /\ checked (perform a sample_op) = checked a) \/
   (withdrawn a = false /\ checked a < checked (perform a sample_op) /\
    grants_until a sample_op (checked (perform a sample_op)) (aexpires (perform a sample_op)))).
Proof.
  intros a. assert (H : seen a = true) by (vm_compute; reflexivity). split; [exact H|].
  exact (authority_never_replayed a sample_op H).
Defined.

Definition sample_binding : Binding := {|
  job := sample_job; hostname_of := bs "example.com"; addresses := [Addresses.ipv4 8 8 8 8];
  permissions_of := [{| PHostname := bs "example.com"; PPort := 443; PProtocol := tcp |}];
  limits_of := {| Connections := 4; BytesPerSecond := 1000 |}; issued := sample_now; expires := sample_now + 300 * Second |}.

Lemma constrain_exact_witness :
  let a := perform sample_authority sample_op in
  exists out, snd (ConstrainBindings a [sample_binding] sample_now) = inl out /\
    Forall (fun b => sample_now < expires b <= sample_now + 30 * Second) out.
Proof.
  intros a. destruct (snd (ConstrainBindings a [sample_binding] sample_now)) as [out|] eqn:E; [|vm_compute in E; discriminate].
  exists out. split; [reflexivity|].
  destruct (constrain_exact a [sample_binding] out sample_now E) as (d & Hd & _ & _ & _ & _ & H).
  vm_compute in Hd. injection Hd as <-. exact H.
Defined.

End sample.
