(* ===== verification/Firewall.v ===== *)
(** The firewall of a job ([src/internal/networkpolicy/firewall.go]) and the DNS view
    its workload sees ([workload_dns.go]). *)

From Stdlib Require Import ZifyBool.
From S2P Require Import Prelude Utf8 Patterns Strconv Sha256 World Policy Binder.
Import Names Wire Addresses.

(** ** Unix seconds *)

Definition unix_epoch : Z := 62135596800.
Definition Unix (t : Z) : Z := t / Second - unix_epoch.
Definition time_Unix (s : Z) : Z := (s + unix_epoch) * Second.
Definition Milliseconds (d : Z) : Z := Z.quot d 1000000.

(** ** The program

    A rule of the program is its text; the rules the compiler writes are these. *)

Inductive rule :=
  | DropFrom (deadline : Z)
  | DropInvalid
  | DropOverRate
  | MarkOne
  | DropOverConnections (n : Z)
  | AcceptOut (family : nat)
  | AcceptReply (family : nat)
  | AcceptQuery (transport : bytes)
  | AcceptAnswer (transport : bytes)
  | DropAll.

Definition quoted (s : bytes) : bytes := [0x22] ++ s ++ [0x22].
Definition newline : bytes := [0x0A].

Definition ip_name (family : nat) : bytes := match family with O => bs "ip" | _ => bs "ip6" end.
Definition job_address (family : nat) : bytes := match family with O => bs "10.0.1.2" | _ => bs "fd00:1::2" end.
Definition family_number (family : nat) : bytes := itoa (4 + Z.of_nat family * 2).

Definition rule_body (r : rule) : bytes :=
  match r with
  | DropFrom deadline => bs "meta time >= " ++ itoa deadline ++ bs " counter drop"
  | DropInvalid => bs "ct state invalid,untracked counter drop"
  | DropOverRate => bs "limit name bandwidth counter name bandwidth_denied drop"
  | MarkOne => bs "meta mark set 1"
  | DropOverConnections n => bs "ct state new add @connections { meta mark ct count over " ++ itoa n ++ bs " } counter drop"
  | AcceptOut f =>
      bs "iifname " ++ quoted (bs "job0") ++ bs " oifname " ++ quoted (bs "wan0") ++ bs " ct direction original " ++
      ip_name f ++ bs " saddr " ++ job_address f ++ bs " " ++ ip_name f ++
      bs " daddr . meta l4proto . th dport @allowed" ++ family_number f ++ bs " counter name forwarded accept"
  | AcceptReply f =>
      bs "iifname " ++ quoted (bs "wan0") ++ bs " oifname " ++ quoted (bs "job0") ++
      bs " ct direction reply ct state established " ++
      ip_name f ++ bs " daddr " ++ job_address f ++ bs " " ++ ip_name f ++
      bs " saddr . meta l4proto . th sport @allowed" ++ family_number f ++ bs " counter name forwarded accept"
  | AcceptQuery t =>
      bs "iifname " ++ quoted (bs "job0") ++ bs " ct direction original ip saddr 10.0.1.2 ip daddr 10.0.1.1 " ++ t ++
      bs " dport 53 counter name forwarded accept"
  | AcceptAnswer t =>
      bs "oifname " ++ quoted (bs "job0") ++ bs " ct direction reply ct state established ip saddr 10.0.1.1 ip daddr 10.0.1.2 " ++
      t ++ bs " sport 53 counter name forwarded accept"
  | DropAll => bs "counter drop"
  end.

Definition print_rule (table chain : bytes) (r : rule) : bytes :=
  bs "add rule inet " ++ table ++ bs " " ++ chain ++ bs " " ++ rule_body r ++ newline.

Record Firewall := {
  table : bytes;
  install : bytes;
  remove : bytes;
  fexpires : Z;
  fissued : Z;
  sets : bytes;
  rules : bytes;
  fgrants : bytes;
  families : Z;
  flimits : Limits;
  controlledDNS : bool;
  dnsRules : bytes;
}.

(** ** Compiling *)

Definition entry (a : Addr) (p : Permission) : bytes :=
  addr_string a ++ bs " . " ++ PProtocol p ++ bs " . " ++ itoa (PPort p).

Definition family_of (a : Addr) : nat := if Is6 a then 1 else 0.

(** The two sets of entries, by family. *)
Abbreviation entries := (gset bytes * gset bytes)%type (only parsing).

Definition add_entry (s : entries) (family : nat) (e : bytes) : entries :=
  match family with O => ({[e]} ∪ fst s, snd s) | _ => (fst s, {[e]} ∪ snd s) end.

Definition entries_count (s : entries) : Z := Z.of_nat (size (fst s)) + Z.of_nat (size (snd s)).

Definition in_family (s : entries) (family : nat) : gset bytes := match family with O => fst s | _ => snd s end.

Definition permission_allowed (b : Binding) (p : Permission) : bool :=
  bool_decide (PHostname p = hostname_of b) && hostname (PHostname p) && negb (blockedPort (PPort p))
  && (bool_decide (PProtocol p = tcp) || bool_decide (PProtocol p = udp)).

Fixpoint add_permissions (b : Binding) (a : Addr) (s : entries) (ps : list Permission) : option entries :=
  match ps with
  | [] => Some s
  | p :: rest =>
      if negb (permission_allowed b p) then None
      else
        let s := add_entry s (family_of a) (entry a p) in
        if 4096 <? entries_count s then None else add_permissions b a s rest
  end.

Fixpoint add_addresses (b : Binding) (s : entries) (addrs : list Addr) : option entries :=
  match addrs with
  | [] => Some s
  | a :: rest =>
      if negb (public [] a) then None
      else match add_permissions b a s (permissions_of b) with Some s => add_addresses b s rest | None => None end
  end.

(** The loop over the bindings: the earliest expiry and the entries. *)
Fixpoint add_bindings (job_id : bytes) (lim : Limits) (now : Z) (names : gset bytes) (earliest : Z) (s : entries)
    (bindings : list Binding) : (Z * entries) + netError :=
  match bindings with
  | [] => inl (earliest, s)
  | b :: rest =>
      if negb (bool_decide (job b = job_id)) || negb (bool_decide (limits_of b = lim)) || bool_decide (hostname_of b ∈ names)
         || (zlen (addresses b) =? 0) || (64 <? zlen (addresses b)) || (zlen (permissions_of b) =? 0)
         || (128 <? zlen (permissions_of b)) || (5 * Minute <? expires b - issued b)
      then inr ErrPolicy
      else if negb (ValidAt b now) then inr ErrExpired
      else match add_addresses b s (addresses b) with
           | None => inr ErrPolicy
           | Some s => add_bindings job_id lim now ({[hostname_of b]} ∪ names) (Z.min earliest (expires b)) s rest
           end
  end.

Definition join_values (s : gset bytes) : bytes :=
  match Automaton.sort_strings (elements s) with
  | [] => []
  | v :: vs => v ++ concat (map (fun x => bs ", " ++ x) vs)
  end.

Definition set_line (table : bytes) (family : nat) (ms : Z) (s : gset bytes) : bytes :=
  bs "add set inet " ++ table ++ bs " allowed" ++ family_number family ++ bs " { type ipv" ++ family_number family ++
  bs "_addr . inet_proto . inet_service; flags timeout; timeout " ++ itoa ms ++ bs "ms; size 4096; elements = { " ++
  join_values s ++ bs " }; }" ++ newline.

Definition used_families (s : entries) : list nat :=
  (if bool_decide (fst s = ∅) then [] else [0%nat]) ++ (if bool_decide (snd s = ∅) then [] else [1%nat]).

Definition forward_rules (deadline connections : Z) (s : entries) : list rule :=
  [DropFrom deadline; DropInvalid; DropOverRate; MarkOne; DropOverConnections connections] ++
  concat (map (fun f => [AcceptOut f; AcceptReply f]) (used_families s)) ++ [DropAll].

(** The rules of the input and output chains, in the order they are written. *)
Definition dns_program (deadline connections : Z) : list (bytes * rule) :=
  concat (map (fun c => [(c, DropFrom deadline); (c, DropInvalid); (c, DropOverRate)]) [bs "input"; bs "output"]) ++
  [(bs "input", MarkOne); (bs "input", DropOverConnections connections)] ++
  concat (map (fun t => [(bs "input", AcceptQuery t); (bs "output", AcceptAnswer t)]) [udp; tcp]) ++
  [(bs "input", DropAll); (bs "output", DropAll)].

Definition strip_dashes (s : bytes) : bytes := filter (fun b => b <> 0x2D) s.

Definition compileFirewall (job_id : bytes) (bindings : list Binding) (now : Z) (dns : bool) : Firewall + netError :=
  match bindings with
  | [] => inr ErrPolicy
  | first :: _ =>
      let lim := limits_of first in
      if negb (jobID job_id) || bool_decide (job_id = nilID) || (now =? 0) || (128 <? zlen bindings) then inr ErrPolicy
      else if (Connections lim =? 0) || (2 ^ 32 - 1 <? Connections lim) || (BytesPerSecond lim =? 0)
              || (2 ^ 32 - 1 <? BytesPerSecond lim)
      then inr ErrPolicy
      else
        match add_bindings job_id lim now ∅ (expires first) (∅, ∅) bindings with
        | inr e => inr e
        | inl (earliest, s) =>
            let deadline := Unix earliest in
            if (deadline <=? Unix now) || (deadline <=? 0) || (2 ^ 32 - 1 <? deadline) then inr ErrExpired
            else
              let t := bs "pv_" ++ strip_dashes job_id in
              let ms := Milliseconds (earliest - now) in
              let set_program := concat (map (fun f => set_line t f ms (in_family s f)) (used_families s)) in
              let grants := concat (map (fun f => itoa (Z.of_nat f) ++ bs ":" ++ join_values (in_family s f) ++ newline)
                                     (used_families s)) in
              let rule_program := concat (map (print_rule t (bs "forward")) (forward_rules deadline (Connections lim) s)) in
              let dns_rules := if dns then concat (map (fun cr => print_rule t (fst cr) (snd cr))
                                                     (dns_program deadline (Connections lim))) else [] in
              let chain c := bs "add chain inet " ++ t ++ bs " " ++ c ++ bs " { type filter hook " ++ c ++
                             bs " priority 0; policy drop; }" ++ newline in
              inl {| table := t;
                     install :=
                       bs "create table inet " ++ t ++ newline ++ set_program ++
                       bs "add set inet " ++ t ++ bs " connections { type mark; flags dynamic; size 1; }" ++ newline ++
                       bs "add counter inet " ++ t ++ bs " forwarded" ++ newline ++
                       bs "add counter inet " ++ t ++ bs " bandwidth_denied" ++ newline ++
                       bs "add limit inet " ++ t ++ bs " bandwidth { rate over " ++ itoa (BytesPerSecond lim) ++
                       bs " bytes/second burst 0 bytes; }" ++ newline ++
                       chain (bs "input") ++ chain (bs "output") ++ chain (bs "forward") ++ rule_program ++ dns_rules;
                     remove := bs "delete table inet " ++ t ++ newline;
                     fexpires := time_Unix deadline;
                     fissued := now;
                     sets := set_program;
                     rules := rule_program;
                     fgrants := grants;
                     families := (if bool_decide (fst s = ∅) then 0 else 1) + (if bool_decide (snd s = ∅) then 0 else 2);
                     flimits := lim;
                     controlledDNS := dns;
                     dnsRules := dns_rules |}
        end
  end.

Definition CompileFirewall (job_id : bytes) (bindings : list Binding) (now : Z) := compileFirewall job_id bindings now false.
Definition CompileFirewallWithDNS (job_id : bytes) (bindings : list Binding) (now : Z) := compileFirewall job_id bindings now true.

(** ** Refreshing and withdrawing *)

Definition flush_chain (t chain : bytes) : bytes := bs "flush chain inet " ++ t ++ bs " " ++ chain ++ newline.

Definition delete_set (t : bytes) (family : nat) : bytes :=
  bs "delete set inet " ++ t ++ bs " allowed" ++ family_number family ++ newline.

Definition refresh (f next : Firewall) (now : Z) (extension : bool) : bytes + netError :=
  if (zlen (table f) =? 0) || (zlen (install f) =? 0) || negb (bool_decide (table next = table f)) || (zlen (install next) =? 0)
     || negb (bool_decide (fgrants f = fgrants next)) || negb (bool_decide (flimits f = flimits next))
     || negb (families f =? families next) || negb (Bool.eqb (controlledDNS f) (controlledDNS next))
  then inr ErrPolicy
  else if (now =? 0) || (now <? fissued f) || (now <? fissued next) || negb (now <? fexpires f) || negb (now <? fexpires next)
          || (extension && negb (fexpires f <? fexpires next))
  then inr ErrExpired
  else inl (flush_chain (table f) (bs "forward") ++
            (if Z.testbit (families f) 0 then delete_set (table f) 0 else []) ++
            (if Z.testbit (families f) 1 then delete_set (table f) 1 else []) ++
            sets next ++ rules next ++
            (if controlledDNS f
             then flush_chain (table f) (bs "input") ++ flush_chain (table f) (bs "output") ++ dnsRules next else [])).

Definition Withdraw (f : Firewall) : bytes + netError :=
  if (zlen (table f) =? 0) || (zlen (install f) =? 0) then inr ErrPolicy
  else inl (flush_chain (table f) (bs "forward") ++
            (if controlledDNS f then flush_chain (table f) (bs "input") ++ flush_chain (table f) (bs "output") else [])).

(** ** What the sets hold *)

(** An address and a permission some binding brings together. *)
Definition bound (bindings : list Binding) (a : Addr) (p : Permission) : Prop :=
  exists b, b ∈ bindings /\ a ∈ addresses b /\ p ∈ permissions_of b.

(** The entries of [s'] are those of [s] and the ones [P] describes. *)
Definition grows (s s' : entries) (P : Addr -> Permission -> Prop) : Prop :=
  forall e f, (f <= 1)%nat ->
    e ∈ in_family s' f <-> e ∈ in_family s f \/ exists a p, P a p /\ family_of a = f /\ e = entry a p.

Lemma grows_refl s : grows s s (fun _ _ => False).
Proof. intros e f _. split; [by left|]. intros [?|(? & ? & [] & _)]. done. Qed.

Lemma grows_trans s1 s2 s3 P Q R :
  grows s1 s2 P -> grows s2 s3 Q -> (forall a p, R a p <-> P a p \/ Q a p) -> grows s1 s3 R.
Proof.
  intros H1 H2 HR e f Hf. rewrite (H2 e f Hf), (H1 e f Hf). setoid_rewrite HR. split.
  - intros [[?|(a & p & ? & ?)]|(a & p & ? & ?)]; [by left|right; exists a, p; tauto..].
  - intros [?|(a & p & [?|?] & ? & ?)]; [by left; left|left; right; by exists a, p|right; by exists a, p].
Qed.

Lemma add_entry_grows s a p :
  grows s (add_entry s (family_of a) (entry a p)) (fun a' p' => a' = a /\ p' = p).
Proof.
  intros e f Hf. unfold add_entry, family_of. destruct (Is6 a) eqn:Ei, f as [|[|f]]; cbn [in_family fst snd]; try lia; split;
    try (intros [He|(a' & p' & [-> ->] & Hf' & ->)]; [set_solver|rewrite Ei in Hf'; try done; set_solver]);
    intros He; try (by left); rewrite elem_of_union, elem_of_singleton in He; destruct He as [->|He]; try (by left);
    right; exists a, p; by rewrite Ei.
Qed.

Lemma add_permissions_ok b a ps : forall s s',
  add_permissions b a s ps = Some s' ->
  grows s s' (fun a' p' => a' = a /\ p' ∈ ps) /\ Forall (fun p => permission_allowed b p = true) ps.
Proof.
  induction ps as [|p ps IH]; intros s s'; cbn [add_permissions].
  { intros [= <-]. split; [|constructor]. intros e f _. split; [by left|]. by intros [?|(? & ? & [_ []%not_elem_of_nil] & _)]. }
  destruct (permission_allowed b p) eqn:Ep; [cbn [negb]|done]. destruct (_ <? _); [done|]. intros E.
  destruct (IH _ _ E) as [H1 H2]. split; [|by constructor].
  eapply grows_trans; [apply add_entry_grows|exact H1|]. intros a' p'. rewrite elem_of_cons. tauto.
Qed.

Lemma add_addresses_ok b addrs : forall s s',
  add_addresses b s addrs = Some s' ->
  grows s s' (fun a p => a ∈ addrs /\ p ∈ permissions_of b) /\ Forall (fun a => public [] a = true) addrs /\
  (addrs <> [] -> Forall (fun p => permission_allowed b p = true) (permissions_of b)).
Proof.
  induction addrs as [|a addrs IH]; intros s s'; cbn [add_addresses].
  { intros [= <-]. split_and!; [|constructor|done]. intros e f _. split; [by left|].
    by intros [?|(? & ? & [[]%not_elem_of_nil _] & _)]. }
  destruct (public [] a) eqn:Ea; [cbn [negb]|done].
  destruct (add_permissions b a s _) as [s1|] eqn:Ep; [|done]. intros E.
  destruct (IH _ _ E) as (H1 & H2 & _), (add_permissions_ok _ _ _ _ _ Ep) as [H3 H4].
  split_and!; [|by constructor|done]. eapply grows_trans; [exact H3|exact H1|].
  intros a' p'. rewrite elem_of_cons. tauto.
Qed.

(** What the loop checks of every binding. *)
Record checked_binding (job_id : bytes) (lim : Limits) (now : Z) (b : Binding) : Prop := {
  cb_job : job b = job_id /\ limits_of b = lim;
  cb_valid : ValidAt b now = true /\ expires b - issued b <= 5 * Minute;
  cb_public : Forall (fun a => public [] a = true) (addresses b) /\ addresses b <> [];
  cb_allowed : Forall (fun p => permission_allowed b p = true) (permissions_of b);
}.

Lemma add_bindings_ok job_id lim now bs : forall names earliest s earliest' s',
  add_bindings job_id lim now names earliest s bs = inl (earliest', s') ->
  grows s s' (bound bs) /\ Forall (checked_binding job_id lim now) bs /\
  earliest' <= earliest /\ Forall (fun b => earliest' <= expires b) bs /\
  (earliest' = earliest \/ exists b, b ∈ bs /\ earliest' = expires b).
Proof.
  induction bs as [|b bs IH]; intros names earliest s earliest' s'; cbn [add_bindings].
  { intros [= <- <-]. split_and!; [|constructor|lia|constructor|by left]. intros e f _. split; [by left|].
    by intros [?|(? & ? & (b & []%not_elem_of_nil & _) & _)]. }
  destruct (_ || _ || _ || _ || _ || _ || _ || _) eqn:E1; [done|]. destruct (ValidAt b now) eqn:Ev; [cbn [negb]|done].
  destruct (add_addresses b s _) as [s1|] eqn:Ea; [|done]. intros E.
  destruct (add_addresses_ok _ _ _ _ Ea) as (H1 & H2 & H3), (IH _ _ _ _ _ E) as (G1 & G2 & G3 & G4 & G5). bool_norm.
  assert (Hne : addresses b <> []) by (intros Hn; rewrite Hn in *; done).
  split_and!.
  - eapply grows_trans; [exact H1|exact G1|]. intros a p. unfold bound. split.
    + intros (b' & Hb & Ha & Hp). apply elem_of_cons in Hb as [->|Hb]; [by left|right; by exists b'].
    + intros [[? ?]|(b' & ? & ? & ?)]; [exists b|exists b']; (split_and!; [|done|done]); [left|by right].
  - constructor; [|done]. split; try done; by apply H3.
  - lia.
  - constructor; [lia|done].
  - destruct G5 as [->|(b' & ? & ->)].
    + destruct (Z.min_spec earliest (expires b)) as [[_ ->]|[_ ->]]; [by left|right; exists b; split; [left|done]].
    + right. exists b'. split; [by right|done].
Qed.

Lemma Unix_floor t : time_Unix (Unix t) <= t < time_Unix (Unix t + 1).
Proof. unfold time_Unix, Unix, Second. pose proof (Z.mul_div_le t 1000000000). pose proof (Z.mul_succ_div_gt t 1000000000). lia. Qed.

(** What a compiled firewall is: the printed rules of one deadline and one set of
    entries. *)
Record compiled (job_id : bytes) (bindings : list Binding) (now : Z) (f : Firewall) (deadline : Z) (s : entries) : Prop := {
  cp_rules : rules f = concat (map (print_rule (table f) (bs "forward")) (forward_rules deadline (Connections (flimits f)) s));
  cp_sets : exists ms, sets f = concat (map (fun fam => set_line (table f) fam ms (in_family s fam)) (used_families s));
  cp_entries : grows (∅, ∅) s (bound bindings);
  cp_bindings : Forall (checked_binding job_id (flimits f) now) bindings;
  cp_deadline : fexpires f = time_Unix deadline /\ now < fexpires f;
  cp_earliest : Forall (fun b => fexpires f <= expires b) bindings /\ exists b, b ∈ bindings /\ expires b < fexpires f + Second;
}.

Lemma compile_ok job_id bindings now dns f :
  compileFirewall job_id bindings now dns = inl f -> exists deadline s, compiled job_id bindings now f deadline s.
Proof.
  unfold compileFirewall. destruct bindings as [|first rest] eqn:Eb; [done|]. rewrite <-Eb.
  destruct (_ || _ || _ || _); [done|]. destruct (_ || _ || _ || _); [done|].
  destruct (add_bindings _ _ _ _ _ _ _) as [[earliest s]|] eqn:Ea; [|done].
  destruct (_ || _ || _) eqn:Ed; [done|]. intros [= <-].
  destruct (add_bindings_ok _ _ _ _ _ _ _ _ _ Ea) as (H1 & H2 & H3 & H4 & H5). bool_norm.
  pose proof (Unix_floor earliest). pose proof (Unix_floor now). unfold time_Unix, Second in *.
  exists (Unix earliest), s. split; cbn -[time_Unix]; try done.
  - by eexists.
  - split; [done|]. unfold time_Unix, Second. lia.
  - split.
    + eapply Forall_impl; [exact H4|]. cbn. unfold time_Unix, Second. lia.
    + destruct H5 as [->|(b & ? & ->)]; [exists first; split; [subst; left|]|exists b; split; [done|]];
        unfold time_Unix, Second; lia.
Qed.

(** ** How nftables reads the rules

    A packet as the rules see it: interfaces, addresses, ports, what connection
    tracking says of it, whether the shared byte bucket is empty and how many
    connections are open. *)

Inductive ctState := New | Established | InvalidState | Untracked.

Record packet := {
  iif : bytes; oif : bytes; version : nat; src : Addr; dst : Addr; l4proto : bytes; sport : Z; dport : Z;
  original : bool; state : ctState; at_time : Z; over_rate : bool; connections : Z;
}.

Definition is_new (s : ctState) : bool := match s with New => true | _ => false end.
Definition is_established (s : ctState) : bool := match s with Established => true | _ => false end.
Definition is_bad (s : ctState) : bool := match s with InvalidState | Untracked => true | _ => false end.

Definition job_addr (family : nat) : Addr :=
  match family with O => ipv4 10 0 1 2 | _ => V6 (0xFD00 * 2 ^ 112 + 2 ^ 96 + 2) [] end.

(** The set element a packet's address, protocol and port make. *)
Definition element (a : Addr) (proto : bytes) (port : Z) : bytes :=
  entry a {| PHostname := []; PPort := port; PProtocol := proto |}.

(** [Some true] accepts, [Some false] drops, [None] goes on to the next rule. *)
Definition eval_rule (s : entries) (r : rule) (p : packet) : option bool :=
  let when (b : bool) (v : bool) := if b then Some v else None in
  match r with
  | DropFrom deadline => when (deadline <=? at_time p) false
  | DropInvalid => when (is_bad (state p)) false
  | DropOverRate => when (over_rate p) false
  | MarkOne => None
  | DropOverConnections n => when (is_new (state p) && (n <? connections p)) false
  | AcceptOut f =>
      when (bool_decide (iif p = bs "job0") && bool_decide (oif p = bs "wan0") && original p && (version p =? f)%nat
            && bool_decide (src p = job_addr f) && bool_decide (element (dst p) (l4proto p) (dport p) ∈ in_family s f)) true
  | AcceptReply f =>
      when (bool_decide (iif p = bs "wan0") && bool_decide (oif p = bs "job0") && negb (original p)
            && is_established (state p) && (version p =? f)%nat && bool_decide (dst p = job_addr f)
            && bool_decide (element (src p) (l4proto p) (sport p) ∈ in_family s f)) true
  | AcceptQuery t =>
      when (bool_decide (iif p = bs "job0") && original p && bool_decide (src p = ipv4 10 0 1 2)
            && bool_decide (dst p = ipv4 10 0 1 1) && bool_decide (l4proto p = t) && (dport p =? 53)) true
  | AcceptAnswer t =>
      when (bool_decide (oif p = bs "job0") && negb (original p) && is_established (state p)
            && bool_decide (src p = ipv4 10 0 1 1) && bool_decide (dst p = ipv4 10 0 1 2) && bool_decide (l4proto p = t)
            && (sport p =? 53)) true
  | DropAll => Some false
  end.

(** A chain whose policy is to drop. *)
Fixpoint accepts (s : entries) (rs : list rule) (p : packet) : bool :=
  match rs with
  | [] => false
  | r :: rest => match eval_rule s r p with Some v => v | None => accepts s rest p end
  end.

(** A packet of the job to a granted destination, or the reply of one. *)
Definition legitimate (bindings : list Binding) (p : packet) : Prop :=
  exists a perm, bound bindings a perm /\
    ((iif p = bs "job0" /\ oif p = bs "wan0" /\ original p = true /\ src p = job_addr (family_of a) /\
      element (dst p) (l4proto p) (dport p) = entry a perm) \/
     (iif p = bs "wan0" /\ oif p = bs "job0" /\ original p = false /\ state p = Established /\
      dst p = job_addr (family_of a) /\ element (src p) (l4proto p) (sport p) = entry a perm)).

Lemma entries_bound bindings s e f :
  grows (∅, ∅) s (bound bindings) -> (f <= 1)%nat -> e ∈ in_family s f ->
  exists a p, bound bindings a p /\ family_of a = f /\ e = entry a p.
Proof.
  intros Hg Hf He. apply Hg in He as [He|?]; [|done|done]. destruct f; cbn in He; set_solver.
Qed.

Lemma accepts_granted bindings s p fams :
  grows (∅, ∅) s (bound bindings) -> Forall (fun f => f <= 1)%nat fams ->
  accepts s (concat (map (fun f => [AcceptOut f; AcceptReply f]) fams) ++ [DropAll]) p = true -> legitimate bindings p.
Proof.
  intros Hg Hf. induction Hf as [|f fams Hf _ IH]; [done|]. cbn [map concat app accepts eval_rule].
  destruct (_ && _ && _ && _ && _ && _) eqn:E1.
  { intros _. bool_norm. destruct (entries_bound bindings s _ f Hg Hf ltac:(done)) as (a & perm & Hb & <- & He).
    exists a, perm. split; [done|]. left. split_and!; done. }
  destruct (_ && _ && _ && _ && _ && _ && _) eqn:E2; [|done].
  intros _. bool_norm. destruct (entries_bound bindings s _ f Hg Hf ltac:(done)) as (a & perm & Hb & <- & He).
  exists a, perm. split; [done|]. right. split_and!; try done. by destruct (state p).
Qed.

Lemma used_families_small s : Forall (fun f => f <= 1)%nat (used_families s).
Proof. unfold used_families. apply Forall_app. split; case_bool_decide; repeat constructor. Qed.

(** C29: a firewall is compiled from its bindings exactly: its sets hold the entries of
    every address with every permission of its binding and no others, every address
    public and every port allowed; it closes at a whole second after now that no
    binding outlives, and less than a second before the first binding ends. *)
Theorem firewall_exact (job_id : bytes) (bindings : list Binding) (now : Z) (dns : bool) (f : Firewall) :
  compileFirewall job_id bindings now dns = inl f -> exists deadline s, compiled job_id bindings now f deadline s.
Proof. apply compile_ok. Qed.


(** ** A sample firewall *)

Definition sample_bindings : list Binding := [{|
  job := sample_job; hostname_of := bs "example.com"; addresses := [ipv4 8 8 8 8];
  permissions_of := [{| PHostname := bs "example.com"; PPort := 443; PProtocol := tcp |}];
  limits_of := {| Connections := 4; BytesPerSecond := 1000 |};
  issued := time_Unix 1000; expires := time_Unix 1060 |}].

Definition sample_packet : packet := {|
  iif := bs "job0"; oif := bs "wan0"; version := 0; src := ipv4 10 0 1 2; dst := ipv4 8 8 8 8; l4proto := tcp; sport := 40000;
  dport := 443; original := true; state := New; at_time := 1030; over_rate := false; connections := 1 |}.

Lemma firewall_exact_witness :
  exists f deadline s, compileFirewall sample_job sample_bindings (time_Unix 1010) true = inl f /\
    fgrants f = bs "0:8.8.8.8 . tcp . 443" ++ newline /\ compiled sample_job sample_bindings (time_Unix 1010) f deadline s.
Proof.
  destruct (compileFirewall sample_job sample_bindings (time_Unix 1010) true) as [f|] eqn:E; [|vm_compute in E; discriminate].
  destruct (firewall_exact sample_job sample_bindings (time_Unix 1010) true f E) as (deadline & s & H).
  exists f, deadline, s. split; [reflexivity|]. split; [|exact H]. vm_compute in E. injection E as <-. vm_compute. reflexivity.
Defined.


(** * The workload's DNS view *)

Module WorkloadDNS.

Record view := { bindings : gmap bytes Binding; vissued : Z; vexpires : Z; withdrawn : bool }.

Definition NewWorkloadDNS (job_id : bytes) (bs : list Binding) (now : Z) : view + netError :=
  match CompileFirewall job_id bs now with
  | inr e => inr e
  | inl f => inl {| bindings := fold_left (fun m b => <[hostname_of b := b]> m) bs ∅; vissued := now;
                    vexpires := time_Unix (Unix (fexpires f)); withdrawn := false |}
  end.

Definition Withdraw (d : view) : view :=
  {| bindings := ∅; vissued := vissued d; vexpires := vexpires d; withdrawn := true |}.

Definition emptyEDNS (records : list Resource) : bool :=
  match records with
  | [] => true
  | [r] =>
      match RBody r with
      | OPTResource options =>
          (zlen options =? 0) && bool_decide (RName r = bs ".") && (RType r =? TypeOPT) && (512 <=? RClass r)
          && (RClass r <=? 4096) && (RTTL r =? 0)
      | _ => false
      end
  | _ => false
  end.

(** The records of one binding that answer a question. [Length] is set when packing. *)
Definition answer_records (q : Question) (ttl : Z) (addrs : list Addr) : list Resource :=
  omap (fun a =>
    let record body := Some {| RName := QName q; RType := QType q; RClass := ClassINET; RTTL := ttl; RLength := 0; RBody := body |} in
    match a with
    | V4 v => if QType q =? TypeA then record (AResource v) else None
    | V6 v _ => if QType q =? TypeAAAA then record (AAAAResource v) else None
    | NoAddr => None
    end) addrs.

Definition respond (query : Message) (questions : list Question) (rcode : Z) (answers : list Resource) (truncated : bool) : Message :=
  {| MID := MID query; Response := true; OpCode := 0; Authoritative := false; Truncated := truncated;
     RecursionDesired := RecursionDesired query; RecursionAvailable := false; AuthenticData := false; RCode := rcode;
     Questions := questions; Answers := answers; Authorities := []; Additionals := [] |}.

(** The answer to the one question of a query. *)
Definition decide_answer (d : view) (now : Z) (q : Question) : Z * list Resource :=
  let name := owner_of (QName q) in
  if negb (QClass q =? ClassINET) || (negb (QType q =? TypeA) && negb (QType q =? TypeAAAA)) || negb (hostname name)
  then (RCodeRefused, [])
  else if withdrawn d || (now <? vissued d) || negb (now <? vexpires d) then (RCodeServerFailure, [])
  else match bindings d !! name with
       | None => (RCodeRefused, [])
       | Some b => (0, answer_records q (Z.quot (vexpires d - now) Second mod 2 ^ 32) (addresses b))
       end.

Definition bad_query (query : Message) : bool :=
  Response query || negb (OpCode query =? 0) || Truncated query || negb (RCode query =? 0) || Authoritative query
  || RecursionAvailable query || AuthenticData query || negb (zlen (Questions query) =? 1) || negb (zlen (Answers query) =? 0)
  || negb (zlen (Authorities query) =? 0) || negb (emptyEDNS (Additionals query)).

Section answer.
Context (Pack : Message -> option bytes) (Unpack : bytes -> option Message).

Definition Answer (d : view) (raw : bytes) (is_tcp : bool) (now : Z) : option bytes :=
  if (now =? 0) || (512 <? zlen raw) || negb (wireEnd raw) || negb (Z.land (at_ raw 3) 0x40 =? 0) then None
  else
    match Unpack raw with
    | None => None
    | Some query =>
        if bad_query query then None
        else
          match Questions query with
          | q :: _ =>
              let '(rcode, answers) := decide_answer d now q in
              let limit := if is_tcp then maxDNSBytes else 512 in
              match Pack (respond query (Questions query) rcode answers false) with
              | None => None
              | Some encoded =>
                  if limit <? zlen encoded then
                    match Pack (respond query (Questions query) rcode [] true) with
                    | Some encoded => if limit <? zlen encoded then None else Some encoded
                    | None => None
                    end
                  else Some encoded
              end
          | [] => None
          end
    end.

(** A record a view may give for a question. *)
Definition answerable (d : view) (now : Z) (q : Question) (r : Resource) : Prop :=
  withdrawn d = false /\ vissued d <= now < vexpires d /\ RName r = QName q /\ RTTL r * Second <= vexpires d - now /\
  exists b a, bindings d !! owner_of (QName q) = Some b /\ a ∈ addresses b /\
    match RBody r with
    | AResource v => QType q = TypeA /\ a = V4 v
    | AAAAResource v => QType q = TypeAAAA /\ exists z, a = V6 v z
    | _ => False
    end.

Lemma decide_answerable d now q rcode answers :
  decide_answer d now q = (rcode, answers) -> Forall (answerable d now q) answers.
Proof.
  unfold decide_answer. destruct (_ || _ || _); [intros [= _ <-]; constructor|].
  destruct (withdrawn d || _ || _) eqn:Ew; [intros [= _ <-]; constructor|].
  destruct (bindings d !! _) as [b|] eqn:Eb; [|intros [= _ <-]; constructor]. intros [= _ <-].
  apply Forall_forall. intros r Hr. unfold answer_records in Hr. apply list_elem_of_omap in Hr as (a & Ha & Er).
  bool_norm. assert (Httl : (vexpires d - now) ÷ Second mod 2 ^ 32 * Second <= vexpires d - now).
  { unfold Second. rewrite Z.quot_div_nonneg by lia.
    pose proof (Z.mod_le ((vexpires d - now) / 1000000000) (2 ^ 32)).
    pose proof (Z.div_pos (vexpires d - now) 1000000000). pose proof (Z.mul_div_le (vexpires d - now) 1000000000). lia. }
  destruct a as [|v|v z]; [done|destruct (QType q =? TypeA) eqn:Et|destruct (QType q =? TypeAAAA) eqn:Et]; try done;
    injection Er as <-; unfold answerable; cbn [RName RTTL RBody]; split_and!; try done; try lia.
  - exists b, (V4 v). split_and!; [done|done|lia|done].
  - exists b, (V6 v z). split_and!; [done|done|lia|by exists z].
Qed.

(** A workload's DNS view answers only from its bindings. Any reply fits its
    transport and repeats the query; each address in it is one bound to the very name
    asked, of the type asked, and its time to live does not outlast the firewall. A
    withdrawn or expired view, and any other name, gets no address. *)
Theorem workload_answers_bound (d : view) (raw encoded : bytes) (is_tcp : bool) (now : Z) :
  Answer d raw is_tcp now = Some encoded ->
  zlen encoded <= (if is_tcp then 4096 else 512) /\
  exists query q response, Unpack raw = Some query /\ Questions query = [q] /\ Pack response = Some encoded /\
    MID response = MID query /\ Questions response = [q] /\ Forall (answerable d now q) (Answers response).
Proof.
  unfold Answer. destruct (_ || _ || _ || _); [done|]. destruct (Unpack raw) as [query|]; [|done].
  destruct (bad_query query) eqn:Eq; [done|]. unfold bad_query in Eq. bool_norm.
  destruct (Questions query) as [|q [|q' qs]] eqn:Eqs; [done| |rewrite !zlen_cons in *; pose proof (zlen_nonneg qs); lia].
  destruct (decide_answer d now q) as [rcode answers] eqn:Ed. pose proof (decide_answerable _ _ _ _ _ Ed) as Hans.
  destruct (Pack (respond query [q] rcode answers false)) as [e1|] eqn:P1; [|done].
  destruct (_ <? zlen e1) eqn:L1.
  - destruct (Pack (respond query [q] rcode [] true)) as [e2|] eqn:P2; [|done]. destruct (_ <? zlen e2) eqn:L2; [done|].
    intros [= <-]. split; [unfold maxDNSBytes in *; destruct is_tcp; lia|].
    exists query, q, (respond query [q] rcode [] true). by split_and!.
  - intros [= <-]. split; [unfold maxDNSBytes in *; destruct is_tcp; lia|].
    exists query, q, (respond query [q] rcode answers false). by split_and!.
Qed.

End answer.

(** ** A sample query *)

Definition sample_query : Message := {|
  MID := 7; Response := false; OpCode := 0; Authoritative := false; Truncated := false; RecursionDesired := true;
  RecursionAvailable := false; AuthenticData := false; RCode := 0;
  Questions := [{| QName := bs "example.com."; QType := TypeA; QClass := ClassINET |}]; Answers := []; Authorities := [];
  Additionals := [] |}.

(** The header of a query with one question, and the question. *)
Definition sample_raw : bytes :=
  [0; 7; 1; 0; 0; 1; 0; 0; 0; 0; 0; 0; 7] ++ bs "example" ++ [3] ++ bs "com" ++ [0; 0; 1; 0; 1].

(** A stand-in for the message library that prints how many answers there are. *)
Definition sample_pack (m : Message) : option bytes := Some [MID m; zlen (Answers m)].
Definition sample_unpack (raw : bytes) : option Message := if bool_decide (raw = sample_raw) then Some sample_query else None.

Lemma workload_answers_bound_witness :
  exists d, NewWorkloadDNS sample_job sample_bindings (time_Unix 1010) = inl d /\
    Answer sample_pack sample_unpack d sample_raw false (time_Unix 1030) = Some [7; 1] /\ zlen [7; 1] <= 512.
Proof.
  destruct (NewWorkloadDNS sample_job sample_bindings (time_Unix 1010)) as [d|] eqn:E; [|vm_compute in E; discriminate].
  exists d. split; [reflexivity|].
  assert (Ha : Answer sample_pack sample_unpack d sample_raw false (time_Unix 1030) = Some [7; 1]).
  { vm_compute in E. injection E as <-. vm_compute. reflexivity. }
  split; [exact Ha|]. apply (workload_answers_bound sample_pack sample_unpack d sample_raw [7; 1] false (time_Unix 1030) Ha).
Defined.

End WorkloadDNS.
