(* ===== verification/Route.v ===== *)
(** The route of a job ([src/internal/networkpolicy/lifecycle.go]): installation,
    renewal and irreversible withdrawal of its firewall through an actuator that owns
    the routing namespace. *)

From Stdlib Require Import ZifyBool.
From S2P Require Import Prelude Utf8 Strconv World Policy Binder Firewall.

Open Scope world_scope.

(** ** The actuator *)

Inductive routeChangeKind := routeInstall | routeRefresh | routeWithdraw | routeRemove.

Record FirewallChange := { cjob : bytes; program : bytes; kind : routeChangeKind }.

Inductive actuationStage :=
  | actuationCommandRefused | actuationCommandCancelled | actuationReadbackInvalid | actuationIdentityChanged.

(** What an [OwnedRoute] may fail with: a diagnostic of this package, or anything else. *)
Inductive applyError := Diagnostic (s : actuationStage) | OtherError.

Inductive routeError := Net (e : netError) | ErrActuation | Actuation (s : actuationStage).

Record OwnedRoute (W : Type) := {
  rjob : bytes;
  Apply : context -> FirewallChange -> M W (option applyError);
  Disconnect : context -> M W bool;      (* true: severed *)
}.
Arguments rjob {W} _.
Arguments Apply {W} _ _ _.
Arguments Disconnect {W} _ _.

Record RouteSession := {
  sjob : bytes;
  srules : Firewall;
  sview : WorkloadDNS.view;
  withdrawn : bool;
  disconnected : bool;
  removed : bool;
  sctx : context;
  stopped : bool;
}.

Definition routeOperationTimeout : Z := 3 * Second.

Definition set_session (s : RouteSession) (r : Firewall) (v : WorkloadDNS.view) (w d x st : bool) : RouteSession :=
  {| sjob := sjob s; srules := r; sview := v; withdrawn := w; disconnected := d; removed := x; sctx := sctx s;
     stopped := st |}.

(** [s.ctx.Err()]: the parent's, or that of [s.stop]. *)
Definition session_err (s : RouteSession) (t : Z) : option ctxErr := if stopped s then Some Canceled else Err (sctx s) t.

(** A context cancelled when either is done. *)
Definition either (a b : context) : context :=
  match a, b with
  | Some (t1, e), Some (t2, _) => if t1 <=? t2 then Some (t1, e) else Some (t2, Canceled)
  | Some x, None => Some x
  | None, Some (t2, _) => Some (t2, Canceled)
  | None, None => None
  end.

Section session.
Context {W : Type} (now : W -> Z) (route : OwnedRoute W).

Definition apply (job_id : bytes) (ctx : context) (program : bytes) (k : routeChangeKind) : M W (option routeError) :=
  let! t := reads now in
  let bounded := WithTimeout ctx t routeOperationTimeout in
  let! err := Apply route bounded {| cjob := job_id; program := program; kind := k |} in
  let! t := reads now in
  ret (match Err bounded t, err with
       | Some _, _ => Some (Actuation actuationCommandCancelled)
       | None, Some (Diagnostic s) => Some (Actuation s)
       | None, Some OtherError => Some ErrActuation
       | None, None => None
       end).

Definition errors_of {A} (e : option A) : list A := match e with Some x => [x] | None => [] end.

(** The errors are joined; none is success. *)
Definition withdrawLocked (s : RouteSession) : M W (RouteSession * list routeError) :=
  let s := set_session s (srules s) (WorkloadDNS.Withdraw (sview s)) true (disconnected s) (removed s) (stopped s) in
  let! err := match Withdraw (srules s) with
              | inr e => ret (Some (Net e))
              | inl program => apply (sjob s) None program routeWithdraw
              end in
  if disconnected s then ret (s, errors_of err)
  else
    let! t := reads now in
    let! severed := Disconnect route (WithTimeout None t routeOperationTimeout) in
    ret (if severed
         then (set_session s (srules s) (sview s) true true (removed s) (stopped s), errors_of err)
         else (s, errors_of err ++ [ErrActuation])).

(** Without a session only when nothing was attempted. *)
Definition StartRoute (ctx : context) (job_id : bytes) (bindings : list Binding) : M W (option RouteSession * list routeError) :=
  let! t := reads now in
  if negb (bool_decide (Err ctx t = None)) || negb (bool_decide (rjob route = job_id)) then ret (None, [Net ErrPolicy])
  else
    match CompileFirewallWithDNS job_id bindings t with
    | inr e => ret (None, [Net e])
    | inl rs =>
        match WorkloadDNS.NewWorkloadDNS job_id bindings t with
        | inr e => ret (None, [Net e])
        | inl v =>
            let s := {| sjob := job_id; srules := rs; sview := v; withdrawn := false; disconnected := false; removed := false;
                        sctx := ctx; stopped := false |} in
            let! err := apply job_id ctx (install rs) routeInstall in
            let! t := reads now in
            let err := match err with
                       | Some e => Some e
                       | None => if negb (bool_decide (Err ctx t = None)) || negb (t <? fexpires rs) then Some (Net ErrExpired) else None
                       end in
            match err with
            | None => ret (Some s, [])
            | Some e =>
                let! (s, errs) := withdrawLocked s in
                ret (Some s, e :: errs)
            end
        end
    end.

Definition DNS (s : RouteSession) : M W (option WorkloadDNS.view) :=
  let! t := reads now in
  ret (if withdrawn s || negb (bool_decide (session_err s t = None)) || negb (t <? fexpires (srules s)) then None
       else Some (sview s)).

Definition fail (s : RouteSession) (e : routeError) : M W (RouteSession * list routeError) :=
  let! (s, errs) := withdrawLocked s in ret (s, e :: errs).

Definition refresh (s : RouteSession) (ctx : context) (bindings : list Binding) (extension : bool)
  : M W (RouteSession * list routeError) :=
  if withdrawn s then ret (s, [Net ErrExpired])
  else
    let! t := reads now in
    if negb (bool_decide (Err ctx t = None)) || negb (bool_decide (session_err s t = None)) then fail s (Net ErrPolicy)
    else
      let ctx := either ctx (sctx s) in
      match CompileFirewallWithDNS (sjob s) bindings t with
      | inr e => fail s (Net e)
      | inl next =>
          match WorkloadDNS.NewWorkloadDNS (sjob s) bindings t with
          | inr e => fail s (Net e)
          | inl v =>
              match Firewall.refresh (srules s) next t extension with
              | inr e => fail s (Net e)
              | inl program =>
                  let s := set_session s (srules s) (WorkloadDNS.Withdraw (sview s)) (withdrawn s) (disconnected s)
                             (removed s) (stopped s) in
                  let! err := apply (sjob s) ctx program routeRefresh in
                  match err with
                  | Some e => fail s e
                  | None =>
                      let! t := reads now in
                      if negb (bool_decide (Err ctx t = None)) || negb (t <? fexpires next) then fail s (Net ErrExpired)
                      else ret (set_session s next v (withdrawn s) (disconnected s) (removed s) (stopped s), [])
                  end
              end
          end
      end.

Definition Refresh (s : RouteSession) (ctx : context) (bindings : list Binding) := refresh s ctx bindings true.

Definition set_stopped (s : RouteSession) : RouteSession :=
  set_session s (srules s) (sview s) (withdrawn s) (disconnected s) (removed s) true.

Definition SessionWithdraw (s : RouteSession) : M W (RouteSession * list routeError) :=
  if removed s then ret (s, [])
  else let! (s, errs) := withdrawLocked s in ret (set_stopped s, errs).

Definition Close (s : RouteSession) : M W (RouteSession * list routeError) :=
  if removed s then ret (s, [])
  else
    let! (s, errs) := withdrawLocked s in
    let s := set_stopped s in
    if disconnected s then
      let! err := apply (sjob s) None (remove (srules s)) routeRemove in
      ret (match err with
           | Some e => (s, errs ++ [e])
           | None => (set_session s (srules s) (sview s) (withdrawn s) (disconnected s) true (stopped s), errs)
           end)
    else ret (s, errs).

(** One round of the watcher: woken by the context or the timer. *)
Definition watch (s : RouteSession) : M W RouteSession :=
  let! t := reads now in
  if withdrawn s then ret s
  else if negb (bool_decide (session_err s t = None)) || negb (t <? fexpires (srules s)) then
    let! (s, _) := withdrawLocked s in ret s
  else ret s.

End session.

(** ** What the actuator sees *)

Inductive event := EApply (k : routeChangeKind) (ok : bool) | EDisconnect (ok : bool).

Section traced.
Context {W : Type} (now : W -> Z) (route : OwnedRoute W).

Definition tnow (w : W * list event) : Z := now (fst w).

Definition ok_of {A} (o : option A) : bool := match o with None => true | Some _ => false end.

Definition traced_route : OwnedRoute (W * list event) := {|
  rjob := rjob route;
  Apply := fun ctx c '(w, tr) => let '(e, w) := Apply route ctx c w in (e, (w, tr ++ [EApply (kind c) (ok_of e)]));
  Disconnect := fun ctx '(w, tr) => let '(b, w) := Disconnect route ctx w in (b, (w, tr ++ [EDisconnect b])) |}.

(** The lawful orders of calls: one installation, renewals, then only withdrawal,
    and removal of the table only once the route is severed. *)
Inductive phase := Fresh | Live | Ended.

Definition lawful_step (st : phase * bool) (e : event) : option (phase * bool) :=
  match st, e with
  | (Fresh, sev), EApply routeInstall _ => Some (Live, sev)
  | (Live, sev), EApply routeRefresh _ => Some (Live, sev)
  | ((Live | Ended), sev), EApply routeWithdraw _ => Some (Ended, sev)
  | ((Live | Ended), sev), EDisconnect ok => Some (Ended, sev || ok)
  | (Ended, true), EApply routeRemove _ => Some (Ended, true)
  | _, _ => None
  end.

Definition lawful (st : phase * bool) (tr : list event) : option (phase * bool) :=
  foldl (fun st e => match st with Some st => lawful_step st e | None => None end) (Some st) tr.

Lemma lawful_snoc st tr e :
  lawful st (tr ++ [e]) = match lawful st tr with Some st => lawful_step st e | None => None end.
Proof. unfold lawful. by rewrite foldl_snoc. Qed.

(** What holds of a session and the calls made so far. *)
Record session_core (s : RouteSession) (tr : list event) : Prop := {
  so_lawful : lawful (Fresh, false) tr = Some (if withdrawn s then Ended else Live, disconnected s);
  so_disconnected : disconnected s = true -> withdrawn s = true;
  so_removed : removed s = true -> disconnected s = true;
}.

(** The DNS view of a live session and its rules come from the same bindings. *)
Definition view_ok (s : RouteSession) : Prop :=
  withdrawn s = false -> exists bs t, CompileFirewallWithDNS (sjob s) bs t = inl (srules s) /\
    WorkloadDNS.NewWorkloadDNS (sjob s) bs t = inl (sview s).

Definition session_ok (s : RouteSession) (tr : list event) : Prop := session_core s tr /\ view_ok s.

(** [apply] makes one call. *)
Lemma apply_traced job_id ctx prog k w tr :
  exists err w' ok, apply tnow traced_route job_id ctx prog k (w, tr) = (err, (w', tr ++ [EApply k ok])) /\
    (err = None -> ok = true).
Proof.
  unfold apply, bind, reads, ret. cbn [traced_route Apply]. destruct (Apply route _ _ w) as [e w1].
  eexists _, w1, _. split; [reflexivity|]. destruct (Err _ _); [done|]. by destruct e as [[]|].
Qed.

Lemma withdraw_ok s w tr :
  session_core s tr ->
  exists s' errs w' tr', withdrawLocked tnow traced_route s (w, tr) = ((s', errs), (w', tr')) /\ session_ok s' tr' /\
    withdrawn s' = true /\ removed s' = removed s /\ stopped s' = stopped s /\ (errs = [] -> disconnected s' = true).
Proof.
  intros [L D R]. unfold withdrawLocked, bind at 1.
  cbn [set_session srules sjob disconnected sview removed stopped].
  set (s1 := set_session _ _ _ _ _ _ _).
  assert (exists err w1 tr1 st, (match Withdraw (srules s) with inr e => ret (Some (Net e)) |
      inl prog => apply tnow traced_route (sjob s) None prog routeWithdraw end) (w, tr) = (err, (w1, tr1)) /\
      lawful (Fresh, false) tr1 = Some (st, disconnected s) /\ (st = Ended \/ (st = Live /\ disconnected s = false)))
    as (err & w1 & tr1 & st & -> & L1 & Hst).
  { destruct (Withdraw (srules s)) as [prog|e].
    - destruct (apply_traced (sjob s) None prog routeWithdraw w tr) as (err & w1 & ok & -> & _).
      eexists _, _, _, Ended. split; [reflexivity|]. split; [|by left]. rewrite lawful_snoc, L. by destruct (withdrawn s), (disconnected s).
    - eexists _, _, _, _. split; [reflexivity|]. split; [exact L|]. destruct (withdrawn s) eqn:Ew; [by left|right].
      split; [done|]. destruct (disconnected s) eqn:Ed0; [|done]. specialize (D eq_refl). congruence. }
  destruct (disconnected s) eqn:Ed.
  - destruct Hst as [->|[_ ?]]; [|done]. exists s1, (errors_of err), w1, tr1. unfold ret.
    split; [reflexivity|]. split; [|done]. split; [by split|done].
  - unfold bind, reads, ret. cbn [traced_route Disconnect]. destruct (Disconnect route _ w1) as [severed w2].
    assert (L2 : lawful (Fresh, false) (tr1 ++ [EDisconnect severed]) = Some (Ended, severed))
      by (rewrite lawful_snoc, L1; destruct Hst as [->|[-> _]]; by destruct severed).
    destruct severed; eexists _, _, w2, _; (split; [reflexivity|]); (split; [split; [by split|done]|]; cbn; try done).
    split_and!; try done. by destruct err.
Qed.

Lemma fail_ok s e w tr :
  session_core s tr ->
  exists s' errs w' tr', fail tnow traced_route s e (w, tr) = ((s', errs), (w', tr')) /\ session_ok s' tr' /\
    withdrawn s' = true /\ errs <> [].
Proof.
  intros H. unfold fail, bind, ret. destruct (withdraw_ok s w tr H) as (s' & errs & w' & tr' & -> & H' & Hw & _).
  by exists s', (e :: errs), w', tr'.
Qed.

Lemma refresh_ok s ctx bs ext w tr :
  session_ok s tr ->
  exists s' errs w' tr', refresh tnow traced_route s ctx bs ext (w, tr) = ((s', errs), (w', tr')) /\ session_ok s' tr' /\
    (errs <> [] -> withdrawn s' = true) /\ (withdrawn s = true -> withdrawn s' = true).
Proof.
  intros [H V]. unfold refresh. destruct (withdrawn s) eqn:Ew.
  { exists s, [Net ErrExpired], w, tr. unfold ret. by split_and!. }
  assert (Hfail : forall s0 e w0 tr0, session_core s0 tr0 ->
    exists s' errs w' tr', fail tnow traced_route s0 e (w0, tr0) = ((s', errs), (w', tr')) /\ session_ok s' tr' /\
    (errs <> [] -> withdrawn s' = true) /\ (false = true -> withdrawn s' = true)).
  { intros s0 e w0 tr0 H0. destruct (fail_ok s0 e w0 tr0 H0) as (s' & errs & w' & tr' & E & ? & ? & ?).
    exists s', errs, w', tr'. split_and!; [exact E|done|done|done]. }
  unfold bind at 1, reads. destruct (_ || _); [by apply Hfail|].
  destruct (CompileFirewallWithDNS (sjob s) bs _) as [next|e] eqn:Ec; [|by apply Hfail].
  destruct (WorkloadDNS.NewWorkloadDNS (sjob s) bs _) as [v|e] eqn:Ev; [|by apply Hfail].
  destruct (Firewall.refresh _ _ _ _) as [prog|e]; [|by apply Hfail]. unfold bind at 1.
  cbn [set_session sjob].
  destruct (apply_traced (sjob s) (either ctx (sctx s)) prog routeRefresh w tr) as (err & w1 & ok & -> & _).
  set (s1 := set_session s (srules s) _ _ _ _ _). destruct H as [L D R]. rewrite Ew in L.
  assert (disconnected s = false) as Ed by (destruct (disconnected s) eqn:Ed; [rewrite D in Ew; done|done]).
  assert (L1 : lawful (Fresh, false) (tr ++ [EApply routeRefresh ok]) = Some (Live, disconnected s))
    by (by rewrite lawful_snoc, L, Ed).
  assert (H1 : session_core s1 (tr ++ [EApply routeRefresh ok])) by (split; cbn; rewrite ?Ew, ?Ed in *; done).
  destruct err as [e|]; [by apply Hfail|]. unfold bind, reads. destruct (_ || _); [by apply Hfail|]. unfold ret.
  eexists _, [], w1, _. split; [reflexivity|]. split; [split|done].
  - split; cbn; rewrite ?Ew, ?Ed in *; done.
  - intros _. cbn. by exists bs, (tnow (w, tr)).
Qed.

(** ** Any use of a session *)

Inductive use :=
  | UseDNS
  | UseRefresh (ctx : context) (bindings : list Binding) (extension : bool)
  | UseWithdraw
  | UseClose
  | UseWatch.

Definition perform (s : RouteSession) (u : use) : M (W * list event) RouteSession :=
  match u with
  | UseDNS => ret s
  | UseRefresh ctx bs ext => let! (s, _) := refresh tnow traced_route s ctx bs ext in ret s
  | UseWithdraw => let! (s, _) := SessionWithdraw tnow traced_route s in ret s
  | UseClose => let! (s, _) := Close tnow traced_route s in ret s
  | UseWatch => watch tnow traced_route s
  end.

Fixpoint perform_all (s : RouteSession) (us : list use) : M (W * list event) RouteSession :=
  match us with
  | [] => ret s
  | u :: rest => let! s := perform s u in perform_all s rest
  end.

Lemma set_stopped_ok s tr : session_ok s tr -> session_ok (set_stopped s) tr.
Proof. intros [[L D R] V]. split; [by split|exact V]. Qed.

Lemma close_ok s w tr :
  session_ok s tr ->
  exists s' errs w' tr', Close tnow traced_route s (w, tr) = ((s', errs), (w', tr')) /\ session_ok s' tr' /\
    (withdrawn s = true -> withdrawn s' = true) /\ (errs = [] -> removed s' = true).
Proof.
  intros H. unfold Close. destruct (removed s) eqn:Er; [exists s, [], w, tr; by split_and!|]. unfold bind at 1.
  destruct (withdraw_ok s w tr (proj1 H)) as (s1 & errs & w1 & tr1 & -> & H1 & Hw & Hr & _ & Hd).
  apply set_stopped_ok in H1. cbn zeta. destruct (disconnected (set_stopped s1)) eqn:Ed.
  2:{ unfold ret. exists (set_stopped s1), errs, w1, tr1. split_and!; [done|done|done|].
      intros He. cbn in Ed. rewrite (Hd He) in Ed. done. }
  unfold bind, ret.
  destruct (apply_traced (sjob (set_stopped s1)) None (remove (srules (set_stopped s1))) routeRemove w1 tr1)
    as (err & w2 & ok & -> & _).
  destruct H1 as [[L D R] V]. cbn in L, D, R, Ed. rewrite Hw, Ed in L.
  assert (L2 : lawful (Fresh, false) (tr1 ++ [EApply routeRemove ok]) = Some (Ended, true)) by (by rewrite lawful_snoc, L).
  destruct err as [e|]; eexists _, _, w2, _; (split; [reflexivity|]); (split; [split; [split|]|]); cbn; rewrite ?Hw, ?Ed; try done.
  split; [done|]. by destruct errs.
Qed.

Lemma use_ok s u w tr :
  session_ok s tr ->
  exists s' w' tr', perform s u (w, tr) = (s', (w', tr')) /\ session_ok s' tr' /\ (withdrawn s = true -> withdrawn s' = true).
Proof.
  intros H. destruct u as [|ctx bs ext| | |]; cbn [perform]; unfold bind, ret.
  - by exists s, w, tr.
  - destruct (refresh_ok s ctx bs ext w tr H) as (s' & errs & w' & tr' & -> & ? & _ & ?). by exists s', w', tr'.
  - unfold SessionWithdraw. destruct (removed s) eqn:Er; [by exists s, w, tr|]. unfold bind, ret.
    destruct (withdraw_ok s w tr (proj1 H)) as (s1 & errs & w1 & tr1 & -> & H1 & Hw & _).
    exists (set_stopped s1), w1, tr1. split_and!; [done|by apply set_stopped_ok|done].
  - destruct (close_ok s w tr H) as (s' & errs & w' & tr' & -> & ? & ? & _). by exists s', w', tr'.
  - unfold watch, bind, reads, ret. destruct (withdrawn s) eqn:Ew; [by exists s, w, tr|].
    destruct (_ || _); [|by exists s, w, tr].
    destruct (withdraw_ok s w tr (proj1 H)) as (s1 & errs & w1 & tr1 & -> & H1 & Hw & _). by exists s1, w1, tr1.
Qed.

Lemma uses_ok us : forall s w tr,
  session_ok s tr ->
  exists s' w' tr', perform_all s us (w, tr) = (s', (w', tr')) /\ session_ok s' tr' /\ (withdrawn s = true -> withdrawn s' = true).
Proof.
  induction us as [|u us IH]; intros s w tr H; [by exists s, w, tr|]. cbn [perform_all]. unfold bind.
  destruct (use_ok s u w tr H) as (s1 & w1 & tr1 & -> & H1 & W1).
  destruct (IH s1 w1 tr1 H1) as (s2 & w2 & tr2 & -> & H2 & W2). exists s2, w2, tr2. split_and!; [done|done|auto].
Qed.

Lemma session_start_ok ctx job_id bs w :
  exists res errs w' tr', StartRoute tnow traced_route ctx job_id bs (w, []) = ((res, errs), (w', tr')) /\
    match res with
    | Some s => session_ok s tr' /\ (errs <> [] -> withdrawn s = true)
    | None => tr' = [] /\ errs <> []
    end.
Proof.
  unfold StartRoute, bind at 1, reads. destruct (_ || _); [unfold ret; by eexists None, _, w, []|].
  destruct (CompileFirewallWithDNS job_id bs _) as [rs|e] eqn:Ec; [|unfold ret; by eexists None, _, w, []].
  destruct (WorkloadDNS.NewWorkloadDNS job_id bs _) as [v|e] eqn:Ev; [|unfold ret; by eexists None, _, w, []].
  unfold bind at 1. destruct (apply_traced job_id ctx (install rs) routeInstall w []) as (err & w1 & ok & -> & _).
  set (s := {| sjob := job_id; withdrawn := false |}).
  assert (H : session_core s ([] ++ [EApply routeInstall ok])) by by split.
  unfold bind at 1. destruct (match err with Some e => Some e | None => _ end) as [e|].
  - unfold bind, ret. destruct (withdraw_ok s w1 _ H) as (s' & errs & w2 & tr2 & -> & H2 & Hw & _).
    exists (Some s'), (e :: errs), w2, tr2. by split_and!.
  - unfold ret. exists (Some s), [], w1, [EApply routeInstall ok]. split; [done|]. split; [|done]. split; [exact H|].
    intros _. by exists bs, (tnow (w, [])).
Qed.

Lemma severed_by tr : forall st sev ph, lawful st tr = Some (ph, sev) -> sev = true -> snd st = true \/ EDisconnect true ∈ tr.
Proof.
  induction tr as [|e tr IH] using rev_ind; intros st sev ph; cbn; [intros [= ->] ->; by left|].
  rewrite lawful_snoc. destruct (lawful st tr) as [[ph1 sev1]|] eqn:E; [|done]. intros Hs ->.
  destruct sev1; [destruct (IH st true ph1 E eq_refl) as [?|?]; [by left|right; apply elem_of_app; by left]|].
  right. apply elem_of_app. right. destruct ph1, e as [[] ?|[]]; cbn in Hs; simplify_eq; by apply list_elem_of_singleton.
Qed.

(** Whatever the actuator does and however a session is used, the calls made to
    the actuator are lawful: one installation, then renewals, then nothing but
    withdrawal and disconnection, and the table is removed only after the route was
    severed. A failed installation leaves the session withdrawn, and withdrawal is
    final. *)
Theorem route_calls_lawful (ctx : context) (job_id : bytes) (bs : list Binding) (us : list use) (w : W) :
  let '((res, errs), (w1, tr1)) := StartRoute tnow traced_route ctx job_id bs (w, []) in
  match res with
  | None => tr1 = [] /\ errs <> []
  | Some s =>
      let '(s', (_, tr')) := perform_all s us (w1, tr1) in
      lawful (Fresh, false) tr' = Some (if withdrawn s' then Ended else Live, disconnected s') /\
      (errs <> [] -> withdrawn s' = true) /\ (withdrawn s = true -> withdrawn s' = true)
  end.
Proof.
  destruct (session_start_ok ctx job_id bs w) as (res & errs & w1 & tr1 & -> & H). destruct res as [s|]; [|done].
  destruct H as [H He]. destruct (uses_ok us s w1 tr1 H) as (s' & w' & tr' & -> & [[L _ _] _] & Hw).
  split_and!; [done|auto|done].
Qed.

(** A close that reports no error has proven the teardown: the route was severed
    and the table removed, however the session was used before. *)
Theorem route_close_proves_teardown (ctx : context) (job_id : bytes) (bs : list Binding) (us : list use) (w : W) :
  let '((res, _), (w1, tr1)) := StartRoute tnow traced_route ctx job_id bs (w, []) in
  match res with
  | None => True
  | Some s =>
      let '(s1, w2) := perform_all s us (w1, tr1) in
      let '((s2, errs), (_, tr')) := Close tnow traced_route s1 w2 in
      errs = [] -> removed s2 = true /\ withdrawn s2 = true /\ EDisconnect true ∈ tr'
  end.
Proof.
  destruct (session_start_ok ctx job_id bs w) as (res & errs & w1 & tr1 & -> & H). destruct res as [s|]; [|done].
  destruct H as [H He]. destruct (uses_ok us s w1 tr1 H) as (s1 & w2 & tr2 & -> & H1 & _).
  destruct (close_ok s1 w2 tr2 H1) as (s2 & errs' & w3 & tr3 & -> & [[L D R] _] & _ & Hr). intros E.
  specialize (Hr E). specialize (R Hr). split_and!; [done|by apply D|].
  rewrite (D R), R in L. by destruct (severed_by _ _ _ _ L eq_refl).
Qed.

(** A session hands out a DNS view only while it is live, before its rules expire,
    and the view and the installed rules were made from the same bindings. *)
Theorem route_view_matches_rules (ctx : context) (job_id : bytes) (bs : list Binding) (us : list use) (w : W) :
  let '((res, _), (w1, tr1)) := StartRoute tnow traced_route ctx job_id bs (w, []) in
  match res with
  | None => True
  | Some s =>
      let '(s1, w2) := perform_all s us (w1, tr1) in
      match fst (DNS tnow s1 w2) with
      | None => True
      | Some v =>
          withdrawn s1 = false /\ tnow w2 < fexpires (srules s1) /\
          exists bs' t, CompileFirewallWithDNS (sjob s1) bs' t = inl (srules s1) /\
            WorkloadDNS.NewWorkloadDNS (sjob s1) bs' t = inl v
      end
  end.
Proof.
  destruct (session_start_ok ctx job_id bs w) as (res & errs & w1 & tr1 & -> & H). destruct res as [s|]; [|done].
  destruct H as [H He]. destruct (uses_ok us s w1 tr1 H) as (s1 & w2 & tr2 & -> & [_ V] & _).
  unfold DNS, bind, reads, ret. cbn [fst]. destruct (withdrawn s1 || _ || _) eqn:E; [done|]. bool_norm.
  split_and!; [done|done|by apply V].
Qed.

End traced.
