(* ===== verification/AuthorityUpdate.v ===== *)
(** The updates an authority is forwarded with to the root controller
    ([src/internal/networkpolicy/authority_update.go]): a canonical encoding of a
    reconciliation, without the capability to upload. *)

From Stdlib Require Import ZifyBool.
From S2P Require Import Prelude Utf8 Strconv Endian Sha256 Policy Binder Messages Authority Firewall.
Import Names Wire.

(** The protobuf library on reconciliations: [proto.Size], deterministic
    [proto.Marshal] and [proto.Unmarshal]. The laws are its documented round trip
    and that [Size] is the length of the encoding. *)
Class ReconciliationCodec `{TS : Timestamps} := {
  RSize : LeaseReconciliation -> Z;
  RMarshal : LeaseReconciliation -> option bytes;
  RUnmarshal : bytes -> option LeaseReconciliation;
}.

Class CodecLaws `{RC : ReconciliationCodec} : Prop := {
  RSize_Marshal r raw : RMarshal r = Some raw -> RSize r = zlen raw;
  RUnmarshal_Marshal r raw : RMarshal r = Some raw -> RUnmarshal raw = Some r;
}.

Definition maximumAuthorityUpdateBytes : Z := 16 * 1024.

Section update.
Context {TS : Timestamps} {RC : ReconciliationCodec}.

Record AuthorityUpdate := {
  Reconciliation : option LeaseReconciliation;
  Features : list Z;
  CredentialExpiry : Z;
}.

Definition clear_upload (u : ObjectUpload) : ObjectUpload :=
  {| Uri := []; ObjectKey := ObjectKey u; UContentType := UContentType u; UExpiresAt := None; uunknown := uunknown u; urest := urest u |}.

Definition project (r : LeaseReconciliation) : LeaseReconciliation :=
  {| RLease := RLease r; RAttempt := RAttempt r; Status := Status r; CancellationId := CancellationId r;
     RPhase := RPhase r; Observed := Observed r; CompleteLogUpload := clear_upload <$> CompleteLogUpload r;
     Disposition := Disposition r; TerminalMessageId := TerminalMessageId r; runknown := runknown r; rrest := rrest r |}.

Definition projectedReconciliation (value : option LeaseReconciliation) : option LeaseReconciliation :=
  match value with
  | None => None
  | Some r => if (maximumAuthorityUpdateBytes - 20 <? RSize r) || negb (closedWireV2 (rreflect r)) then None
              else Some (project r)
  end.

(** [proto.Equal(r, projected)]: the two can differ in the upload only. *)
Definition projected_already (r : LeaseReconciliation) : bool :=
  match CompleteLogUpload r with
  | None => true
  | Some u => bool_decide (Uri u = []) && match UExpiresAt u with None => true | Some _ => false end
  end.

Definition feature_bits (features : list Z) : Z := fold_left (fun bits f => Z.lor bits (Z.shiftl 1 (f - 1))) features 0.

(** [Time.Unix] and [Time.Nanosecond] of a time in nanoseconds. *)
Definition nanosecond (t : Z) : Z := t mod Second.

Definition EncodeAuthorityUpdate (value : AuthorityUpdate) : option bytes :=
  match authorityFeatures (Features value) with
  | Some true =>
      if (CredentialExpiry value =? 0) || negb (TimestampValid (TimestampNew (CredentialExpiry value))) then None
      else
        match projectedReconciliation (Reconciliation value) with
        | None => None
        | Some r =>
            match RMarshal r with
            | None => None
            | Some raw =>
                if (zlen raw =? 0) || (maximumAuthorityUpdateBytes - 20 <? zlen raw) then None
                else Some (bs "PVA1" ++ put_be 2 (feature_bits (Features value)) ++ [0; 0]
                           ++ put_be 8 (to_uint64 (Unix (CredentialExpiry value)))
                           ++ put_be 4 (nanosecond (CredentialExpiry value)) ++ raw)
            end
        end
  | _ => None
  end.

(** [features] from the bits, in the order of the loop. *)
Definition features_of (bits : Z) : list Z :=
  List.filter (fun f => Z.testbit bits (f - 1)) (map (fun i => Z.of_nat i + 1) (seq 0 10)).

(** [raw[a:b]], where the length of [raw] allows it. *)
Definition slice (raw : bytes) (a b : nat) : bytes := take (b - a) (drop a raw).

Definition DecodeAuthorityUpdate (raw : bytes) : option AuthorityUpdate :=
  if (zlen raw <=? 20) || (maximumAuthorityUpdateBytes <? zlen raw) || negb (bool_decide (slice raw 0 4 = bs "PVA1"))
     || negb (bool_decide (slice raw 6 8 = [0; 0]))
  then None
  else
    let bits := get_be (slice raw 4 6) in
    if negb (Z.shiftr bits 10 =? 0) then None
    else
      let nanos := get_be (slice raw 16 20) in
      if Second <=? nanos then None
      else
        let expiry := time_Unix (to_int64 (get_be (slice raw 8 16))) + nanos in
        match RUnmarshal (drop 20 raw) with
        | None => None
        | Some r =>
            match projectedReconciliation (Some r) with
            | None => None
            | Some _ =>
                if negb (projected_already r) then None
                else
                  let value := {| Reconciliation := Some r; Features := features_of bits; CredentialExpiry := expiry |} in
                  if bool_decide (EncodeAuthorityUpdate value = Some raw) then Some value else None
            end
        end.

(** ** The feature bits *)

Lemma feature_bits_from f : forall acc i, 0 <= i ->
  Forall (fun x => 1 <= x) f ->
  Z.testbit (fold_left (fun bits x => Z.lor bits (Z.shiftl 1 (x - 1))) f acc) i = Z.testbit acc i || bool_decide (i + 1 ∈ f).
Proof.
  induction f as [|x f IH]; intros acc i Hi Hf; cbn [fold_left].
  { rewrite bool_decide_eq_false_2 by apply not_elem_of_nil. by rewrite orb_false_r. }
  inversion Hf as [|? ? Hx Hr]; subst. rewrite IH by done. rewrite Z.lor_spec, Z.shiftl_spec by lia.
  rewrite <-orb_assoc. f_equal. change 1 with (2 ^ 0) at 1. rewrite Z.pow2_bits_eqb by lia.
  destruct (decide (i + 1 = x)) as [<-|Hn].
  - rewrite (bool_decide_eq_true_2 (i + 1 ∈ i + 1 :: f)) by left. by rewrite (proj2 (Z.eqb_eq _ _)) by lia.
  - rewrite (proj2 (Z.eqb_neq _ _)) by lia. cbn. apply bool_decide_ext. rewrite elem_of_cons. naive_solver.
Qed.

Lemma feature_bits_spec f i :
  0 <= i -> Forall (fun x => 1 <= x <= 10) f -> Z.testbit (feature_bits f) i = bool_decide (i + 1 ∈ f).
Proof.
  intros Hi Hf. unfold feature_bits. rewrite feature_bits_from; [|done|by eapply Forall_impl; [exact Hf|]; cbn; lia].
  by rewrite Z.bits_0.
Qed.

Lemma feature_bits_range f : Forall (fun x => 1 <= x <= 10) f -> 0 <= feature_bits f < 1024.
Proof.
  intros Hf. assert (H0 : 0 <= feature_bits f).
  { apply Z.bits_iff_nonneg_ex. exists 10. intros m Hm. rewrite feature_bits_spec by (done || lia).
    apply bool_decide_eq_false_2. intros Hin. rewrite Forall_forall in Hf. specialize (Hf _ Hin). lia. }
  split; [done|]. destruct (Z.eq_dec (feature_bits f) 0) as [->|Hn]; [lia|].
  apply (Z.log2_lt_pow2 _ 10); [lia|]. apply Z.nle_gt. intros Hl.
  pose proof (Z.bit_log2 (feature_bits f) ltac:(lia)) as Hb. rewrite feature_bits_spec in Hb by (done || lia).
  apply bool_decide_eq_true in Hb. rewrite Forall_forall in Hf. specialize (Hf _ Hb). lia.
Qed.

(** Every word of ten bits is the bits of the list read from it, and which list is
    accepted depends on four of its bits only. *)
Definition features_canonical (bits : Z) : bool :=
  (feature_bits (features_of bits) =? bits)
  && Bool.eqb (match authorityFeatures (features_of bits) with Some true => true | _ => false end)
       (Z.testbit bits 0 && Z.testbit bits 2 && Z.testbit bits 8 && Z.testbit bits 9).

Lemma all_features_canonical bits : 0 <= bits < 1024 -> features_canonical bits = true.
Proof.
  assert (H : forallb (fun n => features_canonical (Z.of_nat n)) (seq 0 1024) = true) by (vm_compute; reflexivity).
  intros Hb. rewrite forallb_forall in H. specialize (H (Z.to_nat bits)). rewrite Z2Nat.id in H by lia.
  apply H, in_seq. lia.
Qed.

Lemma features_in f : forall seen s, collect_features seen f = Some s -> Forall (fun x => 1 <= x <= 10) f /\ forall x, x ∈ s <-> x ∈ seen \/ x ∈ f.
Proof.
  induction f as [|x f IH]; intros seen s; cbn [collect_features].
  { intros [= <-]. split; [constructor|]. intros x. rewrite elem_of_nil. naive_solver. }
  destruct (_ || _) eqn:E; [done|]. bool_norm. intros Hs. destruct (IH _ _ Hs) as [F1 F2]. split.
  - constructor; [lia|done].
  - intros y. rewrite F2, !elem_of_cons. naive_solver.
Qed.

Lemma negotiated_features f :
  authorityFeatures f = Some true -> Forall (fun x => 1 <= x <= 10) f /\ 1 ∈ f /\ 3 ∈ f /\ 9 ∈ f /\ 10 ∈ f.
Proof.
  unfold authorityFeatures. destruct (collect_features [] f) as [s|] eqn:E; [|done].
  destruct (features_in f [] s E) as [H1 H2]. destruct (_ && _) eqn:Ea; [done|]. intros [= Hb].
  split; [done|]. rewrite Hb in Ea. cbn in Ea. bool_norm.
  split_and!; match goal with |- ?x ∈ f => destruct (proj1 (H2 x)) as [Hn|?]; [done|by apply elem_of_nil in Hn|done] end.
Qed.

(** The features of a negotiated list survive the encoding, in ascending order. *)
Lemma features_roundtrip f :
  authorityFeatures f = Some true ->
  let g := features_of (feature_bits f) in
  authorityFeatures g = Some true /\ feature_bits g = feature_bits f /\ (forall x, x ∈ g <-> x ∈ f).
Proof.
  intros Hf. destruct (negotiated_features f Hf) as (Hr & H1 & H3 & H9 & H10). cbn zeta.
  pose proof (all_features_canonical _ (feature_bits_range f Hr)) as Hc. unfold features_canonical in Hc. bool_norm.
  split_and!; [|done|].
  - apply Bool.eqb_prop in H0. rewrite !feature_bits_spec in H0 by (done || lia).
    rewrite !bool_decide_eq_true_2 in H0 by done. destruct (authorityFeatures (features_of _)) as [[]|]; [done|discriminate H0..].
  - intros x. unfold features_of. rewrite list_elem_of_In, filter_In, <-!list_elem_of_In, list_elem_of_fmap. split.
    + intros [(i & -> & _) Hb]. rewrite feature_bits_spec in Hb by (done || lia). apply bool_decide_eq_true in Hb.
      by replace (Z.of_nat i + 1 - 1 + 1) with (Z.of_nat i + 1) in Hb by lia.
    + intros Hx. pose proof Hr as Hr'. rewrite Forall_forall in Hr'. specialize (Hr' x Hx). split.
      * exists (Z.to_nat (x - 1)). split; [lia|]. apply elem_of_seq. lia.
      * rewrite feature_bits_spec by (done || lia). apply bool_decide_eq_true_2. by replace (x - 1 + 1) with x by lia.
Qed.

(** ** The projection *)

Lemma closed_fields_app v u a b :
  closedWireV2 (Msg v u (a ++ b)) = closedWireV2 (Msg v u a) && closedWireV2 (Msg v u b).
Proof.
  cbn [closedWireV2]. destruct v, (zlen u =? 0); [|done..]. cbn [andb].
  induction a as [|[|d|ms|] a IH]; cbn [app]; [done|done| | |done];
    rewrite IH; by rewrite andb_assoc.
Qed.

Lemma closed_present v u b : closedWireV2 (Msg v u (present b)) = closedWireV2 (Msg v u []).
Proof. unfold present. by destruct (bool_decide (b = [])). Qed.

Lemma project_closed r : closedWireV2 (rreflect r) = true -> closedWireV2 (rreflect (project r)) = true.
Proof.
  unfold rreflect. rewrite !closed_fields_app, !closed_present. cbn [project runknown rrest CompleteLogUpload TerminalMessageId].
  intros H. bool_norm. rewrite H, H0. cbn [andb]. destruct (CompleteLogUpload r) as [u|]; [|done].
  cbn [fmap option_fmap option_map closedWireV2] in H1 |- *. bool_norm. unfold ureflect in *.
  rewrite !closed_fields_app, !closed_present in *. bool_norm.
  cbn [clear_upload Uri ObjectKey UContentType UExpiresAt uunknown urest].
  repeat match goal with E : closedWireV2 _ = true |- _ => rewrite E; clear E end.
  by repeat match goal with E : zlen _ = 0 |- _ => rewrite E end.
Qed.

Lemma project_projected r : project (project r) = project r /\ projected_already (project r) = true.
Proof. unfold project, projected_already. cbn. by destruct (CompleteLogUpload r). Qed.

Lemma projected_inv value r :
  projectedReconciliation value = Some r ->
  exists r0, value = Some r0 /\ r = project r0 /\ closedWireV2 (rreflect r0) = true.
Proof.
  unfold projectedReconciliation. destruct value as [r0|]; [|done]. destruct (_ || _) eqn:E; [done|].
  bool_norm. intros [= <-]. by exists r0.
Qed.

(** What an encoding is made of. *)
Record encoded (value : AuthorityUpdate) (raw : bytes) (r : LeaseReconciliation) (body : bytes) : Prop := {
  e_features : authorityFeatures (Features value) = Some true;
  e_expiry : CredentialExpiry value <> 0 /\ TimestampValid (TimestampNew (CredentialExpiry value)) = true;
  e_projected : projectedReconciliation (Reconciliation value) = Some r;
  e_body : RMarshal r = Some body /\ 0 < zlen body <= maximumAuthorityUpdateBytes - 20;
  e_raw : raw = bs "PVA1" ++ put_be 2 (feature_bits (Features value)) ++ [0; 0]
                  ++ put_be 8 (to_uint64 (Unix (CredentialExpiry value)))
                  ++ put_be 4 (nanosecond (CredentialExpiry value)) ++ body;
}.

Lemma encode_inv value raw : EncodeAuthorityUpdate value = Some raw <-> exists r body, encoded value raw r body.
Proof.
  unfold EncodeAuthorityUpdate. split.
  - destruct (authorityFeatures _) as [[]|] eqn:Ef; [|done|done]. destruct (_ || _) eqn:Ee; [done|].
    destruct (projectedReconciliation _) as [r|] eqn:Ep; [|done]. destruct (RMarshal r) as [body|] eqn:Em; [|done].
    destruct ((zlen body =? 0) || _) eqn:El; [done|]. intros [= <-]. bool_norm. exists r, body.
    pose proof (zlen_nonneg body). split; try done. split; [done|lia].
  - intros (r & body & [-> [H1 H2] -> [-> H4] ->]). rewrite H2, (proj2 (Z.eqb_neq _ _) H1). cbn [negb orb].
    rewrite (proj2 (Z.eqb_neq _ _)), (proj2 (Z.ltb_ge _ _)) by lia. done.
Qed.

(** The fields of an encoding, read back. *)
Lemma encoded_slices value raw r body :
  encoded value raw r body ->
  slice raw 0 4 = bs "PVA1" /\ slice raw 6 8 = [0; 0] /\
  slice raw 4 6 = put_be 2 (feature_bits (Features value)) /\
  slice raw 8 16 = put_be 8 (to_uint64 (Unix (CredentialExpiry value))) /\
  slice raw 16 20 = put_be 4 (nanosecond (CredentialExpiry value)) /\
  drop 20 raw = body /\ zlen raw = 20 + zlen body.
Proof.
  intros [_ _ _ _ ->]. unfold slice. generalize (put_be_length 2 (feature_bits (Features value))).
  generalize (put_be_length 8 (to_uint64 (Unix (CredentialExpiry value)))).
  generalize (put_be_length 4 (nanosecond (CredentialExpiry value))).
  generalize (put_be 2 (feature_bits (Features value))), (put_be 8 (to_uint64 (Unix (CredentialExpiry value)))),
    (put_be 4 (nanosecond (CredentialExpiry value))).
  intros a b c Hc Hb Ha. do 3 (destruct a as [|? a]; try discriminate Ha). do 9 (destruct b as [|? b]; try discriminate Hb).
  do 5 (destruct c as [|? c]; try discriminate Hc). split_and!; try reflexivity. unfold zlen. cbn. lia.
Qed.

Lemma unix_roundtrip t : time_Unix (Unix t) + nanosecond t = t.
Proof. unfold time_Unix, Unix, nanosecond. pose proof (Z.div_mod t Second). unfold Second in *. lia. Qed.

(** The update a decoder makes of [value]: the upload without its address and the
    features in ascending order. *)
Definition canonical_update (value : AuthorityUpdate) : AuthorityUpdate := {|
  Reconciliation := project <$> Reconciliation value;
  Features := features_of (feature_bits (Features value));
  CredentialExpiry := CredentialExpiry value |}.

Lemma canonical_encoded `{LAWS : !CodecLaws} value raw r body :
  encoded value raw r body -> encoded (canonical_update value) raw r body.
Proof.
  intros H. pose proof H as [H1 H2 H3 [H4 H5] H6]. destruct (features_roundtrip _ H1) as (F1 & F2 & _).
  destruct (projected_inv _ _ H3) as (r0 & E0 & -> & Hc). split; cbn [canonical_update Features CredentialExpiry Reconciliation].
  - exact F1.
  - exact H2.
  - rewrite E0. cbn [fmap option_fmap option_map projectedReconciliation]. rewrite (project_closed _ Hc).
    rewrite (RSize_Marshal _ _ H4), (proj2 (Z.ltb_ge _ _)) by lia. cbn. by rewrite (proj1 (project_projected r0)).
  - done.
  - by rewrite F2.
Qed.

(** C34: an encoded update is read back: the decoder returns it with the same features,
    the same expiry and the same reconciliation but for the address and the expiry of
    the upload, which are gone. Whatever it returns for other bytes is canonical: it
    encodes to those very bytes, and it carries no upload address. *)
Theorem authority_update_roundtrip `{LAWS : !CodecLaws} (value : AuthorityUpdate) (raw : bytes) :
  - 2 ^ 63 <= Unix (CredentialExpiry value) < 2 ^ 63 ->
  EncodeAuthorityUpdate value = Some raw ->
  DecodeAuthorityUpdate raw = Some (canonical_update value) /\
  (forall f, f ∈ Features (canonical_update value) <-> f ∈ Features value) /\
  (forall other v, DecodeAuthorityUpdate other = Some v ->
     EncodeAuthorityUpdate v = Some other /\
     exists r, Reconciliation v = Some r /\ forall u, CompleteLogUpload r = Some u -> Uri u = [] /\ UExpiresAt u = None).
Proof.
  intros Hx He. pose proof (proj1 (encode_inv _ _) He) as (r & body & E). split_and!.
  - pose proof (canonical_encoded _ _ _ _ E) as E'.
    destruct (encoded_slices _ _ _ _ E) as (S1 & S2 & S3 & S4 & S5 & S6 & S7). destruct E as [F _ P [Mb Hl] _].
    destruct (negotiated_features _ F) as [Fr _].
    pose proof (feature_bits_range _ Fr) as Hb. unfold DecodeAuthorityUpdate. rewrite S1, S2, S3, S4, S5, S6, S7.
    rewrite (get_put_be 2) by (cbn; lia). rewrite (get_put_be 8) by apply to_uint64_range.
    assert (Hn : 0 <= nanosecond (CredentialExpiry value) < Second) by (apply Z.mod_pos_bound; done).
    rewrite (get_put_be 4) by (unfold Second in Hn; cbn; lia).
    rewrite to_int64_uint64 by done. rewrite unix_roundtrip.
    rewrite (proj2 (Z.leb_gt _ _)), (proj2 (Z.ltb_ge _ _)) by lia. rewrite !bool_decide_eq_true_2 by done.
    rewrite Z.shiftr_div_pow2, Z.div_small by (cbn; lia). cbn [negb orb Z.eqb].
    rewrite (proj2 (Z.leb_gt _ _)) by lia.
    rewrite (RUnmarshal_Marshal _ _ Mb). destruct (projected_inv _ _ P) as (r0 & E0 & -> & Hc).
    pose proof (e_projected _ _ _ _ E') as P'. unfold canonical_update in *. rewrite E0 in *.
    cbn [Reconciliation fmap option_fmap option_map] in *. rewrite P', (proj2 (project_projected r0)). cbn [negb].
    rewrite bool_decide_eq_true_2; [done|]. apply encode_inv. by exists (project r0), body.
  - destruct E as [F _ _ _ _]. apply (features_roundtrip _ F).
  - intros other v. unfold DecodeAuthorityUpdate. destruct (_ || _ || _ || _); [done|].
    destruct (negb (_ =? 0)); [done|]. destruct (Second <=? _); [done|]. destruct (RUnmarshal _) as [r1|]; [|done].
    destruct (projectedReconciliation _); [|done]. destruct (negb _) eqn:Ep; [done|].
    destruct (bool_decide _) eqn:Ee; [|done]. intros [= <-]. bool_norm. split; [done|]. exists r1. split; [done|].
    intros u Hu. unfold projected_already in Ep. rewrite Hu in Ep. bool_norm. split; [done|]. by destruct (UExpiresAt u).
Qed.

End update.

(** ** A codec to run the model with *)

Section sample.
Local Existing Instance sample_timestamps.

Definition sample_upload : ObjectUpload := {| Uri := []; ObjectKey := []; UContentType := []; UExpiresAt := None; uunknown := []; urest := [] |}.

Definition plain (status phase : Z) (cancellation : bytes) (u : option ObjectUpload) : LeaseReconciliation := {|
  RLease := None; RAttempt := None; Status := status; CancellationId := cancellation; RPhase := phase; Observed := None;
  CompleteLogUpload := u; Disposition := 0; TerminalMessageId := []; runknown := []; rrest := [] |}.

(** It encodes reconciliations without submessages, with an upload or without one. *)
#[local] Instance sample_reconciliation_codec : ReconciliationCodec := {|
  RSize := fun r => 3 + zlen (CancellationId r);
  RMarshal := fun r =>
    match RLease r, RAttempt r, Observed r, runknown r, rrest r, Disposition r, TerminalMessageId r with
    | None, None, None, [], [], 0, [] =>
        match CompleteLogUpload r with
        | None => Some (0 :: Status r :: RPhase r :: CancellationId r)
        | Some u => match Uri u, ObjectKey u, UContentType u, UExpiresAt u, uunknown u, urest u with
                    | [], [], [], None, [], [] => Some (1 :: Status r :: RPhase r :: CancellationId r)
                    | _, _, _, _, _, _ => None
                    end
        end
    | _, _, _, _, _, _, _ => None
    end;
  RUnmarshal := fun raw =>
    match raw with
    | 0 :: s :: p :: c => Some (plain s p c None)
    | 1 :: s :: p :: c => Some (plain s p c (Some sample_upload))
    | _ => None
    end |}.

Lemma sample_laws : CodecLaws.
Proof.
  split; intros [l a s c p o u d tm k f] raw; cbn [RMarshal sample_reconciliation_codec RLease RAttempt Observed runknown rrest
    CompleteLogUpload Status RPhase CancellationId Disposition TerminalMessageId];
    (destruct l, a, o, k, f, d, tm; try done);
    (destruct u as [[[] [] [] [] [] []]|]; cbn [Uri ObjectKey UContentType UExpiresAt uunknown urest]; try done); intros [= <-];
    cbn; try done;
    rewrite !zlen_cons; lia.
Qed.

Definition sample_update : AuthorityUpdate := {|
  Reconciliation := Some (plain 4 2 [] (Some {| Uri := bs "https://logs"; ObjectKey := []; UContentType := [];
                                                UExpiresAt := Some 7; uunknown := []; urest := [] |}));
  Features := [10; 9; 3; 1]; CredentialExpiry := sample_now |}.

Lemma authority_update_roundtrip_witness :
  exists raw, EncodeAuthorityUpdate sample_update = Some raw /\
    DecodeAuthorityUpdate raw = Some {| Reconciliation := Some (plain 4 2 [] (Some sample_upload)); Features := [1; 3; 9; 10];
                                        CredentialExpiry := sample_now |}.
Proof.
  destruct (EncodeAuthorityUpdate sample_update) as [raw|] eqn:E; [|vm_compute in E; discriminate].
  exists raw. split; [reflexivity|].
  apply (@authority_update_roundtrip _ _ sample_laws sample_update raw); [vm_compute; split; [discriminate|reflexivity]|exact E].
Defined.

End sample.
