(* ===== verification/AuthorityRoute.v ===== *)
(** One attempt's authority and route together
    ([src/internal/networkpolicy/authority_route.go] and [authority_forwarding.go]):
    the owner that renews a route only within current authority, withdraws both for
    good, and forwards accepted reconciliations to the root controller. *)

From Stdlib Require Import ZifyBool.
From S2P Require Import Prelude Utf8 Strconv World Sha256 Policy Binder Messages Authority Firewall Route AuthorityUpdate.
Import Names Wire.

Open Scope world_scope.

Definition maximumControlUpdates : Z := 64.

(** The joined errors of a call; [OPanic] is an index out of range. *)
Inductive ownerError := OAuthority (e : authorityError) | OWithdrawn | ORoute (e : routeError) | OPanic.

Section owner.
Context {TS : Timestamps} {PB : RunnerProto} {CODEC : PolicyCodec} {RC : ReconciliationCodec}.

(** [withdrawn] stands for the closed channel [done] and the cancelled context too,
    which change together. The channels [wake] and [controlChanged] only wake
    goroutines that look at the state again. *)
Record AuthorityRoute := {
  authority : Authority;
  oroute : option RouteSession;
  obindings : list Binding;
  installed : Z;
  octx : context;
  owithdrawn : bool;
  cleanupErr : list ownerError;
  controlUpdates : list (Z * bytes);
  controlSequence : Z;
  controlChecked : Z;
  controlUnavailable : bool;
}.

Definition with_authority (s : AuthorityRoute) (a : Authority) : AuthorityRoute :=
  {| authority := a; oroute := oroute s; obindings := obindings s; installed := installed s; octx := octx s;
     owithdrawn := owithdrawn s; cleanupErr := cleanupErr s; controlUpdates := controlUpdates s;
     controlSequence := controlSequence s; controlChecked := controlChecked s;
     controlUnavailable := controlUnavailable s |}.

Definition with_route (s : AuthorityRoute) (r : option RouteSession) (errs : list ownerError) : AuthorityRoute :=
  {| authority := authority s; oroute := r; obindings := obindings s; installed := installed s; octx := octx s;
     owithdrawn := owithdrawn s; cleanupErr := errs; controlUpdates := controlUpdates s;
     controlSequence := controlSequence s; controlChecked := controlChecked s;
     controlUnavailable := controlUnavailable s |}.

Definition with_bindings (s : AuthorityRoute) (bs : list Binding) (t : Z) : AuthorityRoute :=
  {| authority := authority s; oroute := oroute s; obindings := bs; installed := t; octx := octx s;
     owithdrawn := owithdrawn s; cleanupErr := cleanupErr s; controlUpdates := controlUpdates s;
     controlSequence := controlSequence s; controlChecked := controlChecked s;
     controlUnavailable := controlUnavailable s |}.

Definition with_control (s : AuthorityRoute) (us : list (Z * bytes)) (seq checked : Z) (unavailable : bool) : AuthorityRoute :=
  {| authority := authority s; oroute := oroute s; obindings := obindings s; installed := installed s; octx := octx s;
     owithdrawn := owithdrawn s; cleanupErr := cleanupErr s; controlUpdates := us;
     controlSequence := seq; controlChecked := checked; controlUnavailable := unavailable |}.

(** The part of [withdrawLocked] that happens once. *)
Definition end_authority (s : AuthorityRoute) : AuthorityRoute :=
  if owithdrawn s then s
  else {| authority := Authority.Withdraw (authority s); oroute := oroute s; obindings := obindings s;
          installed := installed s; octx := octx s; owithdrawn := true; cleanupErr := cleanupErr s;
          controlUpdates := []; controlSequence := controlSequence s; controlChecked := controlChecked s;
          controlUnavailable := controlUnavailable s |}.

(** [s.ctx.Err()] *)
Definition owner_err (s : AuthorityRoute) (t : Z) : option ctxErr := if owithdrawn s then Some Canceled else Err (octx s) t.

Definition NewAuthorityRoute (ctx : context) (job : option JobSpecification) (t : Z) : option AuthorityRoute :=
  if negb (bool_decide (Err ctx t = None)) then None
  else
    match NewAuthority job with
    | None => None
    | Some a =>
        if Mode (policy a) =? NETWORK_MODE_NONE then None
        else Some {| authority := a; oroute := None; obindings := []; installed := 0; octx := ctx; owithdrawn := false;
                     cleanupErr := []; controlUpdates := []; controlSequence := 0; controlChecked := 0;
                     controlUnavailable := false |}
    end.

(** [None]: [bindings[0]] of no bindings. *)
Definition bindingDeadline (bs : list Binding) : option Z :=
  match bs with
  | [] => None
  | b :: _ => Some (time_Unix (Unix (fold_left (fun d b => if expires b <? d then expires b else d) bs (expires b))))
  end.

Section operations.
Context {W : Type} (now : W -> Z) (route : OwnedRoute W).

Definition withdrawOwner (s : AuthorityRoute) (reason : list ownerError) : M W (AuthorityRoute * list ownerError) :=
  let s := end_authority s in
  match oroute s with
  | None => ret (s, reason ++ cleanupErr s)
  | Some r =>
      let! (r, errs) := SessionWithdraw now route r in
      let s := with_route s (Some r) (cleanupErr s ++ map ORoute errs) in
      ret (s, reason ++ cleanupErr s)
  end.

Definition same_owner (a b : Authority) : bool :=
  bool_decide (digest a = digest b) && bool_decide (LJobId (lease a) = LJobId (lease b))
  && bool_decide (LeaseId (lease a) = LeaseId (lease b)) && bool_decide (ExecutionId (lease a) = ExecutionId (lease b))
  && same_attempt (attempt a) (attempt b).

(** [s.route.DNS()] as far as it fails. *)
Definition route_dns (s : AuthorityRoute) : M W bool :=
  match oroute s with
  | None => ret true
  | Some r => let! v := DNS now r in ret (match v with Some _ => true | None => false end)
  end.

Definition CheckJob (s : AuthorityRoute) (job : option JobSpecification) : M W (AuthorityRoute * list ownerError) :=
  let! t := reads now in
  match NewAuthority job with
  | None => withdrawOwner s [OAuthority ErrAuthority]
  | Some other =>
      if owithdrawn s || negb (bool_decide (owner_err s t = None)) then withdrawOwner s [OAuthority ErrAuthority]
      else if negb (same_owner other (authority s)) then withdrawOwner s [OAuthority ErrAuthority]
      else
        match Deadline (authority s) t with
        | (a, inr e) => withdrawOwner (with_authority s a) [OAuthority e]
        | (a, inl _) =>
            let s := with_authority s a in
            let! live := route_dns s in
            if live then ret (s, []) else withdrawOwner s [ORoute (Net ErrExpired)]
        end
  end.

Definition CurrentLeaseExpiry (s : AuthorityRoute) (job : option JobSpecification)
  : M W (AuthorityRoute * (Z + list ownerError)) :=
  let! (s, errs) := CheckJob s job in
  match errs with
  | _ :: _ => ret (s, inr errs)
  | [] =>
      let! t := reads now in
      ret (match Deadline (authority s) t with
           | (a, inr e) => (with_authority s a, inr [OAuthority e])
           | (a, inl _) => (with_authority s a, inl (as_time (LExpiresAt (lease a))))
           end)
  end.

Definition refreshLocked (s : AuthorityRoute) (r : RouteSession) (ctx : context) (bs : list Binding) (dnsRefresh : bool)
  : M W (AuthorityRoute * list ownerError) :=
  let! t := reads now in
  if negb (bool_decide (Err ctx t = None)) || negb (bool_decide (owner_err s t = None)) then withdrawOwner s [OAuthority ErrAuthority]
  else
    match ConstrainBindings (authority s) bs t with
    | (a, inr e) => withdrawOwner (with_authority s a) [OAuthority e]
    | (a, inl bounded) =>
        let s := with_authority s a in
        let! v := DNS now r in
        match v with
        | None => withdrawOwner s [ORoute (Net ErrExpired)]
        | Some _ =>
            match bindingDeadline bounded with
            | None => ret (s, [OPanic])
            | Some deadline =>
                if dnsRefresh || negb (deadline =? installed s) then
                  let! (r, errs) := Route.refresh now route r ctx bounded false in
                  let s := with_route s (Some r) (cleanupErr s) in
                  match errs with
                  | _ :: _ => withdrawOwner s (map ORoute errs)
                  | [] => ret (with_bindings s (if dnsRefresh then bs else obindings s) deadline, [])
                  end
                else ret (with_bindings s (if dnsRefresh then bs else obindings s) (installed s), [])
            end
        end
    end.

(** [GetNetworkAuthorityV2().GetCheckedAt().AsTime()]: of no timestamp, the Unix epoch. *)
Definition checked_of (r : LeaseReconciliation) : Z :=
  match Observed r with
  | Some o => match CheckedAt o with Some t => AsTime t | None => time_Unix 0 end
  | None => time_Unix 0
  end.

Definition recordControlUpdate (s : AuthorityRoute) (value : LeaseReconciliation) (features : list Z) (expiry : Z) : AuthorityRoute :=
  if controlUnavailable s then s
  else
    let checked := checked_of value in
    if checked <? controlChecked s then s
    else
      match EncodeAuthorityUpdate {| Reconciliation := Some value; Features := features; CredentialExpiry := expiry |} with
      | Some raw =>
          if controlSequence s =? 2 ^ 64 - 1 then with_control s [] (controlSequence s) (controlChecked s) true
          else
            let us := controlUpdates s ++ [(controlSequence s + 1, raw)] in
            with_control s (if maximumControlUpdates <? zlen us then drop 1 us else us) (controlSequence s + 1) checked false
      | None => with_control s [] (controlSequence s) (controlChecked s) true
      end.

Definition Reconcile (s : AuthorityRoute) (ctx : context) (value : option LeaseReconciliation) (features : list Z)
    (credentialExpiry : Z) : M W (AuthorityRoute * list ownerError) :=
  let! t := reads now in
  if owithdrawn s then
    let '(a, ok) := Authority.Reconcile (authority s) value features credentialExpiry t in
    ret (with_authority s a, (if ok : bool then OWithdrawn else OAuthority ErrAuthority) :: cleanupErr s)
  else if negb (bool_decide (Err ctx t = None)) || negb (bool_decide (owner_err s t = None))
  then withdrawOwner s [OAuthority ErrAuthority]
  else
    let '(a, ok) := Authority.Reconcile (authority s) value features credentialExpiry t in
    if negb ok then withdrawOwner (with_authority s a) [OAuthority ErrAuthority]
    else
      match Deadline a t with
      | (a, inr _) => withdrawOwner (with_authority s a) [OWithdrawn]
      | (a, inl _) =>
          let s := with_authority s a in
          let! (s, errs) := match oroute s with
                            | Some r => refreshLocked s r ctx (obindings s) false
                            | None => ret (s, [])
                            end in
          match errs, value with
          | [], Some r => ret (recordControlUpdate s r features credentialExpiry, [])
          | _, _ => ret (s, errs)
          end
      end.

(** A session whose context is the owner's alone: the call that started it is over. *)
Definition own_session (ctx : context) (r : RouteSession) : RouteSession :=
  {| sjob := sjob r; srules := srules r; sview := sview r; Route.withdrawn := Route.withdrawn r;
     disconnected := disconnected r; removed := removed r; sctx := ctx; stopped := stopped r |}.

Definition Start (s : AuthorityRoute) (ctx : context) (bs : list Binding) : M W (AuthorityRoute * list ownerError) :=
  let! t := reads now in
  if owithdrawn s || match oroute s with Some _ => true | None => false end then withdrawOwner s [OAuthority ErrAuthority]
  else if negb (bool_decide (Err ctx t = None)) || negb (bool_decide (owner_err s t = None))
  then withdrawOwner s [OAuthority ErrAuthority]
  else
    match ConstrainBindings (authority s) bs t with
    | (a, inr e) => withdrawOwner (with_authority s a) [OAuthority e]
    | (a, inl bounded) =>
        let s := with_authority s a in
        let! (r, errs) := StartRoute now route (either (octx s) ctx) (LJobId (lease a)) bounded in
        let s := with_route s r (cleanupErr s) in
        let! t := reads now in
        let errs := match errs with
                    | [] => if negb (bool_decide (Err ctx t = None)) || negb (bool_decide (owner_err s t = None))
                            then [OAuthority ErrAuthority] else []
                    | _ => map ORoute errs
                    end in
        match errs with
        | _ :: _ => withdrawOwner s errs
        | [] =>
            match bindingDeadline bounded with
            | None => ret (s, [OPanic])
            | Some deadline => ret (with_bindings (with_route s (own_session (octx s) <$> r) (cleanupErr s)) bs deadline, [])
            end
        end
    end.

Definition RefreshDNS (s : AuthorityRoute) (ctx : context) (bs : list Binding) : M W (AuthorityRoute * list ownerError) :=
  match owithdrawn s, oroute s with
  | false, Some r => refreshLocked s r ctx bs true
  | _, _ => withdrawOwner s [OAuthority ErrAuthority]
  end.

(** [ServeDNS] before the lock is released: [true], the sockets are served. *)
Definition ServeDNS_begin (s : AuthorityRoute) : M W (bool * (AuthorityRoute * list ownerError)) :=
  match owithdrawn s, oroute s with
  | false, Some _ => ret (true, (s, []))
  | _, _ => let! x := withdrawOwner s [OAuthority ErrAuthority] in ret (false, x)
  end.

(** [ServeDNS] after the server returned with [errs]. *)
Definition ServeDNS_end (s : AuthorityRoute) (errs : list routeError) : M W (AuthorityRoute * list ownerError) :=
  withdrawOwner s (map ORoute errs).

Definition WithdrawOwner (s : AuthorityRoute) : M W (AuthorityRoute * list ownerError) := withdrawOwner s [].

Definition CloseOwner (s : AuthorityRoute) : M W (AuthorityRoute * list ownerError) :=
  let! (s, _) := withdrawOwner s [] in
  match oroute s with
  | None => ret (s, cleanupErr s)
  | Some r =>
      let! (r, errs) := Close now route r in
      let s := with_route s (Some r) (match errs with [] => [] | _ => cleanupErr s ++ map ORoute errs end) in
      ret (s, cleanupErr s)
  end.

(** The watcher at the head of its loop: an expired authority ends the attempt. *)
Definition watch_head (s : AuthorityRoute) : M W AuthorityRoute :=
  let! t := reads now in
  if owithdrawn s then ret s
  else if seen (authority s) then
    match Deadline (authority s) t with
    | (a, inr e) => let! (s, _) := withdrawOwner (with_authority s a) [OAuthority e] in ret s
    | (a, inl _) => ret (with_authority s a)
    end
  else ret s.

(** The watcher woken by the context, the route or the timer; [noticed]: the route's
    own watcher has returned. *)
Definition watch_woken (s : AuthorityRoute) (noticed : bool) : M W AuthorityRoute :=
  let! t := reads now in
  let routeFailed := match oroute s with Some r => noticed && Route.withdrawn r | None => false end in
  let '(a, res) := Deadline (authority s) t in
  let s := with_authority s a in
  match res with
  | inl _ => if negb (bool_decide (owner_err s t = None)) || routeFailed
             then let! (s, _) := withdrawOwner s [OAuthority ErrAuthority] in ret s
             else ret s
  | inr _ => let! (s, _) := withdrawOwner s [OAuthority ErrAuthority] in ret s
  end.

(** One round of [NextControlUpdate]: an answer, or to wait for a change. *)
Inductive nextControl := Next (sequence : Z) (payload : bytes) | Refused (errs : list ownerError) | Wait.

Definition NextControlUpdate (s : AuthorityRoute) (ctx : context) (after : Z) : M W (AuthorityRoute * nextControl) :=
  let! t := reads now in
  if negb (bool_decide (Err ctx t = None)) || negb (bool_decide (owner_err s t = None)) || owithdrawn s || controlUnavailable s
  then ret (s, Refused [OAuthority ErrAuthority])
  else
    let refuse s errs := let! (s, errs) := withdrawOwner s errs in ret (s, Refused errs) in
    match Deadline (authority s) t with
    | (a, inr e) => refuse (with_authority s a) [OAuthority e]
    | (a, inl _) =>
        let s := with_authority s a in
        match controlUpdates s with
        | [] => refuse s [OAuthority ErrAuthority]
        | (first, _) :: _ =>
            if controlSequence s <? after then refuse s [OAuthority ErrAuthority]
            else if after =? 0 then
              ret (s, match last (controlUpdates s) with Some (n, raw) => Next n raw | None => Refused [OPanic] end)
            else if after <? controlSequence s then
              if after + 1 <? first then refuse s [OAuthority ErrAuthority]
              else ret (s, match controlUpdates s !! Z.to_nat (after + 1 - first) with
                           | Some (n, raw) => Next n raw
                           | None => Refused [OPanic]
                           end)
            else ret (s, Wait)
        end
    end.

End operations.
End owner.
