(* ===== verification/AuthorityRouteInv.v ===== *)
(** Invariants of the owner of an authority and its route: whatever the actuator
    does, the rules in the kernel never outlive the authority, loss is final, and
    the updates that are forwarded are gap-free. *)

From Stdlib Require Import ZifyBool.
From S2P Require Import Prelude Utf8 Strconv World Sha256 Policy Binder Messages Authority Firewall Route AuthorityUpdate AuthorityRoute.
Import Names Wire.

(** ** Deadlines of bindings *)

Lemma fold_earliest bs : forall d,
  let m := fold_left (fun d b => if expires b <? d then expires b else d) bs d in
  m <= d /\ Forall (fun b => m <= expires b) bs /\ (m = d \/ exists b, b ∈ bs /\ m = expires b).
Proof.
  induction bs as [|b bs IH]; intros d; cbn [fold_left]; [split_and!; [lia|constructor|by left]|].
  destruct (IH (if expires b <? d then expires b else d)) as (H1 & H2 & H3). cbn zeta in *.
  destruct (expires b <? d) eqn:E; (split_and!; [lia|constructor; [lia|done]|]);
    destruct H3 as [->|(b' & ? & ->)]; try (right; exists b'; split; [by right|done]).
  - right. exists b. split; [left|done].
  - by left.
Qed.

(** A firewall closes exactly at the deadline of the bindings it is compiled from. *)
Lemma compiled_deadline job_id bs now f :
  CompileFirewallWithDNS job_id bs now = inl f -> bindingDeadline bs = Some (fexpires f).
Proof.
  intros H. destruct (compile_ok _ _ _ _ _ H) as (deadline & s & [_ _ _ _ [Hd _] [Hall (b & Hb & Hl)]]).
  destruct bs as [|b0 bs]; [by apply elem_of_nil in Hb|]. unfold bindingDeadline. f_equal.
  destruct (fold_earliest (b0 :: bs) (expires b0)) as (H1 & H2 & H3). cbn zeta in *.
  set (m := fold_left _ _ _) in *. rewrite Forall_forall in Hall, H2. specialize (H2 b Hb).
  assert (fexpires f <= m) by (destruct H3 as [->|(b' & Hb' & ->)]; apply Hall; [left|done]).
  assert (Unix m = deadline) as ->; [|done]. unfold time_Unix, Unix, Second in *.
  assert (m / 1000000000 = deadline + unix_epoch); [|lia]. symmetry. apply (Z.div_unique m _ _ (m - (deadline + unix_epoch) * 1000000000)); lia.
Qed.

Section rules.
Context {W : Type} (now : W -> Z) (route : OwnedRoute W).

(** A renewal that succeeds leaves the rules of the given bindings in place. *)
Lemma refresh_rules s ctx bs ext w s' w' :
  Route.refresh now route s ctx bs ext w = ((s', []), w') ->
  exists t, CompileFirewallWithDNS (sjob s) bs t = inl (srules s') /\ sjob s' = sjob s.
Proof.
  assert (Hfail : forall s e w s' w', fail now route s e w <> ((s', []), w')).
  { intros s1 e w1 s2 w2. unfold fail, bind, ret. by destruct (withdrawLocked now route s1 w1) as [[? ?] ?]. }
  unfold Route.refresh. destruct (Route.withdrawn s); [done|]. unfold bind at 1, reads.
  destruct (_ || _); [by intros H%Hfail|]. destruct (CompileFirewallWithDNS _ _ _) as [next|] eqn:Ec; [|by intros H%Hfail].
  destruct (WorkloadDNS.NewWorkloadDNS _ _ _) as [v|]; [|by intros H%Hfail].
  destruct (Firewall.refresh _ _ _ _) as [prog|]; [|by intros H%Hfail]. unfold bind at 1.
  destruct (apply _ _ _ _ _ _ _) as [[e|] w1]; [by intros H%Hfail|]. unfold bind, reads.
  destruct (_ || _); [by intros H%Hfail|]. unfold ret. intros [= <- <-]. by exists (now w).
Qed.

Lemma start_rules ctx job_id bs w r w' :
  StartRoute now route ctx job_id bs w = ((r, []), w') ->
  exists s t, r = Some s /\ CompileFirewallWithDNS job_id bs t = inl (srules s) /\ sjob s = job_id.
Proof.
  unfold StartRoute, bind at 1, reads. destruct (_ || _); [done|].
  destruct (CompileFirewallWithDNS _ _ _) as [rs|] eqn:Ec; [|done].
  destruct (WorkloadDNS.NewWorkloadDNS _ _ _) as [v|]; [|done]. unfold bind at 1.
  destruct (apply _ _ _ _ _ _ _) as [err w1]. unfold bind at 1.
  destruct (match err with Some e => Some e | None => _ end) as [e|].
  - unfold bind, ret. by destruct (withdrawLocked now route _ w1) as [[? ?] ?].
  - unfold ret. intros [= <- <-]. by eexists _, (now w).
Qed.

End rules.

Section invariant.
Context {TS : Timestamps} {PB : RunnerProto} {CODEC : PolicyCodec} {RC : ReconciliationCodec}.
Context {W : Type} (now : W -> Z) (route : OwnedRoute W).

Local Abbreviation TW := (W * list event)%type.
Local Abbreviation clock := (tnow now).
Local Abbreviation actuator := (traced_route route).

Lemma session_withdraw_ok s w tr :
  session_ok s tr ->
  exists s' errs w' tr', SessionWithdraw clock actuator s (w, tr) = ((s', errs), (w', tr')) /\ session_ok s' tr' /\
    Route.withdrawn s' = true /\ removed s' = removed s.
Proof.
  intros H. unfold SessionWithdraw. destruct (removed s) eqn:Er.
  { unfold ret. exists s, [], w, tr. destruct H as [[? D R] ?]. split_and!; [done|done|by apply D, R|done]. }
  unfold bind, ret. destruct (withdraw_ok now route s w tr (proj1 H)) as (s1 & errs & w1 & tr1 & -> & H1 & Hw & Hr & _).
  exists (set_stopped s1), errs, w1, tr1. split_and!; [done|by apply set_stopped_ok|done|cbn; congruence].
Qed.

(** ** The invariant *)

(** The reconciliations the owner is given. *)
Variable given : option LeaseReconciliation -> list Z -> Z -> Prop.

Definition op_given (o : op) : Prop := match o with OpReconcile v f c _ => given v f c | _ => True end.

(** What holds even between the renewal of the authority and that of the rules. *)
Record owner_core (a0 : Authority) (s : AuthorityRoute) (tr : list event) : Prop := {
  oc_authority : exists os, authority s = Authority.perform_all a0 os /\ Forall op_given os;
  oc_route : match oroute s with Some r => session_ok r tr | None => tr = [] end;
  oc_withdrawn : owithdrawn s = true -> Authority.withdrawn (authority s) = true /\
                   forall r, oroute s = Some r -> Route.withdrawn r = true;
  oc_errors : OPanic ∉ cleanupErr s;
}.

(** The installed rules close when the owner believes, within the authority. *)
Definition rules_within (s : AuthorityRoute) : Prop :=
  forall r, oroute s = Some r -> Route.withdrawn r = false ->
    seen (authority s) = true /\ fexpires (srules r) = installed s /\ installed s <= aexpires (authority s).

Definition owner_ok (a0 : Authority) (s : AuthorityRoute) (tr : list event) : Prop :=
  owner_core a0 s tr /\ rules_within s.

(** The forwarded updates are left alone, or dropped because the owner withdrew. *)
Definition control_kept (s s' : AuthorityRoute) : Prop :=
  controlSequence s' = controlSequence s /\ controlUnavailable s' = controlUnavailable s /\
  (controlUpdates s' = controlUpdates s /\ owithdrawn s' = owithdrawn s \/ controlUpdates s' = [] /\ owithdrawn s' = true).

Lemma control_kept_refl s : control_kept s s.
Proof. split_and!; auto. Qed.

Lemma control_kept_trans s1 s2 s3 : control_kept s1 s2 -> control_kept s2 s3 -> control_kept s1 s3.
Proof.
  intros (A1 & A2 & A3) (B1 & B2 & B3). split_and!; [congruence|congruence|].
  destruct B3 as [[-> ->]|[-> ->]]; [done|by right].
Qed.

Lemma kept_final s s' : control_kept s s' -> owithdrawn s = true -> owithdrawn s' = true.
Proof. intros (_ & _ & [[_ ->]|[_ ->]]); done. Qed.

Definition good (a0 : Authority) (s0 : AuthorityRoute) (x : (AuthorityRoute * list ownerError) * TW) : Prop :=
  let '((s, errs), (_, tr)) := x in
  owner_ok a0 s tr /\ OPanic ∉ errs /\ (owithdrawn s0 = true -> owithdrawn s = true) /\ control_kept s0 s.

Lemma core_authority a0 s tr a os :
  owner_core a0 s tr -> Forall op_given os -> a = Authority.perform_all (authority s) os -> owner_core a0 (with_authority s a) tr.
Proof.
  intros [(os0 & Ha & Hg) R Wd E] Hg' Ha'. split; cbn; [|done| |done].
  - exists (os0 ++ os). rewrite Ha', Ha, Forall_app. unfold Authority.perform_all. by rewrite fold_left_app.
  - intros Hw. destruct (Wd Hw) as [Hw1 Hw2]. split; [|done]. subst a.
    assert (K : forall os a, Authority.withdrawn a = true -> Authority.withdrawn (Authority.perform_all a os) = true).
    { clear. induction os as [|o os IH]; intros a Hw; [done|]. cbn. apply IH. by apply (perform_kept a o). }
    by apply K.
Qed.

(** What [end_authority] does. *)
Lemma end_authority_spec a0 s tr :
  owner_core a0 s tr ->
  (exists os, authority (end_authority s) = Authority.perform_all a0 os /\ Forall op_given os) /\
  Authority.withdrawn (authority (end_authority s)) = true /\ owithdrawn (end_authority s) = true /\
  oroute (end_authority s) = oroute s /\ cleanupErr (end_authority s) = cleanupErr s /\ control_kept s (end_authority s).
Proof.
  intros [(os & Ha & Hg) _ Wd _]. unfold end_authority. destruct (owithdrawn s) eqn:Ew.
  - split_and!; [by exists os|by apply Wd|done|done|done|apply control_kept_refl].
  - split_and!; try done; [|unfold control_kept; split_and!; [done|done|by right]]. exists (os ++ [OpWithdraw]). unfold Authority.perform_all.
    rewrite fold_left_app, Forall_app. cbn. split; [f_equal; exact Ha|]. split; [done|by repeat constructor].
Qed.

Lemma withdrawOwner_good a0 s0 s reason w tr :
  owner_core a0 s tr -> OPanic ∉ reason -> control_kept s0 s ->
  good a0 s0 (withdrawOwner clock actuator s reason (w, tr)) /\
  owithdrawn (fst (fst (withdrawOwner clock actuator s reason (w, tr)))) = true.
Proof.
  intros H Hr Hc. destruct (end_authority_spec a0 s tr H) as (Ha & Hw & Ho & Hro & Hce & Hk).
  pose proof (control_kept_trans _ _ _ Hc Hk) as Hk0. destruct H as [_ R _ E]. unfold withdrawOwner.
  set (s1 := end_authority s) in *. rewrite Hro, Hce. destruct (oroute s) as [r|] eqn:Er.
  - destruct (session_withdraw_ok r w tr R) as (r' & errs & w' & tr' & Es & H' & Hw' & _).
    unfold bind. rewrite Es. unfold ret. cbn [fst snd good with_route cleanupErr].
    assert (E' : OPanic ∉ cleanupErr s ++ map ORoute errs).
    { rewrite elem_of_app. intros [?|Hin]; [done|]. apply list_elem_of_fmap in Hin as (? & [=] & _). }
    split; [|done]. split_and!; [|rewrite elem_of_app; tauto|done|done]. split; [split|]; cbn; try done.
    + intros _. split; [done|]. by intros ? [= <-].
    + intros ? [= <-]. cbn. congruence.
  - unfold ret. cbn [fst snd good]. split; [|done]. split_and!; [|rewrite elem_of_app; tauto|done|done].
    split; [split|]; rewrite ?Hro, ?Hce, ?Er; try done. unfold rules_within. by rewrite Hro.
Qed.

(** ** The authority's answers *)

Lemma perform_all_policy os : forall a, policy (Authority.perform_all a os) = policy a.
Proof.
  induction os as [|o os IH]; intros a; [done|]. cbn. unfold Authority.perform_all in IH. rewrite IH.
  by destruct (perform_kept a o) as [_ _ [-> _] _ _].
Qed.

Lemma deadline_inl a t a' d : Deadline a t = (a', inl d) -> a' = a /\ seen a = true /\ d = aexpires a /\ t < d.
Proof. unfold Deadline. intros H. repeat case_match; simplify_eq. bool_norm. by split_and!. Qed.

Lemma constrain_inl a bs t a' bounded :
  ConstrainBindings a bs t = (a', inl bounded) -> grants (policy a) <> [] ->
  a' = a /\ seen a = true /\ Forall (fun b => expires b <= aexpires a) bounded /\ bounded <> [].
Proof.
  unfold ConstrainBindings. destruct (Deadline a t) as [a1 [d|e]] eqn:Ed; [|done].
  destruct (deadline_inl _ _ _ _ Ed) as (-> & Hs & -> & _). condition Es; [done|].
  destruct (constrain_loop _ _ _ _ _) as [out|] eqn:El; [|done]. intros [= <- <-] Hg.
  destruct (constrain_loop_ok _ _ _ _ _ _ El) as (-> & _). split_and!; [done|done| |].
  - apply Forall_forall. intros b Hb. apply list_elem_of_fmap in Hb as (b0 & -> & _). cbn. case_match; lia.
  - intros Hn. apply map_eq_nil in Hn as ->. bool_norm. rewrite zlen_nil in Es.
    destruct (grants (policy a)) as [|g gs] eqn:Eg; [done|].
    assert (expected_grants (policy a) = ∅) as He by (apply map_size_empty_iff; lia).
    pose proof (expected_lookup (policy a) (Hostname g)) as Hl. rewrite He, lookup_empty in Hl.
    unfold grants_for in Hl. rewrite Eg, filter_cons_True in Hl by done. done.
Qed.

Lemma bounded_deadline bs d : bs <> [] -> Forall (fun b => expires b <= d) bs -> exists t, bindingDeadline bs = Some t /\ t <= d.
Proof.
  destruct bs as [|b bs]; [done|]. intros _ H. eexists. split; [reflexivity|].
  destruct (fold_earliest (b :: bs) (expires b)) as (H1 & _ & _). cbn zeta in *.
  inversion H as [|? ? Hb _]; subst. pose proof (Unix_floor (fold_left (fun d b => if expires b <? d then expires b else d) (b :: bs) (expires b))).
  lia.
Qed.

(** ** The operations *)

Section operations.
Variable a0 : Authority.
Hypothesis a0_grants : grants (policy a0) <> [].

Lemma core_grants s tr : owner_core a0 s tr -> grants (policy (authority s)) <> [].
Proof. intros [(os & -> & _) _ _ _]. by rewrite perform_all_policy. Qed.

(** Rules and authority that were left alone. *)
Lemma unchanged_good s w tr : owner_ok a0 s tr -> good a0 s ((s, []), (w, tr)).
Proof. intros H. split_and!; [done|apply not_elem_of_nil|done|apply control_kept_refl]. Qed.

Lemma with_authority_ok s tr : owner_ok a0 s tr -> owner_ok a0 (with_authority s (authority s)) tr.
Proof. by destruct s. Qed.

Lemma core_deadline s tr t : owner_core a0 s tr -> owner_core a0 (with_authority s (fst (Deadline (authority s) t))) tr.
Proof. intros H. by apply (core_authority a0 s tr _ [OpDeadline t] H); repeat constructor. Qed.

Lemma core_constrain s tr bs t :
  owner_core a0 s tr -> owner_core a0 (with_authority s (fst (ConstrainBindings (authority s) bs t))) tr.
Proof. intros H. by apply (core_authority a0 s tr _ [OpConstrain bs t] H); repeat constructor. Qed.

Lemma kept_authority s a : control_kept s (with_authority s a).
Proof. unfold control_kept. auto. Qed.

Lemma kept_route s r es : control_kept s (with_route s r es).
Proof. unfold control_kept. auto. Qed.

Lemma kept_bindings s bs t : control_kept s (with_bindings s bs t).
Proof. unfold control_kept. auto. Qed.

Lemma withdraw_one s s' e w tr :
  owner_core a0 s' tr -> e <> OPanic -> control_kept s s' -> good a0 s (withdrawOwner clock actuator s' [e] (w, tr)).
Proof.
  intros H He Hk. apply withdrawOwner_good; [done| |done]. rewrite list_elem_of_singleton. congruence.
Qed.

#[local] Hint Resolve control_kept_refl kept_authority kept_route kept_bindings : owner.

(** An operation that ends with a withdrawal. *)
Ltac withdraws := apply withdraw_one; [done|done|eauto using control_kept_trans with owner].

Lemma CheckJob_good s job w tr : owner_ok a0 s tr -> good a0 s (CheckJob clock actuator s job (w, tr)).
Proof.
  intros H. pose proof (proj1 H) as C. unfold CheckJob, bind at 1, reads.
  destruct (NewAuthority job) as [other|]; [|withdraws]. destruct (_ || _); [withdraws|]. destruct (negb _); [withdraws|].
  pose proof (core_deadline s tr (clock (w, tr)) C) as CD. destruct (Deadline _ _) as [a [d|e]] eqn:Ed; cbn [fst] in CD; [|withdraws].
  destruct (deadline_inl _ _ _ _ Ed) as (-> & _). unfold bind, route_dns.
  assert (Hdone : good a0 s (with_authority s (authority s), [], (w, tr))) by (by destruct s; apply unchanged_good).
  cbn [with_authority oroute]. destruct (oroute s) as [r|]; [|exact Hdone].
  unfold bind, ret. destruct (DNS _ _ _) as [[v|] [w1 tr1]] eqn:Ev; unfold DNS, bind, reads, ret in Ev; simplify_eq; [exact Hdone|withdraws].
Qed.

Lemma refreshLocked_good s s1 r ctx bs dns w tr :
  owner_core a0 s1 tr -> oroute s1 = Some r -> owithdrawn s1 = false -> control_kept s s1 ->
  (Route.withdrawn r = false -> fexpires (srules r) = installed s1) ->
  good a0 s (refreshLocked clock actuator s1 r ctx bs dns (w, tr)).
Proof.
  intros C Hr Hw Hk Hi. unfold refreshLocked, bind at 1, reads. destruct (_ || _); [withdraws|].
  pose proof (core_constrain s1 tr bs (clock (w, tr)) C) as CC.
  destruct (ConstrainBindings _ _ _) as [a [bounded|e]] eqn:Ec; cbn [fst] in CC; [|withdraws].
  destruct (constrain_inl _ _ _ _ _ Ec (core_grants _ _ C)) as (-> & Hs & Hle & Hne).
  destruct (bounded_deadline _ _ Hne Hle) as (deadline & Ed & Hd). unfold bind at 1.
  destruct (DNS _ _ _) as [[v|] [w1 tr1]] eqn:Ev; unfold DNS, bind, reads, ret in Ev; simplify_eq; [|withdraws].
  rewrite Ed. cbn [with_authority installed]. pose proof (oc_route _ _ _ C) as R. rewrite Hr in R.
  destruct (dns || _) eqn:En.
  - unfold bind at 1. destruct (refresh_ok now route r ctx bounded false w1 tr1 R) as (r' & errs & w' & tr' & E & R' & He & _).
    rewrite E. destruct errs as [|e errs].
    + destruct (refresh_rules _ _ _ _ _ _ _ _ _ E) as (t & Et & _). apply compiled_deadline in Et.
      assert (deadline = fexpires (srules r')) as -> by congruence. unfold ret, good. cbn.
      split_and!; [|apply not_elem_of_nil|exact (kept_final _ _ Hk)|exact Hk].
      destruct CC as [CA _ CW CE]. split; [split; cbn in *; try done; congruence|]. intros ? [= <-] _. cbn. by split_and!.
    + apply withdrawOwner_good.
      * destruct CC as [CA _ CW CE]. split; cbn in *; try done. congruence.
      * intros Hin. apply list_elem_of_fmap in Hin as (? & [=] & _).
      * eauto using control_kept_trans with owner.
  - bool_norm. unfold ret, good. cbn. destruct CC as [CA CR CW CE].
    split_and!; [|apply not_elem_of_nil|exact (kept_final _ _ Hk)|exact Hk].
    split; [by split|]. intros r' Hr' Hw'. cbn in *. rewrite Hr in Hr'. injection Hr' as <-. split_and!; [done|by apply Hi|lia].
Qed.


Lemma core_reconcile s tr v f c t :
  owner_core a0 s tr -> given v f c -> owner_core a0 (with_authority s (fst (Authority.Reconcile (authority s) v f c t))) tr.
Proof. intros H Hg. by apply (core_authority a0 s tr _ [OpReconcile v f c t] H); repeat constructor. Qed.

(** The encoding of a reconciliation the owner was given. *)
Definition payload_given (raw : bytes) : Prop :=
  exists v f c, given (Some v) f c /\
    EncodeAuthorityUpdate {| Reconciliation := Some v; Features := f; CredentialExpiry := c |} = Some raw.

(** A record of one more update, or the end of the feed. *)
Definition control_recorded (s s' : AuthorityRoute) : Prop :=
  owithdrawn s' = owithdrawn s /\
  (controlSequence s' = controlSequence s /\ controlUnavailable s' = true /\ controlUpdates s' = [] \/
   exists raw, payload_given raw /\ controlSequence s' = controlSequence s + 1 /\ controlSequence s <> 2 ^ 64 - 1 /\
     controlUnavailable s = false /\ controlUnavailable s' = false /\
     controlUpdates s' = (let us := controlUpdates s ++ [(controlSequence s + 1, raw)] in
                          if maximumControlUpdates <? zlen us then drop 1 us else us)).

Definition good_step (s0 : AuthorityRoute) (x : (AuthorityRoute * list ownerError) * TW) : Prop :=
  let '((s, errs), (_, tr)) := x in
  owner_ok a0 s tr /\ OPanic ∉ errs /\ (owithdrawn s0 = true -> owithdrawn s = true) /\
  (control_kept s0 s \/ exists s1, control_kept s0 s1 /\ control_recorded s1 s).

Lemma good_good_step s x : good a0 s x -> good_step s x.
Proof. destruct x as [[s' errs] [w tr]]. intros (? & ? & ? & ?). split_and!; auto. Qed.

Lemma record_owner s v f c tr : owner_ok a0 s tr -> owner_ok a0 (recordControlUpdate s v f c) tr.
Proof.
  intros H. assert (K : forall us n t b, owner_ok a0 (with_control s us n t b) tr)
    by (intros; destruct H as [[A R Wd E] Q]; split; [by split|exact Q]).
  unfold recordControlUpdate. destruct (controlUnavailable s); [done|]. cbn zeta. destruct (_ <? controlChecked s); [done|].
  destruct (EncodeAuthorityUpdate _); [|apply K]. destruct (_ =? _); apply K.
Qed.

Lemma record_recorded s v f c :
  given (Some v) f c -> recordControlUpdate s v f c = s \/ control_recorded s (recordControlUpdate s v f c).
Proof.
  intros Hg. unfold recordControlUpdate. destruct (controlUnavailable s) eqn:Eu; [by left|]. cbn zeta.
  destruct (_ <? _); [by left|]. right. destruct (EncodeAuthorityUpdate _) as [raw|] eqn:Ee; [|split; [done|by left]].
  destruct (_ =? 2 ^ 64 - 1) eqn:E; (split; [done|]); [by left|]. right. exists raw. bool_norm.
  split_and!; try done. by exists v, f, c.
Qed.

Lemma Reconcile_good s ctx v f c w tr :
  owner_ok a0 s tr -> given v f c -> good_step s (Reconcile clock actuator s ctx v f c (w, tr)).
Proof.
  intros [C Q] Hg. unfold Reconcile, bind at 1, reads. pose proof (core_reconcile s tr v f c (clock (w, tr)) C Hg) as CR.
  destruct (owithdrawn s) eqn:Ew.
  { destruct (Authority.Reconcile _ _ _ _ _) as [a ok] eqn:Er. cbn [fst] in CR. apply good_good_step. unfold ret, good.
    destruct CR as [CA CO CW CE]. split_and!; [|destruct ok; rewrite elem_of_cons; intros [?|?]; done|done|apply kept_authority].
    split; [by split|]. intros r Hr Hw. cbn in *. destruct (oc_withdrawn _ _ _ C Ew) as [_ H]. rewrite (H r Hr) in Hw. done. }
  destruct (_ || _); [apply good_good_step; withdraws|].
  destruct (Authority.Reconcile _ _ _ _ _) as [a ok]. cbn [fst] in CR. destruct (negb ok); [apply good_good_step; withdraws|].
  pose proof (core_deadline _ tr (clock (w, tr)) CR) as CD. cbn [with_authority authority] in CD.
  destruct (Deadline a _) as [a' [d|e]] eqn:Ed; cbn [fst] in CD; [|apply good_good_step; withdraws].
  assert (G : good a0 s (match oroute s with
                         | Some r => refreshLocked clock actuator (with_authority s a') r ctx (obindings s) false (w, tr)
                         | None => (with_authority s a', [], (w, tr)) end)).
  { destruct (oroute s) as [r|] eqn:Er.
    - apply refreshLocked_good; [done|done|done|apply kept_authority|]. intros Hw. by destruct (Q r Er Hw) as (_ & -> & _).
    - split_and!; [|apply not_elem_of_nil|done|apply kept_authority]. split; [done|]. intros r Hr. cbn in Hr. congruence. }
  unfold bind. cbn [with_authority oroute obindings].
  assert (F : forall x, good a0 s x -> good_step s (let '(s', errs, w') := x in
      match errs, v with [], Some r => ret (recordControlUpdate s' r f c, []) | _, _ => ret (s', errs) end w')).
  { intros [[s1 errs] [w1 tr1]] G1. destruct errs as [|e errs]; [|by apply good_good_step].
    destruct v as [v|]; [|by apply good_good_step]. destruct G1 as (O1 & _ & W1 & K1). unfold ret, good_step.
    split_and!; [by apply record_owner|apply not_elem_of_nil|congruence|].
    destruct (record_recorded s1 v f c Hg) as [->|Hrec]; [by left|]. right. by exists s1. }
  destruct (oroute s) as [r|]; [|exact (F _ G)].
  destruct (refreshLocked _ _ _ _ _ _ _ _) as [[s1 errs] [w1 tr1]]. exact (F (s1, errs, (w1, tr1)) G).
Qed.


Lemma Start_good s ctx bs w tr : owner_ok a0 s tr -> good a0 s (Start clock actuator s ctx bs (w, tr)).
Proof.
  intros [C Q]. unfold Start, bind at 1, reads. destruct (owithdrawn s || _) eqn:Ew; [withdraws|]. bool_norm.
  destruct (oroute s) as [|] eqn:Er; [done|]. pose proof (oc_route _ _ _ C) as R. rewrite Er in R. subst tr.
  destruct (_ || _); [withdraws|]. pose proof (core_constrain s [] bs (clock (w, [])) C) as CC.
  destruct (ConstrainBindings _ _ _) as [a [bounded|e]] eqn:Ec; cbn [fst] in CC; [|withdraws].
  destruct (constrain_inl _ _ _ _ _ Ec (core_grants _ _ C)) as (-> & Hs & Hle & Hne).
  destruct (bounded_deadline _ _ Hne Hle) as (deadline & Ed & Hd). unfold bind at 1. cbn [with_authority octx].
  destruct (session_start_ok now route (either (octx s) ctx) (LJobId (lease (authority s))) bounded w)
    as (r & errs & w1 & tr1 & Es & Hr). rewrite Es. destruct CC as [CA _ CW CE]. cbn in CA, CW, CE.
  assert (C1 : owner_core a0 (with_route (with_authority s (authority s)) r (cleanupErr s)) tr1).
  { split; cbn; try done; [|congruence]. destruct r as [r|]; [apply Hr|apply Hr]. }
  unfold bind at 1. cbn [with_authority cleanupErr with_route octx owithdrawn].
  destruct errs as [|e errs].
  - destruct (start_rules _ _ _ _ _ _ _ _ Es) as (r' & t & -> & Ec' & _). apply compiled_deadline in Ec'.
    destruct (_ || _); [withdraws|]. rewrite Ed. unfold ret, good. cbn.
    split_and!; [|apply not_elem_of_nil|congruence|unfold control_kept; auto].
    assert (deadline = fexpires (srules r')) as -> by congruence. destruct Hr as [[Hr V] _].
    split; [split; cbn; try done; [|congruence]|intros ? [= <-] _; by split_and!].
    destruct Hr as [L D X]. by split.
  - apply withdrawOwner_good; [done| |eauto using control_kept_trans with owner].
    intros Hin. apply (list_elem_of_fmap ORoute) in Hin as (? & [=] & _).
Qed.

Lemma RefreshDNS_good s ctx bs w tr : owner_ok a0 s tr -> good a0 s (RefreshDNS clock actuator s ctx bs (w, tr)).
Proof.
  intros [C Q]. unfold RefreshDNS. destruct (owithdrawn s) eqn:Ew; [withdraws|]. destruct (oroute s) as [r|] eqn:Er; [|withdraws].
  apply refreshLocked_good; [done|done|done|apply control_kept_refl|]. intros Hw. by destruct (Q r Er Hw) as (_ & -> & _).
Qed.

Lemma CloseOwner_good s w tr :
  owner_ok a0 s tr ->
  good a0 s (CloseOwner clock actuator s (w, tr)) /\
  let '((s', errs), _) := CloseOwner clock actuator s (w, tr) in
  owithdrawn s' = true /\ (errs = [] -> forall r, oroute s' = Some r -> removed r = true).
Proof.
  intros [C Q]. unfold CloseOwner, bind at 1.
  destruct (withdrawOwner_good a0 s s [] w tr C (not_elem_of_nil _) (control_kept_refl s)) as [G Hw].
  unfold bind at 2. destruct (withdrawOwner _ _ _ _ _) as [[s1 errs1] [w1 tr1]]. destruct G as ([C1 Q1] & _ & W1 & K1). cbn in Hw.
  destruct C1 as [CA CR CW CE]. destruct (oroute s1) as [r|] eqn:Er.
  - destruct (close_ok now route r w1 tr1 CR) as (r' & errs & w2 & tr2 & Ec & R2 & Hwd & Hrm).
    unfold bind. rewrite Ec. unfold ret, good. cbn.
    assert (E2 : OPanic ∉ match errs with [] => [] | _ :: _ => cleanupErr s1 ++ map ORoute errs end).
    { destruct errs; [apply not_elem_of_nil|]. rewrite elem_of_app. intros [?|Hin]; [done|].
      apply (list_elem_of_fmap ORoute) in Hin as (? & [=] & _). }
    split_and!; try done.
    + split; [split; cbn; try done|].
      * intros _. destruct (CW Hw) as [? HW]. split; [done|]. intros ? [= <-]. by apply Hwd, HW.
      * intros ? [= <-] Hw'. cbn in *. destruct (CW Hw) as [_ HW]. rewrite (Hwd (HW r eq_refl)) in Hw'. done.
    + intros He ? [= <-]. apply Hrm. destruct errs; [done|]. by destruct (cleanupErr s1).
  - unfold ret, good. split_and!; try done.
    + split; [split; rewrite ?Er; done|]. intros ? Hr. congruence.
    + intros _ r Hr. congruence.
Qed.


(** An owner with its own, or an expired, authority again. *)
Lemma deadline_ok s tr t : owner_ok a0 s tr -> owner_ok a0 (with_authority s (fst (Deadline (authority s) t))) tr.
Proof.
  intros [C Q]. split; [by apply core_deadline|]. intros r Hr Hw. cbn in *. destruct (Q r Hr Hw) as (? & ? & ?).
  unfold Deadline. repeat case_match; by cbn.
Qed.

Lemma with_deadline_good s t w tr :
  owner_ok a0 s tr -> good a0 s ((with_authority s (fst (Deadline (authority s) t)), []), (w, tr)).
Proof. intros H. split_and!; [by apply deadline_ok|apply not_elem_of_nil|done|apply kept_authority]. Qed.

(** What is done with an owner, by its callers and its two watchers. *)
Inductive owner_use :=
  | UCheckJob (job : option JobSpecification)
  | ULeaseExpiry (job : option JobSpecification)
  | UReconcile (ctx : context) (value : option LeaseReconciliation) (features : list Z) (credentialExpiry : Z)
  | UStart (ctx : context) (bs : list Binding)
  | URefreshDNS (ctx : context) (bs : list Binding)
  | UServeBegin
  | UServeEnd (errs : list routeError)
  | UWithdraw
  | UClose
  | UWatchHead
  | UWatchWoken (noticed : bool)
  | URouteWatch
  | UNext (ctx : context) (after : Z).

Definition perform (s : AuthorityRoute) (u : owner_use) : M TW (AuthorityRoute * list ownerError) :=
  match u with
  | UCheckJob job => CheckJob clock actuator s job
  | ULeaseExpiry job =>
      (let! (s, res) := CurrentLeaseExpiry clock actuator s job in ret (s, match res with inl _ => [] | inr errs => errs end))%world
  | UReconcile ctx v f c => Reconcile clock actuator s ctx v f c
  | UStart ctx bs => Start clock actuator s ctx bs
  | URefreshDNS ctx bs => RefreshDNS clock actuator s ctx bs
  | UServeBegin => (let! (_, x) := ServeDNS_begin clock actuator s in ret x)%world
  | UServeEnd errs => ServeDNS_end clock actuator s errs
  | UWithdraw => WithdrawOwner clock actuator s
  | UClose => CloseOwner clock actuator s
  | UWatchHead => (let! s := watch_head clock actuator s in ret (s, []))%world
  | UWatchWoken noticed => (let! s := watch_woken clock actuator s noticed in ret (s, []))%world
  | URouteWatch =>
      match oroute s with
      | Some r => (let! r := watch clock actuator r in ret (with_route s (Some r) (cleanupErr s), []))%world
      | None => ret (s, [])
      end
  | UNext ctx after => (let! (s, _) := NextControlUpdate clock actuator s ctx after in ret (s, []))%world
  end.

Lemma lease_expiry_good s job w tr : owner_ok a0 s tr -> good a0 s (perform s (ULeaseExpiry job) (w, tr)).
Proof.
  intros H. cbn [perform]. unfold CurrentLeaseExpiry. unfold bind at 1 2. pose proof (CheckJob_good s job w tr H) as G.
  destruct (CheckJob _ _ _ _ _) as [[s1 errs] [w1 tr1]]. destruct errs as [|e errs]; [|exact G]. unfold bind, reads, ret.
  destruct G as (O1 & _ & W1 & K1). pose proof (deadline_ok s1 tr1 (clock (w1, tr1)) O1) as O2.
  destruct (Deadline _ _) as [a [d|e]]; cbn [fst] in O2; (split_and!; [done| |done|exact K1]); [apply not_elem_of_nil|].
  rewrite list_elem_of_singleton. done.
Qed.

(** An operation whose errors nobody sees. *)
Lemma forget_good s x : good a0 s x -> good a0 s ((fst (fst x), []), snd x).
Proof. destruct x as [[s' errs] [w tr]]. intros (? & _ & ? & ?). split_and!; [done|apply not_elem_of_nil|done|done]. Qed.

Lemma withdraw_forgotten s s' e w tr :
  owner_core a0 s' tr -> e <> OPanic -> control_kept s s' ->
  good a0 s ((fst (fst (withdrawOwner clock actuator s' [e] (w, tr))), []), snd (withdrawOwner clock actuator s' [e] (w, tr))).
Proof. intros. by apply forget_good, withdraw_one. Qed.

Ltac withdraws_silently s :=
  match goal with |- context [withdrawOwner ?c ?r ?s' [?e] (?w, ?tr)] =>
    let G := fresh in
    assert (G : good a0 s ((fst (fst (withdrawOwner c r s' [e] (w, tr))), []), snd (withdrawOwner c r s' [e] (w, tr))))
      by (apply withdraw_forgotten; [done|done|eauto using control_kept_trans with owner]);
    destruct (withdrawOwner c r s' [e] (w, tr)) as [[? ?] ?]; exact G
  end.

Lemma watch_good s noticed w tr :
  owner_ok a0 s tr -> good a0 s (perform s UWatchHead (w, tr)) /\ good a0 s (perform s (UWatchWoken noticed) (w, tr)).
Proof.
  intros H. pose proof (proj1 H) as C. cbn [perform]. unfold watch_head, watch_woken, bind, reads, ret.
  pose proof (core_deadline s tr (clock (w, tr)) C) as CD. pose proof (with_deadline_good s (clock (w, tr)) w tr H) as GD.
  split.
  - destruct (owithdrawn s); [by apply unchanged_good|]. destruct (seen (authority s)); [|by apply unchanged_good].
    destruct (Deadline _ _) as [a [d|e]]; cbn [fst] in *; [exact GD|]. withdraws_silently s.
  - destruct (Deadline _ _) as [a [d|e]]; cbn [fst] in *; [|withdraws_silently s].
    destruct (_ || _); [withdraws_silently s|exact GD].
Qed.

(** A route's watcher leaves the session alone, or withdraws it. *)
Lemma watch_cases r w tr :
  session_ok r tr ->
  exists r' w' tr', watch clock actuator r (w, tr) = (r', (w', tr')) /\ session_ok r' tr' /\ (r' = r \/ Route.withdrawn r' = true).
Proof.
  intros H. unfold watch, bind, reads, ret. destruct (Route.withdrawn r); [exists r, w, tr; auto|].
  destruct (_ || _); [|exists r, w, tr; auto].
  destruct (withdraw_ok now route r w tr (proj1 H)) as (s1 & errs & w1 & tr1 & -> & H1 & Hw & _). exists s1, w1, tr1. auto.
Qed.

Lemma route_watch_good s w tr : owner_ok a0 s tr -> good a0 s (perform s URouteWatch (w, tr)).
Proof.
  intros [[CA CR CW CE] Q]. cbn [perform]. destruct (oroute s) as [r|] eqn:Er; [|apply unchanged_good; split; [split; rewrite ?Er|]; done].
  unfold bind. destruct (watch_cases r w tr CR) as (r' & w' & tr' & -> & R' & Hr').
  unfold ret, good. split_and!; [|apply not_elem_of_nil|done|apply kept_route]. split; [split; cbn; try done|].
  - intros Ho. destruct (CW Ho) as [? HW]. split; [done|]. intros ? [= <-]. destruct Hr' as [->|?]; [by apply HW|done].
  - intros ? [= <-] Hw'. cbn. destruct Hr' as [->|?]; [by apply Q|congruence].
Qed.

Lemma next_good s ctx after w tr : owner_ok a0 s tr -> good a0 s (perform s (UNext ctx after) (w, tr)).
Proof.
  intros H. pose proof (proj1 H) as C. cbn [perform]. unfold NextControlUpdate, bind, reads, ret.
  destruct (_ || _ || _ || _); [by apply unchanged_good|].
  pose proof (core_deadline s tr (clock (w, tr)) C) as CD. pose proof (with_deadline_good s (clock (w, tr)) w tr H) as GD.
  destruct (Deadline _ _) as [a [d|e]]; cbn [fst] in *; [|withdraws_silently s].
  destruct (controlUpdates _) as [|[n raw] us]; [withdraws_silently s|].
  destruct (_ <? after); [withdraws_silently s|].
  destruct (after =? 0); [exact GD|]. destruct (after <? _); [|exact GD].
  destruct (_ <? n); [withdraws_silently s|exact GD].
Qed.

Definition use_given (u : owner_use) : Prop := match u with UReconcile _ v f c => given v f c | _ => True end.

Lemma perform_good s u w tr : owner_ok a0 s tr -> use_given u -> good_step s (perform s u (w, tr)).
Proof.
  intros H Hg. pose proof (proj1 H) as C. destruct u as [job|job|ctx v f c|ctx bs|ctx bs| |errs| | | |noticed| |ctx after].
  3:{ by apply Reconcile_good. }
  all: apply good_good_step.
  - by apply CheckJob_good.
  - by apply lease_expiry_good.
  - by apply Start_good.
  - by apply RefreshDNS_good.
  - cbn [perform]. unfold ServeDNS_begin, bind, ret.
    assert (G : good a0 s (withdrawOwner clock actuator s [OAuthority ErrAuthority] (w, tr))) by withdraws.
    destruct (owithdrawn s); [by destruct (withdrawOwner _ _ _ _ _)|].
    destruct (oroute s); [by apply unchanged_good|by destruct (withdrawOwner _ _ _ _ _)].
  - apply withdrawOwner_good; [done| |apply control_kept_refl]. intros Hin. by apply list_elem_of_fmap in Hin as (? & [=] & _).
  - apply withdrawOwner_good; [done|apply not_elem_of_nil|apply control_kept_refl].
  - by apply CloseOwner_good.
  - by apply (watch_good s false).
  - by apply (watch_good s noticed).
  - by apply route_watch_good.
  - by apply next_good.
Qed.

(** ** The feed of updates *)

(** What was recorded between two states. *)
Definition recorded (s s' : AuthorityRoute) : list bytes :=
  if controlSequence s <? controlSequence s'
  then match last (controlUpdates s') with Some (_, raw) => [raw] | None => [] end else [].

Definition numbered (l : list bytes) : list (Z * bytes) := imap (fun i raw => (Z.of_nat i + 1, raw)) l.

(** A live feed holds the last updates recorded, at most 64, with their numbers. *)
Record control_ok (s : AuthorityRoute) (rec : list bytes) : Prop := {
  co_sequence : controlSequence s = zlen rec /\ zlen rec < 2 ^ 64;
  co_updates : owithdrawn s = false -> controlUnavailable s = false -> controlUpdates s = drop (length rec - 64) (numbered rec);
  co_payloads : Forall payload_given rec;
}.

Lemma numbered_snoc l raw : numbered (l ++ [raw]) = numbered l ++ [(zlen l + 1, raw)].
Proof. unfold numbered. rewrite imap_app. cbn. unfold zlen. by rewrite Nat.add_0_r. Qed.

Lemma numbered_length l : length (numbered l) = length l.
Proof. apply length_imap. Qed.

Lemma window_snoc {A} (l : list A) x :
  (let us := drop (length l - 64) l ++ [x] in if maximumControlUpdates <? zlen us then drop 1 us else us) =
  drop (length (l ++ [x]) - 64) (l ++ [x]).
Proof.
  cbn zeta. unfold maximumControlUpdates. rewrite zlen_app. unfold zlen. rewrite length_drop, length_app. cbn [length].
  destruct (_ <? _) eqn:E.
  - rewrite <-drop_app_le by lia. rewrite drop_drop. f_equal. lia.
  - rewrite <-drop_app_le by lia. f_equal. lia.
Qed.

Lemma last_window us (x : Z * bytes) :
  last (if maximumControlUpdates <? zlen (us ++ [x]) then drop 1 (us ++ [x]) else us ++ [x]) = Some x.
Proof.
  destruct (_ <? _) eqn:E; [|by rewrite last_snoc]. destruct us as [|u us]; [|cbn; by rewrite ?drop_0, last_snoc].
  unfold maximumControlUpdates, zlen in E. cbn in E. lia.
Qed.

Lemma control_step s s' rec :
  control_ok s rec -> (control_kept s s' \/ exists s1, control_kept s s1 /\ control_recorded s1 s') ->
  control_ok s' (rec ++ recorded s s').
Proof.
  intros [[Hn Hlt] Hu Hp] H. unfold recorded.
  assert (Hsame : controlSequence s' = controlSequence s ->
    (owithdrawn s' = false -> controlUnavailable s' = false -> controlUpdates s' = drop (length rec - 64) (numbered rec)) ->
    control_ok s' (rec ++ (if controlSequence s <? controlSequence s' then
      match last (controlUpdates s') with Some (_, raw) => [raw] | None => [] end else []))).
  { intros Hs Hu'. rewrite (proj2 (Z.ltb_ge _ _)), app_nil_r by lia. split; [lia|done|done]. }
  destruct H as [(K1 & K2 & K3)|(s1 & (K1 & K2 & K3) & Hw & [(R1 & R2 & R3)|(raw & Rg & R1 & R2 & R3 & R4 & R5)])].
  - apply Hsame; [done|]. intros W1 U1. destruct K3 as [[-> Hw]|[_ Hw]]; [apply Hu; congruence|congruence].
  - apply Hsame; [lia|]. congruence.
  - rewrite (proj2 (Z.ltb_lt _ _)) by lia. rewrite R5, K1. cbn zeta. rewrite last_window.
    split; [rewrite zlen_app, zlen_cons, zlen_nil; lia| |apply Forall_app; split; [done|by repeat constructor]].
    intros W1 _. destruct K3 as [[Eu Ew]|[_ Ew]]; [|congruence].
    rewrite R5, K1, Eu, Hn, Hu by congruence. cbn zeta.
    pose proof (window_snoc (numbered rec) (zlen rec + 1, raw)) as E. cbn zeta in E. rewrite numbered_length in E. rewrite E.
    by rewrite numbered_snoc, !length_app, numbered_length.
Qed.


Lemma numbered_lookup l i : numbered l !! i = (fun raw => (Z.of_nat i + 1, raw)) <$> l !! i.
Proof. unfold numbered. by rewrite list_lookup_imap. Qed.

Lemma next_exact s rec ctx after w tr :
  owner_ok a0 s tr -> control_ok s rec -> 0 <= after ->
  let '((_, next), _) := NextControlUpdate clock actuator s ctx after (w, tr) in
  match next with
  | Next n raw => n = (if after =? 0 then zlen rec else after + 1) /\ rec !! Z.to_nat (n - 1) = Some raw /\
                  owithdrawn s = false /\ payload_given raw
  | Refused errs => OPanic ∉ errs
  | Wait => after = zlen rec
  end.
Proof.
  intros H K Ha. pose proof (proj1 H) as C. unfold NextControlUpdate, bind, reads, ret.
  assert (Hsingle : forall e, e <> OPanic -> OPanic ∉ [e]) by (intros e He; rewrite list_elem_of_singleton; congruence).
  destruct (_ || _ || _ || _) eqn:E; [by apply Hsingle|]. bool_norm.
  assert (Hf : forall s' e, owner_core a0 s' tr -> e <> OPanic -> control_kept s s' ->
    let '((_, errs), _) := withdrawOwner clock actuator s' [e] (w, tr) in OPanic ∉ errs).
  { intros s' e F1 F2 F3. pose proof (withdraw_one s s' e w tr F1 F2 F3) as G.
    destruct (withdrawOwner _ _ _ _ _) as [[? ?] [? ?]]. apply G. }
  pose proof (core_deadline s tr (clock (w, tr)) C) as CD.
  destruct (Deadline _ _) as [a [d|e]]; cbn [fst] in CD;
    pose proof (fun e He => Hf _ e CD He (kept_authority s a)) as Hw;
    [|specialize (Hw (OAuthority e) ltac:(done)); by destruct (withdrawOwner _ _ _ _ _) as [[? ?] ?]].
  specialize (Hw (OAuthority ErrAuthority) ltac:(done)).
  cbn [with_authority controlUpdates controlSequence]. destruct K as [[Hn _] Hu Hp]. rewrite Hu, Hn by done. rewrite Forall_forall in Hp.
  assert (Hfound : forall i raw, rec !! i = Some raw -> payload_given raw) by (intros i raw Hi; eapply Hp, list_elem_of_lookup_2, Hi).
  destruct (drop (length rec - 64) (numbered rec)) as [|[first raw0] us] eqn:Eu; [revert Hw; by destruct (withdrawOwner _ _ _ _ _) as [[? ?] ?]|].
  assert (Hfirst : first = Z.of_nat (length rec - 64) + 1 /\ (length rec - 64 < length rec)%nat).
  { assert (Hl : numbered rec !! (length rec - 64 + 0)%nat = Some (first, raw0)) by (by rewrite <-lookup_drop, Eu).
    rewrite Nat.add_0_r, numbered_lookup in Hl. destruct (rec !! (length rec - 64)%nat) as [x|] eqn:Ex; [|done].
    cbn in Hl. apply lookup_lt_Some in Ex. split; [congruence|done]. }
  destruct (zlen rec <? after) eqn:E1; [revert Hw; by destruct (withdrawOwner _ _ _ _ _) as [[? ?] ?]|]. unfold zlen in *. destruct (after =? 0) eqn:E2.
  - rewrite <-Eu, last_lookup, length_drop, numbered_length, lookup_drop, numbered_lookup.
    replace (length rec - 64 + pred (length rec - (length rec - 64)))%nat with (length rec - 1)%nat by lia.
    destruct (rec !! (length rec - 1)%nat) as [raw|] eqn:Ex.
    + cbn. split_and!; [lia| |done|by eapply Hfound].
      by replace (Z.to_nat _) with (length rec - 1)%nat by lia.
    + apply lookup_ge_None in Ex. lia.
  - destruct (after <? _) eqn:E3; [|bool_norm; lia]. destruct (after + 1 <? first) eqn:E4; [revert Hw; by destruct (withdrawOwner _ _ _ _ _) as [[? ?] ?]|].
    bool_norm. rewrite <-Eu, lookup_drop, numbered_lookup.
    replace (length rec - 64 + Z.to_nat (after + 1 - first))%nat with (Z.to_nat after) by lia.
    destruct (rec !! Z.to_nat after) as [raw|] eqn:Ex.
    + cbn. split_and!; [lia| |done|by eapply Hfound]. by replace (Z.to_nat (_ - 1)) with (Z.to_nat after) by lia.
    + apply lookup_ge_None in Ex. lia.
Qed.

(** ** Runs *)

(** The final owner, all errors, and all updates that were recorded. *)
Fixpoint perform_all (s : AuthorityRoute) (us : list owner_use) : M TW (AuthorityRoute * list ownerError * list bytes) :=
  match us with
  | [] => ret (s, [], [])
  | u :: rest => fun w =>
      let '((s1, errs1), w1) := perform s u w in
      let '((s2, errs2, rec), w2) := perform_all s1 rest w1 in
      ((s2, errs1 ++ errs2, recorded s s1 ++ rec), w2)
  end.

Lemma owner_run_ok us : forall s rec w tr,
  owner_ok a0 s tr -> control_ok s rec -> Forall use_given us ->
  let '((s', errs, rec'), (_, tr')) := perform_all s us (w, tr) in
  owner_ok a0 s' tr' /\ OPanic ∉ errs /\ (owithdrawn s = true -> owithdrawn s' = true) /\ control_ok s' (rec ++ rec').
Proof.
  induction us as [|u us IH]; intros s rec w tr H Hc Hg.
  { cbn. rewrite app_nil_r. split_and!; [done|apply not_elem_of_nil|done|done]. }
  inversion Hg as [|? ? Hu Hr]; subst. cbn [perform_all]. pose proof (perform_good s u w tr H Hu) as G.
  destruct (perform s u (w, tr)) as [[s1 errs1] [w1 tr1]]. destruct G as (O1 & E1 & W1 & K1).
  specialize (IH s1 (rec ++ recorded s s1) w1 tr1 O1 (control_step _ _ _ Hc K1) Hr).
  destruct (perform_all s1 us (w1, tr1)) as [[[s2 errs2] rec2] [w2 tr2]]. destruct IH as (O2 & E2 & W2 & K2).
  split_and!; [done|rewrite elem_of_app; tauto|auto|by rewrite app_assoc].
Qed.


End operations.


End invariant.

(** * What the owner guarantees *)

Section guarantees.
Context {TS : Timestamps} {PB : RunnerProto} {CODEC : PolicyCodec} {RC : ReconciliationCodec}.
Context {W : Type} (now : W -> Z) (route : OwnedRoute W).

(** The reconciliations among the uses of an owner. *)
Definition among (us : list owner_use) (v : option LeaseReconciliation) (f : list Z) (c : Z) : Prop :=
  exists ctx, UReconcile ctx v f c ∈ us.

Lemma uses_given us : Forall (use_given (among us)) us.
Proof. apply Forall_forall. intros [] H; cbn; try done. by eexists. Qed.

Lemma new_owner ctx job t s :
  NewAuthorityRoute ctx job t = Some s ->
  grants (policy (authority s)) <> [] /\ seen (authority s) = false /\ Authority.withdrawn (authority s) = false /\
  forall given, owner_ok given (authority s) s [] /\ control_ok given s [].
Proof.
  unfold NewAuthorityRoute. destruct (negb _); [done|]. destruct (NewAuthority job) as [a|] eqn:Ea; [|done].
  destruct (Mode (policy a) =? NETWORK_MODE_NONE) eqn:Em; [done|]. intros [= <-]. cbn [authority].
  assert (Hv : ValidateWireV2 (Some (policy a)) = true /\ seen a = false /\ Authority.withdrawn a = false).
  { unfold NewAuthority in Ea. repeat case_match; simplify_eq. split_and!; [|done|done]. cbn [policy].
    match goal with H : EffectivePolicyV2SHA256 _ = Some _ |- _ => unfold EffectivePolicyV2SHA256 in H end.
    repeat case_match; simplify_eq. bool_norm. congruence. }
  destruct Hv as (Hv & Hs & Hw). split_and!; [|done|done|].
  - destruct (validated_permissions _ Hv) as (qs & Eq & _). rewrite (grants_map qs _ Eq). intros ->.
    unfold ValidateWireV2 in Hv. rewrite Em, Eq in Hv. cbn in Hv. rewrite !orb_true_r in Hv. by destruct (_ || _) in Hv.
  - intros given. split; [split; [split|]|split]; cbn; try done.
    + by exists [].
    + apply not_elem_of_nil.
Qed.

(** C5: the rules in the kernel never outlive the authority. Whatever the actuator
    does and however the owner is used, a route that is live is within an authority
    that one of the owner's reconciliations granted: current, for this very job,
    attempt and policy, and valid until the deadline that bounds the installed rules.
    The actuator is called in a lawful order, not at all before a start, and an owner
    that withdrew has withdrawn its authority and its route. *)
Theorem rules_never_outlive_authority (ctx : context) (job : option JobSpecification) (t : Z) (s0 : AuthorityRoute)
    (us : list owner_use) (w : W) :
  NewAuthorityRoute ctx job t = Some s0 ->
  let '((s, errs, _), (_, tr)) := perform_all now route s0 us (w, []) in
  OPanic ∉ errs /\
  (owithdrawn s = true -> Authority.withdrawn (authority s) = true /\ forall r, oroute s = Some r -> Route.withdrawn r = true) /\
  match oroute s with
  | None => tr = []
  | Some r =>
      lawful (Fresh, false) tr = Some (if Route.withdrawn r then Ended else Live, disconnected r) /\
      (Route.withdrawn r = false -> exists v f c ctx' t',
         UReconcile ctx' (Some v) f c ∈ us /\
         grants_until (authority s) (OpReconcile (Some v) f c t') (checked (authority s)) (aexpires (authority s)) /\
         fexpires (srules r) <= aexpires (authority s))
  end.
Proof.
  intros Hn. destruct (new_owner _ _ _ _ Hn) as (Hg & Hs & _ & Hok). destruct (Hok (among us)) as [H0 C0].
  pose proof (owner_run_ok now route (among us) _ Hg us s0 [] w [] H0 C0 (uses_given us)) as R.
  destruct (perform_all now route s0 us (w, [])) as [[[s errs] rec] [w' tr]]. destruct R as ([C Q] & E & _ & _).
  destruct C as [(os & Ha & Hos) CR CW _]. split_and!; [done|done|]. destruct (oroute s) as [r|] eqn:Er; [|done].
  destruct CR as [[L _ _] _]. split; [done|]. intros Hl. destruct (Q r Er Hl) as (Hseen & -> & Hle).
  destruct (authority_run_ok os [] (authority s0)) as [Hb _]; [by intros ?; congruence|]. cbn [app] in Hb. rewrite <-Ha in Hb.
  destruct (Hb Hseen) as (o & Ho & Hgu). destruct (gu_op _ _ _ _ Hgu) as (v & l & at_ & obs & d & f & c & t' & -> & _).
  rewrite Forall_forall in Hos. destruct (Hos _ Ho) as [ctx' Hin]. by exists v, f, c, ctx', t'.
Qed.

(** C32: a close that reports no error has proven the teardown of whatever was started:
    the route was severed and the table removed, or nothing was ever installed. Until
    then the errors of earlier attempts are reported again. The owner is withdrawn in
    any case, and stays so. *)
Theorem owner_close_proves_teardown (ctx : context) (job : option JobSpecification) (t : Z) (s0 : AuthorityRoute)
    (us later : list owner_use) (w : W) :
  NewAuthorityRoute ctx job t = Some s0 ->
  let '((s, _, _), w1) := perform_all now route s0 us (w, []) in
  let '((s1, errs), (w2, tr)) := CloseOwner (tnow now) (traced_route route) s w1 in
  (errs = [] -> tr = [] \/ EDisconnect true ∈ tr /\ exists r, oroute s1 = Some r /\ removed r = true) /\
  let '((s2, _, _), _) := perform_all now route s1 later (w2, tr) in
  owithdrawn s2 = true /\ Authority.withdrawn (authority s2) = true.
Proof.
  intros Hn. destruct (new_owner _ _ _ _ Hn) as (Hg & _ & _ & Hok). set (given := among (us ++ later)).
  assert (Hu : Forall (use_given given) us /\ Forall (use_given given) later) by (apply Forall_app, uses_given).
  destruct (Hok given) as [H0 C0], Hu as [Hu1 Hu2].
  pose proof (owner_run_ok now route given _ Hg us s0 [] w [] H0 C0 Hu1) as R.
  destruct (perform_all now route s0 us (w, [])) as [[[s errs] rec] [w1 tr1]]. destruct R as (O1 & _ & _ & K1).
  destruct (CloseOwner_good now route given (authority s0) s w1 tr1 O1) as [G Hcl].
  destruct (CloseOwner _ _ _ _) as [[s1 errs1] [w2 tr2]]. destruct Hcl as [Hw Hrm], G as (O2 & _ & _ & K2). split.
  - intros He. destruct O2 as [[_ CR _ _] _]. destruct (oroute s1) as [r|] eqn:Er; [|by left]. right.
    specialize (Hrm He r eq_refl). destruct CR as [[L D X] _]. specialize (X Hrm). rewrite (D X), X in L.
    split; [|by exists r]. by destruct (severed_by _ _ _ _ L eq_refl).
  - pose proof (owner_run_ok now route given _ Hg later s1 _ w2 tr2 O2 (control_step given _ _ _ K1 (or_introl K2)) Hu2) as R.
    destruct (perform_all now route s1 later (w2, tr2)) as [[[s2 errs2] rec2] [w3 tr3]]. destruct R as ([C3 _] & _ & W3 & _).
    specialize (W3 Hw). split; [done|]. by apply (oc_withdrawn _ _ _ _ C3).
Qed.

(** C33: the updates forwarded to the root controller are gap-free. Asked for what
    follows an update, the owner hands over the very next one recorded, or the latest
    when asked for a first one; it never skips one, and refuses a reader that fell
    behind the window of 64. Every update is the encoding of a reconciliation the
    owner was given, and nothing is handed over once the owner has withdrawn. *)
Theorem control_updates_gap_free (ctx ctx' : context) (job : option JobSpecification) (t after : Z) (s0 : AuthorityRoute)
    (us : list owner_use) (w : W) :
  NewAuthorityRoute ctx job t = Some s0 -> 0 <= after ->
  let '((s, _, rec), w1) := perform_all now route s0 us (w, []) in
  let '((_, next), _) := NextControlUpdate (tnow now) (traced_route route) s ctx' after w1 in
  match next with
  | Next n raw => n = (if after =? 0 then zlen rec else after + 1) /\ rec !! Z.to_nat (n - 1) = Some raw /\
                  owithdrawn s = false /\ payload_given (among us) raw
  | Refused errs => OPanic ∉ errs
  | Wait => after = zlen rec
  end.
Proof.
  intros Hn Ha. destruct (new_owner _ _ _ _ Hn) as (Hg & _ & _ & Hok). destruct (Hok (among us)) as [H0 C0].
  pose proof (owner_run_ok now route (among us) _ Hg us s0 [] w [] H0 C0 (uses_given us)) as R.
  destruct (perform_all now route s0 us (w, [])) as [[[s errs] rec] [w1 tr]]. destruct R as (O & _ & _ & K).
  by apply (next_exact now route (among us) (authority s0)).
Qed.


End guarantees.

(** ** A sample run *)

Section sample.
#[local] Existing Instance sample_proto.
#[local] Existing Instance sample_codec.
#[local] Existing Instance sample_timestamps.

(** A codec that encodes a reconciliation by its status. *)
#[local] Instance status_codec : ReconciliationCodec := {|
  RSize := fun _ => 1; RMarshal := fun r => Some [Status r]; RUnmarshal := fun raw => None |}.

(** The world is its clock; every call takes a nanosecond and succeeds. *)
Definition sample_clock (w : Z) : Z := w.

Definition sample_actuator : OwnedRoute Z := {|
  rjob := sample_job; Apply := fun _ _ w => (None, w + 1); Disconnect := fun _ w => (true, w + 1) |}.

Definition sample_uses : list owner_use := [
  UReconcile None (Some sample_reconciliation) [1; 3; 9; 10] (sample_now + 60 * Second);
  UStart None [sample_binding]].

Definition sample_owner : AuthorityRoute := {|
  authority := sample_authority; oroute := None; obindings := []; installed := 0; octx := None; owithdrawn := false;
  cleanupErr := []; controlUpdates := []; controlSequence := 0; controlChecked := 0; controlUnavailable := false |}.

Lemma sample_owner_new : NewAuthorityRoute None (Some sample_spec) sample_now = Some sample_owner.
Proof. vm_compute. reflexivity. Qed.

(** What a run leaves behind: whether the route is live, the calls, the updates. *)
Definition sample_summary (s : AuthorityRoute) (tr : list event) (rec : list bytes) : bool * list event * nat :=
  (match oroute s with Some r => negb (Route.withdrawn r) | None => false end, tr, length rec).

Lemma sample_run :
  (let '((s, _, rec), (_, tr)) := perform_all sample_clock sample_actuator sample_owner sample_uses (sample_now, []) in
   sample_summary s tr rec) = (true, [EApply routeInstall true], 1%nat).
Proof. vm_compute. reflexivity. Qed.

Lemma rules_never_outlive_authority_witness :
  let '((s, _, _), (_, tr)) := perform_all sample_clock sample_actuator sample_owner sample_uses (sample_now, []) in
  exists r, oroute s = Some r /\ Route.withdrawn r = false /\ fexpires (srules r) <= aexpires (authority s).
Proof.
  pose proof (rules_never_outlive_authority sample_clock sample_actuator None (Some sample_spec) sample_now sample_owner
                sample_uses sample_now sample_owner_new) as T.
  pose proof sample_run as R.
  destruct (perform_all sample_clock sample_actuator sample_owner sample_uses (sample_now, [])) as [[[s errs] rec] [w tr]].
  destruct T as (_ & _ & T). unfold sample_summary in R. injection R as R _ _.
  destruct (oroute s) as [r|]; [|discriminate]. apply negb_true_iff in R. destruct T as [_ T].
  destruct (T R) as (_ & _ & _ & _ & _ & _ & _ & H). exists r. by split_and!.
Defined.

Lemma owner_close_proves_teardown_witness :
  let '((s, _, _), w1) := perform_all sample_clock sample_actuator sample_owner sample_uses (sample_now, []) in
  let '((_, errs), (_, tr)) := CloseOwner (tnow sample_clock) (traced_route sample_actuator) s w1 in
  errs = [] /\ EDisconnect true ∈ tr.
Proof.
  assert (R : (let '((s, _, _), w1) := perform_all sample_clock sample_actuator sample_owner sample_uses (sample_now, []) in
    let '((_, errs), (_, tr)) := CloseOwner (tnow sample_clock) (traced_route sample_actuator) s w1 in
    (errs, length tr)) = ([], 5%nat)) by (vm_compute; reflexivity).
  pose proof (owner_close_proves_teardown sample_clock sample_actuator None (Some sample_spec) sample_now sample_owner
                sample_uses [] sample_now sample_owner_new) as T.
  destruct (perform_all sample_clock sample_actuator sample_owner sample_uses (sample_now, [])) as [[[s errs0] rec] w1].
  destruct (CloseOwner (tnow sample_clock) (traced_route sample_actuator) s w1) as [[s1 errs] [w2 tr]].
  injection R as R Hl. destruct T as [T _]. split; [exact R|]. destruct (T R) as [->|[H _]]; [discriminate|exact H].
Defined.

Lemma control_updates_gap_free_witness :
  let '((s, _, rec), w1) := perform_all sample_clock sample_actuator sample_owner sample_uses (sample_now, []) in
  let '((_, next), _) := NextControlUpdate (tnow sample_clock) (traced_route sample_actuator) s None 0 w1 in
  exists raw, next = Next 1 raw /\ rec = [raw].
Proof.
  assert (R : (let '((s, _, _), w1) := perform_all sample_clock sample_actuator sample_owner sample_uses (sample_now, []) in
    let '((_, next), _) := NextControlUpdate (tnow sample_clock) (traced_route sample_actuator) s None 0 w1 in
    match next with Next n _ => n | _ => 0 end) = 1) by (vm_compute; reflexivity).
  pose proof (control_updates_gap_free sample_clock sample_actuator None None (Some sample_spec) sample_now 0 sample_owner
                sample_uses sample_now sample_owner_new ltac:(lia)) as T.
  pose proof sample_run as S.
  destruct (perform_all sample_clock sample_actuator sample_owner sample_uses (sample_now, [])) as [[[s errs0] rec] [w1 tr1]].
  destruct (NextControlUpdate (tnow sample_clock) (traced_route sample_actuator) s None 0 (w1, tr1)) as [[s1 next] w2].
  destruct next as [n raw|errs|]; [|discriminate|discriminate]. subst n. destruct T as (_ & T & _).
  unfold sample_summary in S. injection S as _ _ S. destruct rec as [|x [|]]; try discriminate. cbn in T. injection T as ->.
  by exists raw.
Defined.

End sample.
