(* ===== verification/Supervise.v ===== *)
(** A worker under network authority ([src/internal/execution/network_authority.go]):
    it runs only with fresh authority, is stopped when the authority is lost, and its
    result cannot hide a teardown that was not proven. *)

From Stdlib Require Import ZifyBool.
From S2P Require Import Prelude Utf8 Strconv World Execution Policy Binder Messages Authority Firewall Route AuthorityUpdate AuthorityRoute.
From S2P Require Import AuthorityRouteInv.

Open Scope world_scope.

(** ** The guard

    What the supervisor uses of an [AuthorityRoute]: [true] stands for no error. *)
Record Guard (W : Type) := {
  GCheckJob : M W bool;
  GWithdraw : M W unit;
  GClose : M W bool;
  GDone : W -> bool;
}.
Arguments GCheckJob {W} _.
Arguments GWithdraw {W} _.
Arguments GClose {W} _.
Arguments GDone {W} _.

(** Which case the goroutine's [select] took while the worker ran. [Done first]: the
    guard was done, and the worker was cancelled for that reason first. *)
Inductive monitored := SawDone (first : bool) | SawContext | SawFinished.

Section supervise.
Context {NetworkObservation Snapshot Observation TerminalContext : Type}.
Context {W : Type} (now : W -> Z).

Local Abbreviation Res := (@Executor.Result NetworkObservation Snapshot Observation TerminalContext).

Definition early (started completed : Z) : Res := {|
  Executor.MeasuredNetwork := None; Executor.MeasuredRuntime := None; Executor.TerminalObservations := [];
  Executor.RTerminalContext := None; Executor.SchemaVersion := []; Executor.JobID := [];
  Executor.Status := failed; Executor.RClassification := ClassificationInfrastructureFailure;
  Executor.RPhase := PhasePreparation; Executor.Environment := None; Executor.Execution := None; Executor.Logs := None;
  Executor.StructuredEvents := []; Executor.RCompleteLog := None; Executor.Cleanup := None; Executor.Usage := no_usage;
  Executor.RFailure := Some (NewFailure ClassificationInfrastructureFailure (bs "network_authority_lost")
                               (bs "network authority unavailable before execution"));
  Executor.StartedAt := started; Executor.CompletedAt := completed |}.

Definition cleanup_failed : Failure :=
  NewFailure ClassificationInfrastructureFailure (bs "network_cleanup_failed") (bs "owned network teardown could not be proven").

Definition applyNetworkCleanup (r : Res) (closed : bool) : Res :=
  if closed then r
  else Executor.with_cleanup
         (Executor.with_outcome r failed ClassificationInfrastructureFailure PhaseCleanup (Some cleanup_failed))
         {| Attempted := true; Succeeded := false; DurationMilliseconds := 0;
            CleanupError := bs "owned network teardown could not be proven" |}.

Definition authority_lost : Failure :=
  NewFailure ClassificationInfrastructureFailure (bs "network_authority_lost") (bs "execution stopped after network authority loss").

Definition cleanup_done (r : Res) : bool := match Executor.Cleanup r with None => true | Some c => Succeeded c end.

Definition apply_loss (r : Res) (lost : bool) : Res :=
  if lost && cleanup_done r
  then Executor.with_outcome r failed ClassificationInfrastructureFailure (Executor.RPhase r) (Some authority_lost)
  else r.

(** [execute] may be nil. What runs beside the worker is part of the world it acts on. *)
Definition SuperviseNetworkAuthority (ctx : context) (guard : option (Guard W)) (execute : option (M W Res))
    (monitor : monitored) : M W Res :=
  let! started := reads now in
  let refuse g := let! completed := reads now in
                  let! closed := GClose g in
                  ret (applyNetworkCleanup (early started completed) closed) in
  match guard with
  | None => let! completed := reads now in ret (early started completed)
  | Some g =>
      match execute, Err ctx started with
      | Some execute, None =>
          let! ok := GCheckJob g in
          if negb ok then refuse g
          else
            let! result := execute in
            (match monitor with SawContext => GWithdraw g | _ => ret tt end) ;;
            let! done := reads (GDone g) in
            let! t := reads now in
            let lost := match monitor with SawDone first => first | _ => false end
                        || (done && bool_decide (Err ctx t = None)) in
            let! closed := GClose g in
            ret (applyNetworkCleanup (apply_loss result lost) closed)
      | _, _ => refuse g
      end
  end.

End supervise.

(** ** The owner as a guard *)

Section owner.
Context {TS : Timestamps} {PB : RunnerProto} {CODEC : PolicyCodec} {RC : ReconciliationCodec}.
Context {NetworkObservation Snapshot Observation TerminalContext : Type}.
Context {W : Type} (now : W -> Z) (route : OwnedRoute W).

Local Abbreviation Res := (@Executor.Result NetworkObservation Snapshot Observation TerminalContext).
Local Abbreviation World := (AuthorityRoute * (W * list event))%type.

Definition world_now (w : World) : Z := now (fst (snd w)).

Definition no_errors {A} (errs : list A) : bool := match errs with [] => true | _ => false end.

Definition owner_guard (job : option JobSpecification) : Guard World := {|
  GCheckJob := fun '(s, w) => let '((s, errs), w) := CheckJob (tnow now) (traced_route route) s job w in (no_errors errs, (s, w));
  GWithdraw := fun '(s, w) => let '((s, _), w) := WithdrawOwner (tnow now) (traced_route route) s w in (tt, (s, w));
  GClose := fun '(s, w) => let '((s, errs), w) := CloseOwner (tnow now) (traced_route route) s w in (no_errors errs, (s, w));
  GDone := fun '(s, _) => owithdrawn s |}.

(** A worker, by what happens to the owner while it runs and its own result. *)
Definition worker (us : list owner_use) (r : Res) : M World Res :=
  fun '(s, w) => let '((s, _, _), w) := perform_all now route s us w in (r, (s, w)).

(** The teardown of a route is proven, or there was nothing to tear down. *)
Definition torn_down (w : World) : Prop := snd (snd w) = [] \/ EDisconnect true ∈ snd (snd w).

(** An owner of a job [a0], with the reconciliations it may be given. *)
Definition sound_world (given : option LeaseReconciliation -> list Z -> Z -> Prop) (a0 : Authority) (w : World) : Prop :=
  let '(s, (_, tr)) := w in owner_ok given a0 s tr /\ exists rec, control_ok given s rec.

Section steps.
Variable given : option LeaseReconciliation -> list Z -> Z -> Prop.
Variable a0 : Authority.
Hypothesis a0_grants : Wire.grants (policy a0) <> [].

Lemma good_sound s w tr x :
  sound_world given a0 (s, (w, tr)) -> good given a0 s x -> sound_world given a0 (fst (fst x), snd x).
Proof.
  intros [_ [rec K]]. destruct x as [[s' errs] [w' tr']]. intros (O & _ & _ & C). split; [done|]. exists (rec ++ recorded s s').
  by apply control_step; [|left].
Qed.

Lemma close_sound job w :
  sound_world given a0 w ->
  let '(closed, w') := GClose (owner_guard job) w in
  sound_world given a0 w' /\ owithdrawn (fst w') = true /\ (closed = true -> torn_down w').
Proof.
  destruct w as [s [w tr]]. intros H. cbn [owner_guard GClose].
  destruct (CloseOwner_good now route given a0 s w tr (proj1 H)) as [G Hc]. pose proof (good_sound _ _ _ _ H G) as S.
  destruct (CloseOwner _ _ _ _) as [[s1 errs] [w1 tr1]]. destruct Hc as [Hw Hr]. split_and!; [exact S|done|].
  intros Hn. destruct errs; [|done]. destruct G as ([[_ CR _ _] _] & _). unfold torn_down. cbn.
  destruct (oroute s1) as [r|] eqn:Er; [|by left]. right. specialize (Hr eq_refl r eq_refl).
  destruct CR as [[L D X] _]. specialize (X Hr). rewrite (D X), X in L. by destruct (severed_by _ _ _ _ L eq_refl).
Qed.

Lemma check_sound job w : sound_world given a0 w -> sound_world given a0 (snd (GCheckJob (owner_guard job) w)).
Proof.
  destruct w as [s [w tr]]. intros H. cbn [owner_guard GCheckJob].
  pose proof (good_sound _ _ _ _ H (CheckJob_good now route given a0 s job w tr (proj1 H))) as S.
  by destruct (CheckJob _ _ _ _ _) as [[s1 errs] [w1 tr1]].
Qed.

Lemma withdraw_sound job w : sound_world given a0 w -> sound_world given a0 (snd (GWithdraw (owner_guard job) w)).
Proof.
  destruct w as [s [w tr]]. intros H. cbn [owner_guard GWithdraw]. unfold WithdrawOwner.
  destruct (withdrawOwner_good now route given a0 s s [] w tr (proj1 (proj1 H)) (not_elem_of_nil _) (control_kept_refl s)) as [G _].
  pose proof (good_sound _ _ _ _ H G) as S. by destruct (withdrawOwner _ _ _ _ _) as [[s1 errs] [w1 tr1]].
Qed.

Lemma worker_sound us r w :
  Forall (use_given given) us -> sound_world given a0 w ->
  fst (worker us r w) = r /\ sound_world given a0 (snd (worker us r w)).
Proof.
  intros Hu. destruct w as [s [w tr]]. intros [O [rec K]]. cbn [worker].
  pose proof (owner_run_ok now route given a0 a0_grants us s rec w tr O K Hu) as R.
  destruct (perform_all now route s us (w, tr)) as [[[s1 errs] rec1] [w1 tr1]]. destruct R as (O1 & _ & _ & K1).
  split; [done|]. split; [done|by eexists].
Qed.

End steps.

(** What is reported of a worker with result [r0]: [r]. *)
Inductive reported (r0 : Res) (r : Res) (proven : Prop) : Prop :=
  | ReportedCleanup :
      Executor.RFailure r = Some cleanup_failed -> Executor.Status r = failed ->
      Executor.RClassification r = ClassificationInfrastructureFailure -> Executor.RPhase r = PhaseCleanup ->
      reported r0 r proven
  | ReportedEarly : proven -> (exists t t', r = early t t') -> reported r0 r proven
  | ReportedLost :
      proven -> cleanup_done r0 = true ->
      r = Executor.with_outcome r0 failed ClassificationInfrastructureFailure (Executor.RPhase r0) (Some authority_lost) ->
      reported r0 r proven
  | ReportedWorker : proven -> r = r0 -> reported r0 r proven.

Lemma cleanup_reported r0 r closed (proven : Prop) :
  (closed = true -> proven) ->
  (exists t t', r = early t t') \/ (exists lost, r = apply_loss r0 lost) ->
  reported r0 (applyNetworkCleanup r closed) proven.
Proof.
  intros Hp H. unfold applyNetworkCleanup. destruct closed; [|by apply ReportedCleanup]. specialize (Hp eq_refl).
  destruct H as [H|[lost ->]]; [by apply ReportedEarly|]. unfold apply_loss.
  destruct (lost && cleanup_done r0) eqn:E; [bool_norm; by apply ReportedLost|by apply ReportedWorker].
Qed.

(** C25: a worker's result cannot hide a teardown that was not proven. However the
    owner was used before and while the worker ran, and whatever the actuator did, the
    owner is withdrawn at the end, and either its route was severed, or never
    installed, or the result is an infrastructure failure of the cleanup. With the
    teardown proven, the result is the worker's own, the worker's own reclassified
    because authority was lost, or a refusal before it ran; in particular a result
    that passed is the worker's own. *)
Theorem supervised_teardown_proven (ctx ctx' : context) (job job' : option JobSpecification) (t : Z) (s0 : AuthorityRoute)
    (before during : list owner_use) (r0 : Res) (monitor : monitored) (w : W) :
  NewAuthorityRoute ctx job t = Some s0 ->
  let '((s, _, _), w1) := perform_all now route s0 before (w, []) in
  let '(r, w2) := SuperviseNetworkAuthority world_now ctx' (Some (owner_guard job')) (Some (worker during r0)) monitor (s, w1) in
  owithdrawn (fst w2) = true /\ reported r0 r (torn_down w2) /\
  (Executor.Status r = passed -> r = r0 /\ torn_down w2).
Proof.
  intros Hn. destruct (new_owner _ _ _ _ Hn) as (Hg & _ & _ & Hok). set (given := among (before ++ during)).
  assert (Hu : Forall (use_given given) before /\ Forall (use_given given) during) by (apply Forall_app, uses_given).
  destruct (Hok given) as [H0 C0], Hu as [Hu1 Hu2].
  pose proof (owner_run_ok now route given _ Hg before s0 [] w [] H0 C0 Hu1) as R.
  destruct (perform_all now route s0 before (w, [])) as [[[s errs] rec] [w1 tr1]]. destruct R as (O1 & _ & _ & K1).
  assert (S : sound_world given (authority s0) (s, (w1, tr1))) by (split; [done|by eexists]).
  assert (Hpass : forall r w2, reported r0 r (torn_down w2) -> Executor.Status r = passed -> r = r0 /\ torn_down w2).
  { intros r w2 [_ E _ _|? (? & ? & ->)|? ? ->|? ->]; [rewrite E|..]; done. }
  assert (Hend : forall r wx, sound_world given (authority s0) wx ->
    (exists t t', r = early t t') \/ (exists lost, r = apply_loss r0 lost) ->
    let '(closed, w2) := GClose (owner_guard job') wx in
    owithdrawn (fst w2) = true /\ reported r0 (applyNetworkCleanup r closed) (torn_down w2) /\
    (Executor.Status (applyNetworkCleanup r closed) = passed -> applyNetworkCleanup r closed = r0 /\ torn_down w2)).
  { intros r wx Sx Hr. pose proof (close_sound given (authority s0) job' wx Sx) as H.
    destruct (GClose _ wx) as [closed w2]. destruct H as (_ & Hw & Hd).
    pose proof (cleanup_reported r0 r closed _ Hd Hr) as Rp. split_and!; [done|done|by apply Hpass]. }
  unfold SuperviseNetworkAuthority. unfold bind at 1, reads at 1. cbn zeta.
  assert (Hrefuse : forall started wx, sound_world given (authority s0) wx ->
    let '(r, w2) := bind (reads world_now) (fun completed => bind (GClose (owner_guard job')) (fun closed =>
        ret (applyNetworkCleanup (early started completed) closed))) wx in
    owithdrawn (fst w2) = true /\ reported r0 r (torn_down w2) /\ (Executor.Status r = passed -> r = r0 /\ torn_down w2)).
  { intros started wx Sx. unfold bind, reads, ret.
    pose proof (Hend (early started (world_now wx)) wx Sx (or_introl (ex_intro _ _ (ex_intro _ _ eq_refl)))) as H.
    by destruct (GClose _ wx). }
  destruct (Err ctx' _); [by apply Hrefuse|]. unfold bind at 1.
  pose proof (check_sound given (authority s0) job' _ S) as S1.
  destruct (GCheckJob _ _) as [ok wx]. cbn [snd] in S1. destruct (negb ok); [by apply Hrefuse|]. unfold bind at 1.
  destruct (worker_sound given (authority s0) Hg during r0 wx Hu2 S1) as [Er S2].
  destruct (worker during r0 wx) as [r wy]. cbn [fst snd] in Er, S2. subst r. unfold bind at 1.
  set (stop := match monitor with SawContext => GWithdraw (owner_guard job') | _ => ret tt end).
  assert (S3 : sound_world given (authority s0) (snd (stop wy))) by (unfold stop; destruct monitor; [done|by apply withdraw_sound|done]).
  destruct (stop wy) as [[] wz]. cbn [snd] in S3. unfold bind, reads, ret.
  match goal with |- context [apply_loss r0 ?lost] =>
    pose proof (Hend (apply_loss r0 lost) wz S3 (or_intror (ex_intro _ lost eq_refl))) as H end.
  by destruct (GClose _ wz).
Qed.

End owner.

Section sample.
#[local] Existing Instance sample_proto.
#[local] Existing Instance sample_codec.
#[local] Existing Instance sample_timestamps.
#[local] Existing Instance status_codec.

Definition sample_result : @Executor.Result unit unit unit unit :=
  Executor.with_outcome (early 0 0) passed ClassificationPassed PhaseExecution None.

(** A worker that starts the route and passes. *)
Lemma supervised_teardown_proven_witness :
  let '((s, _, _), w1) := perform_all sample_clock sample_actuator sample_owner (take 1 sample_uses) (sample_now, []) in
  let '(r, w2) := SuperviseNetworkAuthority (world_now sample_clock) None
                    (Some (owner_guard sample_clock sample_actuator (Some sample_spec)))
                    (Some (worker sample_clock sample_actuator (drop 1 sample_uses) sample_result)) SawFinished (s, w1) in
  Executor.Status r = passed /\ torn_down w2.
Proof.
  assert (R : (let '((s, _, _), w1) := perform_all sample_clock sample_actuator sample_owner (take 1 sample_uses) (sample_now, []) in
    fst (SuperviseNetworkAuthority (world_now sample_clock) None
                    (Some (owner_guard sample_clock sample_actuator (Some sample_spec)))
                    (Some (worker sample_clock sample_actuator (drop 1 sample_uses) sample_result)) SawFinished (s, w1)))
    = sample_result) by (vm_compute; reflexivity).
  pose proof (supervised_teardown_proven sample_clock sample_actuator None None (Some sample_spec) (Some sample_spec) sample_now
    sample_owner (take 1 sample_uses) (drop 1 sample_uses) sample_result SawFinished sample_now sample_owner_new) as T.
  destruct (perform_all sample_clock sample_actuator sample_owner (take 1 sample_uses) (sample_now, [])) as [[[s errs] rec] w1].
  destruct (SuperviseNetworkAuthority _ _ _ _ _ _) as [r w2]. cbn [fst] in R. destruct T as (_ & _ & T). subst r.
  split; [reflexivity|]. exact (proj2 (T eq_refl)).
Defined.

End sample.
