(* ===== verification/Url.v ===== *)
(** What the runner uses of Go's [net/url], [net] and [net/netip] to judge the
    addresses it is handed: [url.ParseRequestURI] with the parts of the result, and
    which texts are IP addresses. *)

From S2P Require Import Prelude Utf8 Strconv Json Policy.
Import Names.

(** ** Texts *)

Definition contains (sub : Z) (s : bytes) : bool := existsb (Z.eqb sub) s.

Definition has_prefix (pre s : bytes) : bool := bool_decide (take (length pre) s = pre).

Definition has_suffix (suf s : bytes) : bool := bool_decide (drop (length s - length suf) s = suf).

(** [strings.Index] of a byte, as a number of bytes before it. *)
Fixpoint index_byte (b : Z) (s : bytes) : option nat :=
  match s with
  | [] => None
  | c :: rest => if c =? b then Some O else S <$> index_byte b rest
  end.

(** [strings.LastIndexByte] *)
Definition last_index_byte (b : Z) (s : bytes) : option nat :=
  (fun i => length s - 1 - i)%nat <$> index_byte b (rev s).

(** [strings.Cut] at a byte. *)
Definition cut_byte (b : Z) (s : bytes) : bytes * bytes :=
  match index_byte b s with Some i => (take i s, drop (S i) s) | None => (s, []) end.

Definition count_byte (b : Z) (s : bytes) : nat := length (List.filter (Z.eqb b) s).

Definition one_of (set : string) (b : Z) : bool := existsb (Z.eqb b) (bs set).

Definition alphanumeric (b : Z) : bool := is_upper b || is_lower b || is_digit b.

(** ** IP addresses

    [netip.ParseAddr], as far as whether it succeeds. *)

Definition is_hex_digit (b : Z) : bool := match hex_value b with Some _ => true | None => false end.

Fixpoint hex_run (s : bytes) : nat :=
  match s with b :: rest => if is_hex_digit b then S (hex_run rest) else O | [] => O end.

(** The fields of an IPv6 address; [i] bytes of it are known, [ellipsis] once the
    two colons were seen. *)
Fixpoint ipv6_fields (fuel : nat) (i : Z) (ellipsis : bool) (s : bytes) : bool :=
  match fuel with
  | O => false
  | S fuel =>
      if 16 <=? i then (zlen s =? 0) && negb ellipsis
      else
        let off := hex_run s in
        if (off =? 0)%nat || (4 <? off)%nat then false
        else
          match drop off s with
          | [] => if i + 2 <? 16 then ellipsis else negb ellipsis
          | 0x2E :: _ =>
              (ellipsis || (i =? 12)) && (i + 4 <=? 16) && dotted_ipv4 s
              && (if i + 4 <? 16 then ellipsis else negb ellipsis)
          | 0x3A :: 0x3A :: [] => negb ellipsis && (i + 2 <? 16)
          | 0x3A :: 0x3A :: rest => negb ellipsis && ipv6_fields fuel (i + 2) true rest
          | 0x3A :: [] => false
          | 0x3A :: rest => ipv6_fields fuel (i + 2) ellipsis rest
          | _ => false
          end
  end.

Definition ipv6_body (s : bytes) : bool :=
  match s with
  | 0x3A :: 0x3A :: [] => true
  | 0x3A :: 0x3A :: rest => ipv6_fields 9 0 true rest
  | _ => ipv6_fields 9 0 false s
  end.

Inductive address := IPv4 | IPv6 (zone : bytes).

Definition ParseAddr (s : bytes) : option address :=
  match List.find (fun b => (b =? 0x2E) || (b =? 0x3A) || (b =? 0x25)) s with
  | Some 0x2E => if dotted_ipv4 s then Some IPv4 else None
  | Some 0x3A =>
      match index_byte 0x25 s with
      | None => if ipv6_body s then Some (IPv6 []) else None
      | Some i => let zone := drop (S i) s in
                  if negb (zlen zone =? 0) && ipv6_body (take i s) then Some (IPv6 zone) else None
      end
  | _ => None
  end.

(** [net.ParseIP(s) != nil]: an address without a zone. *)
Definition is_ip (s : bytes) : bool :=
  match ParseAddr s with Some IPv4 => true | Some (IPv6 zone) => zlen zone =? 0 | None => false end.

(** ** Escaping *)

Inductive encoding := encodePath | encodeUserPassword | encodeHost | encodeZone.

#[export] Instance encoding_eq_dec : EqDecision encoding.
Proof. solve_decision. Defined.

Definition host_mode (m : encoding) : bool := match m with encodeHost | encodeZone => true | _ => false end.

Definition shouldEscape (c : Z) (m : encoding) : bool :=
  if alphanumeric c then false
  else if host_mode m && (one_of "!$&'()*+,;=:[]<>" c || (c =? 0x22)) then false
  else if one_of "-_.~" c then false
  else if one_of "$&+,/:;=?@" c then
    match m with
    | encodePath => c =? 0x3F
    | encodeUserPassword => one_of "@/?:" c
    | _ => true
    end
  else true.

(** [unescape]; [None] is an error. *)
Fixpoint unescape (fuel : nat) (m : encoding) (s : bytes) : option bytes :=
  match fuel with
  | O => Some []
  | S fuel =>
      match s with
      | [] => Some []
      | 0x25 :: rest =>
          match rest with
          | h :: l :: rest =>
              match hex_value h, hex_value l with
              | Some vh, Some vl =>
                  let v := vh * 16 + vl in
                  let percent := (h =? 0x32) && (l =? 0x35) in
                  if (bool_decide (m = encodeHost) && (vh <? 8) && negb percent)
                     || (bool_decide (m = encodeZone) && negb percent && negb (v =? 0x20) && shouldEscape v encodeHost)
                  then None
                  else cons v <$> unescape fuel m rest
              | _, _ => None
              end
          | _ => None
          end
      | c :: rest => if host_mode m && (c <? 0x80) && shouldEscape c m then None else cons c <$> unescape fuel m rest
      end
  end.

Definition unescaped (m : encoding) (s : bytes) : option bytes := unescape (S (length s)) m s.

Definition upper_hex (v : Z) : Z := if v <? 10 then 0x30 + v else 0x41 + (v - 10).

Definition escape (m : encoding) (s : bytes) : bytes :=
  concat (map (fun c => if shouldEscape c m then [0x25; upper_hex (c / 16); upper_hex (c mod 16)] else [c]) s).

Definition validEncoded (s : bytes) : bool :=
  forallb (fun c => one_of "!$&'()*+,;=:@[]%" c || negb (shouldEscape c encodePath)) s.

(** ** [url.ParseRequestURI] *)

Record URL := { Scheme : bytes; Opaque : bytes; User : bool; Host : bytes; Path : bytes; RawPath : bytes; Fragment : bytes }.

(** The part before the first colon, when it has the form of a scheme; [None] is an
    error. *)
Fixpoint scheme_end (first : bool) (s : bytes) : option (option nat) :=
  match s with
  | [] => Some None
  | c :: rest =>
      if is_upper c || is_lower c then option_map (option_map S) (scheme_end false rest)
      else if is_digit c || one_of "+-." c then if first then Some None else option_map (option_map S) (scheme_end false rest)
      else if c =? 0x3A then if first then None else Some (Some O)
      else Some None
  end.

Definition getScheme (s : bytes) : option (bytes * bytes) :=
  match scheme_end true s with
  | None => None
  | Some None => Some ([], s)
  | Some (Some i) => Some (take i s, drop (S i) s)
  end.

Definition validOptionalPort (port : bytes) : bool :=
  match port with
  | [] => true
  | 0x3A :: digits => forallb is_digit digits
  | _ => false
  end.

Definition validUserinfo (s : bytes) : bool := forallb (fun c => alphanumeric c || one_of "-._:~!$&'()*+,;=%@" c) s.

(** An address in brackets. *)
Definition parse_literal (host : bytes) : option bytes :=
  match last_index_byte 0x5D host with
  | None => None
  | Some close =>
      let colonPort := drop (S close) host in
      let name := drop 1 (take close host) in
      if negb (validOptionalPort colonPort) then None
      else
        let zone := List.find (fun i => has_prefix (bs "%25") (drop i name)) (seq 0 (length name)) in
        match unescaped encodeHost colonPort,
              match zone with
              | Some i => match unescaped encodeHost (take i name), unescaped encodeZone (drop i name) with
                          | Some h, Some z => Some (h ++ z)
                          | _, _ => None
                          end
              | None => unescaped encodeHost name
              end with
        | Some port, Some name =>
            match ParseAddr name with
            | Some (IPv6 _) => Some (0x5B :: name ++ 0x5D :: port)
            | _ => None
            end
        | _, _ => None
        end
  end.

Definition parseHost (scheme host : bytes) : option bytes :=
  match last_index_byte 0x5B host with
  | Some O => parse_literal host
  | Some (S _) => None
  | None =>
      let strict := bool_decide (scheme = bs "http") || bool_decide (scheme = bs "https") in
      match last_index_byte 0x3A host with
      | Some i =>
          if (strict && (1 <? count_byte 0x3A host)%nat) || negb (validOptionalPort (drop i host)) then None
          else unescaped encodeHost host
      | None => unescaped encodeHost host
      end
  end.

(** The user information is kept as its presence. *)
Definition parseAuthority (scheme authority : bytes) : option (bool * bytes) :=
  match last_index_byte 0x40 authority with
  | None => pair false <$> parseHost scheme authority
  | Some i =>
      match parseHost scheme (drop (S i) authority) with
      | None => None
      | Some host =>
          let userinfo := take i authority in
          let '(name, password) := cut_byte 0x3A userinfo in
          match unescaped encodeUserPassword name, unescaped encodeUserPassword password with
          | Some _, Some _ => if validUserinfo userinfo then Some (true, host) else None
          | _, _ => None
          end
      end
  end.

Definition setPath (u : URL) (p : bytes) : option URL :=
  match unescaped encodePath p with
  | None => None
  | Some path =>
      Some {| Scheme := Scheme u; Opaque := Opaque u; User := User u; Host := Host u; Path := path;
              RawPath := if bool_decide (p = escape encodePath path) then [] else p; Fragment := Fragment u |}
  end.

Definition no_url : URL :=
  {| Scheme := []; Opaque := []; User := false; Host := []; Path := []; RawPath := []; Fragment := [] |}.

Definition is_control (b : Z) : bool := (b <? 0x20) || (b =? 0x7F).

(** The query is dropped: nothing here reads it. A request has no fragment. *)
Definition ParseRequestURI (raw : bytes) : option URL :=
  if existsb is_control raw || (zlen raw =? 0) then None
  else if bool_decide (raw = bs "*") then
    Some {| Scheme := []; Opaque := []; User := false; Host := []; Path := bs "*"; RawPath := []; Fragment := [] |}
  else
    match getScheme raw with
    | None => None
    | Some (scheme, rest) =>
        let scheme := to_lower scheme in
        let rest := fst (cut_byte 0x3F rest) in
        if negb (has_prefix (bs "/") rest) then
          if zlen scheme =? 0 then None
          else Some {| Scheme := scheme; Opaque := rest; User := false; Host := []; Path := []; RawPath := []; Fragment := [] |}
        else if negb (zlen scheme =? 0) && has_prefix (bs "//") rest then
          let authority := drop 2 rest in
          let '(authority, rest) :=
            match index_byte 0x2F authority with Some i => (take i authority, drop i authority) | None => (authority, []) end in
          match parseAuthority scheme authority with
          | None => None
          | Some (user, host) =>
              setPath {| Scheme := scheme; Opaque := []; User := user; Host := host; Path := []; RawPath := []; Fragment := [] |} rest
          end
        else setPath {| Scheme := scheme; Opaque := []; User := false; Host := []; Path := []; RawPath := []; Fragment := [] |} rest
    end.

Definition splitHostPort (hostPort : bytes) : bytes * bytes :=
  let '(host, port) :=
    match last_index_byte 0x3A hostPort with
    | Some i => if validOptionalPort (drop i hostPort) then (take i hostPort, drop (S i) hostPort) else (hostPort, [])
    | None => (hostPort, [])
    end in
  (if has_prefix (bs "[") host && has_suffix (bs "]") host then drop 1 (take (length host - 1) host) else host, port).

Definition Hostname (u : URL) : bytes := fst (splitHostPort (Host u)).

Definition Port (u : URL) : bytes := snd (splitHostPort (Host u)).

Definition EscapedPath (u : URL) : bytes :=
  if negb (zlen (RawPath u) =? 0) && validEncoded (RawPath u) && bool_decide (unescaped encodePath (RawPath u) = Some (Path u))
  then RawPath u
  else if bool_decide (Path u = bs "*") then bs "*"
  else escape encodePath (Path u).

(** ** Letters of other alphabets

    The runes outside ASCII whose lower case is an ASCII letter are the Kelvin sign
    and the dotted capital I; the long s folds to one as well. Any other rune stays
    outside ASCII, which is all that is asked of it here. *)
Fixpoint lower_runes (s : bytes) : bytes :=
  match s with
  | 0xE2 :: 0x84 :: 0xAA :: rest => 0x6B :: lower_runes rest
  | 0xC4 :: 0xB0 :: rest => 0x69 :: lower_runes rest
  | b :: rest => lower_byte b :: lower_runes rest
  | [] => []
  end.

Fixpoint fold_runes (s : bytes) : bytes :=
  match s with
  | 0xE2 :: 0x84 :: 0xAA :: rest => 0x6B :: fold_runes rest
  | 0xC5 :: 0xBF :: rest => 0x73 :: fold_runes rest
  | b :: rest => lower_byte b :: fold_runes rest
  | [] => []
  end.

(** [encoding/json] matches the name of a field of a struct whatever the case of the key. *)
Definition folded (name : string) (key : bytes) : bool := bool_decide (fold_runes key = bs name).
