(* ===== verification/JsonStruct.v ===== *)
(** Decoding of JSON into the structs, maps and raw messages of Go, and the timestamps
    that come with them: what [encoding/json] and [time.Parse] do for the code that
    reads documents of other programs. *)

From S2P Require Import Prelude Strconv Json Url.

(** ** Structs

    The members of an object are stored in the order of the text; [field] says how the
    value of a key is stored, [None] for a key that names no field. An unknown key is
    an error when the decoder is [strict] ([DisallowUnknownFields]). *)
Fixpoint decode_struct {V S} (strict : bool) (field : bytes -> option (V -> S -> option S)) (s : S)
    (ms : list (bytes * V)) : option S :=
  match ms with
  | [] => Some s
  | (k, v) :: ms =>
      match field k with
      | None => if strict then None else decode_struct strict field s ms
      | Some store => match store v s with Some s => decode_struct strict field s ms | None => None end
      end
  end.

(** A [string], an [int64], a [bool] and a [*bool] as fields. [null] leaves a value as it
    is and makes a pointer nil; a value of another kind is an error. *)
Definition store_string {S} (set : bytes -> S -> S) (v : json) (s : S) : option S :=
  match v with JString x => Some (set x s) | JNull => Some s | _ => None end.

Definition store_int64 {S} (set : Z -> S -> S) (v : json) (s : S) : option S :=
  match v with
  | JNumber n => match parse_int64 n with Some x => Some (set x s) | None => None end
  | JNull => Some s
  | _ => None
  end.

Definition store_bool {S} (set : bool -> S -> S) (v : json) (s : S) : option S :=
  match v with JBool b => Some (set b s) | JNull => Some s | _ => None end.

Definition store_bool_pointer {S} (set : option bool -> S -> S) (v : json) (s : S) : option S :=
  match v with JBool b => Some (set (Some b) s) | JNull => Some (set None s) | _ => None end.

(** ** Maps *)

(** A member of a Go map: the last of its key. *)
Definition member {V} (k : bytes) (ms : list (bytes * V)) : option V :=
  snd <$> List.find (fun m => bool_decide (fst m = k)) (rev ms).

(** [json.Unmarshal] into a [map[string]json.RawMessage]; [null] is the nil map. *)
Definition object_of (data : bytes) : option (list (bytes * json)) :=
  match parse data with
  | Some (JObject ms) => Some ms
  | Some JNull => Some []
  | _ => None
  end.

(** ** Raw messages *)

(** The keys of an object and the text of their values. [p] is what follows the opening
    brace or a comma of a text that has been checked; every turn reads a byte. *)
Fixpoint raw_members (fuel : nat) (p : bytes) : list (bytes * bytes) :=
  match fuel, skip_space p with
  | S fuel, quote :: p =>
      match scan_string p with
      | Some (body, p) =>
          match skip_space p with
          | colon :: p =>
              let start := skip_space p in
              match decode_prefix start with
              | Some (_, rest) =>
                  (unquote body, take (length start - length rest) start) ::
                  match skip_space rest with
                  | c :: rest => if c =? 0x2C then raw_members fuel rest else []
                  | [] => []
                  end
              | None => []
              end
          | [] => []
          end
      | None => []
      end
  | _, _ => []
  end.

(** The members of the object [p] starts with, as raw messages. *)
Definition raw_object (p : bytes) : list (bytes * bytes) :=
  match skip_space p with
  | brace :: p => raw_members (length p) p
  | [] => []
  end.

(** ** Timestamps

    [time.Parse(time.RFC3339Nano, s)], as far as whether it succeeds. An hour may have one
    digit, a fraction any number of them after a point or a comma, and a zone may be as
    far as 24:60, as in the library. *)

Definition isLeap (year : Z) : bool := (year mod 4 =? 0) && (negb (year mod 100 =? 0) || (year mod 400 =? 0)).

Definition daysIn (month year : Z) : Z :=
  if month =? 2 then if isLeap year then 29 else 28
  else if existsb (Z.eqb month) [4; 6; 9; 11] then 30 else 31.

(** [getnum]: two digits, or one where [fixed] is false. *)
Definition getnum (fixed : bool) (s : bytes) : option (Z * bytes) :=
  match s with
  | a :: s1 =>
      match digit_value a with
      | None => None
      | Some d =>
          match s1 with
          | b :: s2 =>
              match digit_value b with
              | Some e => Some (d * 10 + e, s2)
              | None => if fixed then None else Some (d, s1)
              end
          | [] => if fixed then None else Some (d, s1)
          end
      end
  | [] => None
  end.

Definition skip_byte (c : Z) (s : bytes) : option bytes :=
  match s with b :: s => if b =? c then Some s else None | [] => None end.

Definition year_of (s : bytes) : option (Z * bytes) :=
  if (length s <? 4)%nat then None
  else match read_digits 0 (take 4 s) with Some y => Some (y, drop 4 s) | None => None end.

(** The fraction of a second, if there is one. *)
Definition skip_fraction (s : bytes) : bytes :=
  match s with
  | p :: rest =>
      if (p =? 0x2E) || (p =? 0x2C) then
        match scan_digits1 rest with Some (_, q) => q | None => s end
      else s
  | [] => s
  end.

Definition zone_ok (s : bytes) : bool :=
  match s with
  | [z] => z =? 0x5A
  | [sign; h1; h2; colon; m1; m2] =>
      ((sign =? 0x2B) || (sign =? 0x2D)) && (colon =? 0x3A)
      && match getnum true [h1; h2], getnum true [m1; m2] with
         | Some (h, _), Some (m, _) => (h <=? 24) && (m <=? 60)
         | _, _ => false
         end
  | _ => false
  end.

Definition RFC3339Nano (s : bytes) : bool :=
  match
    '(year, s) ← year_of s; s ← skip_byte 0x2D s;
    '(month, s) ← getnum true s; s ← skip_byte 0x2D s;
    '(day, s) ← getnum true s; s ← skip_byte 0x54 s;
    '(hour, s) ← getnum false s; s ← skip_byte 0x3A s;
    '(minute, s) ← getnum true s; s ← skip_byte 0x3A s;
    '(second, s) ← getnum true s;
    Some ((1 <=? month) && (month <=? 12) && (1 <=? day) && (day <=? daysIn month year)
          && (hour <? 24) && (minute <? 60) && (second <? 60) && zone_ok (skip_fraction s))
  with
  | Some ok => ok
  | None => false
  end.

Example timestamps :
  map (fun s => RFC3339Nano (bs s))
    ["2026-02-28T9:05:00Z"; "2024-02-29T09:05:00.123456789123+24:60"; "2026-02-29T09:05:00Z"; "2026-02-28T09:05:00,5-01:00"; "2026-02-28 09:05:00Z"]
  = [true; true; false; true; false].
Proof. vm_compute. reflexivity. Qed.

Example raw_example :
  (let q := [0x22] in
   raw_object (bs " {" ++ q ++ bs "a" ++ q ++ bs ": [1, 2 ] ," ++ q ++ bs "b" ++ q ++ bs ":{} } ")
   = [(bs "a", bs "[1, 2 ]"); (bs "b", bs "{}")]).
Proof. vm_compute. reflexivity. Qed.
