(* ===== verification/CanonicalLaws.v ===== *)
(** What canonical documents satisfy: maps keep their keys sorted and distinct, and a
    document of plain strings and small integers is read back as it was printed. *)

From S2P Require Import Prelude Utf8 Patterns Strconv Json JsonLaws Float Sha256 JsonStruct Canonical.

(** ** Maps by key *)

(** Strictly before, in the order of the bytes. *)
Definition before (a b : bytes) : Prop := Automaton.bytes_leb a b = true /\ a <> b.

Lemma bytes_leb_refl a : Automaton.bytes_leb a a = true.
Proof. induction a as [|x a IH]; [done|]. cbn. by rewrite Z.ltb_irrefl. Qed.

Lemma bytes_leb_antisym a b : Automaton.bytes_leb a b = true -> Automaton.bytes_leb b a = true -> a = b.
Proof.
  revert b. induction a as [|x a IH]; intros [|y b]; cbn; try done.
  destruct (x <? y) eqn:?, (y <? x) eqn:?; try done; [lia|]. intros. f_equal; [lia|by apply IH].
Qed.

Lemma bytes_leb_trans a b c :
  Automaton.bytes_leb a b = true -> Automaton.bytes_leb b c = true -> Automaton.bytes_leb a c = true.
Proof.
  revert b c. induction a as [|x a IH]; intros [|y b] [|z c]; cbn; try done.
  destruct (x <? y) eqn:?, (y <? x) eqn:?, (y <? z) eqn:?, (z <? y) eqn:?, (x <? z) eqn:?, (z <? x) eqn:?;
    try done; try lia; eauto.
Qed.

Lemma bytes_leb_total a b : Automaton.bytes_leb a b = true \/ Automaton.bytes_leb b a = true.
Proof.
  revert b. induction a as [|x a IH]; intros [|y b]; cbn; auto.
  destruct (x <? y) eqn:?, (y <? x) eqn:?; auto.
Qed.

#[export] Instance before_trans : Transitive before.
Proof.
  intros a b c [H1 N1] [H2 N2]. split; [by eapply bytes_leb_trans|]. intros <-. by eapply N1, bytes_leb_antisym.
Qed.

Lemma before_irrefl a : ~ before a a.
Proof. by intros [_ ?]. Qed.

Abbreviation sorted_keys ms := (StronglySorted before (map fst ms)).

Lemma map_insert_keys k v m k' : k' ∈ map fst (map_insert k v m) -> k' = k \/ k' ∈ map fst m.
Proof.
  induction m as [|[k1 v1] m IH]; cbn; [set_solver|]. repeat case_match; cbn; set_solver.
Qed.

Lemma map_insert_sorted k v m : sorted_keys m -> sorted_keys (map_insert k v m).
Proof.
  induction m as [|[k1 v1] m IH]; cbn; [by repeat constructor|]. intros H. apply StronglySorted_inv in H as [Hs Hf].
  destruct (decide (k = k1)) as [->|Hk]; [by constructor|]. destruct (Automaton.bytes_leb k k1) eqn:E; cbn.
  - constructor; [by constructor|]. constructor; [done|]. eapply Forall_impl; [exact Hf|]. intros x Hx. by transitivity k1.
  - constructor; [by apply IH|]. apply Forall_forall. intros x [->|Hx]%map_insert_keys.
    + split; [|done]. destruct (bytes_leb_total k k1); congruence.
    + by eapply Forall_forall in Hf.
Qed.

Lemma foldl_insert_sorted ms m : sorted_keys m -> sorted_keys (foldl (fun m kv => map_insert kv.1 kv.2 m) m ms).
Proof. revert m. induction ms as [|kv ms IH]; intros m Hm; [done|]. apply IH. by apply map_insert_sorted. Qed.

Lemma map_of_sorted ms : sorted_keys (map_of ms).
Proof. apply foldl_insert_sorted. constructor. Qed.

Lemma sorted_NoDup (l : list bytes) : StronglySorted before l -> NoDup l.
Proof.
  induction 1 as [|x l Hl IH Hx]; constructor; [|done]. intros Hin. eapply before_irrefl. by eapply Forall_forall in Hx.
Qed.

(** Inserting after every key appends. *)
Lemma map_insert_last k v m : Forall (fun kv => before kv.1 k) m -> map_insert k v m = m ++ [(k, v)].
Proof.
  induction 1 as [|[k' v'] m [Hle Hne] Hm IH]; cbn; [done|]. cbn in *. destruct (decide (k = k')); [by subst|].
  destruct (Automaton.bytes_leb k k') eqn:E; [|by rewrite IH]. by destruct Hne; apply bytes_leb_antisym.
Qed.

(** A map that is sorted stays as it is. *)
Lemma map_of_id ms : sorted_keys ms -> map_of ms = ms.
Proof.
  intros Hs. unfold map_of.
  assert (forall m, Forall (fun kv => Forall (fun kv' => before kv.1 kv'.1) ms) m ->
    foldl (fun m kv => map_insert kv.1 kv.2 m) m ms = m ++ ms) as H; [|by apply H].
  induction ms as [|[k v] ms IH]; intros m Hm; [cbn; by rewrite app_nil_r|]. cbn in Hs. apply StronglySorted_inv in Hs as [Hs Hf].
  cbn [foldl fst snd]. rewrite map_insert_last by (eapply Forall_impl; [exact Hm|]; by intros ? ?%Forall_inv).
  rewrite IH; [by rewrite <-app_assoc|done|]. apply Forall_app. split.
  - eapply Forall_impl; [exact Hm|]. by intros ? ?%Forall_inv_tail.
  - repeat constructor. by rewrite Forall_map in Hf.
Qed.

(** ** Members *)

Lemma find_app_some {A} (f : A -> bool) l1 l2 :
  List.find f (l1 ++ l2) = match List.find f l1 with Some x => Some x | None => List.find f l2 end.
Proof. induction l1 as [|x l1 IH]; cbn; [done|]. by destruct (f x). Qed.

Lemma member_cons {V} k kv (ms : list (bytes * V)) :
  member k (kv :: ms) = match member k ms with Some v => Some v | None => if bool_decide (fst kv = k) then Some (snd kv) else None end.
Proof.
  unfold member. cbn [rev]. rewrite find_app_some. destruct (List.find _ (rev ms)) as [x|] eqn:E; [done|]. cbn.
  by destruct (bool_decide _).
Qed.

Lemma member_None {V} k (ms : list (bytes * V)) : k ∉ map fst ms -> member k ms = None.
Proof.
  induction ms as [|kv ms IH]; [done|]. cbn [map]. intros Hk. rewrite member_cons, IH by set_solver.
  rewrite bool_decide_eq_false_2; [done|]. set_solver.
Qed.

Lemma member_insert k k' v m :
  sorted_keys m -> member k (map_insert k' v m) = if bool_decide (k' = k) then Some v else member k m.
Proof.
  induction m as [|[k1 v1] m IH]; cbn [map_insert]; [by intros; rewrite member_cons|]. intros H. cbn [map fst] in H.
  apply StronglySorted_inv in H as [Hs Hf].
  assert (Hn : k1 ∉ map fst m) by (intros Hin; eapply before_irrefl; by eapply Forall_forall in Hf).
  destruct (decide (k' = k1)) as [->|Hk].
  - rewrite !member_cons. cbn [fst snd]. destruct (decide (k1 = k)) as [->|?].
    + by rewrite (member_None k m), !bool_decide_eq_true_2.
    + by rewrite !(bool_decide_eq_false_2 (k1 = k)).
  - destruct (Automaton.bytes_leb k' k1) eqn:E.
    + rewrite (member_cons k (k', v)). cbn [fst snd]. destruct (decide (k' = k)) as [->|?].
      * rewrite !bool_decide_eq_true_2 by done. rewrite member_None; [done|]. cbn. intros [->|Hin]%elem_of_cons; [done|].
        eapply Forall_forall in Hf; [|exact Hin]. destruct Hf as [Hle _]. apply Hk. symmetry. by apply bytes_leb_antisym.
      * rewrite !bool_decide_eq_false_2 by done. by destruct (member k (_ :: _)).
    + rewrite !(member_cons k (k1, v1)), IH by done. by destruct (bool_decide (k' = k)).
Qed.

Lemma member_foldl k ms m :
  sorted_keys m ->
  member k (foldl (fun m kv => map_insert kv.1 kv.2 m) m ms) = match member k ms with Some v => Some v | None => member k m end.
Proof.
  revert m. induction ms as [|kv ms IH]; intros m Hm; [done|]. cbn [foldl].
  rewrite IH by (by apply map_insert_sorted). rewrite member_insert, member_cons by done.
  destruct (member k ms); [done|]. by destruct (bool_decide _).
Qed.

(** The map of some members has their values. *)
Lemma member_map_of k ms : member k (map_of ms) = member k ms.
Proof. unfold map_of. rewrite member_foldl by constructor. by destruct (member k ms). Qed.

(** ** Documents *)

Lemma shaped_deeper P v d d' : shaped P d v -> (d <= d')%nat -> shaped P d' v.
Proof.
  revert d d'. induction v as [|b|lit|s|vs IH|ms IH] using json_nested_ind; intros d d'; try done.
  - rewrite !shaped_array. intros [Hd H] Hle. split; [lia|]. rewrite Forall_forall in *. intros v Hv.
    apply (IH v Hv (pred d)); [auto|lia].
  - rewrite !shaped_object. intros [Hd H] Hle. split; [lia|]. rewrite Forall_forall in *. intros kv Hkv.
    destruct (H kv Hkv). split; [done|]. apply (IH kv Hkv (pred d)); [auto|lia].
Qed.

(** What is printed as itself: ASCII without quotes, backslashes, controls and the
    characters of HTML. *)
Definition plain_byte (b : Z) : bool :=
  in_range 0x20 0x7E b && negb (existsb (Z.eqb b) [0x22; 0x5C; 0x3C; 0x3E; 0x26]).

Abbreviation plain := (Forall (fun b => plain_byte b = true)).

(** A small integer, as it is printed. *)
Definition small (lit : bytes) : Prop := exists n, 0 <= n < 2 ^ 53 /\ lit = itoa n.

Inductive simple (limit : Z) : nat -> json -> Prop :=
  | simple_null d : simple limit d JNull
  | simple_bool d b : simple limit d (JBool b)
  | simple_number d lit : small lit -> simple limit d (JNumber lit)
  | simple_string d s : plain s -> simple limit d (JString s)
  | simple_array d vs : zlen vs <= limit -> Forall (simple limit d) vs -> simple limit (S d) (JArray vs)
  | simple_object d ms : Forall (fun kv => plain kv.1 /\ simple limit d kv.2) ms -> simple limit (S d) (JObject ms).

(** Every object has its keys sorted. *)
Inductive ordered : json -> Prop :=
  | ordered_null : ordered JNull
  | ordered_bool b : ordered (JBool b)
  | ordered_number lit : ordered (JNumber lit)
  | ordered_string s : ordered (JString s)
  | ordered_array vs : Forall ordered vs -> ordered (JArray vs)
  | ordered_object ms : sorted_keys ms -> Forall (fun kv => ordered kv.2) ms -> ordered (JObject ms).

#[export] Hint Constructors simple ordered : canonical.

Lemma plain_ascii b : plain_byte b = true -> ascii_byte b = true.
Proof. unfold plain_byte, ascii_byte, in_range. bool_norm. lia. Qed.

Lemma plain_escape b : plain_byte b = true -> escape_byte b = [b].
Proof.
  unfold plain_byte, in_range, escape_byte. cbn [existsb]. intros H.
  repeat match goal with |- context [if ?c then _ else _] => replace c with false by lia end. done.
Qed.

Lemma escape_plain s : plain s -> escape s = s.
Proof.
  unfold escape. induction 1 as [|b s Hb Hs IH]; [done|]. cbn [length escape_loop escape_rune].
  rewrite (plain_ascii _ Hb), (plain_escape _ Hb). cbn [drop app]. by f_equal.
Qed.

Lemma plain_Valid s : plain s -> Utf8.Valid s = true.
Proof.
  induction 1 as [|b s Hb Hs IH]; [done|]. apply (Valid_app [b]); [|done]. apply Valid_ascii. by apply plain_ascii.
Qed.

Lemma itoa_number n : 0 <= n -> number (itoa n).
Proof.
  intros Hn. exists [], (itoa n), [], []. split_and!; [by rewrite !app_nil_r|by left| |by left|by left].
  destruct (decide (n = 0)) as [->|]; [by left|]. right. destruct (itoa_digits n Hn) as (_ & Hne & Hd).
  split; [done|]. intros d ds E. eapply itoa_head; [|exact E]. lia.
Qed.

Lemma plain_quote s : plain s -> quote s = 0x22 :: s ++ [0x22].
Proof. intros H. unfold quote. by rewrite escape_plain. Qed.

Lemma simple_well_formed limit d v : simple limit d v -> well_formed d v.
Proof.
  revert d. induction v as [|b|lit|s|vs IH|ms IH] using json_nested_ind; intros d H; inversion H as [|?|? ? Hn|? ? Hs|? ? Hl Hv|? ? Hm]; subst; try done.
  - destruct Hn as (n & Hn & ->). apply itoa_number. lia.
  - by apply plain_Valid.
  - apply shaped_array. split; [lia|]. rewrite Forall_forall in *. auto.
  - apply shaped_object. split; [lia|]. rewrite Forall_forall in *. intros kv Hkv. destruct (Hm _ Hkv).
    split; [by apply plain_Valid|by apply IH].
Qed.

Lemma simple_deeper limit v d d' : simple limit d v -> (d <= d')%nat -> simple limit d' v.
Proof.
  revert d d'. induction v as [|b|lit|s|vs IH|ms IH] using json_nested_ind; intros d d' H Hle;
    inversion H as [|?|? ? Hn|? ? Hs|? ? Hl Hv|? ? Hm]; subst; try by constructor.
  - destruct d' as [|d']; [lia|]. constructor; [done|]. rewrite Forall_forall in *. intros v Hin. eapply IH; [done|auto|lia].
  - destruct d' as [|d']; [lia|]. constructor. rewrite Forall_forall in *. intros kv Hin. destruct (Hm _ Hin).
    split; [done|]. eapply IH; [done|done|lia].
Qed.

(** A simple document is read back. *)
Lemma parse_simple limit d v : simple limit d v -> (d <= maxNestingDepth)%nat -> Json.parse (Json.Marshal v) = Some v.
Proof.
  intros H Hd. apply simple_well_formed in H. assert (well_formed maxNestingDepth v) as Hw by by eapply shaped_deeper.
  rewrite parse_Marshal; [|by eapply shaped_weaken]. by erewrite coerced_id.
Qed.

(** ** Reading into an [any] *)

Lemma mapM_map {A B} (f : A -> option B) (g : A -> B) l : Forall (fun x => f x = Some (g x)) l -> mapM f l = Some (map g l).
Proof. induction 1 as [|x l Hx _ IH]; [done|]. cbn. rewrite Hx. cbn. by rewrite IH. Qed.

Lemma small_float lit : small lit -> float_text lit = Some lit.
Proof. intros (n & Hn & ->). unfold float_text. destruct (float_integer n Hn) as (f & -> & <-). done. Qed.

Lemma any_simple limit d v : simple limit d v -> any_value v = Some (any_of v).
Proof.
  revert d. induction v as [|b|lit|s|vs IH|ms IH] using json_nested_ind; intros d H; inversion H as [|?|? ? Hn|? ? Hs|? ? Hl Hv|? ? Hm]; subst; try done.
  - cbn. by rewrite small_float.
  - cbn [any_value any_of]. rewrite (mapM_map _ any_of); [done|]. rewrite Forall_forall in *. eauto.
  - cbn [any_value any_of]. rewrite (mapM_map _ (fun kv => (kv.1, any_of kv.2))); [done|].
    rewrite Forall_forall in *. intros kv Hkv. destruct (Hm _ Hkv) as [_ Hv]. by rewrite (IH _ Hkv _ Hv).
Qed.

Lemma any_of_simple limit d v : simple limit d v -> simple limit d (any_of v).
Proof.
  revert d. induction v as [|b|lit|s|vs IH|ms IH] using json_nested_ind; intros d H; inversion H as [|?|? ? Hn|? ? Hs|? ? Hl Hv|? ? Hm]; subst; try done.
  - cbn [any_of]. constructor; [unfold zlen in *; by rewrite length_map|]. rewrite Forall_map. rewrite Forall_forall in *. eauto.
  - cbn [any_of]. constructor. apply map_of_Forall. rewrite Forall_map. rewrite Forall_forall in *. intros kv Hkv.
    destruct (Hm _ Hkv). cbn. eauto.
Qed.

Lemma any_of_ordered v : ordered (any_of v).
Proof.
  induction v as [|b|lit|s|vs IH|ms IH] using json_nested_ind; cbn [any_of]; constructor.
  - by rewrite Forall_map.
  - apply map_of_sorted.
  - apply map_of_Forall. by rewrite Forall_map.
Qed.

Lemma unmarshal_simple limit d v :
  simple limit d v -> (d <= maxNestingDepth)%nat -> unmarshal_any (Json.Marshal v) = Some (any_of v).
Proof. intros H Hd. unfold unmarshal_any. erewrite parse_simple by done. cbn. by eapply any_simple. Qed.

(** ** Strict parsing *)

Lemma decodeValue_object d ms :
  decodeValue (S d) (JObject ms) =
  if bool_decide (NoDup (map fst ms))
  then (fun l => JObject (map_of l)) <$> mapM (fun kv => pair (fst kv) <$> decodeValue d (snd kv)) ms else None.
Proof. reflexivity. Qed.

Lemma decode_simple d v : simple maxJSONArray d v -> ordered v -> decodeValue (S d) v = Some v.
Proof.
  revert d. induction v as [|b|lit|s|vs IH|ms IH] using json_nested_ind; intros d H O;
    inversion H as [|?|? ? Hn|? ? Hs|? ? Hl Hv|? ? Hm]; subst; try done.
  - cbn. by rewrite small_float.
  - inversion O as [| | | |? Ov|]; subst. cbn [decodeValue]. replace (maxJSONArray <? zlen vs) with false by lia.
    rewrite (mapM_map _ id), map_id; [done|]. rewrite Forall_forall in *. intros v Hin. apply IH; auto.
  - inversion O as [| | | | |? Os Ov]; subst. rewrite decodeValue_object. rewrite bool_decide_eq_true_2 by by apply sorted_NoDup.
    rewrite (mapM_map _ id), map_id; [cbn; by rewrite map_of_id|]. rewrite Forall_forall in *. intros [k v] Hin.
    destruct (Hm _ Hin) as [_ Hv]. cbn [fst snd] in *. pose proof (IH _ Hin _ Hv (Ov _ Hin)) as E. cbn [snd] in E. by rewrite E.
Qed.

Lemma join_nodes l : foldr Z.add 0 (map zlen l) <= zlen (join l).
Proof.
  induction l as [|x [|y l] IH]; [done|cbn; unfold zlen; lia|].
  rewrite join_cons. cbn [map foldr] in *. unfold zlen in *. rewrite length_app. cbn [length]. lia.
Qed.

Lemma sum_le {A} (f g : A -> Z) l :
  Forall (fun x => f x <= g x) l -> foldr Z.add 0 (map f l) <= foldr Z.add 0 (map g l).
Proof. induction 1; cbn; lia. Qed.

(** A document has no more values than bytes. *)
Lemma nodes_simple limit d v : simple limit d v -> nodes v <= zlen (Json.Marshal v).
Proof.
  revert d. induction v as [|b|lit|s|vs IH|ms IH] using json_nested_ind; intros d H;
    inversion H as [|?|? ? Hn|? ? Hs|? ? Hl Hv|? ? Hm]; subst; cbn [nodes Json.Marshal]; [done|by destruct b| | | |].
  - destruct Hn as (n & Hn & ->). destruct (itoa_digits n ltac:(lia)) as (_ & Hne & _). unfold zlen.
    destruct (itoa n); [done|]. cbn [length]. lia.
  - unfold quote, zlen. cbn [length]. lia.
  - pose proof (join_nodes (map Json.Marshal vs)) as J. rewrite map_map in J.
    assert (foldr Z.add 0 (map nodes vs) <= foldr Z.add 0 (map (fun v => zlen (Json.Marshal v)) vs)) as L.
    { apply sum_le. rewrite Forall_forall in *. eauto. }
    unfold zlen in *. cbn [length]. rewrite length_app. lia.
  - set (f := fun kv : bytes * json => quote kv.1 ++ 0x3A :: Json.Marshal kv.2).
    pose proof (join_nodes (map f ms)) as J. rewrite map_map in J.
    assert (foldr Z.add 0 (map (fun kv => nodes kv.2) ms) <= foldr Z.add 0 (map (fun kv => zlen (f kv)) ms)) as L.
    { apply sum_le. rewrite Forall_forall in *. intros kv Hkv. destruct (Hm _ Hkv) as [_ Hv].
      specialize (IH _ Hkv _ Hv). subst f. unfold zlen in *. cbn beta. rewrite length_app. cbn [length]. lia. }
    unfold zlen in *. cbn [length]. rewrite length_app. lia.
Qed.

(** Outside of strings only a quote matters. *)
Lemma surrogates_outside p rest :
  Forall (fun b => b <> 0x22) p -> surrogates_ok false (p ++ rest) = surrogates_ok false rest.
Proof. induction 1 as [|b p Hb _ IH]; [done|]. cbn. by replace (b =? 0x22) with false by lia. Qed.

Lemma surrogates_quote s rest : plain s -> surrogates_ok false (quote s ++ rest) = surrogates_ok false rest.
Proof.
  intros H. rewrite plain_quote by done. cbn [app surrogates_ok]. cbn [Z.eqb Pos.eqb negb].
  induction H as [|b s Hb _ IH]; [done|]. cbn [app surrogates_ok]. unfold plain_byte in Hb. cbn [existsb] in Hb.
  replace (b =? 0x22) with false by lia. replace (b =? 0x5C) with false by lia. done.
Qed.

Lemma surrogates_join (l : list bytes) rest :
  Forall (fun p => forall rest, surrogates_ok false (p ++ rest) = surrogates_ok false rest) l ->
  surrogates_ok false (join l ++ rest) = surrogates_ok false rest.
Proof.
  induction l as [|x [|y l] IH]; intros H; [done|by apply Forall_inv in H|].
  rewrite join_cons, <-(assoc_L (++)). inversion H as [|? ? Hx Hl]; subst. rewrite Hx. cbn [app surrogates_ok]. by apply IH.
Qed.

Lemma surrogates_simple limit d v rest :
  simple limit d v -> surrogates_ok false (Json.Marshal v ++ rest) = surrogates_ok false rest.
Proof.
  revert d rest. induction v as [|b|lit|s|vs IH|ms IH] using json_nested_ind; intros d rest H;
    inversion H as [|?|? ? Hn|? ? Hs|? ? Hl Hv|? ? Hm]; subst; cbn [Json.Marshal].
  - done.
  - by destruct b.
  - destruct Hn as (n & Hn & ->). apply surrogates_outside. destruct (itoa_digits n ltac:(lia)) as (_ & _ & Hd).
    eapply Forall_impl; [exact Hd|]. unfold in_range. lia.
  - by apply surrogates_quote.
  - cbn [app surrogates_ok]. cbn [Z.eqb Pos.eqb negb]. rewrite <-(assoc_L (++)), surrogates_join; [done|].
    rewrite Forall_map. rewrite Forall_forall in *. eauto.
  - cbn [app surrogates_ok]. cbn [Z.eqb Pos.eqb negb]. rewrite <-(assoc_L (++)), surrogates_join; [done|].
    rewrite Forall_map. rewrite Forall_forall in *. intros kv Hkv rest'. destruct (Hm _ Hkv) as [Hk Hv].
    rewrite <-(assoc_L (++)), surrogates_quote by done. cbn. eauto.
Qed.

Lemma ascii_join (l : list bytes) : Forall (Forall (fun b => ascii_byte b = true)) l -> Forall (fun b => ascii_byte b = true) (join l).
Proof.
  induction l as [|x [|y l] IH]; intros H; [done|by apply Forall_inv in H|].
  rewrite join_cons. inversion H as [|? ? Hx Hl]; subst. apply Forall_app. split; [done|]. constructor; [done|]. by apply IH.
Qed.

Lemma ascii_quote s : plain s -> Forall (fun b => ascii_byte b = true) (quote s).
Proof.
  intros H. rewrite plain_quote by done. constructor; [done|]. apply Forall_app. split; [|by repeat constructor].
  eapply Forall_impl; [exact H|]. intros b. apply plain_ascii.
Qed.

Lemma ascii_simple limit d v : simple limit d v -> Forall (fun b => ascii_byte b = true) (Json.Marshal v).
Proof.
  revert d. induction v as [|b|lit|s|vs IH|ms IH] using json_nested_ind; intros d H;
    inversion H as [|?|? ? Hn|? ? Hs|? ? Hl Hv|? ? Hm]; subst; cbn [Json.Marshal].
  - by repeat constructor.
  - by destruct b; repeat constructor.
  - destruct Hn as (n & Hn & ->). destruct (itoa_digits n ltac:(lia)) as (_ & _ & Hd).
    eapply Forall_impl; [exact Hd|]. unfold ascii_byte, in_range. intros. lia.
  - by apply ascii_quote.
  - constructor; [done|]. apply Forall_app. split; [|by repeat constructor]. apply ascii_join. rewrite Forall_map.
    rewrite Forall_forall in *. eauto.
  - constructor; [done|]. apply Forall_app. split; [|by repeat constructor]. apply ascii_join. rewrite Forall_map.
    rewrite Forall_forall in *. intros kv Hkv. destruct (Hm _ Hkv) as [Hk Hv].
    apply Forall_app. split; [by apply ascii_quote|]. constructor; [done|]. eauto.
Qed.

Lemma ascii_Valid p : Forall (fun b => ascii_byte b = true) p -> Utf8.Valid p = true.
Proof. induction 1 as [|b p Hb _ IH]; [done|]. apply (Valid_app [b]); [by apply Valid_ascii|done]. Qed.

(** The strict parser reads a document as it was printed. *)
Lemma parseJSON_simple d ms :
  simple maxJSONArray d (JObject ms) -> ordered (JObject ms) -> (d <= maxJSONDepth)%nat ->
  zlen (Json.Marshal (JObject ms)) <= maxJSONNodes ->
  parseJSON (Json.Marshal (JObject ms)) = Some (JObject ms).
Proof.
  intros H O Hd Hz. set (v := JObject ms) in *. unfold parseJSON.
  assert (exists p, Json.Marshal v = 0x7B :: p) as [p Hp] by (subst v; cbn; eauto).
  rewrite (ascii_Valid _ (ascii_simple _ _ _ H)).
  assert (validJSONSurrogates (Json.Marshal v) = true) as ->.
  { unfold validJSONSurrogates. rewrite <-(app_nil_r (Json.Marshal v)). by erewrite surrogates_simple. }
  replace (zlen (Json.Marshal v) =? 0) with false by (rewrite Hp; unfold zlen; cbn [length]; lia).
  unfold MaxEnvelopeBytes, maxJSONNodes in *. replace (2 ^ 20 <? zlen (Json.Marshal v)) with false by lia.
  rewrite bool_decide_eq_false_2 by (rewrite Hp; by destruct p as [|? []]). cbn [orb negb].
  rewrite (parse_simple _ _ _ H) by (etransitivity; [exact Hd|]; by apply Nat.leb_le).
  pose proof (nodes_simple _ _ _ H). replace (100000 <? nodes v) with false by lia.
  apply decode_simple; [|done]. by eapply simple_deeper.
Qed.
