(* ===== verification/Terminal.v ===== *)
(** Terminal evidence ([src/internal/terminalevidence]): the facts a provider has
    observed and what they say of a planned assertion. *)

From S2P Require Import Prelude Strconv Json Url.

(** ** Observations *)

Record Observation := {
  OType : bytes; OName : bytes; OTestID : bytes; OAssertionID : bytes;
  ServerLoaded : bool; StabilizationCompleted : bool; ServerReady : bool; RequirementsSatisfied : bool;
  Loaded : bool; Enabled : bool;
  Registered : bool; ExecutionCompleted : bool; Evaluated : bool; Passed : bool; OutputTruncated : bool;
  ShutdownRequested : bool; ServerStopped : bool; ReportedShutdownRequested : bool;
}.

(** The observations a provider writes down: a struct literal leaves the other fields zero. *)
Definition startup_ready (loaded stabilized ready satisfied : bool) : Observation := {|
  OType := bs "startup-ready"; OName := []; OTestID := []; OAssertionID := [];
  ServerLoaded := loaded; StabilizationCompleted := stabilized; ServerReady := ready; RequirementsSatisfied := satisfied;
  Loaded := false; Enabled := false;
  Registered := false; ExecutionCompleted := false; Evaluated := false; Passed := false; OutputTruncated := false;
  ShutdownRequested := false; ServerStopped := false; ReportedShutdownRequested := false |}.

Definition plugin_state (kind name : bytes) (loaded enabled : bool) : Observation := {|
  OType := kind; OName := name; OTestID := []; OAssertionID := [];
  ServerLoaded := false; StabilizationCompleted := false; ServerReady := false; RequirementsSatisfied := false;
  Loaded := loaded; Enabled := enabled;
  Registered := false; ExecutionCompleted := false; Evaluated := false; Passed := false; OutputTruncated := false;
  ShutdownRequested := false; ServerStopped := false; ReportedShutdownRequested := false |}.

Definition console_assertion (kind test assertion : bytes) (registered completed evaluated passed truncated : bool)
  : Observation := {|
  OType := kind; OName := []; OTestID := test; OAssertionID := assertion;
  ServerLoaded := false; StabilizationCompleted := false; ServerReady := false; RequirementsSatisfied := false;
  Loaded := false; Enabled := false;
  Registered := registered; ExecutionCompleted := completed; Evaluated := evaluated; Passed := passed;
  OutputTruncated := truncated;
  ShutdownRequested := false; ServerStopped := false; ReportedShutdownRequested := false |}.

Definition clean_shutdown (requested stopped reported : bool) : Observation := {|
  OType := bs "clean-shutdown"; OName := []; OTestID := []; OAssertionID := [];
  ServerLoaded := false; StabilizationCompleted := false; ServerReady := false; RequirementsSatisfied := false;
  Loaded := false; Enabled := false;
  Registered := false; ExecutionCompleted := false; Evaluated := false; Passed := false; OutputTruncated := false;
  ShutdownRequested := requested; ServerStopped := stopped; ReportedShutdownRequested := reported |}.

Definition is_console (kind : bytes) : bool := bool_decide (kind ∈ [bs "console-regex"; bs "console-contains"]).

(** What an observation says: the members of its value and its outcome; [None] is
    [ErrInvalid]. *)
Definition observationValue (o : Observation) : option (list (bytes * json) * bytes) :=
  let outcome (passed : bool) := if passed then bs "passed" else bs "failed" in
  if bool_decide (OType o = bs "startup-ready") then
    if negb (ServerLoaded o) || negb (StabilizationCompleted o) || negb (ServerReady o) then None
    else Some ([(bs "serverLoaded", JBool (ServerLoaded o)); (bs "stabilizationCompleted", JBool (StabilizationCompleted o));
                (bs "serverReady", JBool (ServerReady o)); (bs "requirementsSatisfied", JBool (RequirementsSatisfied o))],
               outcome (RequirementsSatisfied o))
  else if bool_decide (OType o ∈ [bs "plugin-enabled"; bs "dependency-present"]) then
    if Enabled o && negb (Loaded o) then None
    else Some ([(bs "loaded", JBool (Loaded o)); (bs "enabled", JBool (Enabled o))], outcome (Loaded o && Enabled o))
  else if is_console (OType o) then
    if negb (Registered o) || negb (ExecutionCompleted o)
       || (negb (Evaluated o) && (Passed o || negb (OutputTruncated o))) || (Passed o && OutputTruncated o) then None
    else Some ([(bs "registered", JBool (Registered o)); (bs "executionCompleted", JBool (ExecutionCompleted o));
                (bs "evaluated", JBool (Evaluated o)); (bs "passed", JBool (Passed o));
                (bs "outputTruncated", JBool (OutputTruncated o))],
               if negb (Evaluated o) then bs "skipped" else outcome (Passed o))
  else if bool_decide (OType o = bs "clean-shutdown") then
    if negb (ShutdownRequested o) || negb (ServerStopped o) then None
    else Some ([(bs "shutdownRequested", JBool (ShutdownRequested o)); (bs "serverStopped", JBool (ServerStopped o));
                (bs "reportedShutdownRequested", JBool (ReportedShutdownRequested o))],
               outcome (ReportedShutdownRequested o))
  else None.
