(* ===== verification/TerminalBuild.v ===== *)
(** The evidence of an execution ([src/internal/terminalevidence/evidence.go]): the
    context a job fixes, the assertions its observations become, and the canonical bytes
    that are frozen; with the snapshot of a runtime and the sealed network observation
    ([src/internal/runtimeidentity]). *)

From S2P Require Import Prelude Utf8 Patterns Strconv Json Float Canonical Sha256 Policy Binder Messages Url Terminal.
Import Names Wire.

(** ** Identities of a runtime ([src/internal/runtimeidentity/identity.go]) *)

Record RootFS := { Format : bytes; RSHA256 : bytes }.

Record Snapshot := {
  RunnerVersion : bytes; RunnerExecutableSHA256 : bytes; SandboxKind : bytes; SandboxVersion : bytes;
  SandboxExecutableSHA256 : bytes; NetworkMode : bytes; SRootFS : RootFS;
}.

(** [^[A-Za-z0-9][A-Za-z0-9...]{0,127}$] with more characters after the first. *)
Definition identifier_pattern (extra : string) (s : bytes) : bool :=
  let alnum b := is_upper b || is_lower b || is_digit b in
  match s with
  | [] => false
  | b :: rest => (zlen s <=? 128) && alnum b && forallb (fun b => alnum b || existsb (Z.eqb b) (bs extra)) rest
  end.

Definition versionPattern : bytes -> bool := identifier_pattern "._+-".

Definition digestPattern (s : bytes) : bool :=
  (zlen s =? 64) && forallb (fun b => is_digit b || in_range 0x61 0x66 b) s.

Definition SnapshotValid (s : Snapshot) : bool :=
  versionPattern (RunnerVersion s) && versionPattern (SandboxVersion s) && digestPattern (RunnerExecutableSHA256 s)
  && digestPattern (SandboxExecutableSHA256 s) && bool_decide (SandboxKind s = bs "gvisor")
  && bool_decide (NetworkMode s = bs "none") && bool_decide (Format (SRootFS s) = bs "squashfs-image-sha256/v1")
  && digestPattern (RSHA256 (SRootFS s)).

(** The struct as [json.Marshal] prints it. *)
Definition snapshot_json (s : Snapshot) : json :=
  JObject [(bs "runnerVersion", JString (RunnerVersion s)); (bs "runnerExecutableSha256", JString (RunnerExecutableSHA256 s));
           (bs "sandboxKind", JString (SandboxKind s)); (bs "sandboxVersion", JString (SandboxVersion s));
           (bs "sandboxExecutableSha256", JString (SandboxExecutableSHA256 s)); (bs "networkMode", JString (NetworkMode s));
           (bs "rootfs", JObject [(bs "format", JString (Format (SRootFS s))); (bs "sha256", JString (RSHA256 (SRootFS s)))])].

(** ** Contexts *)

Definition MaximumBytes : Z := 32 * 1024.
Definition MaximumObservations : Z := 256.

Definition identifier : bytes -> bool := identifier_pattern "._:-".

Record Binding := {
  BRunnerID : bytes; BJobID : bytes; BExecutionID : bytes; BLeaseID : bytes; BAttemptID : bytes; BCandidateID : bytes;
  BMatrixEntryID : bytes; BAttemptNumber : Z;
}.

Definition binding_json (b : Binding) : json :=
  JObject [(bs "runnerId", JString (BRunnerID b)); (bs "jobId", JString (BJobID b));
           (bs "executionId", JString (BExecutionID b)); (bs "leaseId", JString (BLeaseID b));
           (bs "attemptId", JString (BAttemptID b)); (bs "candidateId", JString (BCandidateID b));
           (bs "matrixEntryId", JString (BMatrixEntryID b)); (bs "attemptNumber", JNumber (itoa (BAttemptNumber b)))].

(** A planned assertion; [selector] is the map of its identities, by key. *)
Record planned := { pid : bytes; kind : bytes; pname : bytes; supported : bool; selector : list (bytes * bytes) }.

#[export] Instance planned_eq_dec : EqDecision planned.
Proof. solve_decision. Defined.

(** [m[k]] of a selector. *)
Definition selected (k : string) (p : planned) : bytes :=
  default [] (snd <$> List.find (fun kv => bool_decide (fst kv = bs k)) (selector p)).

(** [strings.EqualFold], when one of the names is ASCII. *)
Definition EqualFold (a b : bytes) : bool := bool_decide (fold_runes a = fold_runes b).

Inductive terminalError := ErrInvalid | ErrBounds.

Section evidence.
Context `{TS : Timestamps}.

Record Context := {
  binding : Binding;
  requested : list (bytes * json);
  plannedOf : gmap bytes planned;
  v2 : bool;
  networkMode : bytes;
  measurementLease : option LeaseIdentity;
  measurementAttempt : option AttemptIdentity;
  measurementHashes : option JobHashes;
  measurementJobSHA256 : bytes;
}.

Definition Matches (c : Context) (lease : option LeaseIdentity) (attempt : option AttemptIdentity) : bool :=
  let l {A} (zero : A) (f : LeaseIdentity -> A) := match lease with Some x => f x | None => zero end in
  let a {A} (zero : A) (f : AttemptIdentity -> A) := match attempt with Some x => f x | None => zero end in
  let b := binding c in
  bool_decide (BJobID b = l [] LJobId) && bool_decide (BExecutionID b = l [] ExecutionId)
  && bool_decide (BLeaseID b = l [] LeaseId) && bool_decide (BAttemptID b = a [] AttemptId)
  && bool_decide (BCandidateID b = a [] ReleaseCandidateId) && bool_decide (BMatrixEntryID b = a [] MatrixEntryId)
  && (BAttemptNumber b =? a 0 AttemptNumber).

(** The planned assertion an observation is of. Go looks through the map of dependencies
    in any order; their names are distinct. *)
Definition find (c : Context) (o : Observation) : option planned :=
  if bool_decide (OType o = bs "dependency-present") then
    List.find (fun p => bool_decide (kind p = OType o) && EqualFold (pname p) (OName o)) (map snd (map_to_list (plannedOf c)))
  else
    let id := if is_console (OType o) then OType o ++ bs ":" ++ OAssertionID o else OType o in
    match plannedOf c !! id with
    | None => None
    | Some p =>
        if negb (bool_decide (kind p = OType o))
           || (bool_decide (OType o = bs "plugin-enabled") && negb (EqualFold (OName o) (pname p)))
           || (is_console (OType o) && (negb (bool_decide (OTestID o = selected "testId" p))
                                        || negb (bool_decide (OAssertionID o = selected "assertionId" p))))
        then None else Some p
    end.

(** ** Sealed network observations *)

(** [proto.Equal], and what hashing a job needs of its encoding. *)
Class ProtoMessages := {
  EqualLease : LeaseIdentity -> option LeaseIdentity -> bool;
  EqualAttempt : AttemptIdentity -> option AttemptIdentity -> bool;
  EqualHashes : JobHashes -> option JobHashes -> bool;
  SizeJobSpecification : JobSpecification -> Z;
  MarshalJobSpecification : JobSpecification -> option bytes;
}.

Context `{PM : ProtoMessages}.

Record NetworkObservation := {
  osnapshot : Snapshot; olease : option LeaseIdentity; oattempt : option AttemptIdentity; ohashes : option JobHashes;
  observed : bool; ojobSHA256 : bytes;
}.

Definition SnapshotFor (o : NetworkObservation) (lease : option LeaseIdentity) (attempt : option AttemptIdentity)
    (hashes : option JobHashes) : option Snapshot :=
  match olease o, oattempt o, ohashes o with
  | Some l, Some a, Some h =>
      if observed o && EqualLease l lease && EqualAttempt a attempt && EqualHashes h hashes then Some (osnapshot o) else None
  | _, _, _ => None
  end.

Definition SnapshotForExecution (o : NetworkObservation) (jobHash : bytes) (lease : option LeaseIdentity)
    (attempt : option AttemptIdentity) (hashes : option JobHashes) : option Snapshot :=
  if bool_decide (jobHash = replicate 32 0) || negb (bool_decide (ojobSHA256 o = jobHash)) then None
  else SnapshotFor o lease attempt hashes.

(** [ExecutionJobSHA256]: the hash of a job without its transfer capabilities. *)
Definition strip_download (d : ObjectDownload) : ObjectDownload :=
  {| DUri := []; DSizeBytes := DSizeBytes d; DDigest := DDigest d; DFilename := DFilename d; DExpiresAt := None |}.

Definition strip_job (j : JobSpecification) : JobSpecification := {|
  JLease := JLease j; JAttempt := JAttempt j; JEffectivePolicy := JEffectivePolicy j; JHashes := JHashes j;
  JOrganizationScope := JOrganizationScope j; JCorrelation := JCorrelation j;
  NormalizedConfigurationJson := NormalizedConfigurationJson j; JEnvironment := JEnvironment j;
  TargetPluginName := TargetPluginName j;
  JDependencies := map (option_map (fun d => {| IDependencyId := IDependencyId d; PluginName := PluginName d;
                                                IObject := option_map strip_download (IObject d) |})) (JDependencies j);
  JArtifact := option_map strip_download (JArtifact j);
  JCompleteLogUpload := option_map (fun u => {| Uri := []; ObjectKey := ObjectKey u; UContentType := UContentType u;
                                                UExpiresAt := None; uunknown := uunknown u; urest := urest u |}) (JCompleteLogUpload j);
  TestSecrets := TestSecrets j |}.

Definition ExecutionJobSHA256 (j : JobSpecification) : option bytes :=
  if 2 ^ 20 <? SizeJobSpecification j then None else Sum256 <$> MarshalJobSpecification (strip_job j).

(** ** Building *)

Context `{PB : RunnerProto}.

Record ExecutionEvidence := { CanonicalJson : bytes; EDigest : option Digest; eunknown : bytes }.

(** One assertion of the document, with its preimage and its hash. *)
Definition assertion_json (bound : json) (p : planned) (value : list (bytes * json)) (outcome : bytes) : json :=
  let preimage := JObject (map_of [(bs "binding", bound); (bs "id", JString (pid p)); (bs "type", JString (kind p));
                                   (bs "outcome", JString outcome); (bs "observation", JObject (map_of value))]) in
  JObject (map_of [(bs "id", JString (pid p)); (bs "type", JString (kind p)); (bs "outcome", JString outcome);
                   (bs "evidence", preimage); (bs "evidenceSha256", JString (Sha256.hex (Sum256 (Json.Marshal preimage))))]).

(** The loop over the observations: the assertions by identity, in order. *)
Fixpoint assertions_of (c : Context) (bound : json) (seen : list bytes) (os : list Observation)
  : terminalError + list (bytes * json) :=
  match os with
  | [] => inr []
  | o :: os =>
      match find c o with
      | None => inl ErrInvalid
      | Some p =>
          if negb (supported p) then assertions_of c bound seen os
          else if bool_decide (pid p ∈ seen) then inl ErrInvalid
          else
            match observationValue o with
            | None => inl ErrInvalid
            | Some (value, outcome) =>
                match assertions_of c bound (pid p :: seen) os with
                | inl e => inl e
                | inr rest =>
                    inr ((pid p, assertion_json bound p
                            (value ++ map (fun kv => (fst kv, JString (snd kv))) (selector p)) outcome) :: rest)
                end
            end
      end
  end.

#[export] Instance assertion_le_dec (a b : bytes * json) : Decision (Automaton.bytes_le (fst a) (fst b)).
Proof. unfold Automaton.bytes_le. apply _. Defined.

(** [sort.Slice] by identity; the identities are distinct. *)
Definition sort_assertions (l : list (bytes * json)) : list (bytes * json) :=
  merge_sort (fun a b => Automaton.bytes_le (fst a) (fst b)) l.

Definition validHistoricalRuntime (c : Context) (s : Snapshot) : bool :=
  SnapshotValid s
  || (v2 c && bool_decide (NetworkMode s = networkMode c)
      && bool_decide (NetworkMode s ∈ [bs "restricted"; bs "allowlist"])
      && SnapshotValid {| RunnerVersion := RunnerVersion s; RunnerExecutableSHA256 := RunnerExecutableSHA256 s;
                          SandboxKind := SandboxKind s; SandboxVersion := SandboxVersion s;
                          SandboxExecutableSHA256 := SandboxExecutableSHA256 s; NetworkMode := bs "none"; SRootFS := SRootFS s |}).

(** Whether every planned assertion is supported and has been observed. *)
Definition complete_plan (c : Context) (seen : list bytes) : bool :=
  forallb (fun p => supported p && bool_decide (pid p ∈ seen)) (map snd (map_to_list (plannedOf c))).

(** The runtime of the document and its completeness. *)
Definition runtime_of (c : Context) (isObserved historical : bool) (measured : option Snapshot) (seen : list bytes)
  : terminalError + (json * bytes) :=
  match measured with
  | None => inr (JNull, bs "partial")
  | Some copy =>
      let valid := if historical then validHistoricalRuntime c copy else SnapshotValid copy in
      if (negb isObserved && negb valid)
         || (negb (bool_decide (networkMode c = [])) && negb (bool_decide (NetworkMode copy = networkMode c)))
      then inl ErrInvalid
      else
        match unmarshal_any (Json.Marshal (snapshot_json copy)) with
        | None => inl ErrInvalid
        | Some runtime => inr (runtime, if complete_plan c seen then bs "complete" else bs "partial")
        end
  end.

Definition schema_version (c : Context) : bytes :=
  if v2 c then bs "provenance.execution-evidence/v2" else bs "provenance.execution-evidence/v1".

Definition document_json (c : Context) (bound runtime : json) (completeness : bytes) (assertions : list (bytes * json)) : json :=
  JObject (map_of [(bs "schemaVersion", JString (schema_version c)); (bs "binding", bound);
                   (bs "requested", JObject (map_of (requested c))); (bs "runtime", runtime);
                   (bs "assertions", JArray (map snd assertions)); (bs "completeness", JString completeness)]).

Definition with_runner (b : Binding) (runnerID : bytes) : Binding := {|
  BRunnerID := runnerID; BJobID := BJobID b; BExecutionID := BExecutionID b; BLeaseID := BLeaseID b;
  BAttemptID := BAttemptID b; BCandidateID := BCandidateID b; BMatrixEntryID := BMatrixEntryID b;
  BAttemptNumber := BAttemptNumber b |}.

(** What reflection shows of a digest that was just made. *)
Definition new_digest (value : bytes) : Digest :=
  {| Algorithm := DIGEST_ALGORITHM_SHA256; Value := value; dreflect := Msg true [] [EnumField [true]; OtherField] |}.

Definition build (c : option Context) (runnerID : bytes) (os : list Observation) (network : option NetworkObservation)
    (historical : bool) (measured : list (option Snapshot)) : terminalError + ExecutionEvidence :=
  match c with
  | None => inl ErrInvalid
  | Some c =>
      if negb (identifier runnerID) then inl ErrInvalid
      else if MaximumObservations <? zlen os then inl ErrBounds
      else
        let bound := default JNull (unmarshal_any (Json.Marshal (binding_json (with_runner (binding c) runnerID)))) in
        match assertions_of c bound [] os with
        | inl e => inl e
        | inr entries =>
            if (1 <? zlen measured) || (match network with Some _ => negb (zlen measured =? 0) | None => false end)
            then inl ErrInvalid
            else
              let snapshot : terminalError + option Snapshot :=
                match network with
                | None => inr (match measured with m :: _ => m | [] => None end)
                | Some o =>
                    match SnapshotForExecution o (measurementJobSHA256 c) (measurementLease c) (measurementAttempt c)
                            (measurementHashes c) with
                    | None => inl ErrInvalid
                    | Some s => if negb (bool_decide (NetworkMode s = networkMode c)) then inl ErrInvalid else inr (Some s)
                    end
                end in
              match snapshot with
              | inl e => inl e
              | inr snapshot =>
                  match runtime_of c (match network with Some _ => true | None => false end) historical snapshot (map fst entries) with
                  | inl e => inl e
                  | inr (runtime, completeness) =>
                      let encoded := Json.Marshal (document_json c bound runtime completeness (sort_assertions entries)) in
                      if MaximumBytes <? zlen encoded then inl ErrBounds
                      else inr {| CanonicalJson := encoded; EDigest := Some (new_digest (Sum256 encoded)); eunknown := [] |}
                  end
              end
        end
  end.

Definition Build (c : option Context) (runnerID : bytes) (os : list Observation) (measured : list (option Snapshot))
  : terminalError + ExecutionEvidence := build c runnerID os None false measured.

Definition BuildObservedNetwork (c : option Context) (runnerID : bytes) (os : list Observation)
    (measured : option NetworkObservation) : terminalError + ExecutionEvidence :=
  match measured, c with
  | Some m, Some c' =>
      if negb (v2 c') || negb (bool_decide (networkMode c' ∈ [bs "restricted"; bs "allowlist"])) then inl ErrInvalid
      else build c runnerID os (Some m) false []
  | _, _ => inl ErrInvalid
  end.

End evidence.
