(* ===== verification/TerminalPlan.v ===== *)
(** The context of a job and the validation of frozen evidence
    ([src/internal/terminalevidence/plan.go], [network_v2.go], [frozen.go]). The JSON
    schema and the encodings of a policy are parameters. *)

From S2P Require Import Prelude Utf8 Patterns Strconv Json Float Canonical Sha256 GuestOutput Policy Binder Messages Url JsonStruct Terminal TerminalBuild.
Import Names Wire PluginName.

Section plan.
Context `{TS : Timestamps} `{PB : RunnerProto} `{GP : !GatewayProto} `{PM : !ProtoMessages} `{CODEC : PolicyCodec}.

(** What is outside: whether a document satisfies the schema of configurations, of the
    first or the second version, and the JSON of a policy that [protojson] prints. *)
Class ConfigurationSchema := {
  SchemaValid : bool -> json -> bool;
  ProtojsonPolicy : EffectivePolicy -> option bytes;
}.

Context `{CS : ConfigurationSchema}.

Definition validatedConfigurationVersion (raw : bytes) (networkV2 : bool) : option (list (bytes * json)) :=
  match parseJSON raw with
  | None => None
  | Some v =>
      match canonicalJSON v with
      | Some canonical =>
          if negb (bool_decide (raw = canonical)) || negb (SchemaValid networkV2 v) then None
          else match v with JObject ms => Some ms | _ => None end
      | None => None
      end
  end.

(** ** The fields of a configuration

    The schema admits no unknown keys, so that no two keys name one field. *)

Definition store_slice {S E} (element : json -> option E) (set : list E -> S -> S) (v : json) (s : S) : option S :=
  match v with
  | JArray vs => (fun l => set l s) <$> mapM element vs
  | JNull => Some (set [] s)
  | _ => None
  end.

(** A struct from its zero value; [null] leaves the zero value. *)
Definition decode_object {S} (field : bytes -> option (json -> S -> option S)) (zero : S) (v : json) : option S :=
  match v with
  | JObject ms => decode_struct false field zero ms
  | JNull => Some zero
  | _ => None
  end.

Record dependencyConfig := { cid : bytes; csha256 : bytes; crequired : bool }.

Definition dependency_field (key : bytes) : option (json -> dependencyConfig -> option dependencyConfig) :=
  if folded "id" key then Some (store_string (fun x d => {| cid := x; csha256 := csha256 d; crequired := crequired d |}))
  else if folded "sha256" key then Some (store_string (fun x d => {| cid := cid d; csha256 := x; crequired := crequired d |}))
  else if folded "required" key then Some (store_bool (fun x d => {| cid := cid d; csha256 := csha256 d; crequired := x |}))
  else None.

Record startupConfig := { cplugin : bool; cshutdown : bool }.

Definition startup_field (key : bytes) : option (json -> startupConfig -> option startupConfig) :=
  if folded "requirepluginenabled" key then Some (store_bool (fun x s => {| cplugin := x; cshutdown := cshutdown s |}))
  else if folded "requirecleanshutdown" key then Some (store_bool (fun x s => {| cplugin := cplugin s; cshutdown := x |}))
  else None.

(** The operator of an assertion, a [*string]. *)
Definition operator_field (key : bytes) : option (json -> option bytes -> option (option bytes)) :=
  if folded "operator" key
  then Some (fun v _ => match v with JString x => Some (Some x) | JNull => Some None | _ => None end)
  else None.

Record consoleConfig := { ctest : bytes; cassertions : list (option bytes) }.

Definition console_field (key : bytes) : option (json -> consoleConfig -> option consoleConfig) :=
  if folded "id" key then Some (store_string (fun x c => {| ctest := x; cassertions := cassertions c |}))
  else if folded "assertions" key
  then Some (store_slice (decode_object operator_field None) (fun l c => {| ctest := ctest c; cassertions := l |}))
  else None.

Record testsConfig := { cstartup : startupConfig; cconsole : list consoleConfig }.

Definition tests_field (key : bytes) : option (json -> testsConfig -> option testsConfig) :=
  if folded "startup" key
  then Some (fun v t => (fun s => {| cstartup := s; cconsole := cconsole t |}) <$> decode_object startup_field (cstartup t) v)
  else if folded "console" key
  then Some (store_slice (decode_object console_field {| ctest := []; cassertions := [] |})
               (fun l t => {| cstartup := cstartup t; cconsole := l |}))
  else None.

Record planConfig := { cdependencies : list dependencyConfig; ctests : testsConfig }.

Definition plan_field (key : bytes) : option (json -> planConfig -> option planConfig) :=
  if folded "dependencies" key
  then Some (store_slice (decode_object dependency_field {| cid := []; csha256 := []; crequired := false |})
               (fun l c => {| cdependencies := l; ctests := ctests c |}))
  else if folded "tests" key
  then Some (fun v c => (fun t => {| cdependencies := cdependencies c; ctests := t |}) <$> decode_object tests_field (ctests c) v)
  else None.

Definition no_config : planConfig :=
  {| cdependencies := []; ctests := {| cstartup := {| cplugin := false; cshutdown := false |}; cconsole := [] |} |}.

Definition plan_config (raw : bytes) : option planConfig := Json.parse raw ≫= decode_object plan_field no_config.

(** ** Digests and policies *)

Definition digest (d : option Digest) : bytes :=
  match d with
  | Some d => if (Algorithm d =? DIGEST_ALGORITHM_SHA256) && (zlen (Value d) =? 32) then Sha256.hex (Value d) else []
  | None => []
  end.

(** [json.Compact] of a valid text: the spaces outside of strings go. *)
Fixpoint compact (inString escaped : bool) (p : bytes) : bytes :=
  match p with
  | [] => []
  | b :: p =>
      if inString then
        b :: (if escaped then compact true false p
              else if b =? 0x5C then compact true true p
              else compact (negb (b =? 0x22)) false p)
      else if is_space b then compact false false p
      else b :: compact (b =? 0x22) false p
  end.

(** The same text with a space after every comma outside of strings. *)
Fixpoint spaced (inString escaped : bool) (p : bytes) : bytes :=
  match p with
  | [] => []
  | b :: p =>
      b :: (if inString then
              if escaped then spaced true false p
              else if b =? 0x5C then spaced true true p
              else spaced (negb (b =? 0x22)) false p
            else if b =? 0x22 then spaced true false p
            else if b =? 0x2C then 0x20 :: spaced false false p
            else spaced false false p)
  end.

Definition policyMatches (policy : EffectivePolicy) (want : bytes) : bool :=
  match NetworkV2 policy with
  | Some _ =>
      match EffectivePolicyV2SHA256 (Some policy) with
      | Some hash => bool_decide (Sha256.hex hash = want)
      | None => false
      end
  | None =>
      match Binder.Marshal policy with
      | None => false
      | Some raw =>
          if bool_decide (Sha256.hex (Sum256 raw) = want) then true
          else
            match ProtojsonPolicy policy with
            | None => false
            | Some raw =>
                if negb (Json.Valid raw) then false
                else
                  let text := compact false false raw in
                  existsb (fun t => bool_decide (Sha256.hex (Sum256 t) = want)) [text; spaced false false text]
            end
      end
  end.

(** ** The maximum a configuration asks for *)

Definition store_uint32 {S} (set : Z -> S -> S) (v : json) (s : S) : option S :=
  match v with
  | JNumber n => (fun x => set x s) <$> parse_uint 32 n
  | JNull => Some s
  | _ => None
  end.

Record permissionConfig := { nhostname : bytes; nport : Z; ntransport : bytes }.

Definition permission_field (key : bytes) : option (json -> permissionConfig -> option permissionConfig) :=
  if folded "hostname" key then Some (store_string (fun x p => {| nhostname := x; nport := nport p; ntransport := ntransport p |}))
  else if folded "port" key then Some (store_uint32 (fun x p => {| nhostname := nhostname p; nport := x; ntransport := ntransport p |}))
  else if folded "transport" key then Some (store_string (fun x p => {| nhostname := nhostname p; nport := nport p; ntransport := x |}))
  else None.

Record networkConfig := {
  nmode : bytes; nconnections : Z; nbytes : Z; npermissions : list permissionConfig;
}.

Definition network_field (key : bytes) : option (json -> networkConfig -> option networkConfig) :=
  if folded "mode" key then Some (store_string (fun x n =>
    {| nmode := x; nconnections := nconnections n; nbytes := nbytes n; npermissions := npermissions n |}))
  else if folded "maximumconnections" key then Some (store_uint32 (fun x n =>
    {| nmode := nmode n; nconnections := x; nbytes := nbytes n; npermissions := npermissions n |}))
  else if folded "maximumbytespersecond" key then Some (store_uint32 (fun x n =>
    {| nmode := nmode n; nconnections := nconnections n; nbytes := x; npermissions := npermissions n |}))
  else if folded "permissions" key
  then Some (store_slice (decode_object permission_field {| nhostname := []; nport := 0; ntransport := [] |}) (fun l n =>
    {| nmode := nmode n; nconnections := nconnections n; nbytes := nbytes n; npermissions := l |}))
  else None.

Definition no_network : networkConfig := {| nmode := []; nconnections := 0; nbytes := 0; npermissions := [] |}.

(** The field [network] of the configuration. *)
Definition configuration_field (key : bytes) : option (json -> networkConfig -> option networkConfig) :=
  if folded "network" key then Some (fun v n => decode_object network_field n v) else None.

Definition mode_of (name : bytes) : option Z :=
  if bool_decide (name = bs "none") then Some NETWORK_MODE_NONE
  else if bool_decide (name = bs "restricted") then Some NETWORK_MODE_RESTRICTED
  else if bool_decide (name = bs "allowlist") then Some NETWORK_MODE_ALLOWLIST
  else None.

Definition transport_of (p : permissionConfig) : option NetworkPermissionV2 :=
  (fun t => {| punknown := []; Hostname := nhostname p; Port := nport p; Transport := t |}) <$>
  (if bool_decide (ntransport p = bs "tcp") then Some NETWORK_TRANSPORT_V2_TCP
   else if bool_decide (ntransport p = bs "udp") then Some NETWORK_TRANSPORT_V2_UDP
   else None).

(** The order of [slices.SortFunc]: host name, port, transport. *)
Definition permission_leb (a b : NetworkPermissionV2) : bool :=
  if bool_decide (Hostname a = Hostname b) then
    (Port a <? Port b) || ((Port a =? Port b) && (Transport a <=? Transport b))
  else Automaton.bytes_leb (Hostname a) (Hostname b).

Definition permission_before (a b : NetworkPermissionV2) : Prop := permission_leb a b = true.

#[export] Instance permission_before_dec (a b : NetworkPermissionV2) : Decision (permission_before a b).
Proof. unfold permission_before. apply _. Defined.

Definition configurationNetworkMaximumV2 (raw : bytes) : option NetworkPolicyV2 :=
  match Json.parse raw ≫= decode_object configuration_field no_network with
  | None => None
  | Some network =>
      match mode_of (nmode network), mapM transport_of (npermissions network) with
      | Some mode, Some permissions =>
          let maximum := {| Wire.unknown := []; Mode := mode;
                            Permissions := map Some (merge_sort permission_before permissions);
                            MaximumConnections := nconnections network; MaximumBytesPerSecond := nbytes network |} in
          if ValidateWireV2 (Some maximum) then Some maximum else None
      | _, _ => None
      end
  end.

(** ** Contexts *)

(** [add] of [newContext]. *)
Definition add_planned (p : planned) (m : gmap bytes planned) : option (gmap bytes planned) :=
  if negb (identifier (pid p)) then None
  else match m !! pid p with Some _ => None | None => Some (<[pid p := p]> m) end.

Definition new_planned (id kind name : bytes) (supported : bool) (selector : list (bytes * bytes)) : planned :=
  {| pid := id; kind := kind; pname := name; supported := supported; selector := selector |}.

(** The inputs by identity: distinct, with distinct names that differ from the target's. *)
Fixpoint index_inputs (names : list bytes) (m : gmap bytes DependencyInput) (l : list (option DependencyInput))
  : option (gmap bytes DependencyInput) :=
  match l with
  | [] => Some m
  | None :: _ => None
  | Some d :: l =>
      if bool_decide (is_Some (m !! IDependencyId d)) || negb (ValidPaper (PluginName d))
         || bool_decide (to_lower (PluginName d) ∈ names)
      then None
      else index_inputs (to_lower (PluginName d) :: names) (<[IDependencyId d := d]> m) l
  end.

Fixpoint index_hashes (m : gmap bytes DependencyHash) (l : list (option DependencyHash)) : option (gmap bytes DependencyHash) :=
  match l with
  | [] => Some m
  | None :: _ => None
  | Some d :: l =>
      if bool_decide (is_Some (m !! DependencyId d)) then None else index_hashes (<[DependencyId d := d]> m) l
  end.

(** The dependencies of the configuration: each has its input and its hash, which agree. *)
Fixpoint plan_dependencies (inputs : gmap bytes DependencyInput) (hashes : gmap bytes DependencyHash) (seen : list bytes)
    (m : gmap bytes planned) (l : list dependencyConfig) : option (list (bytes * bytes) * gmap bytes planned) :=
  match l with
  | [] => Some ([], m)
  | d :: l =>
      match inputs !! cid d, hashes !! cid d with
      | Some input, Some hash =>
          let object := IObject input in
          if bool_decide (cid d ∈ seen) || negb (bool_decide (csha256 d = digest (object ≫= DDigest)))
             || negb (bool_decide (csha256 d = digest (HDigest hash)))
             || (default 0 (DSizeBytes <$> object) =? 0)
             || negb (bool_decide (default [] (DFilename <$> object) = HFilename hash))
          then None
          else
            match add_planned (new_planned (bs "dependency-present:" ++ cid d) (bs "dependency-present") (PluginName input)
                                 (crequired d) [(bs "dependencyId", cid d); (bs "dependencySha256", csha256 d)]) m with
            | None => None
            | Some m =>
                (fun r => ((cid d, csha256 d) :: fst r, snd r)) <$> plan_dependencies inputs hashes (cid d :: seen) m l
            end
      | _, _ => None
      end
  end.

(** The assertions of one console test, from the [n]-th on. *)
Fixpoint plan_assertions (v2 : bool) (test : bytes) (n : Z) (m : gmap bytes planned) (l : list (option bytes))
  : option (gmap bytes planned) :=
  match l with
  | [] => Some m
  | operator :: l =>
      let selector := test ++ bs ":" ++ itoa n in
      let '(kind, supported) :=
        if v2 && bool_decide (operator = Some (bs "contains")) then (bs "console-contains", true)
        else (bs "console-regex", bool_decide (operator = Some (bs "regex"))) in
      match add_planned (new_planned (kind ++ bs ":" ++ selector) kind [] supported
                           [(bs "testId", test); (bs "assertionId", selector)]) m with
      | Some m => plan_assertions v2 test (n + 1) m l
      | None => None
      end
  end.

Fixpoint plan_console (v2 : bool) (m : gmap bytes planned) (l : list consoleConfig) : option (gmap bytes planned) :=
  match l with
  | [] => Some m
  | test :: l =>
      match plan_assertions v2 (ctest test) 1 m (cassertions test) with
      | Some m => plan_console v2 m l
      | None => None
      end
  end.

(** The assertions every plan has. *)
Definition plan_startup (target : bytes) (s : startupConfig) : option (gmap bytes planned) :=
  m ← add_planned (new_planned (bs "startup-ready") (bs "startup-ready") [] true []) ∅;
  m ← add_planned (new_planned (bs "plugin-enabled") (bs "plugin-enabled") target (cplugin s) [(bs "targetId", bs "target")]) m;
  add_planned (new_planned (bs "clean-shutdown") (bs "clean-shutdown") [] (cshutdown s) []) m.

#[export] Instance pair_key_dec (a b : bytes * bytes) : Decision (Automaton.bytes_le (fst a) (fst b)).
Proof. unfold Automaton.bytes_le. apply _. Defined.

Definition dependencies_json (l : list (bytes * bytes)) : json :=
  JArray (map (fun d => JObject (map_of [(bs "id", JString (fst d)); (bs "sha256", JString (snd d))]))
            (merge_sort (fun a b => Automaton.bytes_le (fst a) (fst b)) l)).

Definition binding_of (lease : option LeaseIdentity) (attempt : option AttemptIdentity) : Binding :=
  let l (f : LeaseIdentity -> bytes) := match lease with Some x => f x | None => [] end in
  let a (f : AttemptIdentity -> bytes) := match attempt with Some x => f x | None => [] end in
  {| BRunnerID := []; BJobID := l LJobId; BExecutionID := l ExecutionId; BLeaseID := l LeaseId; BAttemptID := a AttemptId;
     BCandidateID := a ReleaseCandidateId; BMatrixEntryID := a MatrixEntryId;
     BAttemptNumber := match attempt with Some x => AttemptNumber x | None => 0 end |}.

Definition binding_ok (b : Binding) : bool :=
  forallb identifier [BJobID b; BExecutionID b; BLeaseID b; BAttemptID b; BCandidateID b; BMatrixEntryID b]
  && negb (BAttemptNumber b =? 0).

(** [job.GetHashes().Get...()] as its text. *)
Definition hash_of (job : JobSpecification) (f : JobHashes -> option Digest) : bytes :=
  match JHashes job with Some h => digest (f h) | None => [] end.

(** The hashes of a job agree with its artifact, its configuration and its policy. *)
Definition hashes_ok (job : JobSpecification) (policy : EffectivePolicy) : bool :=
  negb (bool_decide (hash_of job HArtifact = []))
  && bool_decide (hash_of job HConfiguration = Sha256.hex (Sum256 (NormalizedConfigurationJson job)))
  && negb (bool_decide (hash_of job HEnvironment = [])) && negb (bool_decide (hash_of job HPolicy = []))
  && bool_decide (hash_of job HArtifact = digest (match JArtifact job with Some d => DDigest d | None => None end))
  && negb (match JArtifact job with Some d => DSizeBytes d | None => 0 end =? 0)
  && policyMatches policy (hash_of job HPolicy) && ValidPaper (TargetPluginName job).

Definition mode_name (m : Z) : bytes :=
  if m =? NETWORK_MODE_NONE then bs "none"
  else if m =? NETWORK_MODE_RESTRICTED then bs "restricted"
  else if m =? NETWORK_MODE_ALLOWLIST then bs "allowlist" else [].

(** The network mode of a context and the hash of its job. *)
Definition network_of (job : JobSpecification) (network : option NetworkPolicyV2) : option (bytes * bytes) :=
  match network with
  | None => Some ([], replicate 32 0)
  | Some n =>
      match configurationNetworkMaximumV2 (NormalizedConfigurationJson job) with
      | None => None
      | Some maximum =>
          if negb (WithinLocalMaximumV2 (Some n) (Some maximum)) then None
          else
            let mode := mode_name (Mode n) in
            if bool_decide (mode ∈ [bs "restricted"; bs "allowlist"])
            then pair mode <$> ExecutionJobSHA256 job else Some (mode, replicate 32 0)
      end
  end.

Definition newContext (job : option JobSpecification) (isV2 : bool) : option Context :=
  match job with
  | None => None
  | Some job =>
      match JEffectivePolicy job with
      | None => None
      | Some policy =>
          let b := binding_of (JLease job) (JAttempt job) in
          let networkV2 := match NetworkV2 policy with Some _ => true | None => false end in
          if negb (match JEnvironment job with Some e => EProvider e | None => 0 end =? SERVER_PROVIDER_PAPER) || negb (binding_ok b)
             || (networkV2 && negb isV2)
          then None
          else
            match validatedConfigurationVersion (NormalizedConfigurationJson job) networkV2,
                  plan_config (NormalizedConfigurationJson job) with
            | Some _, Some config =>
                if negb (hashes_ok job policy) then None
                else
                  match network_of job (NetworkV2 policy), plan_startup (TargetPluginName job) (cstartup (ctests config)) with
                  | Some (mode, jobHash), Some m =>
                      let hashDependencies := match JHashes job with Some h => HDependencies h | None => [] end in
                      if negb (zlen (cdependencies config) =? zlen (JDependencies job))
                         || negb (zlen (cdependencies config) =? zlen hashDependencies)
                      then None
                      else
                        match index_inputs [to_lower (TargetPluginName job)] ∅ (JDependencies job), index_hashes ∅ hashDependencies with
                        | Some inputs, Some hashes =>
                            match plan_dependencies inputs hashes [] m (cdependencies config) with
                            | None => None
                            | Some (dependencies, m) =>
                                match plan_console isV2 m (cconsole (ctests config)) with
                                | None => None
                                | Some m =>
                                    Some {| binding := b;
                                            requested := [(bs "artifactSha256", JString (hash_of job HArtifact));
                                                          (bs "configurationSha256", JString (hash_of job HConfiguration));
                                                          (bs "environmentSha256", JString (hash_of job HEnvironment));
                                                          (bs "policySha256", JString (hash_of job HPolicy));
                                                          (bs "dependencies", dependencies_json dependencies)];
                                            plannedOf := m; v2 := isV2; networkMode := mode;
                                            measurementLease := JLease job; measurementAttempt := JAttempt job;
                                            measurementHashes := JHashes job; measurementJobSHA256 := jobHash |}
                                end
                            end
                        | _, _ => None
                        end
                  | _, _ => None
                  end
            | _, _ => None
            end
      end
  end.

Definition NewContext (job : option JobSpecification) : option Context := newContext job false.
Definition NewContextV2 (job : option JobSpecification) : option Context := newContext job true.

(** ** Frozen evidence ([frozen.go]) *)

Definition FrozenVersion (proof : option ExecutionEvidence) : option bytes :=
  match proof with
  | None => None
  | Some proof =>
      if MaximumBytes <? zlen (CanonicalJson proof) then None
      else
        match parseJSON (CanonicalJson proof) with
        | Some (JObject m) =>
            match member (bs "schemaVersion") m with
            | Some (JString version) =>
                if bool_decide (version ∈ [bs "provenance.execution-evidence/v1"; bs "provenance.execution-evidence/v2"])
                then Some version else None
            | _ => None
            end
        | _ => None
        end
  end.

(** A [Binding] read back; only the runner is used. *)
Definition binding_field (key : bytes) : option (json -> Binding -> option Binding) :=
  let set (f : bytes -> Binding -> Binding) := Some (store_string f) in
  if folded "runnerid" key then set (fun x b => with_runner b x)
  else if existsb (fun n => folded n key) ["jobid"; "executionid"; "leaseid"; "attemptid"; "candidateid"; "matrixentryid"]
  then set (fun _ b => b)
  else if folded "attemptnumber" key then Some (store_uint32 (fun _ b => b))
  else None.

Definition zero_binding : Binding :=
  {| BRunnerID := []; BJobID := []; BExecutionID := []; BLeaseID := []; BAttemptID := []; BCandidateID := [];
     BMatrixEntryID := []; BAttemptNumber := 0 |}.

(** An observation read back from an assertion of the document. *)
Definition observation_of (p : planned) (v : list (bytes * json)) : Observation :=
  let flag (key : string) := match member (bs key) v with Some (JBool b) => b | _ => false end in
  {| OType := kind p; OName := pname p; OTestID := selected "testId" p; OAssertionID := selected "assertionId" p;
     ServerLoaded := flag "serverLoaded"; StabilizationCompleted := flag "stabilizationCompleted";
     ServerReady := flag "serverReady"; RequirementsSatisfied := flag "requirementsSatisfied";
     Loaded := flag "loaded"; Enabled := flag "enabled"; Registered := flag "registered";
     ExecutionCompleted := flag "executionCompleted"; Evaluated := flag "evaluated"; Passed := flag "passed";
     OutputTruncated := flag "outputTruncated"; ShutdownRequested := flag "shutdownRequested";
     ServerStopped := flag "serverStopped"; ReportedShutdownRequested := flag "reportedShutdownRequested" |}.

Definition frozen_observation (c : Context) (entry : json) : option Observation :=
  match entry with
  | JObject a =>
      match member (bs "id") a with
      | Some (JString id) =>
          match plannedOf c !! id with
          | Some p =>
              if negb (supported p) then None
              else
                match member (bs "evidence") a with
                | Some (JObject preimage) =>
                    match member (bs "observation") preimage with
                    | Some (JObject v) => Some (observation_of p v)
                    | _ => None
                    end
                | _ => None
                end
          | None => None
          end
      | _ => None
      end
  | _ => None
  end.

(** A [Snapshot] read back from the document. *)
Definition rootfs_field (key : bytes) : option (json -> RootFS -> option RootFS) :=
  if folded "format" key then Some (store_string (fun x r => {| Format := x; RSHA256 := RSHA256 r |}))
  else if folded "sha256" key then Some (store_string (fun x r => {| Format := Format r; RSHA256 := x |}))
  else None.

Definition no_snapshot : Snapshot :=
  {| RunnerVersion := []; RunnerExecutableSHA256 := []; SandboxKind := []; SandboxVersion := [];
     SandboxExecutableSHA256 := []; NetworkMode := []; SRootFS := {| Format := []; RSHA256 := [] |} |}.

Definition snapshot_field (key : bytes) : option (json -> Snapshot -> option Snapshot) :=
  let upd (rv re sk sv se nm : option bytes) (rf : option RootFS) (s : Snapshot) := {|
    RunnerVersion := default (RunnerVersion s) rv; RunnerExecutableSHA256 := default (RunnerExecutableSHA256 s) re;
    SandboxKind := default (SandboxKind s) sk; SandboxVersion := default (SandboxVersion s) sv;
    SandboxExecutableSHA256 := default (SandboxExecutableSHA256 s) se; NetworkMode := default (NetworkMode s) nm;
    SRootFS := default (SRootFS s) rf |} in
  if folded "runnerversion" key then Some (store_string (fun x => upd (Some x) None None None None None None))
  else if folded "runnerexecutablesha256" key then Some (store_string (fun x => upd None (Some x) None None None None None))
  else if folded "sandboxkind" key then Some (store_string (fun x => upd None None (Some x) None None None None))
  else if folded "sandboxversion" key then Some (store_string (fun x => upd None None None (Some x) None None None))
  else if folded "sandboxexecutablesha256" key then Some (store_string (fun x => upd None None None None (Some x) None None))
  else if folded "networkmode" key then Some (store_string (fun x => upd None None None None None (Some x) None))
  else if folded "rootfs" key
  then Some (fun v s => (fun r => upd None None None None None None (Some r) s) <$> decode_object rootfs_field (SRootFS s) v)
  else None.

(** The measured runtime of a document, if it has one. *)
Definition frozen_runtime (c : Context) (document : list (bytes * json)) : option (option Snapshot) :=
  match member (bs "runtime") document with
  | None | Some JNull => Some None
  | Some v =>
      match Json.parse (Json.Marshal v) ≫= decode_object snapshot_field no_snapshot with
      | Some s => if validHistoricalRuntime c s then Some (Some s) else None
      | None => None
      end
  end.

Definition unknown_of (m : message) : bytes := match m with Msg _ u _ => u end.

Definition validateFrozen (proof : option ExecutionEvidence) (job : option JobSpecification) (runnerID : bytes) (isV2 : bool)
  : bool :=
  match proof with
  | None => true
  | Some proof =>
      match EDigest proof, parseJSON (CanonicalJson proof) with
      | Some d, Some (JObject document) =>
          (0 <? zlen (CanonicalJson proof)) && (zlen (CanonicalJson proof) <=? MaximumBytes)
          && (zlen (eunknown proof) =? 0) && (zlen (unknown_of (dreflect d)) =? 0)
          && negb (bool_decide (digest (Some d) = [])) && bool_decide (Sum256 (CanonicalJson proof) = Value d)
          && match Json.parse (Json.Marshal (default JNull (member (bs "binding") document)))
                     ≫= decode_object binding_field zero_binding, newContext job isV2 with
             | Some b, Some c =>
                 (bool_decide (runnerID = []) || bool_decide (BRunnerID b = runnerID))
                 && match job with Some j => Matches c (JLease j) (JAttempt j) | None => false end
                 && match member (bs "assertions") document with
                    | Some (JArray entries) =>
                        (zlen entries <=? MaximumObservations)
                        && match mapM (frozen_observation c) entries, frozen_runtime c document with
                           | Some os, Some measured =>
                               match build (Some c) (BRunnerID b) os None true [measured] with
                               | inr expected => bool_decide (CanonicalJson expected = CanonicalJson proof)
                               | inl _ => false
                               end
                           | _, _ => false
                           end
                    | _ => false
                    end
             | _, _ => false
             end
      | _, _ => false
      end
  end.

Definition ValidateFrozen (proof : option ExecutionEvidence) (job : option JobSpecification) (runnerID : bytes) : bool :=
  validateFrozen proof job runnerID false.
Definition ValidateFrozenV2 (proof : option ExecutionEvidence) (job : option JobSpecification) (runnerID : bytes) : bool :=
  validateFrozen proof job runnerID true.

End plan.
