(* ===== verification/TerminalSample.v ===== *)
(** One job with a dependency and a console test, its configuration and the observations
    of a run, to evaluate terminal evidence with. *)

From S2P Require Import Prelude Utf8 Patterns Strconv Json Float Canonical Sha256 GuestOutput Policy Binder Messages Url JsonStruct Terminal TerminalBuild TerminalPlan.
Import Names Wire PluginName.

Module TerminalSample.

#[export] Existing Instance sample_proto.
#[export] Existing Instance sample_codec.
#[export] Existing Instance sample_timestamps.
#[export] Existing Instance sample_gateway_proto.

#[export] Instance messages : ProtoMessages := {|
  EqualLease := fun a b => match b with Some b => bool_decide (LeaseId a = LeaseId b) | None => false end;
  EqualAttempt := fun a b => match b with Some b => bool_decide (AttemptId a = AttemptId b) | None => false end;
  EqualHashes := fun a b => match b with Some b => Bool.eqb (zlen (HDependencies a) =? 0) (zlen (HDependencies b) =? 0) | None => false end;
  SizeJobSpecification := fun _ => 100; MarshalJobSpecification := fun j => Some (NormalizedConfigurationJson j) |}.

#[export] Instance schema : ConfigurationSchema := {| SchemaValid := fun _ _ => true; ProtojsonPolicy := fun _ => None |}.

Definition digest_of (p : bytes) : Digest := new_digest (Sum256 p).

Definition library : bytes := bs "library".

Definition configuration : json := any_of (JObject [
  (bs "dependencies", JArray [JObject [(bs "id", JString (bs "lib")); (bs "required", JBool true);
                                       (bs "sha256", JString (Sha256.hex (Sum256 library)))]]);
  (bs "tests", JObject [
     (bs "startup", JObject [(bs "requirePluginEnabled", JBool true); (bs "requireCleanShutdown", JBool true)]);
     (bs "console", JArray [JObject [(bs "id", JString (bs "greets"));
                                     (bs "assertions", JArray [JObject [(bs "operator", JString (bs "regex"))]])]])])]).

Definition policy : EffectivePolicy := {|
  reflect := Msg true [] []; LegacyNetwork := None; NetworkV2 := None; Sandbox := 1; Requirement := 1; Resources := None;
  PreparationTimeout := None; ExecutionTimeout := None; GracefulShutdownTimeout := None |}.

Definition download (p : bytes) (name : string) : ObjectDownload := {|
  DUri := bs "https://objects"; DSizeBytes := zlen p; DDigest := Some (digest_of p); DFilename := bs name; DExpiresAt := None |}.

Definition job : JobSpecification := {|
  JLease := Some {| LeaseId := bs "lease"; LJobId := bs "job"; ExecutionId := bs "execution"; LExpiresAt := None; lreflect := Msg true [] [] |};
  JAttempt := Some {| AttemptId := bs "attempt"; ReleaseCandidateId := bs "candidate"; MatrixEntryId := bs "entry"; AttemptNumber := 1;
                      arest := []; areflect := Msg true [] [] |};
  JEffectivePolicy := Some policy;
  JHashes := Some {| HArtifact := Some (digest_of (bs "artifact")); HConfiguration := Some (digest_of (Json.Marshal configuration));
                     HEnvironment := Some (digest_of (bs "environment")); HPolicy := Some (digest_of (bs "p"));
                     HDependencies := [Some {| DependencyId := bs "lib"; HFilename := bs "lib.jar"; HDigest := Some (digest_of library) |}] |};
  JOrganizationScope := None; JCorrelation := None; NormalizedConfigurationJson := Json.Marshal configuration;
  JEnvironment := Some {| EProvider := SERVER_PROVIDER_PAPER; EOperatingSystem := 1; EArchitecture := 1; GameVersion := []; ServerVersion := [];
                          JavaDistribution := []; JavaVersion := []; ServerBuild := 1; CatalogSnapshotId := []; RunnerImage := None;
                          ServerBinary := None |};
  TargetPluginName := bs "Plugin";
  JDependencies := [Some {| IDependencyId := bs "lib"; PluginName := bs "Library"; IObject := Some (download library "lib.jar") |}];
  JArtifact := Some (download (bs "artifact") "plugin.jar"); JCompleteLogUpload := None; TestSecrets := [] |}.

(** The observations of a run in which everything passed, and the runtime it ran in. *)
Definition observations : list Observation := [
  startup_ready true true true true; plugin_state (bs "plugin-enabled") (bs "plugin") true true;
  plugin_state (bs "dependency-present") (bs "LIBRARY") true true;
  console_assertion (bs "console-regex") (bs "greets") (bs "greets:1") true true true true false;
  clean_shutdown true true true].

Definition snapshot : Snapshot := {|
  RunnerVersion := bs "1.0.0"; RunnerExecutableSHA256 := Sha256.hex (Sum256 (bs "runner")); SandboxKind := bs "gvisor";
  SandboxVersion := bs "release-1"; SandboxExecutableSHA256 := Sha256.hex (Sum256 (bs "runsc")); NetworkMode := bs "none";
  SRootFS := {| Format := bs "squashfs-image-sha256/v1"; RSHA256 := Sha256.hex (Sum256 (bs "image")) |} |}.

Definition the_context : option Context := NewContext (Some job).

Definition is_built (e : terminalError + ExecutionEvidence) : bool := match e with inr _ => true | inl _ => false end.

Example evidence_built : is_built (Build the_context (bs "runner") observations [Some snapshot]) = true.
Proof. vm_compute. reflexivity. Qed.

Lemma evidence_of (runnerID : bytes) :
  is_built (Build the_context runnerID observations [Some snapshot]) = true ->
  exists c ev, newContext (Some job) false = Some c /\ Build (Some c) runnerID observations [Some snapshot] = inr ev.
Proof.
  unfold the_context, NewContext. generalize (newContext (Some job) false). intros [c|]; [|done].
  destruct (Build (Some c) runnerID observations [Some snapshot]) as [|ev] eqn:E; [done|]. eauto.
Qed.

Lemma evidence_made :
  exists c ev, newContext (Some job) false = Some c /\ Build (Some c) (bs "runner") observations [Some snapshot] = inr ev.
Proof. apply evidence_of, evidence_built. Qed.

Lemma job_attempt a : JAttempt job = Some a -> 0 <= AttemptNumber a < 2 ^ 32.
Proof.
  intros H. apply (f_equal (fun o => match o with Some a => AttemptNumber a | None => 0 end)) in H.
  change (1 = AttemptNumber a) in H. lia.
Qed.

Lemma job_dependencies : zlen (JDependencies job) <= maxJSONArray.
Proof. change (1 <= 1000). lia. Qed.

End TerminalSample.
