(* ===== verification/TerminalLaws.v ===== *)
(** What terminal evidence guarantees ([TerminalBuild.v], [TerminalPlan.v]): the order of
    the observations does not matter, a document is complete exactly when its plan is, and
    what was built for a job is accepted when it is validated again. *)

From stdpp Require Import sorting.
From S2P Require Import Prelude Utf8 Patterns Strconv Json JsonLaws Float Canonical Sha256 GuestOutput Policy Binder Messages Url JsonStruct CanonicalLaws Terminal TerminalBuild TerminalPlan TerminalSample.
Import Names Wire PluginName.

Section laws.
Context `{TS : Timestamps} `{PB : RunnerProto} `{GP : !GatewayProto} `{PM : !ProtoMessages} `{CODEC : PolicyCodec}.
Context `{CS : !ConfigurationSchema}.

(** ** Assertions, one observation at a time *)

(** What an observation adds: nothing when its assertion is not supported. *)
Definition verdict (c : Context) (bound : json) (o : Observation) : option (option (bytes * json)) :=
  match find c o with
  | None => None
  | Some p =>
      if negb (supported p) then Some None
      else match observationValue o with
           | None => None
           | Some (value, outcome) =>
               Some (Some (pid p, assertion_json bound p
                             (value ++ map (fun kv => (fst kv, JString (snd kv))) (selector p)) outcome))
           end
  end.

Abbreviation assertions vs := (omap (M := list) id vs).

Lemma mapM_cons_eq {A B} (f : A -> option B) x l :
  mapM f (x :: l) = match f x with Some y => match mapM f l with Some k => Some (y :: k) | None => None end | None => None end.
Proof. cbn. destruct (f x); cbn; [|done]. by destruct (mapM f l). Qed.

(** The loop collects the verdicts, when no assertion has two. *)
Lemma assertions_of_iff c bound seen os es :
  assertions_of c bound seen os = inr es <->
  exists vs, mapM (verdict c bound) os = Some vs /\ es = assertions vs /\ NoDup (map fst es) /\
             forall id, id ∈ map fst es -> id ∉ seen.
Proof.
  revert seen es. induction os as [|o os IH]; intros seen es.
  { cbn. split; [intros [= <-]; exists []; cbn; split_and!; [done..|constructor|set_solver]|].
    intros (vs & [= <-] & -> & _). done. }
  cbn [assertions_of]. setoid_rewrite mapM_cons_eq. unfold verdict at 1.
  destruct (find c o) as [p|]; [|split; [done|by intros (? & ? & ?)]].
  destruct (supported p); cbn [negb].
  2:{ rewrite IH. split; intros (vs & Hv & H).
      - exists (None :: vs). by rewrite Hv.
      - destruct (mapM _ os) as [vs'|]; [|done]. injection Hv as <-. by exists vs'. }
  destruct (observationValue o) as [[value outcome]|].
  2:{ split; [by destruct (bool_decide _)|by intros (? & ? & ?)]. }
  set (e := (pid p, _)). split.
  - destruct (bool_decide (pid p ∈ seen)) eqn:Hs; [done|]. apply bool_decide_eq_false in Hs.
    destruct (assertions_of c bound (pid p :: seen) os) as [|rest] eqn:E; [done|]. intros [= <-].
    apply IH in E as (vs & -> & -> & Hd & Hn). exists (Some e :: vs). cbn. split_and!; [done..|constructor; [|done]|].
    + intros Hin. apply Hn in Hin. set_solver.
    + intros id [->|Hin]%elem_of_cons; [done|]. apply Hn in Hin. set_solver.
  - intros (vs & Hv & -> & Hd & Hn). destruct (mapM _ os) as [vs'|] eqn:Hm; [|done]. injection Hv as <-. cbn in *.
    apply NoDup_cons in Hd as [Hp Hd]. rewrite bool_decide_eq_false_2 by (apply Hn; left).
    assert (assertions_of c bound (pid p :: seen) os = inr (assertions vs')) as ->; [|done].
    apply IH. exists vs'. split_and!; [done..|]. intros id Hin [->|?]%elem_of_cons; [done|]. eapply Hn; [|done]. by right.
Qed.

Lemma assertions_of_error c bound seen os e : assertions_of c bound seen os = inl e -> e = ErrInvalid.
Proof.
  revert seen. induction os as [|o os IH]; intros seen; [done|]. cbn. destruct (find c o) as [p|]; [|by intros [= <-]].
  destruct (supported p); cbn; [|apply IH]. destruct (bool_decide _); [by intros [= <-]|].
  destruct (observationValue o) as [[value outcome]|]; [|by intros [= <-]].
  destruct (assertions_of _ _ _ _) eqn:E; [|done]. intros [= ->]. by eapply IH.
Qed.

(** ** Sorting *)

Lemma mapM_Permutation {A B} (f : A -> option B) l l' r :
  l ≡ₚ l' -> mapM f l = Some r -> exists r', mapM f l' = Some r' /\ r ≡ₚ r'.
Proof.
  intros HP. revert r. induction HP as [|x l l' HP IH|x y l|l1 l2 l3 H1 IH1 H2 IH2]; intros r H.
  - by exists r.
  - cbn in *. destruct (f x) as [y|]; [|done]. cbn in *. destruct (mapM f l) as [k|]; [|done]. injection H as <-.
    destruct (IH k eq_refl) as (k' & -> & HP'). exists (y :: k'). split; [done|]. by constructor.
  - cbn in *. destruct (f y) as [b|]; [|done]. cbn in *. destruct (f x) as [a|]; [|done]. cbn in *.
    destruct (mapM f l) as [k|]; [|done]. injection H as <-. exists (a :: b :: k). split; [done|]. constructor.
  - destruct (IH1 _ H) as (r2 & E2 & P2). destruct (IH2 _ E2) as (r3 & E3 & P3). exists r3. split; [done|]. by etransitivity.
Qed.

Abbreviation entry_le := (fun a b : bytes * json => Automaton.bytes_le (fst a) (fst b)).

#[local] Instance entry_le_trans : Transitive entry_le.
Proof. intros a b c. apply bytes_leb_trans. Qed.

#[local] Instance entry_le_total : Total entry_le.
Proof. intros a b. apply bytes_leb_total. Qed.

Lemma sort_Permutation es : sort_assertions es ≡ₚ es.
Proof. apply merge_sort_Permutation. Qed.

Lemma NoDup_fst_inj {A B} (l : list (A * B)) x y : NoDup (map fst l) -> x ∈ l -> y ∈ l -> fst x = fst y -> x = y.
Proof.
  induction l as [|z l IH]; [set_solver|]. cbn. intros [Hz Hl]%NoDup_cons Hx Hy E.
  apply elem_of_cons in Hx as [->|Hx], Hy as [->|Hy]; [done| | |by apply IH].
  - destruct Hz. rewrite E. by apply (list_elem_of_fmap_2 fst).
  - destruct Hz. rewrite <-E. by apply (list_elem_of_fmap_2 fst).
Qed.

Lemma sort_unique es es' : NoDup (map fst es) -> es ≡ₚ es' -> sort_assertions es = sort_assertions es'.
Proof.
  intros Hd HP. apply (Sorted_unique_strong entry_le).
  - intros x y Hx Hy H1 H2. rewrite sort_Permutation in Hx, Hy. rewrite <-HP in Hy.
    eapply NoDup_fst_inj; [exact Hd|done..|]. by apply bytes_leb_antisym.
  - apply (Sorted_merge_sort _).
  - apply (Sorted_merge_sort _).
  - by rewrite !sort_Permutation.
Qed.

(** Sorting twice is sorting once. *)
Lemma sort_idempotent es : NoDup (map fst es) -> sort_assertions (sort_assertions es) = sort_assertions es.
Proof. intros Hd. symmetry. apply sort_unique; [done|]. symmetry. apply sort_Permutation. Qed.

Lemma complete_plan_ext c seen seen' : (forall id, id ∈ seen <-> id ∈ seen') -> complete_plan c seen = complete_plan c seen'.
Proof.
  intros H. unfold complete_plan. induction (map snd _) as [|p l IH]; [done|]. cbn. rewrite IH. f_equal. f_equal.
  by apply bool_decide_ext.
Qed.

Lemma assertions_of_Permutation c bound os os' es :
  os ≡ₚ os' -> assertions_of c bound [] os = inr es -> exists es', assertions_of c bound [] os' = inr es' /\ es ≡ₚ es'.
Proof.
  intros HP (vs & Hm & -> & Hd & _)%assertions_of_iff. destruct (mapM_Permutation _ _ _ _ HP Hm) as (vs' & Hm' & HP').
  exists (assertions vs'). assert (assertions vs ≡ₚ assertions vs') as HE by by rewrite HP'. split; [|done].
  apply assertions_of_iff. exists vs'. split_and!; [done..| |set_solver]. by rewrite <-HE.
Qed.

Lemma runtime_of_ext c b h m seen seen' :
  (forall id, id ∈ seen <-> id ∈ seen') -> runtime_of c b h m seen = runtime_of c b h m seen'.
Proof. intros H. unfold runtime_of. by rewrite (complete_plan_ext c seen seen' H). Qed.

(** C24: the order in which a provider reports its observations does not change the
    evidence, nor whether there is any. *)
Theorem evidence_order c runnerID os os' network historical measured :
  os ≡ₚ os' -> build c runnerID os network historical measured = build c runnerID os' network historical measured.
Proof.
  intros HP. unfold build. destruct c as [c|]; [|done]. assert (zlen os = zlen os') as -> by (unfold zlen; by rewrite HP).
  destruct (negb _); [done|]. destruct (_ <? _); [done|]. set (bound := default _ _).
  destruct (assertions_of c bound [] os) as [e|es] eqn:E.
  - apply assertions_of_error in E as He. subst. destruct (assertions_of c bound [] os') as [e|es'] eqn:E'.
    + by apply assertions_of_error in E' as ->.
    + symmetry in HP. destruct (assertions_of_Permutation _ _ _ _ _ HP E') as (? & ? & _). congruence.
  - destruct (assertions_of_Permutation _ _ _ _ _ HP E) as (es' & -> & HE).
    apply assertions_of_iff in E as (_ & _ & _ & Hd & _). rewrite (sort_unique _ _ Hd HE).
    destruct (_ || _); [done|]. destruct (match network with None => _ | _ => _ end) as [|snapshot]; [done|].
    by rewrite (runtime_of_ext _ _ _ _ (map fst es) (map fst es')) by (intros id; by rewrite HE).
Qed.

(** ** Plain text *)

Lemma Forall_concat_plain {A} (f : A -> bytes) l : (forall x, plain (f x)) -> plain (concat (map f l)).
Proof. intros H. induction l as [|x l IH]; [constructor|]. cbn. apply Forall_app. by split. Qed.

Lemma hex_plain b : plain (Sha256.hex b).
Proof.
  apply Forall_concat_plain. intros x.
  assert (forall n, 0 <= n < 16 -> plain_byte (hex_digit n) = true) as H.
  { intros n Hn. unfold hex_digit, plain_byte, in_range. cbn [existsb]. destruct (n <? 10) eqn:?; lia. }
  repeat constructor; apply H; apply Z.mod_pos_bound; lia.
Qed.

Lemma digest_plain d : plain (digest d).
Proof. unfold digest. repeat case_match; try constructor. apply hex_plain. Qed.

Lemma pattern_plain extra s : plain (bs extra) -> identifier_pattern extra s = true -> plain s.
Proof.
  intros He. unfold identifier_pattern. destruct s as [|b s]; [done|]. intros [[_ Hb]%andb_true_iff Hs]%andb_true_iff.
  assert (forall x, is_upper x || is_lower x || is_digit x = true -> plain_byte x = true) as Ha.
  { intros x. unfold is_upper, is_lower, is_digit, plain_byte, in_range. cbn [existsb]. lia. }
  constructor; [by apply Ha|]. rewrite forallb_forall in Hs. apply Forall_forall. intros x Hx%list_elem_of_In.
  specialize (Hs x Hx). apply orb_true_iff in Hs as [Hs|Hs]; [by apply Ha|]. apply existsb_exists in Hs as (y & Hy & E).
  apply Z.eqb_eq in E as ->. rewrite Forall_forall in He. apply He. by apply list_elem_of_In.
Qed.

Lemma identifier_plain s : identifier s = true -> plain s.
Proof. apply pattern_plain. by vm_compute; repeat constructor. Qed.

Lemma digest_pattern_plain s : digestPattern s = true -> plain s.
Proof.
  unfold digestPattern. intros [_ Hs]%andb_true_iff. rewrite forallb_forall in Hs. apply Forall_forall.
  intros x Hx%list_elem_of_In. specialize (Hs x Hx). revert Hs. unfold is_digit, plain_byte, in_range. cbn [existsb]. lia.
Qed.

(** ** Names *)

Lemma fold_runes_ascii b s : ascii_byte b = true -> fold_runes (b :: s) = lower_byte b :: fold_runes s.
Proof.
  intros Hb%ascii_elem. vm_compute in Hb.
  repeat (apply elem_of_cons in Hb as [->|Hb]; [reflexivity|]). by apply not_elem_of_nil in Hb.
Qed.

Lemma fold_ascii s : Forall (fun b => ascii_byte b = true) s -> fold_runes s = to_lower s.
Proof. induction 1 as [|b s Hb _ IH]; [done|]. rewrite fold_runes_ascii by done. cbn. by rewrite IH. Qed.

Lemma ValidPaper_ascii s : ValidPaper s = true -> Forall (fun b => ascii_byte b = true) s.
Proof.
  unfold ValidPaper. destruct s as [|b s]; [done|]. destruct (_ || negb (asciiAlphanumeric b)) eqn:E; [done|].
  destruct (negb (forallb name_byte s)) eqn:E'; [done|]. intros _. apply orb_false_iff in E as [_ E]. apply negb_false_iff in E, E'. rewrite forallb_forall in E'. constructor.
  - revert E. unfold asciiAlphanumeric, is_upper, is_lower, is_digit, ascii_byte, in_range. lia.
  - apply Forall_forall. intros x Hx%list_elem_of_In. specialize (E' x Hx). revert E'.
    unfold name_byte, asciiAlphanumeric, is_upper, is_lower, is_digit, ascii_byte, in_range. lia.
Qed.

(** ** Plans *)

(** The assertions a plan may hold. *)
Inductive shape : planned -> Prop :=
  | shape_startup s : shape (new_planned (bs "startup-ready") (bs "startup-ready") [] s [])
  | shape_plugin target s :
      shape (new_planned (bs "plugin-enabled") (bs "plugin-enabled") target s [(bs "targetId", bs "target")])
  | shape_shutdown s : shape (new_planned (bs "clean-shutdown") (bs "clean-shutdown") [] s [])
  | shape_dependency id name s sha :
      shape (new_planned (bs "dependency-present:" ++ id) (bs "dependency-present") name s
               [(bs "dependencyId", id); (bs "dependencySha256", sha)])
  | shape_console kind test sel s :
      kind ∈ [bs "console-regex"; bs "console-contains"] ->
      shape (new_planned (kind ++ bs ":" ++ sel) kind [] s [(bs "testId", test); (bs "assertionId", sel)]).

Definition well_planned (m : gmap bytes planned) : Prop :=
  map_Forall (fun id p => pid p = id /\ identifier id = true /\ shape p /\ Forall (fun kv => plain kv.2) (selector p)) m.

(** The dependencies of a plan are inputs. *)
Definition from_inputs (inputs : gmap bytes DependencyInput) (m : gmap bytes planned) : Prop :=
  map_Forall (fun _ p => kind p = bs "dependency-present" ->
    exists id input, pid p = bs "dependency-present:" ++ id /\ inputs !! id = Some input /\ pname p = PluginName input) m.

Lemma add_planned_inv p m m' :
  add_planned p m = Some m' -> identifier (pid p) = true /\ m !! pid p = None /\ m' = <[pid p := p]> m.
Proof.
  unfold add_planned. destruct (identifier (pid p)); [|done]. cbn. destruct (m !! pid p) eqn:E; [done|]. by intros [= <-].
Qed.

Lemma add_well_planned p m m' :
  add_planned p m = Some m' -> shape p -> Forall (fun kv => plain kv.2) (selector p) -> well_planned m -> well_planned m'.
Proof. intros (Hi & Hn & ->)%add_planned_inv Hs Hp Hm. by apply map_Forall_insert_2. Qed.

Lemma add_from_inputs inputs p m m' :
  add_planned p m = Some m' ->
  (kind p = bs "dependency-present" ->
   exists id input, pid p = bs "dependency-present:" ++ id /\ inputs !! id = Some input /\ pname p = PluginName input) ->
  from_inputs inputs m -> from_inputs inputs m'.
Proof. intros (Hi & Hn & ->)%add_planned_inv Hs Hm. by apply map_Forall_insert_2. Qed.

Lemma plan_startup_ok target s m inputs : plan_startup target s = Some m -> well_planned m /\ from_inputs inputs m.
Proof.
  unfold plan_startup. destruct (add_planned _ ∅) as [m1|] eqn:E1; [|done]. cbn.
  destruct (add_planned _ m1) as [m2|] eqn:E2; [|done]. cbn. intros E3. split.
  - eapply add_well_planned; [exact E3|constructor|constructor|].
    eapply add_well_planned; [exact E2|constructor|by vm_compute; repeat constructor|].
    eapply add_well_planned; [exact E1|constructor|constructor|]. apply map_Forall_empty.
  - eapply add_from_inputs; [exact E3|by vm_compute|]. eapply add_from_inputs; [exact E2|by vm_compute|].
    eapply add_from_inputs; [exact E1|by vm_compute|]. apply map_Forall_empty.
Qed.

Lemma plain_suffix a b : plain (a ++ b) -> plain b.
Proof. by intros [_ ?]%Forall_app. Qed.

Lemma plain_prefix a b : plain (a ++ b) -> plain a.
Proof. by intros [? _]%Forall_app. Qed.

Lemma plan_dependencies_ok inputs hashes l : forall seen m deps m',
  plan_dependencies inputs hashes seen m l = Some (deps, m') -> well_planned m -> from_inputs inputs m ->
  well_planned m' /\ from_inputs inputs m' /\ length deps = length l /\
  Forall (fun d => plain (fst d) /\ plain (snd d)) deps.
Proof.
  induction l as [|d l IH]; intros seen m deps m'; cbn [plan_dependencies]; [by intros [= <- <-]|].
  destruct (inputs !! cid d) as [input|] eqn:Ei; [|done]. destruct (hashes !! cid d) as [hash|]; [|done].
  destruct (_ || _) eqn:Ec; [done|]. destruct (add_planned _ m) as [m1|] eqn:Ea; [|done].
  destruct (plan_dependencies _ _ _ m1 l) as [[deps' m2]|] eqn:Ep; [|done]. cbn. intros [= <- <-] Hw Hf.
  assert (plain (csha256 d)).
  { repeat apply orb_false_iff in Ec as [Ec ?]. bool_norm.
    match goal with H : csha256 d = digest _ |- _ => rewrite H; apply digest_plain end. }
  assert (plain (cid d)).
  { apply add_planned_inv in Ea as (Hi & _). apply identifier_plain in Hi. cbn [pid new_planned] in Hi. by eapply plain_suffix. }
  destruct (IH _ _ _ _ Ep) as (W & F & L & P).
  - eapply add_well_planned; [exact Ea|constructor|by repeat constructor|done].
  - eapply add_from_inputs; [exact Ea|intros _; cbn; eauto|done].
  - split_and!; [done..|cbn; lia|by constructor].
Qed.

Lemma plan_assertions_ok v2 test inputs l : forall n m m',
  plan_assertions v2 test n m l = Some m' -> well_planned m -> from_inputs inputs m -> well_planned m' /\ from_inputs inputs m'.
Proof.
  induction l as [|operator l IH]; intros n m m'; cbn [plan_assertions]; [by intros [= <-]|].
  destruct (if _ && _ then _ else _) as [kd sup] eqn:Ek.
  destruct (add_planned _ m) as [m1|] eqn:Ea; [|done]. intros Hp Hw Hf.
  assert (kd ∈ [bs "console-regex"; bs "console-contains"]) as Hk.
  { destruct (_ && _); injection Ek as <- <-; set_solver. }
  pose proof Ea as (Hi & _)%add_planned_inv. apply identifier_plain in Hi. cbn [pid new_planned] in Hi.
  apply plain_suffix, plain_suffix in Hi. eapply IH; [exact Hp|..].
  - eapply add_well_planned; [exact Ea|by constructor| |done]. repeat constructor; [|done]. by eapply plain_prefix.
  - eapply add_from_inputs; [exact Ea| |done]. cbn. intros ->. by vm_compute in Hk; apply list_elem_of_In in Hk as [|[|[]]].
Qed.

Lemma plan_console_ok v2 inputs l : forall m m',
  plan_console v2 m l = Some m' -> well_planned m -> from_inputs inputs m -> well_planned m' /\ from_inputs inputs m'.
Proof.
  induction l as [|test l IH]; intros m m'; cbn [plan_console]; [by intros [= <-]|].
  destruct (plan_assertions _ _ _ _ _) as [m1|] eqn:E; [|done]. intros Hc Hw Hf.
  destruct (plan_assertions_ok _ _ _ _ _ _ _ E Hw Hf) as [W F]. by eapply IH.
Qed.

(** Inputs have names that no two of them share, whatever the case. *)
Definition named_apart (inputs : gmap bytes DependencyInput) : Prop :=
  forall i j a b, inputs !! i = Some a -> inputs !! j = Some b -> to_lower (PluginName a) = to_lower (PluginName b) -> i = j.

Lemma index_inputs_ok l : forall names m inputs,
  index_inputs names m l = Some inputs -> named_apart m ->
  map_Forall (fun _ d => ValidPaper (PluginName d) = true /\ to_lower (PluginName d) ∈ names) m ->
  named_apart inputs /\ map_Forall (fun _ d => ValidPaper (PluginName d) = true) inputs.
Proof.
  induction l as [|[d|] l IH]; intros names m inputs; cbn [index_inputs]; [|destruct (_ || _) eqn:E; [done|]|done].
  { intros [= <-] Ha Hv. split; [done|]. intros i a Hi. by destruct (Hv i a Hi). }
  repeat apply orb_false_iff in E as [E ?]. bool_norm. intros Hr Ha Hv. apply (IH _ _ _ Hr).
  - assert (forall j b, m !! j = Some b -> to_lower (PluginName b) <> to_lower (PluginName d)) as Hn.
    { intros j b Hj He. destruct (Hv j b Hj) as [_ Hin]. rewrite He in Hin. done. }
    intros i j a b. rewrite !lookup_insert_Some. intros [[<- <-]|[? Hi]] [[<- <-]|[? Hj]] He; [done|..].
    + symmetry in He. by destruct (Hn _ _ Hj He).
    + by destruct (Hn _ _ Hi He).
    + by eapply Ha.
  - apply map_Forall_insert_2; [split; [done|left]|]. intros i a Hi. destruct (Hv i a Hi). split; [done|by right].
Qed.

(** What the context of a job is made of. *)
Lemma newContext_inv job isV2 c :
  newContext (Some job) isV2 = Some c ->
  exists deps inputs,
    binding c = binding_of (JLease job) (JAttempt job) /\ binding_ok (binding c) = true /\ v2 c = isV2 /\
    requested c = [(bs "artifactSha256", JString (hash_of job HArtifact));
                   (bs "configurationSha256", JString (hash_of job HConfiguration));
                   (bs "environmentSha256", JString (hash_of job HEnvironment));
                   (bs "policySha256", JString (hash_of job HPolicy));
                   (bs "dependencies", dependencies_json deps)] /\
    well_planned (plannedOf c) /\ from_inputs inputs (plannedOf c) /\ named_apart inputs /\
    map_Forall (fun _ d => ValidPaper (PluginName d) = true) inputs /\
    length deps = length (JDependencies job) /\ Forall (fun d => plain (fst d) /\ plain (snd d)) deps.
Proof.
  unfold newContext. destruct (JEffectivePolicy job) as [policy|]; [|done]. destruct (_ || _ || _) eqn:E1; [done|].
  destruct (validatedConfigurationVersion _ _); [|done]. destruct (plan_config _) as [config|]; [|done].
  destruct (negb (hashes_ok job policy)); [done|]. destruct (network_of _ _) as [[mode jobHash]|]; [|done].
  destruct (plan_startup _ _) as [m0|] eqn:E0; [|done]. destruct (negb (_ =? _) || negb (_ =? _)) eqn:E2; [done|].
  destruct (index_inputs _ _ _) as [inputs|] eqn:Ei; [|done]. destruct (index_hashes _ _) as [hashes|]; [|done].
  destruct (plan_dependencies _ _ _ _ _) as [[deps m1]|] eqn:Ed; [|done]. destruct (plan_console _ _ _) as [m2|] eqn:Ec; [|done].
  intros [= <-]. cbn. exists deps, inputs. apply orb_false_iff in E1 as [[_ E1]%orb_false_iff _], E2 as [E2 _]. bool_norm.
  destruct (plan_startup_ok _ _ _ inputs E0) as [W0 F0].
  destruct (plan_dependencies_ok _ _ _ _ _ _ _ Ed W0 F0) as (W1 & F1 & L & P).
  destruct (plan_console_ok _ _ _ _ _ Ec W1 F1) as [W2 F2].
  destruct (index_inputs_ok _ _ _ _ Ei) as [N V]; [by intros i j a b ?%lookup_empty_Some|apply map_Forall_empty|].
  split_and!; try done. unfold zlen in E2. lia.
Qed.

(** ** Finding an assertion again *)

Abbreviation dependency := (bs "dependency-present").

Section found.
Variables (c : Context) (inputs : gmap bytes DependencyInput).
Hypotheses (Hw : well_planned (plannedOf c)) (Hf : from_inputs inputs (plannedOf c)) (Ha : named_apart inputs)
  (Hv : map_Forall (fun _ d => ValidPaper (PluginName d) = true) inputs).

Lemma planned_elem p : p ∈ map snd (map_to_list (plannedOf c)) <-> plannedOf c !! pid p = Some p.
Proof.
  rewrite list_elem_of_fmap. split.
  - intros ([id q] & -> & H%elem_of_map_to_list). destruct (Hw _ _ H) as [E _]. cbn. by rewrite E.
  - intros H. exists (pid p, p). split; [done|]. by apply elem_of_map_to_list.
Qed.

Lemma dependency_unique p q :
  plannedOf c !! pid p = Some p -> plannedOf c !! pid q = Some q -> kind p = dependency -> kind q = dependency ->
  EqualFold (pname p) (pname q) = true -> p = q.
Proof.
  intros Hp Hq Kp Kq E. destruct (Hf _ _ Hp Kp) as (i & a & Ep & Ia & Na), (Hf _ _ Hq Kq) as (j & b & Eq & Ib & Nb).
  unfold EqualFold in E. bool_norm. rewrite Na, Nb, !fold_ascii in E by (apply ValidPaper_ascii; by eapply Hv).
  assert (i = j) as -> by by eapply Ha. congruence.
Qed.

Lemma find_planned o p : find c o = Some p -> plannedOf c !! pid p = Some p /\ OType o = kind p.
Proof.
  unfold find. destruct (bool_decide (OType o = dependency)).
  - intros [Hin E]%List.find_some. bool_norm. apply list_elem_of_In in Hin. by apply planned_elem in Hin.
  - destruct (plannedOf c !! _) as [q|] eqn:E; [|done]. destruct (_ || _) eqn:G; [done|]. intros [= <-].
    repeat apply orb_false_iff in G as [G ?]. bool_norm. destruct (Hw _ _ E) as [-> _]. done.
Qed.

Lemma find_again p v : plannedOf c !! pid p = Some p -> find c (observation_of p v) = Some p.
Proof.
  intros Hp. destruct (Hw _ _ Hp) as (_ & _ & Hs & _). unfold find. cbn [OType OName OTestID OAssertionID observation_of].
  destruct (decide (kind p = dependency)) as [K|K].
  - rewrite bool_decide_eq_true_2 by done. destruct (List.find _ _) as [q|] eqn:E.
    + apply List.find_some in E as [Hq%list_elem_of_In E]. apply planned_elem in Hq. bool_norm. f_equal.
      apply dependency_unique; congruence.
    + assert (In p (map snd (map_to_list (plannedOf c)))) as Hin by (by apply list_elem_of_In, planned_elem).
      eapply List.find_none in E; [|exact Hin]. cbn in E. unfold EqualFold in E. rewrite !bool_decide_eq_true_2 in E by done. done.
  - rewrite (bool_decide_eq_false_2 (kind p = _)) by done.
    assert ((if is_console (kind p) then kind p ++ bs ":" ++ selected "assertionId" p else kind p) = pid p) as ->.
    { destruct Hs as [| | | |kd test sel s Hk]; try reflexivity; [done|]. unfold is_console. cbn [kind new_planned].
      by rewrite bool_decide_eq_true_2. }
    rewrite Hp. unfold EqualFold.
    rewrite (bool_decide_eq_true_2 (kind p = kind p)), (bool_decide_eq_true_2 (fold_runes _ = _)),
      (bool_decide_eq_true_2 (selected "testId" p = _)), (bool_decide_eq_true_2 (selected "assertionId" p = _)) by done.
    cbn [negb orb]. by rewrite !andb_false_r.
Qed.
End found.

(** ** Observing again *)

Lemma value_startup o :
  OType o = bs "startup-ready" ->
  observationValue o =
  if negb (ServerLoaded o) || negb (StabilizationCompleted o) || negb (ServerReady o) then None
  else Some ([(bs "serverLoaded", JBool (ServerLoaded o)); (bs "stabilizationCompleted", JBool (StabilizationCompleted o));
              (bs "serverReady", JBool (ServerReady o)); (bs "requirementsSatisfied", JBool (RequirementsSatisfied o))],
             if RequirementsSatisfied o then bs "passed" else bs "failed").
Proof. intros H. unfold observationValue. rewrite H. reflexivity. Qed.

Lemma value_plugin o :
  OType o ∈ [bs "plugin-enabled"; dependency] ->
  observationValue o =
  if Enabled o && negb (Loaded o) then None
  else Some ([(bs "loaded", JBool (Loaded o)); (bs "enabled", JBool (Enabled o))],
             if Loaded o && Enabled o then bs "passed" else bs "failed").
Proof.
  unfold observationValue. by intros [->|[->|[]%not_elem_of_nil]%elem_of_cons]%elem_of_cons.
Qed.

Lemma value_console o :
  OType o ∈ [bs "console-regex"; bs "console-contains"] ->
  observationValue o =
  if negb (Registered o) || negb (ExecutionCompleted o)
     || (negb (Evaluated o) && (Passed o || negb (OutputTruncated o))) || (Passed o && OutputTruncated o) then None
  else Some ([(bs "registered", JBool (Registered o)); (bs "executionCompleted", JBool (ExecutionCompleted o));
              (bs "evaluated", JBool (Evaluated o)); (bs "passed", JBool (Passed o));
              (bs "outputTruncated", JBool (OutputTruncated o))],
             if negb (Evaluated o) then bs "skipped" else if Passed o then bs "passed" else bs "failed").
Proof.
  unfold observationValue. by intros [->|[->|[]%not_elem_of_nil]%elem_of_cons]%elem_of_cons.
Qed.

Lemma value_shutdown o :
  OType o = bs "clean-shutdown" ->
  observationValue o =
  if negb (ShutdownRequested o) || negb (ServerStopped o) then None
  else Some ([(bs "shutdownRequested", JBool (ShutdownRequested o)); (bs "serverStopped", JBool (ServerStopped o));
              (bs "reportedShutdownRequested", JBool (ReportedShutdownRequested o))],
             if ReportedShutdownRequested o then bs "passed" else bs "failed").
Proof. intros H. unfold observationValue. by rewrite H. Qed.

Lemma console_members registered completed evaluated passed truncated test sel :
  let ms := [(bs "registered", JBool registered); (bs "executionCompleted", JBool completed); (bs "evaluated", JBool evaluated);
             (bs "passed", JBool passed); (bs "outputTruncated", JBool truncated); (bs "testId", JString test);
             (bs "assertionId", JString sel)] in
  member (bs "registered") ms = Some (JBool registered) /\ member (bs "executionCompleted") ms = Some (JBool completed) /\
  member (bs "evaluated") ms = Some (JBool evaluated) /\ member (bs "passed") ms = Some (JBool passed) /\
  member (bs "outputTruncated") ms = Some (JBool truncated).
Proof. by split_and!; vm_compute. Qed.

(** What is read back from an assertion has the value it was made of. *)
Lemma value_again p o value outcome :
  shape p -> OType o = kind p -> observationValue o = Some (value, outcome) ->
  observationValue (observation_of p (map_of (value ++ map (fun kv => (fst kv, JString (snd kv))) (selector p)))) =
  Some (value, outcome).
Proof.
  intros Hs HO H. unfold observation_of. rewrite !member_map_of.
  destruct Hs as [s|target s|s|id name s sha|kd test sel s Hk]; cbn [kind new_planned] in HO.
  - rewrite value_startup in H by done.
    destruct (ServerLoaded o), (StabilizationCompleted o), (ServerReady o), (RequirementsSatisfied o); try discriminate H;
      injection H as <- <-; vm_compute; reflexivity.
  - rewrite value_plugin in H by (rewrite HO; set_solver).
    destruct (Loaded o), (Enabled o); try discriminate H; injection H as <- <-; vm_compute; reflexivity.
  - rewrite value_shutdown in H by done.
    destruct (ShutdownRequested o), (ServerStopped o), (ReportedShutdownRequested o); try discriminate H; injection H as <- <-; vm_compute; reflexivity.
  - rewrite value_plugin in H by (rewrite HO; set_solver).
    destruct (Loaded o), (Enabled o); try discriminate H; injection H as <- <-; vm_compute; reflexivity.
  - rewrite value_console in H by (by rewrite HO). rewrite value_console by done.
    destruct (_ || _) eqn:G in H; [done|]. apply Some_inj, pair_eq in H as [<- <-]. cbn [selector new_planned map fst snd app].
    cbn [Registered ExecutionCompleted Evaluated Passed OutputTruncated].
    destruct (console_members (Registered o) (ExecutionCompleted o) (Evaluated o) (Passed o) (OutputTruncated o) test sel)
      as (-> & -> & -> & -> & ->). by rewrite G.
Qed.

(** ** Documents *)

Ltac plain_key := by vm_compute; repeat constructor.

Abbreviation modest := (simple maxJSONArray).

Lemma object_simple d ms :
  Forall (fun kv => plain kv.1 /\ modest d kv.2) ms -> modest (S d) (JObject (map_of ms)).
Proof. intros H. constructor. by apply map_of_Forall. Qed.

Lemma object_ordered ms : Forall (fun kv => ordered kv.2) ms -> ordered (JObject (map_of ms)).
Proof. intros H. constructor; [apply map_of_sorted|]. by apply map_of_Forall. Qed.

Lemma binding_simple b :
  forallb identifier [BRunnerID b; BJobID b; BExecutionID b; BLeaseID b; BAttemptID b; BCandidateID b; BMatrixEntryID b] = true ->
  0 <= BAttemptNumber b < 2 ^ 32 -> modest 1 (binding_json b).
Proof.
  intros H Hn. cbn [forallb] in H. bool_norm. constructor.
  repeat (apply Forall_cons; split; [split; [plain_key|constructor; by apply identifier_plain]|]).
  apply Forall_cons. split; [|constructor]. split; [plain_key|]. constructor. exists (BAttemptNumber b). split; [lia|done].
Qed.

(** The runner of a binding that is read back. *)
Lemma binding_again b :
  0 <= BAttemptNumber b < 2 ^ 32 ->
  exists b', decode_object binding_field zero_binding (any_of (binding_json b)) = Some b' /\ BRunnerID b' = BRunnerID b.
Proof.
  intros Hn. unfold binding_json. apply parse_uint_itoa in Hn. destruct b as [r j e l a ca m n]. cbn [BAttemptNumber] in Hn.
  cbn [BRunnerID BJobID BExecutionID BLeaseID BAttemptID BCandidateID BMatrixEntryID BAttemptNumber].
  generalize dependent (itoa n). intros lit Hn. exists (with_runner zero_binding r). split; [|done].
  lazy -[parse_uint] in Hn |- *. by rewrite Hn.
Qed.

Lemma snapshot_again s : decode_object snapshot_field no_snapshot (any_of (snapshot_json s)) = Some s.
Proof. by destruct s as [rv re sk sv se nm [f h]]. Qed.

Lemma SnapshotValid_simple s mode :
  SnapshotValid {| RunnerVersion := RunnerVersion s; RunnerExecutableSHA256 := RunnerExecutableSHA256 s;
                   SandboxKind := SandboxKind s; SandboxVersion := SandboxVersion s;
                   SandboxExecutableSHA256 := SandboxExecutableSHA256 s; NetworkMode := mode; SRootFS := SRootFS s |} = true ->
  plain (NetworkMode s) -> modest 2 (snapshot_json s).
Proof.
  unfold SnapshotValid. cbn [RunnerVersion RunnerExecutableSHA256 SandboxKind SandboxVersion SandboxExecutableSHA256 NetworkMode SRootFS].
  intros H Hn. bool_norm. unfold versionPattern in *.
  assert (plain (bs "._+-")) as Hp by plain_key.
  assert (forall x y : bytes, x = y -> plain y -> plain x) as Hx by (by intros ? ? ->).
  constructor. repeat (apply Forall_cons; split; [split; [plain_key|]|]); [..|constructor]; try apply simple_string;
    try (by apply digest_pattern_plain); try (by eapply pattern_plain); try done; try (by eapply Hx; [done|plain_key]).
  constructor. repeat (apply Forall_cons; split; [split; [plain_key|]|]); [..|constructor]; apply simple_string;
    [by eapply Hx; [done|plain_key]|by apply digest_pattern_plain].
Qed.
End laws.

Import TerminalSample.

Lemma evidence_order_witness :
  exists c ev, build (Some c) (bs "runner") observations None false [Some snapshot] = inr ev /\
    build (Some c) (bs "runner") (rev observations) None false [Some snapshot] = inr ev.
Proof.
  destruct evidence_made as (c & ev & _ & H). exists c, ev. split; [exact H|]. unfold Build in H. rewrite <-H.
  apply (evidence_order (Some c) (bs "runner") (rev observations) observations None false
           [Some snapshot]). apply Permutation_sym, Permutation_rev.
Defined.
