(* ===== verification/TerminalFrozen.v ===== *)
(** The round trip of terminal evidence: what a provider builds for a job validates when
    it is read back ([Build] and [ValidateFrozen] of [src/internal/terminalevidence]). *)

From S2P Require Import Prelude Utf8 Patterns Strconv Json JsonLaws Float Canonical Sha256 GuestOutput Policy Binder Messages Url JsonStruct CanonicalLaws Terminal TerminalBuild TerminalPlan TerminalSample TerminalLaws.
Import Names Wire PluginName.

Ltac plain_key := by vm_compute; repeat constructor.

Section frozen.
Context `{TS : Timestamps} `{PB : RunnerProto} `{GP : !GatewayProto} `{PM : !ProtoMessages} `{CODEC : PolicyCodec}.
Context `{CS : !ConfigurationSchema}.

Abbreviation modest := (simple maxJSONArray).

(** ** Assertions *)

Lemma value_plain o value outcome :
  observationValue o = Some (value, outcome) ->
  plain outcome /\ Forall (fun kv => plain kv.1 /\ exists b, kv.2 = JBool b) value.
Proof.
  assert (plain (bs "passed") /\ plain (bs "failed") /\ plain (bs "skipped")) as (Hp & Hf & Hs) by (split_and!; plain_key).
  unfold observationValue. intros H.
  repeat match type of H with (if ?b then _ else _) = _ => destruct b; [try discriminate H|try discriminate H] end;
    apply Some_inj, pair_eq in H as [<- <-]; (split; [repeat case_match; done|]);
    repeat (apply Forall_cons; split; [split; [plain_key|by eexists]|]); constructor.
Qed.

Lemma selector_keys p : shape p -> Forall (fun kv => plain kv.1) (selector p).
Proof.
  intros H. destruct H; cbn [selector new_planned]; repeat (apply Forall_cons; split; [plain_key|]); constructor.
Qed.

Definition members (p : planned) (value : list (bytes * json)) : list (bytes * json) :=
  value ++ map (fun kv => (fst kv, JString (snd kv))) (selector p).

Section entries.
Variables (c : Context) (bound : json).
Hypotheses (Hw : well_planned (plannedOf c)) (Hb : modest 1 bound) (Ho : ordered bound).

Lemma members_simple p o value outcome :
  plannedOf c !! pid p = Some p -> observationValue o = Some (value, outcome) ->
  modest 1 (JObject (map_of (members p value))) /\ ordered (JObject (map_of (members p value))).
Proof.
  intros Hp [_ Hv]%value_plain. destruct (Hw _ _ Hp) as (_ & _ & Hs & Hsel). apply selector_keys in Hs. unfold members. split.
  - apply object_simple. apply Forall_app. split.
    + eapply Forall_impl; [exact Hv|]. intros kv (Hk & b & ->). split; [done|constructor].
    + rewrite Forall_map. rewrite Forall_forall in *. intros kv Hkv. cbn. split; [by apply Hs|]. constructor. by apply Hsel.
  - apply object_ordered. apply Forall_app. split.
    + eapply Forall_impl; [exact Hv|]. intros kv (Hk & b & ->). constructor.
    + rewrite Forall_map. apply Forall_forall. intros. constructor.
Qed.

Lemma assertion_simple p o value outcome :
  plannedOf c !! pid p = Some p -> observationValue o = Some (value, outcome) ->
  modest 3 (assertion_json bound p (members p value) outcome) /\ ordered (assertion_json bound p (members p value) outcome).
Proof.
  intros Hp Hv. destruct (members_simple _ _ _ _ Hp Hv) as [Ms Mo]. apply value_plain in Hv as [Hout _].
  destruct (Hw _ _ Hp) as (_ & Hi%identifier_plain & Hs & _).
  assert (plain (kind p)) as Hk by (destruct Hs as [| | | |? ? ? ? Hk]; [plain_key..|]; repeat (apply elem_of_cons in Hk as [->|Hk]; [plain_key|]); by apply not_elem_of_nil in Hk).
  unfold assertion_json. set (obs := JObject (map_of (members p value))) in *.
  set (pre := [(bs "binding", bound); _; _; _; _]).
  assert (modest 2 (JObject (map_of pre)) /\ ordered (JObject (map_of pre))) as [Ps Po].
  { split.
    - apply object_simple. repeat (apply Forall_cons; split; [split; [plain_key|cbn [snd]; by auto with canonical]|]); constructor.
    - apply object_ordered. repeat (apply Forall_cons; split; [cbn [snd]; by auto with canonical|]); constructor. }
  split.
  - apply object_simple. repeat (apply Forall_cons; split; [split; [plain_key|cbn [snd]; try by auto with canonical]|]); try constructor.
    apply hex_plain.
  - apply object_ordered. repeat (apply Forall_cons; split; [cbn [snd]; by auto with canonical|]); constructor.
Qed.

(** The verdict an entry comes from. *)
Lemma verdict_inv o e :
  verdict c bound o = Some (Some e) ->
  exists p value outcome, find c o = Some p /\ supported p = true /\ observationValue o = Some (value, outcome) /\
    e = (pid p, assertion_json bound p (members p value) outcome).
Proof.
  unfold verdict. destruct (find c o) as [p|]; [|done]. destruct (supported p) eqn:Es; [|done]. cbn [negb].
  destruct (observationValue o) as [[value outcome]|]; [|done]. intros [= <-]. by eexists _, _, _.
Qed.

Lemma entry_members {V} (id type outcome evidence hash : V) :
  let ms := [(bs "id", id); (bs "type", type); (bs "outcome", outcome); (bs "evidence", evidence); (bs "evidenceSha256", hash)] in
  member (bs "id") ms = Some id /\ member (bs "evidence") ms = Some evidence.
Proof. by split; vm_compute. Qed.

Lemma preimage_members {V} (b id type outcome observation : V) :
  member (bs "observation")
    [(bs "binding", b); (bs "id", id); (bs "type", type); (bs "outcome", outcome); (bs "observation", observation)]
  = Some observation.
Proof. by vm_compute. Qed.

(** An assertion of the document is read back as an observation that makes it again. *)
Lemma frozen_again inputs o e :
  from_inputs inputs (plannedOf c) -> named_apart inputs -> map_Forall (fun _ d => ValidPaper (PluginName d) = true) inputs ->
  verdict c bound o = Some (Some e) ->
  exists o', frozen_observation c e.2 = Some o' /\ verdict c bound o' = Some (Some e).
Proof.
  intros Hf Ha Hv (p & value & outcome & Hfind & Hsup & Hval & ->)%verdict_inv.
  destruct (find_planned c Hw _ _ Hfind) as [Hp Ht]. destruct (Hw _ _ Hp) as (_ & _ & Hs & _).
  exists (observation_of p (map_of (members p value))). split.
  - unfold frozen_observation, assertion_json. cbn [snd]. rewrite !member_map_of.
    match goal with |- context [member (bs "id") [_; (_, ?t); (_, ?r); (_, ?e); (_, ?h)]] =>
      destruct (entry_members (JString (pid p)) t r e h) as [-> ->] end.
    rewrite Hp, Hsup. cbn [negb]. by rewrite member_map_of, preimage_members.
  - unfold verdict. erewrite find_again by done. rewrite Hsup. cbn [negb]. unfold members at 1. by erewrite value_again by done.
Qed.

Lemma entries_again inputs l :
  from_inputs inputs (plannedOf c) -> named_apart inputs -> map_Forall (fun _ d => ValidPaper (PluginName d) = true) inputs ->
  Forall (fun e => exists o, verdict c bound o = Some (Some e)) l ->
  exists os, mapM (frozen_observation c) (map snd l) = Some os /\ mapM (verdict c bound) os = Some (map Some l) /\ length os = length l.
Proof.
  intros Hf Ha Hv H. induction H as [|e l (o & He) _ (os & E1 & E2 & E3)]; [by exists []|].
  destruct (frozen_again _ _ _ Hf Ha Hv He) as (o' & F & V). exists (o' :: os). cbn [map]. rewrite !mapM_cons_eq, F, V, E1, E2.
  cbn. split_and!; [done..|lia].
Qed.

Lemma omap_Some {A} (l : list A) : omap id (map Some l) = l.
Proof. induction l as [|x l IH]; [done|]. cbn. by f_equal. Qed.

Lemma verdict_of os es e :
  assertions_of c bound [] os = inr es -> e ∈ es -> exists o, o ∈ os /\ verdict c bound o = Some (Some e).
Proof.
  intros (vs & Hm & -> & _)%assertions_of_iff (v & Hv & E)%list_elem_of_omap. cbn in E. subst v.
  apply mapM_Some_1 in Hm. apply list_elem_of_lookup_1 in Hv as [i Hi].
  destruct (Forall2_lookup_r _ _ _ _ _ Hm Hi) as (o & Ho' & E). exists o. split; [by eapply list_elem_of_lookup_2|done].
Qed.

Lemma verdict_in os es o e :
  assertions_of c bound [] os = inr es -> o ∈ os -> verdict c bound o = Some (Some e) -> e ∈ es.
Proof.
  intros (vs & Hm & -> & _)%assertions_of_iff [i Hi]%list_elem_of_lookup_1 Hv. apply mapM_Some_1 in Hm.
  destruct (Forall2_lookup_l _ _ _ _ _ Hm Hi) as (v & Hvs & E). apply list_elem_of_omap. exists v.
  split; [by eapply list_elem_of_lookup_2|]. rewrite Hv in E. by injection E as <-.
Qed.

Lemma verdict_supported o p value outcome :
  find c o = Some p -> supported p = true -> observationValue o = Some (value, outcome) ->
  verdict c bound o = Some (Some (pid p, assertion_json bound p (members p value) outcome)).
Proof. unfold verdict. by intros -> -> ->. Qed.

(** Every observation of a supported assertion has a value. *)
Lemma verdict_value os es o p :
  assertions_of c bound [] os = inr es -> o ∈ os -> find c o = Some p -> supported p = true ->
  exists value outcome, observationValue o = Some (value, outcome).
Proof.
  intros (vs & Hm & -> & _)%assertions_of_iff [i Hi]%list_elem_of_lookup_1 Hf Hs. apply mapM_Some_1 in Hm.
  destruct (Forall2_lookup_l _ _ _ _ _ Hm Hi) as (v & Hvs & E). unfold verdict in E. rewrite Hf, Hs in E.
  destruct (observationValue o) as [[value outcome]|]; [eauto|done].
Qed.

Lemma assertions_length os es : assertions_of c bound [] os = inr es -> (length es <= length os)%nat.
Proof.
  intros (vs & Hm & -> & _)%assertions_of_iff. apply length_mapM in Hm. rewrite Hm. clear Hm.
  induction vs as [|[v|] vs IH]; cbn in *; lia.
Qed.

Lemma assertions_simple os es :
  assertions_of c bound [] os = inr es -> Forall (fun e => modest 3 e.2 /\ ordered e.2) (sort_assertions es).
Proof.
  intros H. apply Forall_forall. intros e He. rewrite sort_Permutation in He. destruct (verdict_of _ _ _ H He) as (o & _ & Hv).
  apply verdict_inv in Hv as (p & value & outcome & Hfind & _ & Hval & ->). apply (find_planned c Hw) in Hfind as [Hp _].
  by eapply assertion_simple.
Qed.

(** The sorted assertions are made again from what is read back. *)
Lemma assertions_again inputs os es :
  from_inputs inputs (plannedOf c) -> named_apart inputs -> map_Forall (fun _ d => ValidPaper (PluginName d) = true) inputs ->
  assertions_of c bound [] os = inr es ->
  exists os', mapM (frozen_observation c) (map snd (sort_assertions es)) = Some os' /\
    assertions_of c bound [] os' = inr (sort_assertions es) /\ length os' = length es.
Proof.
  intros Hf Ha Hv H. assert (Forall (fun e => exists o, verdict c bound o = Some (Some e)) (sort_assertions es)) as HF.
  { apply Forall_forall. intros e He. rewrite sort_Permutation in He. destruct (verdict_of _ _ _ H He) as (o & _ & ?). eauto. }
  destruct (entries_again _ _ Hf Ha Hv HF) as (os' & E1 & E2 & E3). exists os'. split; [done|].
  apply assertions_of_iff in H as (_ & _ & _ & Hd & _). split.
  - apply assertions_of_iff. exists (map Some (sort_assertions es)). rewrite omap_Some. split_and!; [done..| |set_solver].
    by rewrite sort_Permutation.
  - by rewrite E3, sort_Permutation.
Qed.
End entries.

(** ** Documents *)

Lemma requested_simple (c : Context) deps h1 h2 h3 h4 :
  requested c = [(bs "artifactSha256", JString h1); (bs "configurationSha256", JString h2); (bs "environmentSha256", JString h3);
                 (bs "policySha256", JString h4); (bs "dependencies", dependencies_json deps)] ->
  plain h1 -> plain h2 -> plain h3 -> plain h4 -> zlen deps <= maxJSONArray -> Forall (fun d => plain (fst d) /\ plain (snd d)) deps ->
  modest 3 (JObject (map_of (requested c))) /\ ordered (JObject (map_of (requested c))).
Proof.
  intros -> P1 P2 P3 P4 Hl Hd. unfold dependencies_json. set (l := merge_sort _ deps).
  assert (l ≡ₚ deps) as HP by apply sorting.merge_sort_Permutation. rewrite <-HP in Hd.
  assert (zlen l <= maxJSONArray) as Hl' by (unfold zlen in *; by rewrite HP).
  split.
  - apply object_simple. repeat (apply Forall_cons; split; [split; [plain_key|cbn [snd]; by auto with canonical]|]).
    apply Forall_cons. split; [|constructor]. split; [plain_key|]. cbn [snd]. constructor.
    { unfold zlen in *. by rewrite length_map. }
    rewrite Forall_map. eapply Forall_impl; [exact Hd|]. intros d [H1 H2]. apply object_simple.
    repeat (apply Forall_cons; split; [split; [plain_key|cbn [snd]; by auto with canonical]|]); constructor.
  - apply object_ordered. repeat (apply Forall_cons; split; [cbn [snd]; by auto with canonical|]).
    apply Forall_cons. split; [|constructor]. cbn [snd]. constructor. rewrite Forall_map. apply Forall_forall. intros d _.
    apply object_ordered. repeat (apply Forall_cons; split; [cbn [snd]; by auto with canonical|]); constructor.
Qed.

(** The runtime of a document: none, or a snapshot that is read back. *)
Lemma runtime_again (c : Context) isObserved snapshot seen runtime completeness :
  runtime_of c isObserved false snapshot seen = inr (runtime, completeness) ->
  (isObserved = true -> forall s, snapshot = Some s -> validHistoricalRuntime c s = true) ->
  runtime_of c false true snapshot seen = inr (runtime, completeness) /\ plain completeness /\
  modest 2 runtime /\ ordered runtime /\
  (match snapshot with
   | None => runtime = JNull
   | Some s => runtime = any_of (snapshot_json s) /\ validHistoricalRuntime c s = true
   end).
Proof.
  unfold runtime_of. destruct snapshot as [s|].
  2:{ intros [= <- <-] _. split_and!; [done|plain_key|constructor|constructor|done]. }
  intros H Hobs. destruct (_ || _) eqn:G; [done|].
  assert (validHistoricalRuntime c s = true) as Hv.
  { destruct isObserved; [by apply Hobs|]. apply orb_false_iff in G as [G _]. cbn in G. unfold validHistoricalRuntime.
    by apply negb_false_iff in G as ->. }
  rewrite Hv. cbn [negb andb orb]. apply orb_false_iff in G as [_ ->]. split; [exact H|].
  assert (modest 2 (snapshot_json s)) as Hs.
  { unfold validHistoricalRuntime in Hv. apply orb_true_iff in Hv as [Hv|[[_ Hm]%andb_true_iff Hv]%andb_true_iff].
    - apply (SnapshotValid_simple s (NetworkMode s)); [by destruct s|]. unfold SnapshotValid in Hv. bool_norm.
      match goal with H : NetworkMode s = _ |- _ => rewrite H end. plain_key.
    - apply SnapshotValid_simple in Hv; [done|]. bool_norm.
      repeat (apply elem_of_cons in Hm as [->|Hm]; [plain_key|]). by apply not_elem_of_nil in Hm. }
  rewrite (unmarshal_simple _ _ _ Hs) in H by (by apply Nat.leb_le). apply (inj inr), pair_eq in H as [<- <-].
  split_and!; [by destruct (complete_plan c seen); plain_key|by apply any_of_simple|apply any_of_ordered|done..].
Qed.

Lemma document_members {V} (version bound requested runtime assertions completeness : V) :
  let ms := [(bs "schemaVersion", version); (bs "binding", bound); (bs "requested", requested); (bs "runtime", runtime);
             (bs "assertions", assertions); (bs "completeness", completeness)] in
  member (bs "binding") ms = Some bound /\ member (bs "runtime") ms = Some runtime /\
  member (bs "assertions") ms = Some assertions /\ member (bs "completeness") ms = Some completeness.
Proof. by split_and!; vm_compute. Qed.

Lemma new_digest_ok p :
  digest (Some (new_digest (Sum256 p))) <> [] /\ Value (new_digest (Sum256 p)) = Sum256 p /\
  unknown_of (dreflect (new_digest (Sum256 p))) = [].
Proof.
  split_and!; [|done..]. unfold digest, new_digest. cbn [Algorithm Value]. rewrite Z.eqb_refl. unfold zlen.
  rewrite Sum256_length. cbn [Z.of_nat Z.eqb Pos.of_succ_nat Pos.succ Pos.eqb andb].
  pose proof (Sum256_length p). by destruct (Sum256 p).
Qed.

Section document.
Variables (job : JobSpecification) (isV2 : bool) (c : Context) (runnerID : bytes).
Hypotheses (Hc : newContext (Some job) isV2 = Some c) (Hr : identifier runnerID = true)
  (Hattempt : forall a, JAttempt job = Some a -> 0 <= AttemptNumber a < 2 ^ 32)
  (Hdeps : zlen (JDependencies job) <= maxJSONArray).

Let b := with_runner (binding c) runnerID.
Let bound := any_of (binding_json b).

Lemma bound_ok :
  modest 1 (binding_json b) /\ 0 <= BAttemptNumber b < 2 ^ 32 /\ modest 1 bound /\ ordered bound /\
  unmarshal_any (Json.Marshal (binding_json b)) = Some bound.
Proof.
  destruct (newContext_inv _ _ _ Hc) as (deps & inputs & E & Hb & _). unfold binding_ok in Hb. apply andb_true_iff in Hb as [Hb _].
  assert (0 <= BAttemptNumber b < 2 ^ 32) as Hn.
  { subst b. cbn [BAttemptNumber with_runner]. rewrite E. unfold binding_of. cbn [BAttemptNumber].
    destruct (JAttempt job) as [a|]; [by apply Hattempt|lia]. }
  assert (modest 1 (binding_json b)) as Hs.
  { apply binding_simple; [|done]. subst b.
    cbn [forallb BRunnerID BJobID BExecutionID BLeaseID BAttemptID BCandidateID BMatrixEntryID with_runner]. by rewrite Hr. }
  split_and!; [done|lia..|by apply any_of_simple|apply any_of_ordered|].
  eapply unmarshal_simple; [exact Hs|]. by apply Nat.leb_le.
Qed.

Lemma document_ok runtime completeness entries :
  modest 2 runtime -> ordered runtime -> plain completeness -> zlen entries <= maxJSONArray ->
  Forall (fun e => modest 3 e.2 /\ ordered e.2) entries ->
  modest 5 (document_json c bound runtime completeness entries) /\ ordered (document_json c bound runtime completeness entries).
Proof.
  intros Rs Ro Hp Hl He. destruct bound_ok as (_ & _ & Bs & Bo & _).
  destruct (newContext_inv _ _ _ Hc) as (deps & inputs & _ & _ & _ & Hreq & _ & _ & _ & _ & Hlen & Hpl).
  destruct (requested_simple _ _ _ _ _ _ Hreq) as [Qs Qo]; [try (unfold hash_of; case_match; [apply digest_plain|constructor])..| |done|].
  { unfold zlen in *. lia. }
  assert (plain (schema_version c)) by (unfold schema_version; case_match; plain_key).
  unfold document_json. split.
  - apply object_simple. repeat (apply Forall_cons; split; [split; [plain_key|cbn [snd]]|]); [..|constructor].
    + by constructor.
    + eapply simple_deeper; [exact Bs|lia].
    + eapply simple_deeper; [exact Qs|lia].
    + eapply simple_deeper; [exact Rs|lia].
    + constructor; [unfold zlen in *; by rewrite length_map|]. rewrite Forall_map. eapply Forall_impl; [exact He|]. by intros e [? _].
    + by constructor.
  - apply object_ordered. repeat (apply Forall_cons; split; [cbn [snd]; try by auto with canonical|]); [|constructor].
    constructor. rewrite Forall_map. eapply Forall_impl; [exact He|]. by intros e [_ ?].
Qed.

(** The document evidence is made of. *)
Lemma build_inv os network measured ev :
  build (Some c) runnerID os network false measured = inr ev ->
  exists es snapshot runtime completeness,
    zlen os <= MaximumObservations /\ assertions_of c bound [] os = inr es /\
    runtime_of c (match network with Some _ => true | None => false end) false snapshot (map fst es) = inr (runtime, completeness) /\
    (forall o, network = Some o -> exists s, snapshot = Some s /\ s = osnapshot o /\ NetworkMode s = networkMode c) /\
    (network = None -> snapshot = match measured with m :: _ => m | [] => None end) /\
    let encoded := Json.Marshal (document_json c bound runtime completeness (sort_assertions es)) in
    zlen encoded <= MaximumBytes /\
    ev = {| CanonicalJson := encoded; EDigest := Some (new_digest (Sum256 encoded)); eunknown := [] |}.
Proof.
  unfold build. rewrite Hr. cbn [negb]. destruct (MaximumObservations <? zlen os) eqn:El; [done|].
  fold b. destruct bound_ok as (_ & _ & _ & _ & ->). change (default JNull (Some bound)) with bound. destruct (assertions_of c bound [] os) as [|es]; [done|].
  destruct (_ || _); [done|]. destruct network as [o|].
  - destruct (SnapshotForExecution _ _ _ _ _) as [s|] eqn:Es; [|done]. destruct (negb _) eqn:En; [done|]. bool_norm.
    destruct (runtime_of _ _ _ _ _) as [|[runtime completeness]] eqn:Er; [done|].
    destruct (_ <? zlen (Json.Marshal _)) eqn:Eb; [done|]. intros E%(inj inr). exists es, (Some s), runtime, completeness.
    split_and!; [lia|done|done| |done|lia|done]. intros o' [= <-]. exists s. split_and!; [done| |done].
    unfold SnapshotForExecution, SnapshotFor in Es. repeat case_match; congruence.
  - destruct (runtime_of _ _ _ _ _) as [|[runtime completeness]] eqn:Er; [done|].
    destruct (_ <? zlen (Json.Marshal _)) eqn:Eb; [done|]. intros E%(inj inr).
    eexists es, _, runtime, completeness. split_and!; [lia|done|exact Er|done|done|lia|done].
Qed.

Lemma context_matches : Matches c (JLease job) (JAttempt job) = true.
Proof.
  destruct (newContext_inv _ _ _ Hc) as (_ & _ & E & _). unfold Matches. rewrite E. unfold binding_of.
  cbn [BJobID BExecutionID BLeaseID BAttemptID BCandidateID BMatrixEntryID BAttemptNumber].
  rewrite !bool_decide_eq_true_2 by done. by rewrite Z.eqb_refl.
Qed.

Lemma frozen_runtime_again snapshot runtime document :
  member (bs "runtime") document = Some runtime -> modest 2 runtime ->
  (match snapshot with
   | None => runtime = JNull
   | Some s => runtime = any_of (snapshot_json s) /\ validHistoricalRuntime c s = true
   end) ->
  frozen_runtime c (map_of document) = Some snapshot.
Proof.
  intros Hm Rs Hs. unfold frozen_runtime. rewrite member_map_of, Hm. destruct snapshot as [s|]; [|by subst]. destruct Hs as [-> Hv].
  rewrite (parse_simple _ _ _ Rs) by (by apply Nat.leb_le). cbn [mbind option_bind]. by rewrite snapshot_again, Hv.
Qed.

(** What is read back gives the same document. *)
Lemma build_again os es snapshot runtime completeness :
  zlen es <= MaximumObservations -> length os = length es -> assertions_of c bound [] os = inr (sort_assertions es) ->
  runtime_of c false true snapshot (map fst es) = inr (runtime, completeness) ->
  let encoded := Json.Marshal (document_json c bound runtime completeness (sort_assertions es)) in
  zlen encoded <= MaximumBytes ->
  build (Some c) runnerID os None true [snapshot] =
  inr {| CanonicalJson := encoded; EDigest := Some (new_digest (Sum256 encoded)); eunknown := [] |}.
Proof.
  intros Hes Hl Ha Hrt encoded Hlen. unfold build. rewrite Hr. cbn [negb]. fold b. destruct bound_ok as (_ & _ & _ & _ & ->).
  change (default JNull (Some bound)) with bound. replace (MaximumObservations <? zlen os) with false by (unfold zlen in *; lia).
  rewrite Ha. change (1 <? zlen [snapshot]) with false. cbn [orb].
  rewrite (runtime_of_ext _ _ _ _ (map fst (sort_assertions es)) (map fst es)) by (intros id; by rewrite sort_Permutation).
  rewrite Hrt. apply assertions_of_iff in Ha as (_ & _ & _ & Hd & _). rewrite sort_idempotent by (by rewrite <-sort_Permutation).
  fold encoded. by replace (MaximumBytes <? zlen encoded) with false by lia.
Qed.

(** The document of some evidence is read as it was made. *)
Lemma document_parses os es runtime completeness :
  assertions_of c bound [] os = inr es -> zlen os <= MaximumObservations -> modest 2 runtime -> ordered runtime -> plain completeness ->
  zlen (Json.Marshal (document_json c bound runtime completeness (sort_assertions es))) <= MaximumBytes ->
  parseJSON (Json.Marshal (document_json c bound runtime completeness (sort_assertions es))) =
  Some (document_json c bound runtime completeness (sort_assertions es)).
Proof.
  intros Has Hos Rs Ro Hpl Hlen. destruct bound_ok as (_ & _ & Bs & Bo & _).
  destruct (newContext_inv _ _ _ Hc) as (_ & _ & _ & _ & _ & _ & Hw & _).
  destruct (document_ok runtime completeness (sort_assertions es)) as [Ds Do]; [done..| |by apply (assertions_simple _ _ Hw Bs Bo os)|].
  { apply assertions_length in Has. unfold zlen in *. rewrite sort_Permutation. unfold MaximumObservations, maxJSONArray in *. lia. }
  apply (parseJSON_simple 5); [done..|by apply Nat.leb_le|].
  change (zlen (Json.Marshal (document_json c bound runtime completeness (sort_assertions es))) <= 100000).
  unfold MaximumBytes in Hlen. lia.
Qed.

(** A planned assertion is among those of the document when it was observed. *)
Lemma observed_iff os es p :
  assertions_of c bound [] os = inr es -> plannedOf c !! pid p = Some p -> supported p = true ->
  pid p ∈ map fst es <-> exists o, o ∈ os /\ find c o = Some p.
Proof.
  intros Has Hp Hsup. destruct (newContext_inv _ _ _ Hc) as (_ & _ & _ & _ & _ & _ & Hw & _). split.
  - intros (e & Ee & He)%list_elem_of_fmap. destruct (verdict_of _ _ _ _ _ Has He) as (o & Ho & Hv). exists o. split; [done|].
    apply verdict_inv in Hv as (q & value & outcome & Hq & _ & _ & ->). cbn in Ee. rewrite Hq.
    apply (find_planned c Hw) in Hq as [Hq _]. rewrite <-Ee in Hq. congruence.
  - intros (o & Ho & Hf). destruct (verdict_value _ _ _ _ _ _ Has Ho Hf Hsup) as (value & outcome & Hv).
    apply (list_elem_of_fmap_2 fst _ (pid p, assertion_json bound p (members p value) outcome)).
    eapply verdict_in; [exact Has|exact Ho|]. by apply verdict_supported.
Qed.

Lemma complete_iff os es :
  assertions_of c bound [] os = inr es ->
  complete_plan c (map fst es) = true <->
  forall id p, plannedOf c !! id = Some p -> supported p = true /\ exists o, o ∈ os /\ find c o = Some p.
Proof.
  intros Has. destruct (newContext_inv _ _ _ Hc) as (_ & _ & _ & _ & _ & _ & Hw & _). unfold complete_plan. rewrite forallb_forall. split.
  - intros H id p Hp. destruct (Hw _ _ Hp) as [E _]. subst id. apply (planned_elem c Hw) in Hp as Hin. apply list_elem_of_In in Hin.
    apply H in Hin. bool_norm. split; [done|]. by eapply observed_iff.
  - intros H p Hin. apply list_elem_of_In, (planned_elem c Hw) in Hin. destruct (H _ _ Hin) as [Hs Ho].
    rewrite Hs. apply bool_decide_eq_true_2. by eapply observed_iff.
Qed.

(** The version of evidence that was built is that of its context. *)
Lemma built_version os network measured ev :
  build (Some c) runnerID os network false measured = inr ev ->
  (forall o, network = Some o -> NetworkMode (osnapshot o) = networkMode c -> validHistoricalRuntime c (osnapshot o) = true) ->
  FrozenVersion (Some ev) = Some (schema_version c).
Proof.
  intros (es & snapshot & runtime & completeness & Hos & Has & Hrt & Hnet & Hnone & Hlen & ->)%build_inv Hobs.
  destruct (runtime_again _ _ _ _ _ _ Hrt) as (_ & Hpl & Rs & Ro & _).
  { destruct network as [o|]; [|done]. intros _ s Es. destruct (Hnet o eq_refl) as (s' & Es' & -> & Hm). simplify_eq. by apply Hobs. }
  cbv zeta in Hlen. unfold FrozenVersion. cbn [CanonicalJson]. rewrite (document_parses _ _ _ _ Has Hos Rs Ro Hpl Hlen).
  match goal with |- context [zlen ?e] => replace (MaximumBytes <? zlen e) with false by lia end.
  unfold document_json. rewrite member_map_of.
  match goal with |- context [member (bs "schemaVersion") ?l] => replace (member (bs "schemaVersion") l) with (Some (JString (schema_version c))) by (unfold member; reflexivity) end.
  unfold schema_version. by destruct (v2 c).
Qed.

(** Evidence that was built validates. *)
Lemma built_frozen os network measured ev :
  build (Some c) runnerID os network false measured = inr ev ->
  (forall o, network = Some o -> NetworkMode (osnapshot o) = networkMode c -> validHistoricalRuntime c (osnapshot o) = true) ->
  validateFrozen (Some ev) (Some job) runnerID isV2 = true.
Proof.
  intros (es & snapshot & runtime & completeness & Hos & Has & Hrt & Hnet & Hnone & Hlen & ->)%build_inv Hobs.
  destruct bound_ok as (Bs & Bn & Bs' & Bo & Bu).
  destruct (newContext_inv _ _ _ Hc) as (deps & inputs & Eb & _ & _ & _ & Hw & Hf & Ha & Hv & _ & _).
  destruct (runtime_again _ _ _ _ _ _ Hrt) as (Hrt' & Hpl & Rs & Ro & Hsnap).
  { destruct network as [o|]; [|done]. intros _ s Es. destruct (Hnet o eq_refl) as (s' & Es' & -> & Hm). simplify_eq. by apply Hobs. }
  destruct (assertions_again _ _ Hw Bs' Bo _ _ _ Hf Ha Hv Has) as (os' & Em & Ea & Elen).
  assert (zlen es <= MaximumObservations) as Hes.
  { apply assertions_length in Has. unfold zlen in *. lia. }
  pose proof (document_parses _ _ _ _ Has Hos Rs Ro Hpl Hlen) as Hparse.
  cbv zeta in Hlen. set (document := document_json _ _ _ _ _) in *. set (encoded := Json.Marshal document) in *.
  unfold validateFrozen. cbn [EDigest CanonicalJson eunknown]. rewrite Hparse.
  destruct (new_digest_ok encoded) as (N1 & N2 & N3). rewrite N2, N3, (bool_decide_eq_false_2 _ N1), bool_decide_eq_true_2 by done.
  assert (0 < zlen encoded) by (subst encoded document; unfold document_json; cbn [Json.Marshal]; unfold zlen; cbn [length]; lia).
  replace (0 <? zlen encoded) with true by lia. replace (zlen encoded <=? MaximumBytes) with true by lia. cbn [andb negb].
  unfold document at 1, document_json.
  match goal with |- context [map_of [(_, ?v); _; (_, ?q); _; (_, ?a); (_, ?k)]] =>
    destruct (document_members v bound q runtime a k) as (M1 & M2 & M3 & M4) end.
  rewrite !member_map_of, M1, M3. change (default JNull (Some bound)) with bound.
  rewrite (parse_simple _ _ _ Bs') by (by apply Nat.leb_le). destruct (binding_again b Bn) as (b' & Eb' & Er).
  change (Some bound ≫= decode_object binding_field zero_binding) with (decode_object binding_field zero_binding (any_of (binding_json b))).
  rewrite Eb', Hc, Er, context_matches, Em. change (BRunnerID b) with runnerID.
  rewrite (frozen_runtime_again _ _ _ M2 Rs Hsnap).
  rewrite (build_again _ _ _ _ _ Hes Elen Ea Hrt' Hlen).
  rewrite (bool_decide_eq_true_2 (runnerID = runnerID)), (bool_decide_eq_true_2 (CanonicalJson _ = _)) by done. rewrite orb_true_r.
  unfold zlen in *. rewrite length_map, sort_Permutation. by replace (Z.of_nat (length es) <=? MaximumObservations) with true by lia.
Qed.
End document.

(** An observation of a network that was sealed over a snapshot of a valid runtime. *)
Definition sealed (o : NetworkObservation) : Prop :=
  let s := osnapshot o in
  SnapshotValid {| RunnerVersion := RunnerVersion s; RunnerExecutableSHA256 := RunnerExecutableSHA256 s;
                   SandboxKind := SandboxKind s; SandboxVersion := SandboxVersion s;
                   SandboxExecutableSHA256 := SandboxExecutableSHA256 s; NetworkMode := bs "none"; SRootFS := SRootFS s |} = true.

Lemma build_identifier c runnerID os network historical measured ev :
  build c runnerID os network historical measured = inr ev -> identifier runnerID = true.
Proof. unfold build. destruct c; [|done]. by destruct (identifier runnerID). Qed.

(** C22: evidence built for a job, from a measured runtime or a sealed network observation,
    is accepted for that job and that runner when it is validated later. *)
Theorem frozen_roundtrip job isV2 c runnerID os ev :
  newContext (Some job) isV2 = Some c ->
  (forall a, JAttempt job = Some a -> 0 <= AttemptNumber a < 2 ^ 32) -> zlen (JDependencies job) <= maxJSONArray ->
  (exists measured, Build (Some c) runnerID os measured = inr ev) \/
  (exists o, sealed o /\ BuildObservedNetwork (Some c) runnerID os (Some o) = inr ev) ->
  validateFrozen (Some ev) (Some job) runnerID isV2 = true.
Proof.
  intros Hc Ha Hd [[measured H]|(o & Ho & H)].
  - pose proof (build_identifier _ _ _ _ _ _ _ H). by eapply built_frozen.
  - unfold BuildObservedNetwork in H. destruct (negb (v2 c) || _) eqn:E; [done|]. bool_norm.
    pose proof (build_identifier _ _ _ _ _ _ _ H). eapply built_frozen; [done..|]. intros o' [= <-] Hm.
    unfold validHistoricalRuntime. apply orb_true_iff. right. rewrite Ho, Hm. bool_norm.
    match goal with H : v2 c = true |- _ => rewrite H end. rewrite !bool_decide_eq_true_2; [done|done|done].
Qed.

(** C23: the document of some evidence has an assertion for each observation of a supported
    assertion of the plan, says what was observed, and is complete exactly when the runtime
    was measured and every assertion of the plan is supported and was observed. *)
Theorem evidence_says job isV2 c runnerID os measured ev :
  newContext (Some job) isV2 = Some c ->
  (forall a, JAttempt job = Some a -> 0 <= AttemptNumber a < 2 ^ 32) -> zlen (JDependencies job) <= maxJSONArray ->
  Build (Some c) runnerID os [measured] = inr ev ->
  exists document entries,
    parseJSON (CanonicalJson ev) = Some (JObject document) /\ member (bs "assertions") document = Some (JArray entries) /\
    (forall a, a ∈ entries <-> exists o p value outcome,
      o ∈ os /\ find c o = Some p /\ supported p = true /\ observationValue o = Some (value, outcome) /\
      a = assertion_json (any_of (binding_json (with_runner (binding c) runnerID))) p (members p value) outcome) /\
    (member (bs "completeness") document = Some (JString (bs "complete")) <->
     is_Some measured /\ forall id p, plannedOf c !! id = Some p -> supported p = true /\ exists o, o ∈ os /\ find c o = Some p).
Proof.
  intros Hc Ha Hd H. pose proof (build_identifier _ _ _ _ _ _ _ H) as Hr.
  destruct (build_inv _ _ _ _ Hc Hr Ha _ _ _ _ H) as (es & snapshot & runtime & completeness & Hos & Has & Hrt & _ & Hs & Hlen & ->).
  specialize (Hs eq_refl). cbn in Hs. subst snapshot.
  destruct (runtime_again _ _ _ _ _ _ Hrt) as (_ & Hpl & Rs & Ro & _); [done|].
  cbn [CanonicalJson]. rewrite (document_parses _ _ _ _ Hc Hr Ha Hd _ _ _ _ Has Hos Rs Ro Hpl Hlen).
  eexists _, (map snd (sort_assertions es)). split; [done|].
  match goal with |- context [map_of [(_, ?v); (_, ?b); (_, ?q); _; (_, ?a); (_, ?k)]] =>
    destruct (document_members v b q runtime a k) as (_ & _ & M3 & M4) end.
  rewrite !member_map_of, M3, M4. split; [done|]. split.
  - intros a. rewrite list_elem_of_fmap. setoid_rewrite sort_Permutation. split.
    + intros (e & -> & He). destruct (verdict_of _ _ _ _ _ Has He) as (o & Ho & Hv).
      apply verdict_inv in Hv as (p & value & outcome & Hf & Hsup & Hval & ->). by exists o, p, value, outcome.
    + intros (o & p & value & outcome & Ho & Hf & Hsup & Hval & ->).
      eexists (pid p, _). split; [done|]. eapply verdict_in; [exact Has|exact Ho|]. by apply verdict_supported.
  - rewrite <-(complete_iff _ _ _ _ Hc _ _ Has). unfold runtime_of in Hrt. destruct measured as [s|].
    + destruct (_ || _); [done|]. destruct (unmarshal_any _); [|done]. apply (inj inr), pair_eq in Hrt as [_ <-].
      destruct (complete_plan _ _).
      * split; [|done]. intros _. split; [by eexists|done].
      * split; [by intros [=]|by intros [_ ?]].
    + apply (inj inr), pair_eq in Hrt as [_ <-]. split; [by intros [=]|by intros [[? ?] _]].
Qed.
End frozen.

Import TerminalSample.

Lemma frozen_roundtrip_witness :
  exists ev, validateFrozen (Some ev) (Some job) (bs "runner") false = true.
Proof.
  destruct evidence_made as (c & ev & Hc & H). exists ev.
  apply (frozen_roundtrip job false c (bs "runner") observations ev Hc job_attempt job_dependencies).
  left. eexists. exact H.
Defined.

Lemma evidence_says_witness :
  exists ev document, parseJSON (CanonicalJson ev) = Some (JObject document) /\ is_Some (member (bs "assertions") document).
Proof.
  destruct evidence_made as (c & ev & Hc & H).
  destruct (evidence_says job false c (bs "runner") observations (Some snapshot) ev Hc job_attempt job_dependencies H)
    as (document & entries & Hp & Hm & _).
  exists ev, document. split; [exact Hp|]. rewrite Hm. eexists. reflexivity.
Defined.
