(* ===== verification/Probe.v ===== *)
(** The lifecycle of a Paper server as its trusted probe reports it
    ([src/internal/provider/paper/lifecycle.go]): the envelope of an event, the state of
    a console command, and the validation of the whole channel against the test plan. *)

From S2P Require Import Prelude Strconv Json Url JsonStruct Execution Terminal.

Open Scope string_scope.
Open Scope list_scope.
Open Scope Z_scope.

Declare Scope probe_scope.
Open Scope probe_scope.

(** A result is a value or an error; an error is the format of its message. *)
Definition result (A : Type) : Type := (string + A)%type.

Notation "'let?' x := m 'in' k" := (match m with inl e => inl e | inr x => k end)
  (at level 200, x pattern, m at level 100, k at level 200, right associativity) : probe_scope.
Notation "'refuse' b 'as' m ';' k" := (if b then inl m else k)
  (at level 200, b at level 100, m at level 1, k at level 200, right associativity) : probe_scope.

(** A Go string against a literal. *)
Definition says (b : bytes) (s : string) : bool := bool_decide (b = bs s).

Definition one_of (b : bytes) (l : list string) : bool := existsb (says b) l.

(** ** The fields of an event *)

Definition requiredString (data : bytes) (field : string) : result bytes :=
  match object_of data with
  | None => inl "%s event data is invalid"
  | Some values =>
      match member (bs field) values with
      | None => inl "probe event is missing %s"
      | Some (JString (c :: s)) => inr (c :: s)
      | Some _ => inl "probe event field %s must be a non-empty string"
      end
  end.

(** [null] leaves the zero of an [int64] and the false of a [bool]. *)
Definition requiredInteger (data : bytes) (field : string) : result Z :=
  match object_of data with
  | None => inl "%s event data is invalid"
  | Some values =>
      match member (bs field) values with
      | None => inl "probe event is missing %s"
      | Some v =>
          match match v with JNumber n => parse_int64 n | JNull => Some 0 | _ => None end with
          | Some n => if n <? 0 then inl "probe event field %s must be a non-negative integer" else inr n
          | None => inl "probe event field %s must be a non-negative integer"
          end
      end
  end.

Definition requiredBoolean (data : bytes) (field : string) : result bool :=
  match object_of data with
  | None => inl "%s event data is invalid"
  | Some values =>
      match member (bs field) values with
      | None => inl "probe event is missing %s"
      | Some (JBool b) => inr b
      | Some JNull => inr false
      | Some _ => inl "probe event field %s must be boolean"
      end
  end.

(** ** Envelopes *)

Record probeEnvelope := { Timestamp : bytes; Type_ : bytes; Data : bytes }.

Definition no_envelope : probeEnvelope := {| Timestamp := []; Type_ := []; Data := [] |}.

(** The fields of an envelope; [Data] is a raw message, kept as it is written. *)
Definition envelope_field (key : bytes) : option (bytes -> probeEnvelope -> option probeEnvelope) :=
  let text (set : bytes -> probeEnvelope -> probeEnvelope) (raw : bytes) (e : probeEnvelope) :=
    match parse raw with Some v => store_string set v e | None => None end in
  if folded "timestamp" key then Some (text (fun x e => {| Timestamp := x; Type_ := Type_ e; Data := Data e |}))
  else if folded "type" key then Some (text (fun x e => {| Timestamp := Timestamp e; Type_ := x; Data := Data e |}))
  else if folded "data" key then
    Some (fun raw e => Some {| Timestamp := Timestamp e; Type_ := Type_ e; Data := raw |})
  else None.

Definition decodeProbeEnvelope (payload : bytes) : result probeEnvelope :=
  match
    match decode_prefix payload with
    | Some (JObject _, rest) => option_map (fun e => (e, rest)) (decode_struct true envelope_field no_envelope (raw_object payload))
    | Some (JNull, rest) => Some (no_envelope, rest)
    | _ => None
    end
  with
  | None => inl "decode probe event: %w"
  | Some (envelope, rest) =>
      refuse negb (zlen (skip_space rest) =? 0) as "decode probe event: trailing JSON value";
      refuse (zlen (Type_ envelope) =? 0) || negb (Json.Valid (Data envelope))
        as "decode probe event: type and object data are required";
      refuse negb (RFC3339Nano (Timestamp envelope)) as "decode probe event: timestamp must be RFC 3339";
      match parse (Data envelope) with
      | Some (JObject _) => inr envelope
      | _ => inl "decode probe event: data must be a JSON object"
      end
  end.

(** ** Event types and classifications *)

Definition requiredProbeOrder : list bytes := map bs
  ["PROBE_LOADED"; "SERVER_LOADED"; "STABILIZATION_STARTED"; "STABILIZATION_COMPLETED"; "SERVER_READY";
   "CLEAN_SHUTDOWN_REQUESTED"; "SERVER_STOPPED"].

Definition allowedProbeEventTypes : list string :=
  ["PROBE_LOADED"; "SERVER_LOADED"; "SERVER_READY"; "SERVER_STOPPED"; "METADATA_INSPECTION"; "METADATA_SUGGESTION";
   "PLUGIN_STATE"; "LIFECYCLE_EXCEPTION"; "CLASSIFICATION"; "TARGET_REQUIREMENT"; "STABILIZATION_STARTED";
   "STABILIZATION_COMPLETED"; "TEST_PLAN"; "COMMAND_REGISTRATION"; "COMMAND_EXECUTION_STARTED";
   "COMMAND_EXECUTION_COMPLETED"; "COMMAND_TIMEOUT"; "COMMAND_OUTPUT"; "COMMAND_ASSERTION"; "COMMAND_TEST_COMPLETED";
   "CLEAN_SHUTDOWN_REQUESTED"].

Definition commandEvents : list string :=
  ["COMMAND_REGISTRATION"; "COMMAND_EXECUTION_STARTED"; "COMMAND_EXECUTION_COMPLETED"; "COMMAND_TIMEOUT";
   "COMMAND_OUTPUT"; "COMMAND_ASSERTION"; "COMMAND_TEST_COMPLETED"].

Record classificationSchema := { category : bytes; stage : bytes }.

Definition allowedClassificationCodes : list (bytes * classificationSchema) :=
  let schema (c s : string) := {| category := bs c; stage := bs s |} in
  let plugin := "FAILURE_CATEGORY_PLUGIN" in
  let preparation := "FAILURE_STAGE_PREPARATION" in
  let startup := "FAILURE_STAGE_STARTUP" in
  let execution := "FAILURE_STAGE_EXECUTION" in
  [(bs "plugin_not_found", schema plugin preparation);
   (bs "invalid_metadata", schema plugin preparation);
   (bs "missing_required_dependency", schema plugin preparation);
   (bs "failed_required_dependency", schema plugin startup);
   (bs "on_load_failure", schema plugin startup);
   (bs "on_enable_failure", schema plugin startup);
   (bs "invalid_test_plan", schema "FAILURE_CATEGORY_POLICY" preparation);
   (bs "command_not_registered", schema plugin execution);
   (bs "command_registration_failure", schema plugin execution);
   (bs "command_execution_failure", schema plugin execution);
   (bs "command_timeout", schema plugin execution);
   (bs "command_output_truncated", schema plugin execution);
   (bs "command_assertion_failure", schema plugin execution)].

Definition commandClassificationCodes : list string :=
  ["command_not_registered"; "command_registration_failure"; "command_execution_failure"; "command_timeout";
   "command_output_truncated"; "command_assertion_failure"].

Definition isCommandClassification (code : bytes) : bool := one_of code commandClassificationCodes.

(** ** The test plan ([src/internal/provider/paper/provider.go]) *)

Record commandAssertion := {
  Stream : bytes; Operator : bytes; Pattern : bytes; Match_ : bytes; MinimumOccurrences : option Z;
}.

Record consoleCommandTest := {
  TestID : bytes; Command : bytes; TimeoutSeconds : Z; Assertions : list commandAssertion;
}.

Record testPlan := {
  TargetPlugin : bytes; RequiredDependencies : list bytes; StabilizationMilliseconds : Z;
  Console : list consoleCommandTest;
}.

(** [fmt.Sprintf("%s:%d", id, n)] *)
Definition assertion_id (id : bytes) (n : nat) : bytes := id ++ bs ":" ++ itoa (Z.of_nat n).

Definition assertion_ids (test : consoleCommandTest) : list bytes :=
  map (assertion_id (TestID test)) (seq 1 (length (Assertions test))).

(** ** The state of a console command *)

Record commandProbeState := {
  expectedAssertions : gset bytes;
  seenAssertions : gset bytes;
  registrationSeen : bool;
  registered : bool;
  registrationStatus : bytes;
  started : bool;
  outputSeen : bool;
  outputTruncated : bool;
  timeoutSeen : bool;
  timeoutClassificationSeen : bool;
  assertionFailure : bool;
  executionCompleted : bool;
  executionStatus : bytes;
  completionSeen : bool;
  failure : bool;
}.

Definition newCommandProbeState (test : consoleCommandTest) : commandProbeState := {|
  expectedAssertions := list_to_set (assertion_ids test); seenAssertions := ∅;
  registrationSeen := false; registered := false; registrationStatus := []; started := false;
  outputSeen := false; outputTruncated := false; timeoutSeen := false; timeoutClassificationSeen := false;
  assertionFailure := false; executionCompleted := false; executionStatus := []; completionSeen := false;
  failure := false |}.

Definition set_registration (ok : bool) (status : bytes) (s : commandProbeState) : commandProbeState := {|
  expectedAssertions := expectedAssertions s; seenAssertions := seenAssertions s; registrationSeen := true;
  registered := ok; registrationStatus := status; started := started s; outputSeen := outputSeen s;
  outputTruncated := outputTruncated s; timeoutSeen := timeoutSeen s;
  timeoutClassificationSeen := timeoutClassificationSeen s; assertionFailure := assertionFailure s;
  executionCompleted := executionCompleted s; executionStatus := executionStatus s;
  completionSeen := completionSeen s; failure := failure s || negb ok |}.

Definition set_started (s : commandProbeState) : commandProbeState := {|
  expectedAssertions := expectedAssertions s; seenAssertions := seenAssertions s;
  registrationSeen := registrationSeen s; registered := registered s; registrationStatus := registrationStatus s;
  started := true; outputSeen := outputSeen s; outputTruncated := outputTruncated s; timeoutSeen := timeoutSeen s;
  timeoutClassificationSeen := timeoutClassificationSeen s; assertionFailure := assertionFailure s;
  executionCompleted := executionCompleted s; executionStatus := executionStatus s;
  completionSeen := completionSeen s; failure := failure s |}.

Definition set_timeout (s : commandProbeState) : commandProbeState := {|
  expectedAssertions := expectedAssertions s; seenAssertions := seenAssertions s;
  registrationSeen := registrationSeen s; registered := registered s; registrationStatus := registrationStatus s;
  started := started s; outputSeen := outputSeen s; outputTruncated := outputTruncated s; timeoutSeen := true;
  timeoutClassificationSeen := timeoutClassificationSeen s; assertionFailure := assertionFailure s;
  executionCompleted := executionCompleted s; executionStatus := executionStatus s;
  completionSeen := completionSeen s; failure := true |}.

Definition set_output (truncated : bool) (s : commandProbeState) : commandProbeState := {|
  expectedAssertions := expectedAssertions s; seenAssertions := seenAssertions s;
  registrationSeen := registrationSeen s; registered := registered s; registrationStatus := registrationStatus s;
  started := started s; outputSeen := true; outputTruncated := outputTruncated s || truncated;
  timeoutSeen := timeoutSeen s; timeoutClassificationSeen := timeoutClassificationSeen s;
  assertionFailure := assertionFailure s; executionCompleted := executionCompleted s;
  executionStatus := executionStatus s; completionSeen := completionSeen s; failure := failure s || truncated |}.

Definition set_execution (failed : bool) (status : bytes) (s : commandProbeState) : commandProbeState := {|
  expectedAssertions := expectedAssertions s; seenAssertions := seenAssertions s;
  registrationSeen := registrationSeen s; registered := registered s; registrationStatus := registrationStatus s;
  started := started s; outputSeen := outputSeen s; outputTruncated := outputTruncated s;
  timeoutSeen := timeoutSeen s; timeoutClassificationSeen := timeoutClassificationSeen s;
  assertionFailure := assertionFailure s; executionCompleted := true; executionStatus := status;
  completionSeen := completionSeen s; failure := failure s || failed |}.

Definition set_assertion (id : bytes) (failed : bool) (s : commandProbeState) : commandProbeState := {|
  expectedAssertions := expectedAssertions s; seenAssertions := {[id]} ∪ seenAssertions s;
  registrationSeen := registrationSeen s; registered := registered s; registrationStatus := registrationStatus s;
  started := started s; outputSeen := outputSeen s; outputTruncated := outputTruncated s;
  timeoutSeen := timeoutSeen s; timeoutClassificationSeen := timeoutClassificationSeen s;
  assertionFailure := assertionFailure s || failed; executionCompleted := executionCompleted s;
  executionStatus := executionStatus s; completionSeen := completionSeen s; failure := failure s || failed |}.

Definition set_completion (s : commandProbeState) : commandProbeState := {|
  expectedAssertions := expectedAssertions s; seenAssertions := seenAssertions s;
  registrationSeen := registrationSeen s; registered := registered s; registrationStatus := registrationStatus s;
  started := started s; outputSeen := outputSeen s; outputTruncated := outputTruncated s;
  timeoutSeen := timeoutSeen s; timeoutClassificationSeen := timeoutClassificationSeen s;
  assertionFailure := assertionFailure s; executionCompleted := executionCompleted s;
  executionStatus := executionStatus s; completionSeen := true; failure := failure s |}.

Definition set_classification (timeout : bool) (s : commandProbeState) : commandProbeState := {|
  expectedAssertions := expectedAssertions s; seenAssertions := seenAssertions s;
  registrationSeen := registrationSeen s; registered := registered s; registrationStatus := registrationStatus s;
  started := started s; outputSeen := outputSeen s; outputTruncated := outputTruncated s;
  timeoutSeen := timeoutSeen s; timeoutClassificationSeen := timeoutClassificationSeen s || timeout;
  assertionFailure := assertionFailure s; executionCompleted := executionCompleted s;
  executionStatus := executionStatus s; completionSeen := completionSeen s; failure := true |}.

Definition observed (s : commandProbeState) : bool :=
  registrationSeen s || started s || outputSeen s || timeoutSeen s || executionCompleted s || completionSeen s
  || (0 <? Z.of_nat (size (seenAssertions s))).

(** Every expected assertion has been seen. *)
Definition assertions_complete (s : commandProbeState) : bool :=
  Nat.eqb (size (seenAssertions s)) (size (expectedAssertions s)).

Definition accept_registration (data : bytes) (s : commandProbeState) : result commandProbeState :=
  refuse registrationSeen s || started s || completionSeen s as "registration event is out of order or duplicated";
  let? ok := requiredBoolean data "registered" in
  let? status := requiredString data "status" in
  refuse ok && negb (says status "REGISTERED") as "registered command has status %q";
  refuse negb ok && negb (says status "NOT_REGISTERED") && negb (says status "LOOKUP_FAILED")
    as "unregistered command has status %q";
  inr (set_registration ok status s).

(** The [timeoutSeconds] of an event. *)
Definition positive_timeout (data : bytes) : result Z :=
  let? timeout := requiredInteger data "timeoutSeconds" in
  refuse timeout <? 1 as "probe event field timeoutSeconds must be positive";
  inr timeout.

Definition accept_started (data : bytes) (s : commandProbeState) : result commandProbeState :=
  refuse negb (registrationSeen s) || negb (registered s) || started s || completionSeen s || failure s
    as "execution start is out of order or follows a failed registration";
  let? _ := positive_timeout data in
  inr (set_started s).

Definition accept_timeout (data : bytes) (s : commandProbeState) : result commandProbeState :=
  refuse negb (started s) || executionCompleted s || completionSeen s || timeoutSeen s
    as "timeout event is out of order or duplicated";
  let? _ := positive_timeout data in
  inr (set_timeout s).

Definition accept_output (data : bytes) (s : commandProbeState) : result commandProbeState :=
  refuse negb (started s) || executionCompleted s || completionSeen s
    as "output event is out of order or follows execution completion";
  refuse timeoutSeen s && negb (timeoutClassificationSeen s)
    as "timed-out output is missing its timeout classification";
  let? truncated := requiredBoolean data "truncated" in
  let? captured := requiredInteger data "capturedBytes" in
  let? seen := requiredInteger data "observedBytes" in
  refuse seen <? captured as "capturedBytes exceeds observedBytes";
  refuse negb truncated && negb (captured =? seen)
    as "non-truncated output has unequal capturedBytes and observedBytes";
  inr (set_output truncated s).

Definition accept_execution (data : bytes) (s : commandProbeState) : result commandProbeState :=
  refuse negb (started s) || executionCompleted s || completionSeen s
    as "execution completion is out of order or duplicated";
  let? status := requiredString data "status" in
  if says status "COMPLETED" then
    let? dispatched := requiredBoolean data "dispatched" in
    refuse negb dispatched as "completed execution was not dispatched";
    refuse negb (outputSeen s) as "completed execution has no output event";
    refuse failure s && (negb (outputTruncated s) || timeoutSeen s)
      as "completed execution contradicts earlier failure evidence";
    inr (set_execution false status s)
  else if says status "TIMED_OUT" then
    refuse negb (timeoutSeen s) as "timed-out execution has no timeout event";
    refuse negb (timeoutClassificationSeen s) || negb (outputSeen s)
      as "timed-out execution has an incomplete timeout trace";
    inr (set_execution true status s)
  else if one_of status ["EXECUTION_FAILED"; "DISPATCH_REJECTED"] then
    refuse timeoutSeen s as "execution failure contradicts timeout evidence";
    inr (set_execution true status s)
  else inl "unsupported execution status %q".

Definition accept_assertion (data : bytes) (s : commandProbeState) : result commandProbeState :=
  refuse negb (executionCompleted s) || negb (says (executionStatus s) "COMPLETED") || completionSeen s
    as "assertion event is out of order or follows failed execution";
  let? id := requiredString data "assertionId" in
  refuse bool_decide (id ∉ expectedAssertions s) as "unknown assertion %q";
  refuse bool_decide (id ∈ seenAssertions s) as "duplicate assertion %q";
  let? evaluated := requiredBoolean data "evaluated" in
  let? passed := requiredBoolean data "passed" in
  if negb evaluated then
    refuse passed || negb (outputTruncated s) as "assertion was not evaluated outside a truncated output path";
    inr (set_assertion id false s)
  else inr (set_assertion id (negb passed) s).

Definition accept_completion (data : bytes) (s : commandProbeState) : result commandProbeState :=
  refuse completionSeen s || negb (registrationSeen s) as "command completion is out of order or duplicated";
  let? passed := requiredBoolean data "passed" in
  if (passed : bool) then
    refuse failure s || negb (executionCompleted s) || negb (says (executionStatus s) "COMPLETED")
           || negb (assertions_complete s)
      as "command claimed success after a failed or incomplete execution";
    inr (set_completion s)
  else
    refuse negb (failure s) as "command claimed failure without failure evidence";
    inr (set_completion s).

Definition accept (eventType data : bytes) (s : commandProbeState) : result commandProbeState :=
  if says eventType "COMMAND_REGISTRATION" then accept_registration data s
  else if says eventType "COMMAND_EXECUTION_STARTED" then accept_started data s
  else if says eventType "COMMAND_TIMEOUT" then accept_timeout data s
  else if says eventType "COMMAND_OUTPUT" then accept_output data s
  else if says eventType "COMMAND_EXECUTION_COMPLETED" then accept_execution data s
  else if says eventType "COMMAND_ASSERTION" then accept_assertion data s
  else if says eventType "COMMAND_TEST_COMPLETED" then accept_completion data s
  else inl "unsupported command event %q".

Definition acceptClassification (code : bytes) (s : commandProbeState) : result commandProbeState :=
  refuse negb (registrationSeen s) || completionSeen s as "classification is out of order";
  if says code "command_not_registered" then
    refuse registered s || negb (says (registrationStatus s) "NOT_REGISTERED")
      as "command_not_registered classification contradicts registration status";
    inr (set_classification false s)
  else if says code "command_registration_failure" then
    refuse registered s || negb (says (registrationStatus s) "LOOKUP_FAILED")
      as "command_registration_failure classification contradicts registration status";
    inr (set_classification false s)
  else if says code "command_execution_failure" then
    refuse negb (executionCompleted s) || negb (one_of (executionStatus s) ["EXECUTION_FAILED"; "DISPATCH_REJECTED"])
      as "execution failure classification has no matching execution result";
    inr (set_classification false s)
  else if says code "command_timeout" then
    refuse negb (timeoutSeen s) as "timeout classification has no timeout event";
    refuse timeoutClassificationSeen s || outputSeen s || executionCompleted s
      as "timeout classification is out of order or duplicated";
    inr (set_classification true s)
  else if says code "command_output_truncated" then
    refuse negb (outputTruncated s) || negb (executionCompleted s) || negb (says (executionStatus s) "COMPLETED")
      as "output truncation classification has no completed truncated execution";
    refuse negb (assertions_complete s) as "output truncation classification has incomplete assertions";
    inr (set_classification false s)
  else if says code "command_assertion_failure" then
    refuse negb (assertionFailure s) as "assertion failure classification has no failed assertion";
    inr (set_classification false s)
  else inr (set_classification false s).

(** ** The other events *)

Record probeRequirement := { role : bytes; name : bytes; configured : bool; loaded : bool; enabled : bool }.

Definition satisfied (r : probeRequirement) : bool := configured r && loaded r && enabled r.

(** The struct [decodeRequirement] decodes into. *)
Record requirementFields := {
  RRole : bytes; RName : bytes; RConfigured : option bool; RLoaded : option bool; REnabled : option bool;
}.

Definition requirement_field (key : bytes) : option (json -> requirementFields -> option requirementFields) :=
  if folded "role" key then Some (store_string (fun x r =>
    {| RRole := x; RName := RName r; RConfigured := RConfigured r; RLoaded := RLoaded r; REnabled := REnabled r |}))
  else if folded "name" key then Some (store_string (fun x r =>
    {| RRole := RRole r; RName := x; RConfigured := RConfigured r; RLoaded := RLoaded r; REnabled := REnabled r |}))
  else if folded "configured" key then Some (store_bool_pointer (fun x r =>
    {| RRole := RRole r; RName := RName r; RConfigured := x; RLoaded := RLoaded r; REnabled := REnabled r |}))
  else if folded "loaded" key then Some (store_bool_pointer (fun x r =>
    {| RRole := RRole r; RName := RName r; RConfigured := RConfigured r; RLoaded := x; REnabled := REnabled r |}))
  else if folded "enabled" key then Some (store_bool_pointer (fun x r =>
    {| RRole := RRole r; RName := RName r; RConfigured := RConfigured r; RLoaded := RLoaded r; REnabled := x |}))
  else None.

Definition decodeRequirement (data : bytes) : result probeRequirement :=
  let zero := {| RRole := []; RName := []; RConfigured := None; RLoaded := None; REnabled := None |} in
  match object_of data with
  | Some ms =>
      match decode_struct false requirement_field zero ms with
      | Some {| RRole := role; RName := c :: n; RConfigured := Some configured; RLoaded := Some loaded;
                REnabled := Some enabled |} =>
          refuse negb (says role "TARGET") && negb (says role "REQUIRED_DEPENDENCY")
            as "TARGET_REQUIREMENT contains an unsupported role";
          refuse negb configured as "TARGET_REQUIREMENT reports an unconfigured alpha requirement";
          refuse negb loaded && enabled as "TARGET_REQUIREMENT reports an enabled requirement that was not loaded";
          inr {| role := role; name := c :: n; configured := configured; loaded := loaded; enabled := enabled |}
      | _ => inl "TARGET_REQUIREMENT is missing authoritative status fields"
      end
  | None => inl "TARGET_REQUIREMENT is missing authoritative status fields"
  end.

(** An error of [m] under another name. *)
Definition rename {A} (message : string) (m : result A) : result A :=
  match m with inl _ => inl message | inr a => inr a end.

Definition classificationCode (data : bytes) : result bytes :=
  let? code := rename "CLASSIFICATION contains an invalid code" (requiredString data "code") in
  match member code allowedClassificationCodes with
  | None => inl "CLASSIFICATION contains an unsupported code"
  | Some schema =>
      let? c := rename "CLASSIFICATION contains an invalid category" (requiredString data "category") in
      refuse negb (bool_decide (c = category schema)) as "CLASSIFICATION contains an invalid category";
      let? s := rename "CLASSIFICATION contains an invalid stage" (requiredString data "stage") in
      refuse negb (bool_decide (s = stage schema)) as "CLASSIFICATION contains an invalid stage";
      let? retryable := rename "CLASSIFICATION contains an invalid retryable value" (requiredBoolean data "retryable") in
      refuse retryable as "CLASSIFICATION contains an invalid retryable value";
      inr code
  end.

Definition decodeLifecycleException (data : bytes) : result (bytes * bytes) :=
  let? phase := rename "LIFECYCLE_EXCEPTION contains an invalid phase" (requiredString data "phase") in
  refuse negb (one_of phase ["LOAD"; "ENABLE"]) as "LIFECYCLE_EXCEPTION contains an invalid phase";
  let? plugin := rename "LIFECYCLE_EXCEPTION contains an invalid plugin" (requiredString data "plugin") in
  inr (phase, plugin).

Definition decodeMetadataInspection (data : bytes) : result (bytes * bytes) :=
  let? artifact := rename "METADATA_INSPECTION contains an invalid artifact" (requiredString data "artifact") in
  let? status := rename "METADATA_INSPECTION contains an invalid status" (requiredString data "status") in
  refuse negb (one_of status ["VALID"; "MISSING"; "INVALID"]) as "METADATA_INSPECTION contains an invalid status";
  inr (artifact, status).

Definition validateClassificationEvidence (code data : bytes) (previous : probeEnvelope) : result unit :=
  if one_of code ["on_load_failure"; "on_enable_failure"] then
    refuse negb (says (Type_ previous) "LIFECYCLE_EXCEPTION") as "classification %s has no preceding lifecycle exception";
    let? (phase, plugin) := decodeLifecycleException (Data previous) in
    let wantPhase := if says code "on_enable_failure" then "ENABLE" else "LOAD" in
    let? classified := rename "classification %s conflicts with lifecycle exception evidence" (requiredString data "plugin") in
    refuse negb (says phase wantPhase) || negb (bool_decide (classified = plugin))
      as "classification %s conflicts with lifecycle exception evidence";
    inr tt
  else if one_of code ["plugin_not_found"; "missing_required_dependency"; "failed_required_dependency"] then
    refuse negb (says (Type_ previous) "TARGET_REQUIREMENT") as "classification %s has no preceding requirement evidence";
    let? r := decodeRequirement (Data previous) in
    let? plugin := rename "classification %s conflicts with requirement identity" (requiredString data "plugin") in
    let? classified := rename "classification %s conflicts with requirement identity" (requiredString data "role") in
    refuse negb (bool_decide (plugin = name r)) || negb (bool_decide (classified = role r))
      as "classification %s conflicts with requirement identity";
    refuse negb (says code "plugin_not_found" && says (role r) "TARGET" && configured r && negb (loaded r) && negb (enabled r)
           || says code "missing_required_dependency" && says (role r) "REQUIRED_DEPENDENCY" && configured r && negb (loaded r) && negb (enabled r)
           || says code "failed_required_dependency" && says (role r) "REQUIRED_DEPENDENCY" && configured r && loaded r && negb (enabled r))
      as "classification %s conflicts with requirement status";
    inr tt
  else if says code "invalid_metadata" then
    refuse negb (says (Type_ previous) "METADATA_INSPECTION")
      as "classification invalid_metadata has no preceding metadata inspection";
    let conflict := "classification invalid_metadata conflicts with metadata inspection evidence" in
    let? (artifact, status) := rename conflict (decodeMetadataInspection (Data previous)) in
    let? classified := rename conflict (requiredString data "artifact") in
    refuse says status "VALID" || negb (bool_decide (classified = artifact)) as conflict;
    inr tt
  else if says code "invalid_test_plan" then
    refuse negb (says (Type_ previous) "TEST_PLAN") as "classification invalid_test_plan has no preceding test plan evidence";
    let conflict := "classification invalid_test_plan conflicts with test plan evidence" in
    let? status := rename conflict (requiredString (Data previous) "status") in
    let? issue := rename conflict (requiredString (Data previous) "issue") in
    let? classified := rename conflict (requiredString data "issue") in
    refuse negb (says status "INVALID") || negb (bool_decide (issue = classified)) as conflict;
    inr tt
  else inr tt.

(** ** The validation of a channel

    The variables of [validateProbeLifecycleVersion]. The states of the commands are
    behind pointers that only [commandTests] holds. *)

Record lifecycle := {
  seenRequired : gset bytes;
  nextRequired : nat;
  requirements : gmap bytes bool;
  requirementRoles : gmap bytes bytes;
  commandTests : gmap bytes commandProbeState;
  commandOrder : list bytes;
  commandIndexes : gmap bytes Z;
  events : list StructuredEvent;
  lifecycleFailure : option string;
  authoritativeClassification : bytes;
  planLoaded : bool;
  planCompleted : bool;
  serverReadySatisfied : bool;
  nextCommandIndex : Z;
  timedOutCommandIndex : Z;
  previousEnvelope : probeEnvelope;
  observations : list Observation;
}.

Definition set_required (t : bytes) (s : lifecycle) : lifecycle := {|
  seenRequired := {[t]} ∪ seenRequired s; nextRequired := S (nextRequired s); requirements := requirements s;
  requirementRoles := requirementRoles s; commandTests := commandTests s; commandOrder := commandOrder s;
  commandIndexes := commandIndexes s; events := events s; lifecycleFailure := lifecycleFailure s;
  authoritativeClassification := authoritativeClassification s; planLoaded := planLoaded s;
  planCompleted := planCompleted s; serverReadySatisfied := serverReadySatisfied s;
  nextCommandIndex := nextCommandIndex s; timedOutCommandIndex := timedOutCommandIndex s;
  previousEnvelope := previousEnvelope s; observations := observations s |}.

Definition set_events (e : StructuredEvent) (s : lifecycle) : lifecycle := {|
  seenRequired := seenRequired s; nextRequired := nextRequired s; requirements := requirements s;
  requirementRoles := requirementRoles s; commandTests := commandTests s; commandOrder := commandOrder s;
  commandIndexes := commandIndexes s; events := events s ++ [e]; lifecycleFailure := lifecycleFailure s;
  authoritativeClassification := authoritativeClassification s; planLoaded := planLoaded s;
  planCompleted := planCompleted s; serverReadySatisfied := serverReadySatisfied s;
  nextCommandIndex := nextCommandIndex s; timedOutCommandIndex := timedOutCommandIndex s;
  previousEnvelope := previousEnvelope s; observations := observations s |}.

Definition set_requirement (key : bytes) (ok : bool) (s : lifecycle) : lifecycle := {|
  seenRequired := seenRequired s; nextRequired := nextRequired s; requirements := <[key := ok]> (requirements s);
  requirementRoles := requirementRoles s; commandTests := commandTests s; commandOrder := commandOrder s;
  commandIndexes := commandIndexes s; events := events s; lifecycleFailure := lifecycleFailure s;
  authoritativeClassification := authoritativeClassification s; planLoaded := planLoaded s;
  planCompleted := planCompleted s; serverReadySatisfied := serverReadySatisfied s;
  nextCommandIndex := nextCommandIndex s; timedOutCommandIndex := timedOutCommandIndex s;
  previousEnvelope := previousEnvelope s; observations := observations s |}.

Definition set_command (id : bytes) (c : commandProbeState) (s : lifecycle) : lifecycle := {|
  seenRequired := seenRequired s; nextRequired := nextRequired s; requirements := requirements s;
  requirementRoles := requirementRoles s; commandTests := <[id := c]> (commandTests s);
  commandOrder := commandOrder s; commandIndexes := commandIndexes s; events := events s;
  lifecycleFailure := lifecycleFailure s; authoritativeClassification := authoritativeClassification s;
  planLoaded := planLoaded s; planCompleted := planCompleted s; serverReadySatisfied := serverReadySatisfied s;
  nextCommandIndex := nextCommandIndex s; timedOutCommandIndex := timedOutCommandIndex s;
  previousEnvelope := previousEnvelope s; observations := observations s |}.

Definition set_failure (e : string) (s : lifecycle) : lifecycle := {|
  seenRequired := seenRequired s; nextRequired := nextRequired s; requirements := requirements s;
  requirementRoles := requirementRoles s; commandTests := commandTests s; commandOrder := commandOrder s;
  commandIndexes := commandIndexes s; events := events s;
  lifecycleFailure := match lifecycleFailure s with None => Some e | old => old end;
  authoritativeClassification := authoritativeClassification s; planLoaded := planLoaded s;
  planCompleted := planCompleted s; serverReadySatisfied := serverReadySatisfied s;
  nextCommandIndex := nextCommandIndex s; timedOutCommandIndex := timedOutCommandIndex s;
  previousEnvelope := previousEnvelope s; observations := observations s |}.

Definition set_authoritative (code : bytes) (s : lifecycle) : lifecycle := {|
  seenRequired := seenRequired s; nextRequired := nextRequired s; requirements := requirements s;
  requirementRoles := requirementRoles s; commandTests := commandTests s; commandOrder := commandOrder s;
  commandIndexes := commandIndexes s; events := events s; lifecycleFailure := lifecycleFailure s;
  authoritativeClassification := code; planLoaded := planLoaded s; planCompleted := planCompleted s;
  serverReadySatisfied := serverReadySatisfied s; nextCommandIndex := nextCommandIndex s;
  timedOutCommandIndex := timedOutCommandIndex s; previousEnvelope := previousEnvelope s;
  observations := observations s |}.

Definition set_plan_loaded (s : lifecycle) : lifecycle := {|
  seenRequired := seenRequired s; nextRequired := nextRequired s; requirements := requirements s;
  requirementRoles := requirementRoles s; commandTests := commandTests s; commandOrder := commandOrder s;
  commandIndexes := commandIndexes s; events := events s; lifecycleFailure := lifecycleFailure s;
  authoritativeClassification := authoritativeClassification s; planLoaded := true; planCompleted := planCompleted s;
  serverReadySatisfied := serverReadySatisfied s; nextCommandIndex := nextCommandIndex s;
  timedOutCommandIndex := timedOutCommandIndex s; previousEnvelope := previousEnvelope s;
  observations := observations s |}.

Definition set_plan_completed (s : lifecycle) : lifecycle := {|
  seenRequired := seenRequired s; nextRequired := nextRequired s; requirements := requirements s;
  requirementRoles := requirementRoles s; commandTests := commandTests s; commandOrder := commandOrder s;
  commandIndexes := commandIndexes s; events := events s; lifecycleFailure := lifecycleFailure s;
  authoritativeClassification := authoritativeClassification s; planLoaded := planLoaded s; planCompleted := true;
  serverReadySatisfied := serverReadySatisfied s; nextCommandIndex := nextCommandIndex s;
  timedOutCommandIndex := timedOutCommandIndex s; previousEnvelope := previousEnvelope s;
  observations := observations s |}.

Definition set_ready (ok : bool) (s : lifecycle) : lifecycle := {|
  seenRequired := seenRequired s; nextRequired := nextRequired s; requirements := requirements s;
  requirementRoles := requirementRoles s; commandTests := commandTests s; commandOrder := commandOrder s;
  commandIndexes := commandIndexes s; events := events s; lifecycleFailure := lifecycleFailure s;
  authoritativeClassification := authoritativeClassification s; planLoaded := planLoaded s;
  planCompleted := planCompleted s; serverReadySatisfied := ok; nextCommandIndex := nextCommandIndex s;
  timedOutCommandIndex := timedOutCommandIndex s; previousEnvelope := previousEnvelope s;
  observations := observations s |}.

Definition set_command_index (next timedOut : Z) (s : lifecycle) : lifecycle := {|
  seenRequired := seenRequired s; nextRequired := nextRequired s; requirements := requirements s;
  requirementRoles := requirementRoles s; commandTests := commandTests s; commandOrder := commandOrder s;
  commandIndexes := commandIndexes s; events := events s; lifecycleFailure := lifecycleFailure s;
  authoritativeClassification := authoritativeClassification s; planLoaded := planLoaded s;
  planCompleted := planCompleted s; serverReadySatisfied := serverReadySatisfied s; nextCommandIndex := next;
  timedOutCommandIndex := timedOut; previousEnvelope := previousEnvelope s; observations := observations s |}.

Definition set_previous (e : probeEnvelope) (s : lifecycle) : lifecycle := {|
  seenRequired := seenRequired s; nextRequired := nextRequired s; requirements := requirements s;
  requirementRoles := requirementRoles s; commandTests := commandTests s; commandOrder := commandOrder s;
  commandIndexes := commandIndexes s; events := events s; lifecycleFailure := lifecycleFailure s;
  authoritativeClassification := authoritativeClassification s; planLoaded := planLoaded s;
  planCompleted := planCompleted s; serverReadySatisfied := serverReadySatisfied s;
  nextCommandIndex := nextCommandIndex s; timedOutCommandIndex := timedOutCommandIndex s; previousEnvelope := e;
  observations := observations s |}.

Definition observe (os : list Observation) (s : lifecycle) : lifecycle := {|
  seenRequired := seenRequired s; nextRequired := nextRequired s; requirements := requirements s;
  requirementRoles := requirementRoles s; commandTests := commandTests s; commandOrder := commandOrder s;
  commandIndexes := commandIndexes s; events := events s; lifecycleFailure := lifecycleFailure s;
  authoritativeClassification := authoritativeClassification s; planLoaded := planLoaded s;
  planCompleted := planCompleted s; serverReadySatisfied := serverReadySatisfied s;
  nextCommandIndex := nextCommandIndex s; timedOutCommandIndex := timedOutCommandIndex s;
  previousEnvelope := previousEnvelope s; observations := observations s ++ os |}.

Definition probeEventKind : bytes := bs "paper_probe_event".

Definition seen (s : lifecycle) (t : string) : bool := bool_decide (bs t ∈ seenRequired s).

(** The variables before the first event. Go's map assignments run in the order of the
    plan: of entries with one key the last one stays. *)
Definition start (plan : testPlan) : lifecycle :=
  let target := lower_runes (TargetPlugin plan) in
  let dependencies := map lower_runes (RequiredDependencies plan) in
  {| seenRequired := ∅; nextRequired := 0;
     requirements := foldl (fun m d => <[d := false]> m) {[target := false]} dependencies;
     requirementRoles := foldl (fun m d => <[d := bs "REQUIRED_DEPENDENCY"]> m) {[target := bs "TARGET"]} dependencies;
     commandTests := foldl (fun m t => <[TestID t := newCommandProbeState t]> m) ∅ (Console plan);
     commandOrder := map TestID (Console plan);
     commandIndexes := foldl (fun m it => <[TestID (snd it) := Z.of_nat (fst it)]> m) ∅ (imap pair (Console plan));
     events := []; lifecycleFailure := None; authoritativeClassification := []; planLoaded := false;
     planCompleted := false; serverReadySatisfied := false; nextCommandIndex := 0; timedOutCommandIndex := -1;
     previousEnvelope := no_envelope; observations := [] |}.

Definition commandStateForEvent (testID : bytes) (s : lifecycle) : result (commandProbeState * Z) :=
  match commandTests s !! testID with
  | None => inl "references unknown command test %q"
  | Some state =>
      let index := default 0 (commandIndexes s !! testID) in
      refuse (0 <=? timedOutCommandIndex s) && (timedOutCommandIndex s <? index)
        as "command event occurred after a timed-out command";
      refuse nextCommandIndex s <? index as "command event skips configured command %q";
      refuse index <? nextCommandIndex s as "command event for %q occurred after its completion";
      inr (state, index)
  end.

(** A required event comes once and in its place. *)
Definition require (type : bytes) (s : lifecycle) : result lifecycle :=
  match list_find (fun t => t = type) requiredProbeOrder with
  | None => inr s
  | Some (index, _) =>
      refuse bool_decide (type ∈ seenRequired s) as "duplicate required probe event %s";
      refuse negb (Nat.eqb index (nextRequired s)) as "probe event %s is out of order";
      inr (set_required type s)
  end.

(** The part of the loop's body before the event is recorded. *)
Definition admit_event (event : StructuredEvent) (s : lifecycle) : result (probeEnvelope * lifecycle) :=
  refuse negb (bool_decide (Kind event = probeEventKind)) as "unexpected structured event kind %q";
  let? envelope := decodeProbeEnvelope (Payload event) in
  refuse negb (one_of (Type_ envelope) allowedProbeEventTypes) as "unexpected probe event type %q";
  let? s := require (Type_ envelope) s in
  inr (envelope,
       set_events {| Sequence := (zlen (events s) + 1) mod 2 ^ 64; Kind := Type_ envelope; Payload := Data envelope |} s).

(** A count of console tests that is missing or differs from the plan's. *)
Definition wrong_count (plan : testPlan) (data : bytes) : bool :=
  match requiredInteger data "consoleTests" with inr n => negb (n =? zlen (Console plan)) | inl _ => true end.

Definition command_timed_out (s : lifecycle) : bool :=
  existsb (fun kv => timeoutSeen (snd kv)) (map_to_list (commandTests s)).

Definition on_test_plan (plan : testPlan) (data : bytes) (s : lifecycle) : result lifecycle :=
  let? status := requiredString data "status" in
  if says status "LOADED" then
    refuse planLoaded s as "duplicate loaded TEST_PLAN event";
    refuse wrong_count plan data as "loaded TEST_PLAN consoleTests does not match the materialized plan";
    inr (set_plan_loaded s)
  else if says status "COMPLETED" then
    refuse negb (planLoaded s) || planCompleted s || (zlen (Console plan) =? 0) || seen s "CLEAN_SHUTDOWN_REQUESTED"
      as "completed TEST_PLAN event is unexpected";
    refuse wrong_count plan data as "completed TEST_PLAN consoleTests does not match the materialized plan";
    let? passed := requiredBoolean data "passed" in
    let? timedOut := requiredBoolean data "timedOut" in
    refuse passed && timedOut as "completed TEST_PLAN cannot be both passed and timed out";
    refuse negb (Bool.eqb timedOut (command_timed_out s))
      as "completed TEST_PLAN timedOut does not match command timeout evidence";
    let s := set_plan_completed s in
    inr (if (passed : bool) then s else set_failure "probe reported a failed console test plan" s)
  else if says status "INVALID" then
    let? _ := requiredString data "issue" in
    inr (set_failure "probe rejected the materialized test plan" s)
  else inl "unexpected TEST_PLAN status %q".

(** The observations of an assertion: those of the plan's assertions that have its identity
    and an operator of the version. *)
Definition assertion_observations (v2 : bool) (test : consoleCommandTest) (testID data : bytes) (state : commandProbeState)
  : list Observation :=
  let id := match requiredString data "assertionId" with inr x => x | inl _ => [] end in
  let flag (field : string) := match requiredBoolean data field with inr b => b | inl _ => false end in
  concat (imap (fun n assertion =>
    if (says (Operator assertion) "regex" || (v2 && says (Operator assertion) "contains"))
       && bool_decide (id = assertion_id testID (S n)) then
      [console_assertion (if says (Operator assertion) "contains" then bs "console-contains" else bs "console-regex")
         testID id (registered state) (executionCompleted state) (flag "evaluated") (flag "passed") (outputTruncated state)]
    else []) (Assertions test)).

Definition on_command (plan : testPlan) (v2 : bool) (type data : bytes) (s : lifecycle) : result lifecycle :=
  refuse negb (seen s "SERVER_READY") || seen s "CLEAN_SHUTDOWN_REQUESTED"
    as "probe event %s occurred outside the command execution window";
  let? testID := requiredString data "testId" in
  let? (state, index) := commandStateForEvent testID s in
  let? state := accept type data state in
  let s := set_command testID state s in
  let s := match Console plan !! Z.to_nat index with
           | Some test => if says type "COMMAND_ASSERTION" then observe (assertion_observations v2 test testID data state) s else s
           | None => s
           end in
  inr (set_command_index (if completionSeen state then nextCommandIndex s + 1 else nextCommandIndex s)
                         (if timeoutSeen state then index else timedOutCommandIndex s) s).

Definition on_requirement (data : bytes) (s : lifecycle) : result lifecycle :=
  let? r := decodeRequirement data in
  let key := lower_runes (name r) in
  let? s :=
    match requirements s !! key with
    | None => inr s
    | Some ok =>
        refuse negb (bool_decide (role r = default [] (requirementRoles s !! key)))
          as "requirement %q has role %q, want %q";
        refuse (ok : bool) as "duplicate requirement result for %q";
        inr (observe [plugin_state (if says (role r) "TARGET" then bs "plugin-enabled" else bs "dependency-present")
                        (name r) (loaded r) (enabled r)]
               (set_requirement key (satisfied r) s))
    end in
  inr (if satisfied r then s else set_failure "plugin requirement %q was not loaded and enabled" s).

Definition on_classification (data : bytes) (s : lifecycle) : result lifecycle :=
  let? code := classificationCode data in
  let? s :=
    if isCommandClassification code then
      let? testID := requiredString data "testId" in
      let? (state, index) := commandStateForEvent testID s in
      let? state := acceptClassification code state in
      inr (set_command_index (nextCommandIndex s) (if timeoutSeen state then index else timedOutCommandIndex s)
             (set_command testID state s))
    else
      let? _ := validateClassificationEvidence code data (previousEnvelope s) in
      inr s in
  refuse negb (bool_decide (authoritativeClassification s = [])) as "probe emitted conflicting classifications %s and %s";
  inr (set_failure "probe classified the workload as %s" (set_authoritative code s)).

(** The switch of the loop's body. *)
Definition handle (plan : testPlan) (v2 : bool) (envelope : probeEnvelope) (s : lifecycle) : result lifecycle :=
  let type := Type_ envelope in
  let data := Data envelope in
  if says type "TEST_PLAN" then on_test_plan plan data s
  else if one_of type commandEvents then on_command plan v2 type data s
  else if says type "TARGET_REQUIREMENT" then on_requirement data s
  else if says type "CLASSIFICATION" then on_classification data s
  else if says type "LIFECYCLE_EXCEPTION" then
    let? _ := decodeLifecycleException data in
    inr (set_failure "probe observed a plugin lifecycle exception" s)
  else if says type "METADATA_INSPECTION" then
    let? _ := decodeMetadataInspection data in
    inr s
  else if says type "SERVER_READY" then
    let? ok := requiredBoolean data "requirementsSatisfied" in
    let s := observe [startup_ready (seen s "SERVER_LOADED") (seen s "STABILIZATION_COMPLETED") true ok] (set_ready ok s) in
    inr (if (ok : bool) then s else set_failure "probe reported unsatisfied server-ready requirements" s)
  else if says type "SERVER_STOPPED" then
    let? ok := requiredBoolean data "shutdownRequested" in
    let s := observe [clean_shutdown (seen s "CLEAN_SHUTDOWN_REQUESTED") true ok] s in
    inr (if (ok : bool) then s else set_failure "server stopped without the probe-requested clean shutdown" s)
  else inr s.

(** One turn of the loop: the variables after it, and the error it returns with. An
    event that is admitted is recorded even when it is refused. *)
Definition step (plan : testPlan) (v2 : bool) (event : StructuredEvent) (s : lifecycle) : lifecycle * option string :=
  match admit_event event s with
  | inl e => (s, Some e)
  | inr (envelope, s) =>
      match handle plan v2 envelope s with
      | inl e => (s, Some e)
      | inr s => (set_previous envelope s, None)
      end
  end.

Fixpoint consume (plan : testPlan) (v2 : bool) (l : list StructuredEvent) (s : lifecycle) : lifecycle * option string :=
  match l with
  | [] => (s, None)
  | event :: l =>
      match step plan v2 event s with
      | (s, None) => consume plan v2 l s
      | r => r
      end
  end.

(** The loop over the commands once the channel has ended. *)
Fixpoint finish_commands (index : Z) (order : list bytes) (s : lifecycle) : result lifecycle :=
  match order with
  | [] => inr s
  | testID :: order =>
      match commandTests s !! testID with
      | None => inl "nil command state"
      | Some state =>
          if (0 <=? timedOutCommandIndex s) && (timedOutCommandIndex s <? index) then
            refuse observed state as "command test %q emitted events after a timed-out command";
            finish_commands (index + 1) order s
          else
            refuse negb (completionSeen state) as "missing command completion for %q";
            refuse started state && negb (executionCompleted state) as "missing execution completion for %q";
            finish_commands (index + 1) order (if failure state then set_failure "command test %q failed" s else s)
      end
  end.

(** What an invocation returns: a plain error, or the failure of a classified workload. *)
Inductive probeError :=
  | Plain (message : string)
  | probeLifecycleFailure (code : bytes) (err : string).

Definition finish (plan : testPlan) (s : lifecycle) : option probeError :=
  let checked : result lifecycle :=
    refuse negb (Nat.eqb (nextRequired s) (length requiredProbeOrder)) as "missing required probe event %s";
    refuse negb (planLoaded s) as "missing loaded TEST_PLAN event";
    let? s :=
      if negb (zlen (Console plan) =? 0) && serverReadySatisfied s then
        refuse negb (planCompleted s) as "missing completed TEST_PLAN event";
        finish_commands 0 (commandOrder s) s
      else inr s in
    inr (if existsb (fun kv => negb (snd kv)) (map_to_list (requirements s))
         then set_failure "missing successful requirement result for %q" s else s) in
  match checked with
  | inl e => Some (Plain e)
  | inr s =>
      match lifecycleFailure s with
      | None => None
      | Some e =>
          if bool_decide (authoritativeClassification s = []) then Some (Plain e)
          else Some (probeLifecycleFailure (authoritativeClassification s) e)
      end
  end.

Section validate.
Context {NetworkObservation Snapshot : Type}.

(** The recorded events, the error, and the observations every projection receives. *)
Definition validateProbeLifecycleVersion (output : @Executor.CollectedOutput NetworkObservation Snapshot Observation) (plan : testPlan)
    (v2 : bool) : list StructuredEvent * option probeError * list Observation :=
  if negb (zlen (Executor.OStructuredEventError output) =? 0) then ([], Some (Plain "probe event channel is malformed: %s"), [])
  else if EventsTruncated (Executor.OEvidenceUsage output) then
    ([], Some (Plain "probe event channel exceeded its event limit"), [])
  else if zlen (Executor.OStructuredEvents output) =? 0 then
    ([], Some (Plain "trusted probe emitted no lifecycle events"), [])
  else
    match consume plan v2 (Executor.OStructuredEvents output) (start plan) with
    | (s, Some e) => (events s, Some (Plain e), observations s)
    | (s, None) => (events s, finish plan s, observations s)
    end.

Definition validateProbeLifecycle (output : @Executor.CollectedOutput NetworkObservation Snapshot Observation) (plan : testPlan)
  : list StructuredEvent * option probeError * list Observation :=
  validateProbeLifecycleVersion output plan false.

End validate.
