(* ===== verification/ProbeInv.v ===== *)
(** What a validated lifecycle says of the run ([Probe.v]): the events a channel must
    hold when its validation reports no failure, the observations it projects, and what
    is recorded when it is refused. *)

From Stdlib Require Import ZifyBool.
From S2P Require Import Prelude Strconv Json Url JsonStruct Execution Terminal Probe.

Open Scope string_scope.
Open Scope list_scope.
Open Scope Z_scope.

(** ** Booleans of the model *)

Lemma says_true b s : says b s = true -> b = bs s.
Proof. apply bool_decide_eq_true. Qed.

Lemma says_false b s : says b s = false -> b <> bs s.
Proof. apply bool_decide_eq_false. Qed.

Lemma says_bs s t : says (bs s) t = bool_decide (bs s = bs t).
Proof. done. Qed.

(** Case analysis on what a hypothesis was computed from, closing the branches that
    return an error. *)
Ltac branches :=
  repeat first
    [ progress simplify_eq
    | match goal with
      | H : (if ?b then _ else _) = inr _ |- _ => destruct b eqn:?
      | H : (match ?m with inl _ => _ | inr _ => _ end) = inr _ |- _ => destruct m eqn:?
      | H : (let '(_, _) := ?p in _) = inr _ |- _ => destruct p eqn:?
      end
    | discriminate ].

(** ** One command

    The events of a test that passes: its registration, its start, output that is whole,
    a completed execution, each assertion once, evaluated and passed, and the report. *)

Definition typed (t : string) (e : probeEnvelope) : Prop := Type_ e = bs t.
Definition holds (field : string) (e : probeEnvelope) : Prop := requiredBoolean (Data e) field = inr true.
Definition text (field : string) (x : bytes) (e : probeEnvelope) : Prop := requiredString (Data e) field = inr x.

Definition registers (e : probeEnvelope) : Prop := typed "COMMAND_REGISTRATION" e /\ holds "registered" e.
Definition starts (e : probeEnvelope) : Prop := typed "COMMAND_EXECUTION_STARTED" e.
Definition outputs (e : probeEnvelope) : Prop :=
  typed "COMMAND_OUTPUT" e /\ requiredBoolean (Data e) "truncated" = inr false.
Definition completes (e : probeEnvelope) : Prop :=
  typed "COMMAND_EXECUTION_COMPLETED" e /\ text "status" (bs "COMPLETED") e /\ holds "dispatched" e.
Definition asserts (id : bytes) (e : probeEnvelope) : Prop :=
  typed "COMMAND_ASSERTION" e /\ text "assertionId" id e /\ holds "evaluated" e /\ holds "passed" e.
Definition reports (e : probeEnvelope) : Prop := typed "COMMAND_TEST_COMPLETED" e /\ holds "passed" e.

Definition passes (test : consoleCommandTest) (tr : list probeEnvelope) : Prop :=
  exists reg start outs comp ids results report,
    tr = reg :: start :: outs ++ comp :: results ++ [report] /\
    registers reg /\ starts start /\ outs <> [] /\ Forall outputs outs /\ completes comp /\
    Forall2 asserts ids results /\ ids ≡ₚ assertion_ids test /\ reports report.

(** How far the events of a test have come, as long as nothing has failed. *)
Inductive stage (test : consoleCommandTest) : list probeEnvelope -> commandProbeState -> Prop :=
  | stage_new st :
      registrationSeen st = false -> started st = false -> executionCompleted st = false -> completionSeen st = false ->
      outputSeen st = false -> seenAssertions st = ∅ -> stage test [] st
  | stage_registered reg st :
      registers reg ->
      registrationSeen st = true -> registered st = true -> started st = false -> executionCompleted st = false ->
      completionSeen st = false -> outputSeen st = false -> seenAssertions st = ∅ -> stage test [reg] st
  | stage_running reg start outs st :
      registers reg -> starts start -> Forall outputs outs ->
      registrationSeen st = true -> registered st = true -> started st = true -> executionCompleted st = false ->
      completionSeen st = false -> (outputSeen st = true -> outs <> []) -> seenAssertions st = ∅ ->
      stage test (reg :: start :: outs) st
  | stage_executed reg start outs comp ids results st :
      registers reg -> starts start -> outs <> [] -> Forall outputs outs -> completes comp -> Forall2 asserts ids results ->
      NoDup ids -> (forall x, x ∈ ids <-> x ∈ seenAssertions st) -> (forall x, x ∈ ids -> x ∈ expectedAssertions st) ->
      registrationSeen st = true -> registered st = true -> started st = true -> executionCompleted st = true ->
      completionSeen st = false ->
      stage test (reg :: start :: outs ++ comp :: results) st
  | stage_passed tr st : passes test tr -> registrationSeen st = true -> started st = true -> completionSeen st = true ->
      executionCompleted st = true -> stage test tr st.

(** A command that has not failed has seen neither a timeout nor truncated output, and its
    events have come as far as its state says. *)
Record progress (test : consoleCommandTest) (tr : list probeEnvelope) (st : commandProbeState) : Prop := {
  p_expected : expectedAssertions st = list_to_set (assertion_ids test);
  p_timeout : timeoutSeen st = true -> failure st = true;
  p_truncated : outputTruncated st = true -> failure st = true;
  p_stage : failure st = false -> stage test tr st;
}.

Lemma progress_new test : progress test [] (newCommandProbeState test).
Proof. by split; try done; intros; constructor. Qed.

(** ** Identities of assertions *)

Lemma assertion_id_inj id n m : assertion_id id n = assertion_id id m -> n = m.
Proof.
  unfold assertion_id. intros H. apply app_inv_head, app_inv_head in H.
  assert (Some (Z.of_nat n) = Some (Z.of_nat m)) as [=]; [|lia].
  by rewrite <- (proj1 (itoa_digits (Z.of_nat n) ltac:(lia))), <- (proj1 (itoa_digits (Z.of_nat m) ltac:(lia))), H.
Qed.

Lemma assertion_ids_NoDup test : NoDup (assertion_ids test).
Proof.
  unfold assertion_ids. apply NoDup_fmap_2_strong; [|apply NoDup_seq].
  intros n m _ _. apply assertion_id_inj.
Qed.

Lemma complete_permutation test st ids :
  expectedAssertions st = list_to_set (assertion_ids test) -> assertions_complete st = true ->
  NoDup ids -> (forall x, x ∈ ids <-> x ∈ seenAssertions st) -> (forall x, x ∈ ids -> x ∈ expectedAssertions st) ->
  ids ≡ₚ assertion_ids test.
Proof.
  intros He Hc Hnd Hs Hsub. apply Nat.eqb_eq in Hc.
  assert (Hincl : seenAssertions st ⊆ expectedAssertions st) by set_solver.
  assert (Heq : seenAssertions st = expectedAssertions st) by (apply set_subseteq_size_eq; [done|lia]).
  apply NoDup_Permutation; [done|apply assertion_ids_NoDup|]. intros x. set_solver.
Qed.

(** ** Events of a command *)

(** Nothing undoes a failure. *)
Lemma accept_failure t d st st' : accept t d st = inr st' -> failure st = true -> failure st' = true.
Proof.
  unfold accept, accept_registration, accept_started, accept_timeout, accept_output, accept_execution, accept_assertion,
    accept_completion, positive_timeout. intros H Hf. branches; cbn; by rewrite ?Hf.
Qed.

Lemma accept_static t d st st' : accept t d st = inr st' -> expectedAssertions st' = expectedAssertions st.
Proof.
  unfold accept, accept_registration, accept_started, accept_timeout, accept_output, accept_execution, accept_assertion,
    accept_completion, positive_timeout. intros H. by branches.
Qed.

(** What [accept] needs of a state and what it leaves, for the states in which nothing failed. *)
Ltac stage_cases Hs :=
  bool_norm; repeat match goal with H : says _ _ = true |- _ => apply says_true in H end;
  destruct Hs; simplify_eq; try congruence.

Lemma accept_registration_stage test tr st e st' :
  typed "COMMAND_REGISTRATION" e -> stage test tr st -> accept_registration (Data e) st = inr st' -> failure st' = false ->
  stage test (tr ++ [e]) st'.
Proof.
  unfold accept_registration. intros Ht Hs H Hf. branches; cbn in Hf; bool_norm.
  destruct Hs; try congruence. subst. by apply stage_registered.
Qed.

Lemma accept_started_stage test tr st e st' :
  typed "COMMAND_EXECUTION_STARTED" e -> stage test tr st -> accept_started (Data e) st = inr st' ->
  stage test (tr ++ [e]) st'.
Proof.
  unfold accept_started. intros Ht Hs H. branches; bool_norm.
  destruct Hs; try congruence. cbn [app]. by apply stage_running; try done; cbn; congruence.
Qed.

Lemma accept_output_stage test tr st e st' :
  typed "COMMAND_OUTPUT" e -> stage test tr st -> accept_output (Data e) st = inr st' -> failure st' = false ->
  stage test (tr ++ [e]) st'.
Proof.
  unfold accept_output. intros Ht Hs H Hf. branches; cbn in Hf; bool_norm; subst.
  destruct Hs; try congruence. cbn [app]. apply stage_running; try done.
  - apply Forall_app. split; [done|]. by repeat constructor.
  - intros _. by destruct outs.
Qed.

Lemma accept_execution_stage test tr st e st' :
  typed "COMMAND_EXECUTION_COMPLETED" e -> stage test tr st -> accept_execution (Data e) st = inr st' -> failure st' = false ->
  stage test (tr ++ [e]) st'.
Proof.
  unfold accept_execution. intros Ht Hs H Hf. branches; cbn in Hf; bool_norm; try congruence.
  destruct Hs as [| | |?? outs| ]; try congruence. cbn [app].
  match goal with H : says _ "COMPLETED" = true |- _ => apply says_true in H; subst end.
  apply (stage_executed test _ _ _ e [] []); cbn; try done; auto; try constructor.
  all: intros; set_solver.
Qed.

Lemma accept_assertion_stage test tr st e st' :
  typed "COMMAND_ASSERTION" e -> (outputTruncated st = true -> failure st = true) -> stage test tr st ->
  accept_assertion (Data e) st = inr st' -> failure st' = false -> stage test (tr ++ [e]) st'.
Proof.
  unfold accept_assertion. intros Ht Htr Hs H Hf. branches; cbn in Hf; bool_norm; subst; intuition try congruence.
  destruct Hs as [| | | |]; try congruence. rewrite <- app_comm_cons, <- app_comm_cons, <- app_assoc, <- app_comm_cons.
  match goal with H : requiredString _ "assertionId" = inr ?id |- _ => eapply (stage_executed test _ _ _ _ (ids ++ [id])) end;
    cbn; try done.
  - apply Forall2_app; [done|]. by repeat constructor.
  - apply NoDup_app. split_and!; [done|set_solver|apply NoDup_singleton].
  - intros x. set_solver.
  - intros x. set_solver.
Qed.

Lemma accept_completion_stage test tr st e st' :
  typed "COMMAND_TEST_COMPLETED" e -> expectedAssertions st = list_to_set (assertion_ids test) -> stage test tr st ->
  accept_completion (Data e) st = inr st' -> failure st' = false -> stage test (tr ++ [e]) st'.
Proof.
  unfold accept_completion. intros Ht He Hs H Hf. branches; cbn in Hf; bool_norm; subst; try congruence.
  destruct Hs as [| | |????? results ?|]; try congruence. apply stage_passed; try done.
  rewrite <- app_comm_cons, <- app_comm_cons, <- app_assoc, <- app_comm_cons.
  do 7 eexists. split_and!; eauto using complete_permutation; by split.
Qed.

Lemma accept_progress test tr st e st' :
  progress test tr st -> accept (Type_ e) (Data e) st = inr st' -> progress test (tr ++ [e]) st'.
Proof.
  intros [He Ht Hr Hs] H. pose proof (accept_static _ _ _ _ H) as Es. pose proof (accept_failure _ _ _ _ H) as Hf.
  split; [congruence| | |].
  - unfold accept, accept_registration, accept_started, accept_timeout, accept_output, accept_execution, accept_assertion,
      accept_completion, positive_timeout in H. branches; cbn in *; intros Hx; first [reflexivity | congruence | apply Hf, Ht, Hx].
  - unfold accept, accept_registration, accept_started, accept_timeout, accept_output, accept_execution, accept_assertion,
      accept_completion, positive_timeout in H. branches; cbn in *; intros Hx; first [reflexivity | by apply Hf, Hr, Hx | congruence | idtac].
    apply orb_true_iff in Hx as [Hx| ->]; [by rewrite (Hr Hx)|apply orb_true_r].
  - intros Hf'. assert (Hf0 : failure st = false) by (destruct (failure st); [|done]; by rewrite Hf in Hf').
    specialize (Hs Hf0). unfold accept in H.
    repeat match goal with
           | H : (if says ?t ?s then _ else _) = inr _ |- _ =>
               let E := fresh "E" in destruct (says t s) eqn:E; [apply says_true in E|]
           end; try discriminate;
      eauto using accept_registration_stage, accept_started_stage, accept_output_stage, accept_execution_stage,
        accept_assertion_stage, accept_completion_stage.
    unfold accept_timeout in H. by branches.
Qed.

(** ** What is said of a channel *)

Definition decodes (event : StructuredEvent) (e : probeEnvelope) : Prop :=
  Kind event = probeEventKind /\ decodeProbeEnvelope (Payload event) = inr e /\
  one_of (Type_ e) allowedProbeEventTypes = true.

Definition is_command (e : probeEnvelope) : bool := one_of (Type_ e) commandEvents.

(** The events of one command test. *)
Definition concerns (id : bytes) (e : probeEnvelope) : bool :=
  is_command e && match requiredString (Data e) "testId" with inr x => bool_decide (x = id) | inl _ => false end.

Definition trace (id : bytes) (es : list probeEnvelope) : list probeEnvelope := List.filter (concerns id) es.

Definition loads (plan : testPlan) (e : probeEnvelope) : Prop :=
  typed "TEST_PLAN" e /\ text "status" (bs "LOADED") e /\ requiredInteger (Data e) "consoleTests" = inr (zlen (Console plan)).

Definition finishes (plan : testPlan) (e : probeEnvelope) : Prop :=
  typed "TEST_PLAN" e /\ text "status" (bs "COMPLETED") e /\ holds "passed" e /\
  requiredInteger (Data e) "consoleTests" = inr (zlen (Console plan)).

Definition ready (e : probeEnvelope) : Prop := typed "SERVER_READY" e /\ holds "requirementsSatisfied" e.
Definition stopped (e : probeEnvelope) : Prop := typed "SERVER_STOPPED" e /\ holds "shutdownRequested" e.

(** The requirement of this name, whatever its case, was met. *)
Definition provides (plugin_role key : bytes) (e : probeEnvelope) : Prop :=
  typed "TARGET_REQUIREMENT" e /\
  exists r, decodeRequirement (Data e) = inr r /\ satisfied r = true /\ role r = plugin_role /\ lower_runes (name r) = key.

(** An event that reports no failure. *)
Definition harmless (plan : testPlan) (e : probeEnvelope) : Prop :=
  ~ typed "CLASSIFICATION" e /\ ~ typed "LIFECYCLE_EXCEPTION" e /\
  (typed "TARGET_REQUIREMENT" e -> exists r, decodeRequirement (Data e) = inr r /\ satisfied r = true) /\
  (typed "TEST_PLAN" e -> loads plan e \/ finishes plan e).

(** The channel of a server that came up, ran every test of the plan in its order and
    stopped when it was asked to. *)
Record clean_run (plan : testPlan) (es : list probeEnvelope) : Prop := {
  run_required : filter (fun t => t ∈ requiredProbeOrder) (map Type_ es) = requiredProbeOrder;
  run_harmless : Forall (harmless plan) es;
  run_loaded : Exists (loads plan) es;
  run_ready : Exists ready es;
  run_stopped : Exists stopped es;
  run_target : Exists (provides (bs "TARGET") (lower_runes (TargetPlugin plan))) es;
  run_dependencies : forall d, d ∈ RequiredDependencies plan ->
    Exists (provides (bs "REQUIRED_DEPENDENCY") (lower_runes d)) es;
  run_commands : exists traces, List.filter is_command es = concat traces /\ Forall2 passes (Console plan) traces;
  run_window : forall a e b, es = a ++ e :: b -> is_command e = true ->
    bs "SERVER_READY" ∈ map Type_ a /\ bs "CLEAN_SHUTDOWN_REQUESTED" ∉ map Type_ a;
  run_finished : Console plan <> [] -> Exists (finishes plan) es;
}.

(** Plugins and tests of a plan are told apart by their names. *)
Definition distinct (plan : testPlan) : Prop :=
  NoDup (map TestID (Console plan)) /\ NoDup (map lower_runes (TargetPlugin plan :: RequiredDependencies plan)).

(** ** The invariant of the loop *)

(** The required events so far, and the recorded events. *)
Record base (es : list probeEnvelope) (s : lifecycle) : Prop := {
  b_next : filter (fun t => t ∈ requiredProbeOrder) (map Type_ es) = take (nextRequired s) requiredProbeOrder;
  b_seen : forall t, t ∈ requiredProbeOrder -> t ∈ seenRequired s <-> t ∈ map Type_ es;
  b_events : map (fun e => (Kind e, Payload e)) (events s) = map (fun e => (Type_ e, Data e)) es;
  b_numbers : zlen es < 2 ^ 64 -> map Sequence (events s) = map (fun n => Z.of_nat n) (seq 1 (length es));
}.

(** What the plan fixes. *)
Record fixed (plan : testPlan) (s : lifecycle) : Prop := {
  f_order : commandOrder s = map TestID (Console plan);
  f_indexes : commandIndexes s = commandIndexes (start plan);
  f_roles : requirementRoles s = requirementRoles (start plan);
  f_keys : dom (requirements s) = dom (requirements (start plan));
  f_tests : forall id, is_Some (commandTests s !! id) -> id ∈ map TestID (Console plan);
}.

(** The commands, as long as no failure is reported. *)
Record consoles (plan : testPlan) (es : list probeEnvelope) (s : lifecycle) : Prop := {
  c_states : forall i test, Console plan !! i = Some test ->
    exists st, commandTests s !! TestID test = Some st /\ progress test (trace (TestID test) es) st /\
      (Z.of_nat i < nextCommandIndex s -> completionSeen st = true) /\
      (nextCommandIndex s < Z.of_nat i -> trace (TestID test) es = []);
  c_order : List.filter is_command es = concat (map (fun t => trace (TestID t) es) (Console plan));
  c_window : forall a e b, es = a ++ e :: b -> is_command e = true ->
    bs "SERVER_READY" ∈ map Type_ a /\ bs "CLEAN_SHUTDOWN_REQUESTED" ∉ map Type_ a;
  c_timed : 0 <= timedOutCommandIndex s -> exists i test st,
    timedOutCommandIndex s = Z.of_nat i /\ Console plan !! i = Some test /\
    commandTests s !! TestID test = Some st /\ timeoutSeen st = true;
}.

(** The other events, as long as no failure is reported. *)
Record calm (plan : testPlan) (es : list probeEnvelope) (s : lifecycle) : Prop := {
  l_harmless : Forall (harmless plan) es;
  l_loaded : planLoaded s = true -> Exists (loads plan) es;
  l_completed : planCompleted s = true -> Exists (finishes plan) es;
  l_ready : bs "SERVER_READY" ∈ map Type_ es -> serverReadySatisfied s = true /\ Exists ready es;
  l_stopped : bs "SERVER_STOPPED" ∈ map Type_ es -> Exists stopped es;
  l_required : forall key, requirements s !! key = Some true ->
    Exists (provides (default [] (requirementRoles s !! key)) key) es;
}.

(** ** The required events *)

#[local] Opaque bs requiredProbeOrder.

(** The fields that [require] and the recording of an event leave alone. *)
Definition same_rest (s s' : lifecycle) : Prop :=
  requirements s' = requirements s /\ requirementRoles s' = requirementRoles s /\ commandTests s' = commandTests s /\
  commandOrder s' = commandOrder s /\ commandIndexes s' = commandIndexes s /\ lifecycleFailure s' = lifecycleFailure s /\
  authoritativeClassification s' = authoritativeClassification s /\ planLoaded s' = planLoaded s /\
  planCompleted s' = planCompleted s /\ serverReadySatisfied s' = serverReadySatisfied s /\
  nextCommandIndex s' = nextCommandIndex s /\ timedOutCommandIndex s' = timedOutCommandIndex s /\
  previousEnvelope s' = previousEnvelope s /\ observations s' = observations s.

Lemma require_spec t s s' :
  require t s = inr s' ->
  same_rest s s' /\ events s' = events s /\
  ((t ∉ requiredProbeOrder /\ nextRequired s' = nextRequired s /\ seenRequired s' = seenRequired s) \/
   (requiredProbeOrder !! nextRequired s = Some t /\ nextRequired s' = S (nextRequired s) /\
    seenRequired s' = {[t]} ∪ seenRequired s)).
Proof.
  unfold require. destruct (list_find (fun x => x = t) requiredProbeOrder) as [[i x]|] eqn:E; intros H.
  - branches. bool_norm. apply list_find_Some in E as (Hl & -> & _).
    match goal with H : Nat.eqb _ _ = true |- _ => apply Nat.eqb_eq in H; subst end.
    split_and!; [by repeat split|done|]. right. by rewrite Hl.
  - simplify_eq. apply list_find_None in E. split_and!; [by repeat split|done|]. left. split; [|done].
    intros Hin. rewrite Forall_forall in E. by apply (E t).
Qed.

Lemma admit_event_spec event s e s' es :
  admit_event event s = inr (e, s') -> base es s ->
  decodes event e /\ base (es ++ [e]) s' /\ same_rest s s' /\
  (forall t, t ∈ seenRequired s' -> t ∈ seenRequired s \/ t = Type_ e) /\
  (forall t, t ∈ seenRequired s -> t ∈ seenRequired s').
Proof.
  unfold admit_event. intros H [Hn Hs He Hq]. branches. bool_norm.
  match goal with H : require _ _ = inr ?x |- _ => rename x into s1; apply require_spec in H as (Hr & Hev & Hcase) end.
  split; [by repeat split|]. split; [|split; [done|split; [|intros t; cbn]]]; cycle 1.
  - intros t. cbn. destruct Hcase as [(_ & _ & ->)|(_ & _ & ->)]; set_solver.
  - destruct Hcase as [(_ & _ & ->)|(_ & _ & ->)]; set_solver.
  - rewrite <- Hev in *. split; cbn.
    + rewrite map_app, filter_app, Hn. cbn [map]. destruct Hcase as [(Hnot & -> & _)|(Hat & -> & _)].
      * by rewrite filter_cons_False, filter_nil, app_nil_r.
      * rewrite filter_cons_True, filter_nil by (by eapply list_elem_of_lookup_2). symmetry. by apply take_S_r.
    + intros t Ht. rewrite map_app, elem_of_app, <- (Hs t Ht). cbn [map]. rewrite list_elem_of_singleton.
      destruct Hcase as [(Hnot & _ & ->)|(Hat & _ & ->)]; [|by rewrite elem_of_union, elem_of_singleton, (comm or)].
      split; [by left|]. by intros [?| ->].
    + by rewrite !map_app, He.
    + intros Hlt. rewrite zlen_app in Hlt. rewrite map_app, Hq by (pose proof (zlen_nonneg [e]); lia).
      assert (Hl : length (events s1) = length es) by (by rewrite <- (length_map (fun e => (Kind e, Payload e))), He, length_map).
      rewrite length_app, seq_app, map_app. cbn [length seq map Sequence]. do 2 f_equal.
      rewrite zlen_cons, zlen_nil in Hlt. unfold zlen in *. rewrite Hl. rewrite Z.mod_small; lia.
Qed.

(** ** The variables before the first event *)

Section insertions.
Context {A B : Type} (key : A -> bytes) (value : A -> B).

Definition inserts (m : gmap bytes B) (l : list A) : gmap bytes B := foldl (fun m x => <[key x := value x]> m) m l.

Lemma inserts_other l m k : k ∉ map key l -> inserts m l !! k = m !! k.
Proof.
  revert m. induction l as [|x l IH]; intros m Hk; [done|]. apply not_elem_of_cons in Hk as [Hx Hk].
  unfold inserts in *. cbn [foldl]. rewrite IH by done. by apply lookup_insert_ne.
Qed.

Lemma inserts_elem l m x : NoDup (map key l) -> x ∈ l -> inserts m l !! key x = Some (value x).
Proof.
  revert m. induction l as [|y l IH]; intros m Hnd Hin; [by apply not_elem_of_nil in Hin|].
  apply NoDup_cons in Hnd as [Hy Hnd]. apply elem_of_cons in Hin as [->|Hin]; [|by apply IH].
  unfold inserts. cbn [foldl]. change (inserts (<[key y := value y]> m) l !! key y = Some (value y)).
  rewrite inserts_other by done. apply lookup_insert_eq.
Qed.

Lemma inserts_dom l m k : is_Some (inserts m l !! k) -> is_Some (m !! k) \/ k ∈ map key l.
Proof.
  destruct (decide (k ∈ map key l)) as [H|H]; [by right|]. rewrite inserts_other by done. by left.
Qed.

Lemma inserts_value (P : B -> Prop) l m k v :
  (forall k v, m !! k = Some v -> P v) -> (forall x, P (value x)) -> inserts m l !! k = Some v -> P v.
Proof.
  intros Hm Hx. revert m Hm. induction l as [|x l IH]; intros m Hm; [by apply Hm|]. apply IH.
  intros k' v' [[_ <-]|[_ H]]%lookup_insert_Some; [done|by eapply Hm].
Qed.

End insertions.

Lemma imap_pair_keys (l : list consoleCommandTest) :
  map (fun it => TestID (snd it)) (imap pair l) = map TestID l.
Proof.
  apply list_eq. intros i. change (@map) with (@fmap list _). 
  rewrite !list_lookup_fmap, list_lookup_imap. by destruct (l !! i).
Qed.

Lemma start_tests plan test :
  distinct plan -> test ∈ Console plan -> commandTests (start plan) !! TestID test = Some (newCommandProbeState test).
Proof. intros [Hnd _] Hin. by apply (inserts_elem TestID newCommandProbeState). Qed.

Lemma start_index plan i test :
  distinct plan -> Console plan !! i = Some test -> commandIndexes (start plan) !! TestID test = Some (Z.of_nat i).
Proof.
  intros [Hnd _] Hi. apply (inserts_elem (fun it : nat * consoleCommandTest => TestID (snd it)) (fun it => Z.of_nat (fst it)) _ _ (i, test)).
  - by rewrite imap_pair_keys.
  - apply list_elem_of_lookup. exists i. by rewrite list_lookup_imap, Hi.
Qed.

Definition plugin_keys (plan : testPlan) : list bytes := map lower_runes (RequiredDependencies plan).

Lemma start_requirements plan :
  requirements (start plan) =
  inserts (fun d => d) (fun _ => false) {[lower_runes (TargetPlugin plan) := false]} (plugin_keys plan).
Proof. done. Qed.

Lemma start_roles plan :
  requirementRoles (start plan) =
  inserts (fun d => d) (fun _ => bs "REQUIRED_DEPENDENCY") {[lower_runes (TargetPlugin plan) := bs "TARGET"]} (plugin_keys plan).
Proof. done. Qed.

Lemma start_requirement plan key b : requirements (start plan) !! key = Some b -> b = false.
Proof.
  rewrite start_requirements. apply (inserts_value _ _ (fun b => b = false)); [|done].
  by intros k v [_ <-]%lookup_singleton_Some.
Qed.

Lemma start_target plan :
  distinct plan ->
  requirementRoles (start plan) !! lower_runes (TargetPlugin plan) = Some (bs "TARGET") /\
  is_Some (requirements (start plan) !! lower_runes (TargetPlugin plan)).
Proof.
  intros [_ Hnd]. cbn [map] in Hnd. apply NoDup_cons in Hnd as [Hn _]. rewrite <- (map_id (map _ _)) in Hn.
  rewrite start_roles, start_requirements, !inserts_other by done. by rewrite !lookup_singleton_eq.
Qed.

Lemma start_dependency plan d :
  distinct plan -> d ∈ RequiredDependencies plan ->
  requirementRoles (start plan) !! lower_runes d = Some (bs "REQUIRED_DEPENDENCY") /\
  is_Some (requirements (start plan) !! lower_runes d).
Proof.
  intros [_ Hnd] Hd. cbn [map] in Hnd. apply NoDup_cons in Hnd as [_ Hnd]. rewrite <- (map_id (map _ _)) in Hnd.
  assert (Hin : lower_runes d ∈ plugin_keys plan) by (by apply list_elem_of_fmap_2).
  rewrite start_roles, start_requirements.
  rewrite (inserts_elem (fun d => d) (fun _ => bs "REQUIRED_DEPENDENCY") _ _ (lower_runes d)) by done.
  by rewrite (inserts_elem (fun d => d) (fun _ => false) _ _ (lower_runes d)) by done.
Qed.

Lemma fixed_start plan : fixed plan (start plan).
Proof.
  split; try done. intros id H. apply (inserts_dom TestID newCommandProbeState) in H as [H|H]; [|done].
  by rewrite lookup_empty in H; destruct H.
Qed.

Lemma base_start plan : base [] (start plan).
Proof. split; try done. intros t _. cbn. split; intros H; [by apply not_elem_of_empty in H|by apply not_elem_of_nil in H]. Qed.

Lemma trace_nil id : trace id [] = [].
Proof. done. Qed.

Lemma consoles_start plan : distinct plan -> consoles plan [] (start plan).
Proof.
  intros Hd. split.
  - intros i test Hi. exists (newCommandProbeState test). rewrite start_tests by (done || by eapply list_elem_of_lookup_2).
    split_and!; [done|apply progress_new|cbn; lia|done].
  - cbn. by induction (Console plan).
  - intros [] ? ? [=].
  - cbn. lia.
Qed.

Lemma calm_start plan : calm plan [] (start plan).
Proof.
  split; cbn; try done; try (intros H; by apply not_elem_of_nil in H).
  intros key H. by apply start_requirement in H.
Qed.

(** ** The commands through an event *)

Lemma snoc_split {A} (es : list A) e a x b :
  es ++ [e] = a ++ x :: b -> (b = [] /\ x = e /\ a = es) \/ (exists b', b = b' ++ [e] /\ es = a ++ x :: b').
Proof.
  destruct b as [|y b _] using rev_ind; intros H.
  - apply app_inj_tail in H as [-> ->]. by left.
  - rewrite app_comm_cons, app_assoc in H. apply app_inj_tail in H as [-> ->]. right. by exists b.
Qed.

Lemma trace_snoc id es e : trace id (es ++ [e]) = trace id es ++ (if concerns id e then [e] else []).
Proof. unfold trace. rewrite List.filter_app. cbn. by destruct (concerns id e). Qed.

Lemma consoles_quiet plan es s e s' :
  consoles plan es s -> is_command e = false ->
  commandTests s' = commandTests s -> nextCommandIndex s' = nextCommandIndex s ->
  timedOutCommandIndex s' = timedOutCommandIndex s -> consoles plan (es ++ [e]) s'.
Proof.
  intros [Hs Ho Hw Ht] He Ec En Et.
  assert (Htr : forall id, trace id (es ++ [e]) = trace id es).
  { intros id. rewrite trace_snoc. unfold concerns. rewrite He. apply app_nil_r. }
  split.
  - intros i test Hi. rewrite Ec, En, Htr. by apply Hs.
  - rewrite List.filter_app, Ho. cbn [List.filter]. rewrite He, app_nil_r. f_equal. apply map_ext. intros t. by rewrite Htr.
  - intros a x b H Hx. apply snoc_split in H as [(-> & -> & ->)|(b' & -> & ->)]; [congruence|by eapply Hw].
  - by rewrite Ec, Et.
Qed.

Lemma commandStateForEvent_spec id s st i :
  commandStateForEvent id s = inr (st, i) ->
  commandTests s !! id = Some st /\ i = nextCommandIndex s /\ default 0 (commandIndexes s !! id) = i.
Proof.
  unfold commandStateForEvent. destruct (commandTests s !! id) as [x|] eqn:E; [|done]. intros H. branches. bool_norm.
  split_and!; [done|lia|done].
Qed.

(** The test a command event belongs to is the next of the plan. *)
Lemma commandStateForEvent_next plan id s st i :
  distinct plan -> fixed plan s -> commandStateForEvent id s = inr (st, i) ->
  exists n test, i = Z.of_nat n /\ nextCommandIndex s = Z.of_nat n /\ Console plan !! n = Some test /\ TestID test = id /\
    commandTests s !! id = Some st.
Proof.
  intros Hd Hf H. apply commandStateForEvent_spec in H as (Hst & -> & Hi).
  assert (Hin : id ∈ map TestID (Console plan)) by (by apply (f_tests _ _ Hf); rewrite Hst).
  apply list_elem_of_fmap in Hin as (test & -> & Hin). apply list_elem_of_lookup in Hin as [n Hn].
  rewrite (f_indexes _ _ Hf), (start_index _ _ _ Hd Hn) in Hi. cbn in Hi. by exists n, test.
Qed.

(** Appending an event to the last trace that is not empty appends it to all of them. *)
Lemma concat_snoc {A B} (f g : A -> list B) (l : list A) n x e :
  l !! n = Some x -> g x = f x ++ [e] -> (forall m y, l !! m = Some y -> m <> n -> g y = f y) ->
  (forall m y, l !! m = Some y -> (n < m)%nat -> f y = []) ->
  concat (map g l) = concat (map f l) ++ [e].
Proof.
  revert n. induction l as [|y l IH]; intros [|n] Hn Hx Hy Hz; try done; cbn.
  - simplify_eq/=. rewrite Hx.
    assert (Hf : concat (map f l) = []).
    { apply concat_nil_Forall, Forall_map, Forall_lookup. intros m z Hm. apply (Hz (S m)); [done|lia]. }
    assert (Hg : concat (map g l) = []).
    { apply concat_nil_Forall, Forall_map, Forall_lookup. intros m z Hm.
      rewrite (Hy (S m) z) by (done || lia). apply (Hz (S m)); [done|lia]. }
    by rewrite Hf, Hg, !app_nil_r.
  - rewrite (Hy 0%nat y) by (done || lia). rewrite <- app_assoc. f_equal. apply (IH n); try done.
    + intros m z Hm Hmn. by apply (Hy (S m)); [|lia].
    + intros m z Hm Hmn. by apply (Hz (S m)); [|lia].
Qed.

Lemma distinct_tests plan n m t u :
  distinct plan -> Console plan !! n = Some t -> Console plan !! m = Some u -> TestID t = TestID u -> n = m.
Proof.
  intros [Hnd _] Hn Hm He. eapply (NoDup_lookup (map TestID (Console plan)) _ _ (TestID t)); [done| |].
  - change (@map) with (@fmap list _). by rewrite list_lookup_fmap, Hn.
  - change (@map) with (@fmap list _). by rewrite list_lookup_fmap, Hm, He.
Qed.

(** What a command event changes. *)
Lemma on_command_spec plan v2 t d s s' :
  on_command plan v2 t d s = inr s' ->
  seen s "SERVER_READY" = true /\ seen s "CLEAN_SHUTDOWN_REQUESTED" = false /\
  exists id st i st', requiredString d "testId" = inr id /\ commandStateForEvent id s = inr (st, i) /\
    accept t d st = inr st' /\ commandTests s' = <[id := st']> (commandTests s) /\
    nextCommandIndex s' = (if completionSeen st' then nextCommandIndex s + 1 else nextCommandIndex s) /\
    timedOutCommandIndex s' = (if timeoutSeen st' then i else timedOutCommandIndex s).
Proof.
  unfold on_command. intros H. branches. bool_norm. split_and!; [done..|].
  match goal with H : accept _ _ ?x = inr ?y |- _ => exists l, x, z, y end.
  split_and!; try done; cbn; by destruct (Console plan !! Z.to_nat z); [destruct (says t _)|].
Qed.

(** A command event is told apart from the required ones. *)
Lemma command_not_required e : is_command e = true -> Type_ e ∉ requiredProbeOrder.
Proof.
  intros He Hin. assert (Hf : forallb (fun t => negb (one_of t commandEvents)) requiredProbeOrder = true) by (vm_compute; done).
  rewrite forallb_forall in Hf. apply list_elem_of_In in Hin. specialize (Hf _ Hin). unfold is_command in He. by rewrite He in Hf.
Qed.

Lemma required_elem t : existsb (fun x => bool_decide (x = bs t)) requiredProbeOrder = true -> bs t ∈ requiredProbeOrder.
Proof. intros H. apply existsb_exists in H as (x & Hx & E). bool_norm. subst. by apply list_elem_of_In. Qed.

(** The window of the commands. *)
Lemma window_seen es e s t :
  base (es ++ [e]) s -> is_command e = true -> existsb (fun x => bool_decide (x = bs t)) requiredProbeOrder = true ->
  seen s t = bool_decide (bs t ∈ map Type_ es).
Proof.
  intros [_ Hs _ _] He Ht%required_elem. unfold seen. apply bool_decide_ext. rewrite (Hs _ Ht), map_app, elem_of_app.
  cbn [map]. rewrite list_elem_of_singleton. split; [intros [?|E]; [done|]|by left].
  exfalso. by apply (command_not_required e He); rewrite <- E.
Qed.

Lemma accept_timeout_kept t d st st' : accept t d st = inr st' -> timeoutSeen st = true -> timeoutSeen st' = true.
Proof.
  unfold accept, accept_registration, accept_started, accept_timeout, accept_output, accept_execution, accept_assertion,
    accept_completion, positive_timeout. intros H. by branches.
Qed.

Section command.
Context (plan : testPlan) (es : list probeEnvelope) (s s' : lifecycle) (e : probeEnvelope).
Context (n : nat) (test : consoleCommandTest) (st st' : commandProbeState).
Context (Hd : distinct plan) (Hc : consoles plan es s).
Context (He : is_command e = true) (Hid : requiredString (Data e) "testId" = inr (TestID test)).
Context (Htest : Console plan !! n = Some test) (Hn : nextCommandIndex s = Z.of_nat n).
Context (Hst : commandTests s !! TestID test = Some st) (Ha : accept (Type_ e) (Data e) st = inr st').
Context (Et : commandTests s' = <[TestID test := st']> (commandTests s)).
Context (En : nextCommandIndex s' = (if completionSeen st' then nextCommandIndex s + 1 else nextCommandIndex s)).
Context (Eo : timedOutCommandIndex s' = (if timeoutSeen st' then Z.of_nat n else timedOutCommandIndex s)).

Lemma concerns_mine : concerns (TestID test) e = true.
Proof using He Hid. unfold concerns. rewrite He, Hid. by apply bool_decide_eq_true. Qed.

Lemma concerns_other m u : Console plan !! m = Some u -> m <> n -> TestID u <> TestID test /\ concerns (TestID u) e = false.
Proof using Hd He Hid Htest.
  intros Hu Hm. assert (Hne : TestID u <> TestID test) by (intros Heq; apply Hm; by eapply distinct_tests).
  split; [done|]. unfold concerns. rewrite He, Hid. by apply bool_decide_eq_false.
Qed.

Lemma command_states m u : Console plan !! m = Some u ->
  exists st, commandTests s' !! TestID u = Some st /\ progress u (trace (TestID u) (es ++ [e])) st /\
    (Z.of_nat m < nextCommandIndex s' -> completionSeen st = true) /\
    (nextCommandIndex s' < Z.of_nat m -> trace (TestID u) (es ++ [e]) = []).
Proof using All.
  intros Hu. destruct (c_states _ _ _ Hc _ _ Hu) as (st0 & Hl & Hp & Hlt & Hgt). destruct (decide (m = n)) as [->|Hm].
  - simplify_eq. exists st'. rewrite Et, lookup_insert_eq, trace_snoc, concerns_mine.
    split_and!; [done|by eapply accept_progress| |]; rewrite En, Hn; destruct (completionSeen st'); done || lia.
  - destruct (concerns_other _ _ Hu Hm) as [Hne Hno]. exists st0.
    rewrite Et, lookup_insert_ne, trace_snoc, Hno, app_nil_r, En by done.
    split_and!; [done|done| |]; destruct (completionSeen st'); intros; apply Hlt || apply Hgt; lia.
Qed.

Lemma command_order :
  List.filter is_command (es ++ [e]) = concat (map (fun t => trace (TestID t) (es ++ [e])) (Console plan)).
Proof using Hd Hc He Hid Htest Hn.
  rewrite List.filter_app, (c_order _ _ _ Hc). cbn [List.filter]. rewrite He. symmetry.
  apply (concat_snoc _ _ _ n test); [done|..].
  - by rewrite trace_snoc, concerns_mine.
  - intros m u Hu Hm. by rewrite trace_snoc, (proj2 (concerns_other _ _ Hu Hm)), app_nil_r.
  - intros m u Hu Hm. destruct (c_states _ _ _ Hc _ _ Hu) as (_ & _ & _ & _ & Hgt). apply Hgt. lia.
Qed.

Lemma command_timed : 0 <= timedOutCommandIndex s' -> exists i u x,
  timedOutCommandIndex s' = Z.of_nat i /\ Console plan !! i = Some u /\ commandTests s' !! TestID u = Some x /\ timeoutSeen x = true.
Proof using All.
  rewrite Eo. destruct (timeoutSeen st') eqn:Ets; intros Hp.
  - exists n, test, st'. split_and!; [done|done| |done]. by rewrite Et, lookup_insert_eq.
  - destruct (c_timed _ _ _ Hc Hp) as (m & u & x & E1 & E2 & E3 & E4). destruct (decide (m = n)) as [->|Hm].
    + simplify_eq. by rewrite (accept_timeout_kept _ _ _ _ Ha E4) in Ets.
    + exists m, u, x. split_and!; try done. rewrite Et, lookup_insert_ne; [done|].
      symmetry. exact (proj1 (concerns_other _ _ E2 Hm)).
Qed.

End command.

Lemma consoles_command plan v2 es s e s' :
  distinct plan -> fixed plan s -> base (es ++ [e]) s -> consoles plan es s -> is_command e = true ->
  on_command plan v2 (Type_ e) (Data e) s = inr s' -> consoles plan (es ++ [e]) s'.
Proof.
  intros Hd Hf Hb Hc He H.
  apply on_command_spec in H as (Hr & Hs & id & st & i & st' & Hid & Hst & Ha & Et & En & Eo).
  destruct (commandStateForEvent_next _ _ _ _ _ Hd Hf Hst) as (n & test & -> & Hn & Htest & <- & Hlk).
  split.
  - by eapply (command_states plan es s s' e n test st st').
  - by eapply command_order.
  - intros a x b Hx Hcx. apply snoc_split in Hx as [(-> & -> & ->)|(b' & -> & ->)]; [|by eapply c_window].
    rewrite (window_seen _ _ _ _ Hb He) in Hr by (vm_compute; done).
    rewrite (window_seen _ _ _ _ Hb He) in Hs by (vm_compute; done). by bool_norm.
  - by eapply (command_timed plan es s s' e n test st st').
Qed.

(** ** The other events *)

(** What a turn must do for the events to stay harmless. *)
Record calms (plan : testPlan) (e : probeEnvelope) (s s' : lifecycle) : Prop := {
  m_harmless : harmless plan e;
  m_loaded : planLoaded s' = true -> planLoaded s = true \/ loads plan e;
  m_completed : planCompleted s' = true -> planCompleted s = true \/ finishes plan e;
  m_ready : typed "SERVER_READY" e -> serverReadySatisfied s' = true /\ ready e;
  m_unready : ~ typed "SERVER_READY" e -> serverReadySatisfied s' = serverReadySatisfied s;
  m_stopped : typed "SERVER_STOPPED" e -> stopped e;
  m_roles : requirementRoles s' = requirementRoles s;
  m_required : forall key, requirements s' !! key = Some true ->
    requirements s !! key = Some true \/ provides (default [] (requirementRoles s !! key)) key e;
}.

Lemma Exists_snoc {A} (P : A -> Prop) l x : Exists P l \/ P x -> Exists P (l ++ [x]).
Proof. intros [H|H]; apply Exists_app; [by left|right; by constructor]. Qed.

Lemma calm_snoc plan es s e s' : calm plan es s -> calms plan e s s' -> calm plan (es ++ [e]) s'.
Proof.
  intros [Hh Hl Hf Hr Hs Hq] [Mh Ml Mf Mr Mu Ms Mo Mq]. split.
  - apply Forall_app. split; [done|]. by constructor.
  - intros H. apply Exists_snoc. destruct (Ml H); auto.
  - intros H. apply Exists_snoc. destruct (Mf H); auto.
  - rewrite map_app, elem_of_app. cbn [map]. rewrite list_elem_of_singleton. intros H.
    destruct (decide (Type_ e = bs "SERVER_READY")) as [E|E].
    + destruct (Mr E) as [? ?]. split; [done|]. apply Exists_snoc. by right.
    + rewrite (Mu E). destruct H as [H|H]; [|by rewrite H in E]. destruct (Hr H) as [? ?].
      split; [done|]. apply Exists_snoc. by left.
  - rewrite map_app, elem_of_app. cbn [map]. rewrite list_elem_of_singleton. intros [H|H]; apply Exists_snoc; [auto|].
    right. by apply Ms.
  - intros key H. rewrite Mo. apply Exists_snoc. destruct (Mq _ H); auto.
Qed.

(** Two literals of the source that differ. *)
Ltac distinct_types :=
  unfold typed in *; repeat intro; exfalso;
  match goal with
  | H : ?x = bs ?a, H' : ?x = bs ?b |- _ => rewrite H in H'; vm_compute in H'; discriminate
  end.

(** The fields a handler leaves alone on every branch. *)
Record frame (s s' : lifecycle) : Prop := {
  fr_seen : seenRequired s' = seenRequired s;
  fr_next : nextRequired s' = nextRequired s;
  fr_roles : requirementRoles s' = requirementRoles s;
  fr_order : commandOrder s' = commandOrder s;
  fr_indexes : commandIndexes s' = commandIndexes s;
  fr_events : events s' = events s;
  fr_keys : dom (requirements s') = dom (requirements s);
  fr_tests : dom (commandTests s') = dom (commandTests s);
  fr_failure : lifecycleFailure s' = None -> lifecycleFailure s = None;
}.

Lemma set_failure_none m s : lifecycleFailure (set_failure m s) <> None.
Proof. cbn. by destruct (lifecycleFailure s). Qed.

Lemma command_dom id s st i : commandStateForEvent id s = inr (st, i) -> id ∈ dom (commandTests s).
Proof. intros (H & _)%commandStateForEvent_spec. by apply elem_of_dom_2 in H. Qed.

Lemma insert_dom {A} (m : gmap bytes A) k v : k ∈ dom m -> dom (<[k := v]> m) = dom m.
Proof. intros H. apply set_eq. intros x. rewrite dom_insert. set_solver. Qed.

Lemma handle_frame plan v2 e s s' : handle plan v2 e s = inr s' -> frame s s'.
Proof.
  unfold handle, on_test_plan, on_command, on_requirement, on_classification. intros H.
  branches; repeat (case_match; branches); split; cbn; try done; try (by case_match);
    try (by apply insert_dom; eapply command_dom); try (by apply insert_dom, elem_of_dom; eexists).
Qed.

(** Events that neither the plan nor the requirements are about. *)
Lemma calms_other plan e s s' :
  ~ typed "TEST_PLAN" e -> ~ typed "TARGET_REQUIREMENT" e -> ~ typed "CLASSIFICATION" e -> ~ typed "LIFECYCLE_EXCEPTION" e ->
  ~ typed "SERVER_READY" e -> ~ typed "SERVER_STOPPED" e ->
  planLoaded s' = planLoaded s -> planCompleted s' = planCompleted s -> serverReadySatisfied s' = serverReadySatisfied s ->
  requirementRoles s' = requirementRoles s -> requirements s' = requirements s -> calms plan e s s'.
Proof.
  intros ?????? El Ec Er Eo Eq. split; try done; try (rewrite ?El, ?Ec; by left).
  intros key. rewrite Eq. by left.
Qed.

Lemma calms_test_plan plan e s s' :
  typed "TEST_PLAN" e -> on_test_plan plan (Data e) s = inr s' -> lifecycleFailure s' = None -> calms plan e s s'.
Proof.
  intros Ht H Hf. unfold on_test_plan in H.
  assert (Hcount : wrong_count plan (Data e) = false -> requiredInteger (Data e) "consoleTests" = inr (zlen (Console plan))).
  { unfold wrong_count. destruct (requiredInteger _ _); [done|]. intros. bool_norm. by subst. }
  branches; try (by apply set_failure_none in Hf); try (destruct b; [|by apply set_failure_none in Hf]);
    repeat match goal with H : says _ _ = true |- _ => apply says_true in H; subst end.
  - assert (Hl : loads plan e) by (split_and!; auto). split; cbn; auto; try (by distinct_types).
    split_and!; auto; distinct_types.
  - assert (Hl : finishes plan e) by (split_and!; auto). split; cbn; auto; try (by distinct_types).
    split_and!; auto; distinct_types.
Qed.

Lemma calms_requirement plan e s s' :
  typed "TARGET_REQUIREMENT" e -> on_requirement (Data e) s = inr s' -> lifecycleFailure s' = None -> calms plan e s s'.
Proof.
  intros Ht H Hf. unfold on_requirement in H. branches.
  destruct (satisfied p) eqn:Es; [|by apply set_failure_none in Hf].
  assert (Hh : harmless plan e) by (split_and!; [by distinct_types|by distinct_types|by eauto|by distinct_types]).
  destruct (requirements s !! lower_runes (name p)) as [ok|] eqn:El; branches.
  - split; cbn; auto; try (by distinct_types). intros key [[<- _]|[_ Hk]]%lookup_insert_Some; [right|by left].
    bool_norm. split; [done|]. by exists p.
  - split; auto; by distinct_types.
Qed.

Lemma classification_fails d s s' : on_classification d s = inr s' -> lifecycleFailure s' <> None.
Proof. unfold on_classification. intros H. branches; apply set_failure_none. Qed.

(** Only command events and classifications touch the commands. *)
Lemma handle_console plan v2 e s s' :
  handle plan v2 e s = inr s' -> is_command e = false -> lifecycleFailure s' = None ->
  commandTests s' = commandTests s /\ nextCommandIndex s' = nextCommandIndex s /\ timedOutCommandIndex s' = timedOutCommandIndex s.
Proof.
  unfold handle, is_command. intros H Hn Hf. rewrite Hn in H.
  assert (Hnc : says (Type_ e) "CLASSIFICATION" = true -> on_classification (Data e) s <> inr s').
  { intros _ Hc. by apply classification_fails in Hc. }
  unfold on_test_plan, on_requirement in H. branches; repeat (case_match; branches); auto; by destruct Hnc.
Qed.

Lemma handle_calms plan v2 e s s' : handle plan v2 e s = inr s' -> lifecycleFailure s' = None -> calms plan e s s'.
Proof.
  unfold handle. intros H Hf.
  destruct (says (Type_ e) "TEST_PLAN") eqn:E1; [by apply calms_test_plan; [apply says_true|..]|].
  destruct (one_of (Type_ e) commandEvents) eqn:E2.
  { assert (Hc : forall t, one_of (bs t) commandEvents = false -> ~ typed t e) by (intros t Ht E; rewrite E in E2; congruence).
    unfold on_command in H. branches. apply calms_other; try (apply Hc; vm_compute; done); repeat case_match; done. }
  destruct (says (Type_ e) "TARGET_REQUIREMENT") eqn:E3; [by apply calms_requirement; [apply says_true|..]|].
  destruct (says (Type_ e) "CLASSIFICATION") eqn:E4; [by apply classification_fails in H|].
  destruct (says (Type_ e) "LIFECYCLE_EXCEPTION") eqn:E5; [branches; by apply set_failure_none in Hf|].
  apply says_false in E1, E3, E4, E5.
  assert (Hh : harmless plan e) by (by split_and!).
  destruct (says (Type_ e) "METADATA_INSPECTION") eqn:E6.
  { branches. apply says_true in E6. apply calms_other; try done; distinct_types. }
  destruct (says (Type_ e) "SERVER_READY") eqn:E7.
  { branches. destruct b; [|by apply set_failure_none in Hf]. apply says_true in E7. split; cbn; auto; try (by distinct_types).
    all: done || by intros []. }
  destruct (says (Type_ e) "SERVER_STOPPED") eqn:E8.
  { branches. destruct b; [|by apply set_failure_none in Hf]. apply says_true in E8. split; cbn; auto; try done; distinct_types. }
  branches. apply says_false in E7, E8. by apply calms_other.
Qed.

(** ** The invariant through a turn *)

Record inv (plan : testPlan) (es : list probeEnvelope) (s : lifecycle) : Prop := {
  i_fixed : fixed plan s;
  i_base : base es s;
  i_calm : lifecycleFailure s = None -> calm plan es s /\ consoles plan es s;
}.

Lemma inv_start plan : distinct plan -> inv plan [] (start plan).
Proof.
  intros Hd. split; [apply fixed_start|apply base_start|]. intros _. split; [apply calm_start|by apply consoles_start].
Qed.

Lemma fixed_frame plan s s' : fixed plan s -> frame s s' -> fixed plan s'.
Proof.
  intros [] []. split; try congruence. intros id H. apply f_tests0. by rewrite <- elem_of_dom, <- fr_tests0, elem_of_dom.
Qed.

Lemma base_frame es s s' : base es s -> frame s s' -> base es s'.
Proof. intros [] []. split; by rewrite ?fr_next0, ?fr_events0, ?fr_seen0. Qed.

Lemma rest_inv plan es s s' :
  same_rest s s' -> fixed plan s -> fixed plan s' /\ (calm plan es s -> calm plan es s') /\ (consoles plan es s -> consoles plan es s').
Proof.
  intros (E1 & E2 & E3 & E4 & E5 & E6 & E7 & E8 & E9 & E10 & E11 & E12 & E13 & E14) [].
  split_and!; [split; by rewrite ?E1, ?E2, ?E3, ?E4, ?E5|intros []; split; by rewrite ?E1, ?E2, ?E8, ?E9, ?E10|].
  intros []; split; by rewrite ?E3, ?E11, ?E12.
Qed.

Lemma previous_inv plan es e s : inv plan es s -> inv plan es (set_previous e s).
Proof.
  intros [[] [] Hc]. split; [by split|by split|]. intros Hf. destruct (Hc Hf) as [[] []]. split; by split.
Qed.

Lemma step_inv plan v2 event es s s' :
  distinct plan -> inv plan es s -> step plan v2 event s = (s', None) ->
  exists e, decodes event e /\ inv plan (es ++ [e]) s'.
Proof.
  intros Hd [Hx Hb Hc] H. unfold step in H. destruct (admit_event event s) as [?|[e s1]] eqn:Ea; [done|].
  destruct (handle plan v2 e s1) as [?|s2] eqn:Eh; [done|]. simplify_eq.
  destruct (admit_event_spec _ _ _ _ _ Ea Hb) as (Hdec & Hb1 & Hrest & _). exists e. split; [done|].
  destruct (rest_inv plan es _ _ Hrest Hx) as (Hx1 & Hl1 & Hc1). pose proof (handle_frame _ _ _ _ _ Eh) as Hfr.
  apply previous_inv. split; [by eapply fixed_frame|by eapply base_frame|]. intros Hf.
  assert (Hf0 : lifecycleFailure s = None).
  { apply (fr_failure _ _ Hfr) in Hf. by rewrite <- (proj1 (proj2 (proj2 (proj2 (proj2 (proj2 Hrest)))))). }
  destruct (Hc Hf0) as [Hl Hco]. split; [eapply calm_snoc; [by apply Hl1|by eapply handle_calms]|].
  destruct (is_command e) eqn:Ec.
  - eapply consoles_command; eauto. unfold handle in Eh. unfold is_command in Ec. rewrite Ec in Eh.
    destruct (says (Type_ e) "TEST_PLAN") eqn:E1; [|done]. apply says_true in E1. rewrite E1 in Ec. vm_compute in Ec. done.
  - destruct (handle_console _ _ _ _ _ Eh Ec Hf) as (E1 & E2 & E3). by apply (consoles_quiet _ _ _ _ _ (Hc1 Hco)).
Qed.

Lemma consume_inv plan v2 l es s s' :
  distinct plan -> inv plan es s -> consume plan v2 l s = (s', None) ->
  exists es', Forall2 decodes l es' /\ inv plan (es ++ es') s'.
Proof.
  intros Hd. revert es s. induction l as [|event l IH]; intros es s Hi H; cbn in H.
  - simplify_eq. exists []. by rewrite app_nil_r.
  - destruct (step plan v2 event s) as [s1 [e|]] eqn:E; [done|].
    destruct (step_inv _ _ _ _ _ _ Hd Hi E) as (e & He & Hi1). destruct (IH _ _ Hi1 H) as (es' & Hes & Hi').
    exists (e :: es'). split; [by constructor|]. by rewrite <- app_assoc in Hi'.
Qed.

(** ** The end of the channel *)

Lemma finish_commands_failed k order s s' :
  finish_commands k order s = inr s' -> lifecycleFailure s <> None -> lifecycleFailure s' <> None.
Proof.
  revert k s. induction order as [|id order IH]; intros k s H Hf; cbn in H; [by simplify_eq|].
  destruct (commandTests s !! id); [|done]. branches; eapply IH; eauto. by destruct (failure c); [apply set_failure_none|].
Qed.

Lemma finish_commands_spec k order s s' :
  finish_commands k order s = inr s' -> lifecycleFailure s' = None ->
  s' = s /\
  forall j id, order !! j = Some id -> exists st, commandTests s !! id = Some st /\
    (timedOutCommandIndex s < 0 \/ k + Z.of_nat j <= timedOutCommandIndex s -> completionSeen st = true /\ failure st = false).
Proof.
  revert k s. induction order as [|id order IH]; intros k s H Hf; cbn in H; [by simplify_eq|].
  destruct (commandTests s !! id) as [st|] eqn:El; [|done]. branches.
  - destruct (IH _ _ H Hf) as [-> Hr]. split; [done|]. intros [|j] x Hx; [cbn in Hx; simplify_eq|].
    + exists st. split; [done|]. bool_norm. lia.
    + destruct (Hr j x Hx) as (y & Hy & Hc). exists y. split; [done|]. intros. apply Hc. lia.
  - destruct (failure st) eqn:Efs; [by apply finish_commands_failed in H; [|apply set_failure_none]|].
    destruct (IH _ _ H Hf) as [-> Hr]. split; [done|]. intros [|j] x Hx; [cbn in Hx; simplify_eq|].
    + exists st. bool_norm. by split.
    + destruct (Hr j x Hx) as (y & Hy & Hc). exists y. split; [done|]. intros. apply Hc. lia.
Qed.

(** A run without failures has no command that timed out, and every command has completed. *)
Lemma commands_settled plan es s s' :
  fixed plan s -> consoles plan es s -> finish_commands 0 (commandOrder s) s = inr s' -> lifecycleFailure s' = None ->
  s' = s /\ forall i test, Console plan !! i = Some test ->
    exists st, commandTests s !! TestID test = Some st /\ completionSeen st = true /\ failure st = false.
Proof.
  intros Hx [Hs _ _ Ht] H Hf. apply finish_commands_spec in H as [-> Hr]; [|done]. split; [done|].
  rewrite (f_order _ _ Hx) in Hr. change (@map) with (@fmap list _) in *.
  assert (Hlook : forall i test, Console plan !! i = Some test -> exists st, commandTests s !! TestID test = Some st /\
            (timedOutCommandIndex s < 0 \/ 0 + Z.of_nat i <= timedOutCommandIndex s -> completionSeen st = true /\ failure st = false)).
  { intros i test Hi. apply Hr. by rewrite list_lookup_fmap, Hi. }
  assert (Hnot : timedOutCommandIndex s < 0).
  { destruct (decide (timedOutCommandIndex s < 0)) as [|Hge]; [done|].
    destruct Ht as (i & test & st & Ei & Hi & Hst & Hto); [lia|]. destruct (Hlook _ _ Hi) as (st1 & E1 & Hc1).
    destruct (Hs _ _ Hi) as (st2 & E2 & Hp & _). simplify_eq. destruct Hc1 as [_ Hc1]; [right; lia|].
    by rewrite (p_timeout _ _ _ Hp Hto) in Hc1. }
  intros i test Hi. destruct (Hlook _ _ Hi) as (st & E & Hc). exists st. split; [done|]. apply Hc. by left.
Qed.

Lemma settled_pass plan es s :
  consoles plan es s ->
  (forall i test, Console plan !! i = Some test ->
     exists st, commandTests s !! TestID test = Some st /\ completionSeen st = true /\ failure st = false) ->
  Forall2 passes (Console plan) (map (fun t => trace (TestID t) es) (Console plan)).
Proof.
  intros [Hs _ _ _] Hc. change (@map) with (@fmap list _).
  apply Forall2_fmap_r, Forall2_same_length_lookup. split; [done|]. intros i test test' Hi Hi'. simplify_eq.
  destruct (Hc _ _ Hi) as (st & E & Hd & Hf). destruct (Hs _ _ Hi) as (st2 & E2 & Hp & _). simplify_eq.
  pose proof (p_stage _ _ _ Hp Hf) as Hst. by inversion Hst; try congruence.
Qed.

Lemma requirements_met plan es s :
  distinct plan -> fixed plan s -> calm plan es s ->
  existsb (fun kv => negb (snd kv)) (map_to_list (requirements s)) = false ->
  forall key r, requirementRoles (start plan) !! key = Some r -> is_Some (requirements (start plan) !! key) ->
    Exists (provides r key) es.
Proof.
  intros Hd Hx Hl Hall key r Hr Hk. rewrite <- elem_of_dom, <- (f_keys _ _ Hx), elem_of_dom in Hk. destruct Hk as [b Hb].
  assert (b = true) as ->.
  { destruct b; [done|]. exfalso. rewrite <- not_true_iff_false in Hall. apply Hall, existsb_exists.
    exists (key, false). split; [|done]. by apply list_elem_of_In, elem_of_map_to_list. }
  pose proof (l_required _ _ _ Hl _ Hb) as H. by rewrite (f_roles _ _ Hx), Hr in H.
Qed.

Lemma required_all n : n = length requiredProbeOrder -> take n requiredProbeOrder = requiredProbeOrder.
Proof. intros ->. apply firstn_all. Qed.

(** The checks [finish] makes before it reports no error. *)
Lemma finish_none plan s :
  finish plan s = None ->
  nextRequired s = length requiredProbeOrder /\ planLoaded s = true /\
  exists s', (if negb (zlen (Console plan) =? 0) && serverReadySatisfied s
              then if negb (planCompleted s) then inl "missing completed TEST_PLAN event" else finish_commands 0 (commandOrder s) s
              else inr s) = inr s' /\
    lifecycleFailure s' = None /\ existsb (fun kv => negb (snd kv)) (map_to_list (requirements s')) = false.
Proof.
  unfold finish. destruct (negb (Nat.eqb (nextRequired s) (length requiredProbeOrder))) eqn:En; [done|].
  destruct (negb (planLoaded s)) eqn:El; [done|]. bool_norm. apply Nat.eqb_eq in En.
  match goal with |- context [if negb (zlen _ =? 0) && _ then ?a else ?b] =>
    destruct (if negb (zlen (Console plan) =? 0) && serverReadySatisfied s then a else b) as [|s'] eqn:Ec; [done|] end.
  destruct (existsb _ _) eqn:Eq.
  - cbn [set_failure lifecycleFailure authoritativeClassification]. destruct (lifecycleFailure s'); by case_bool_decide.
  - intros H. split_and!; [done..|]. exists s'. split_and!; [done| |done].
    destruct (lifecycleFailure s'); [by case_bool_decide|done].
Qed.

(** What holds of the variables when [finish] reports no error. *)
Record settled (plan : testPlan) (es : list probeEnvelope) (s : lifecycle) : Prop := {
  s_required : filter (fun t => t ∈ requiredProbeOrder) (map Type_ es) = requiredProbeOrder;
  s_loaded : planLoaded s = true;
  s_calm : calm plan es s;
  s_consoles : consoles plan es s;
  s_commands : forall i test, Console plan !! i = Some test ->
    exists st, commandTests s !! TestID test = Some st /\ completionSeen st = true /\ failure st = false;
  s_completed : Console plan <> [] -> planCompleted s = true;
  s_met : existsb (fun kv => negb (snd kv)) (map_to_list (requirements s)) = false;
  s_failure : lifecycleFailure s = None;
}.

Lemma required_seen es t :
  filter (fun t => t ∈ requiredProbeOrder) (map Type_ es) = requiredProbeOrder ->
  existsb (fun x => bool_decide (x = bs t)) requiredProbeOrder = true -> bs t ∈ map Type_ es.
Proof. intros Hreq Ht%required_elem. rewrite <- Hreq in Ht. by apply list_elem_of_filter in Ht as [_ Ht]. Qed.

Lemma finish_settled plan es s : inv plan es s -> finish plan s = None -> settled plan es s.
Proof.
  intros [Hx Hb Hi] H. apply finish_none in H as (En & El & s' & Hc & Hf & Hq).
  pose proof (b_next _ _ Hb) as Hreq. rewrite required_all in Hreq by done.
  assert (Hf0 : lifecycleFailure s = None).
  { destruct (_ && _); [destruct (negb (planCompleted s)); [done|]|by simplify_eq].
    destruct (lifecycleFailure s) eqn:E; [|done]. exfalso. apply (finish_commands_failed _ _ _ _ Hc); [by rewrite E|done]. }
  destruct (Hi Hf0) as [Hl Hco]. destruct (l_ready _ _ _ Hl) as [Hrs _]; [apply required_seen; [done|vm_compute; done]|].
  rewrite Hrs, andb_true_r in Hc. destruct (negb (zlen (Console plan) =? 0)) eqn:Ez; bool_norm.
  - destruct (negb (planCompleted s)) eqn:Epc; [done|]. bool_norm.
    destruct (commands_settled _ _ _ _ Hx Hco Hc Hf) as [-> Hs]. by split.
  - simplify_eq. destruct (Console plan) as [|c l] eqn:Ec; [|rewrite zlen_cons in Ez; pose proof (zlen_nonneg l); lia].
    split; rewrite ?Ec; done || by intros [].
Qed.

Lemma finish_clean plan es s : distinct plan -> inv plan es s -> finish plan s = None -> clean_run plan es.
Proof.
  intros Hd Hi H. destruct (finish_settled _ _ _ Hi H) as [Hreq El Hl Hco Hs Hfin Hq _].
  pose proof (requirements_met _ _ _ Hd (i_fixed _ _ _ Hi) Hl Hq) as Hm. split.
  - done.
  - apply (l_harmless _ _ _ Hl).
  - by apply (l_loaded _ _ _ Hl).
  - apply (l_ready _ _ _ Hl), required_seen; [done|vm_compute; done].
  - apply (l_stopped _ _ _ Hl), required_seen; [done|vm_compute; done].
  - destruct (start_target _ Hd). by apply Hm.
  - intros d Hdep. destruct (start_dependency _ _ Hd Hdep). by apply Hm.
  - exists (map (fun t => trace (TestID t) es) (Console plan)). split; [apply (c_order _ _ _ Hco)|by eapply settled_pass].
  - apply (c_window _ _ _ Hco).
  - intros Hne. by apply (l_completed _ _ _ Hl), Hfin.
Qed.

(** C15: a lifecycle is validated without an error only when the channel is that of a clean
    run: every structured event is an envelope of an allowed type; the required events
    come once each and in order; the plan was loaded with its number of tests; the server
    reported its requirements met; the target and every required dependency were loaded and
    enabled; nothing was classified as a failure or raised an exception; the commands of
    the plan ran one after the other between readiness and shutdown, and each was
    registered, started, completed without truncated output, and had every one of its
    assertions evaluated and passed, once; and the server stopped as it was asked to.
    The recorded events are the types and the data of the envelopes, numbered from one. *)
Theorem lifecycle_sound {NO SN : Type} (output : @Executor.CollectedOutput NO SN Observation) plan v2 evs obs :
  distinct plan -> validateProbeLifecycleVersion output plan v2 = (evs, None, obs) ->
  exists es, Forall2 decodes (Executor.OStructuredEvents output) es /\ clean_run plan es /\
    map (fun e => (Kind e, Payload e)) evs = map (fun e => (Type_ e, Data e)) es /\
    (zlen es < 2 ^ 64 -> map Sequence evs = map (fun n => Z.of_nat n) (seq 1 (length es))).
Proof.
  unfold validateProbeLifecycleVersion. intros Hd H.
  repeat match type of H with (if ?b then _ else _) = _ => destruct b; [done|] end.
  destruct (consume _ _ _ _) as [s [e|]] eqn:E; [done|]. simplify_eq.
  destruct (consume_inv _ _ _ _ _ _ Hd (inv_start _ Hd) E) as (es & Hes & Hi). cbn in Hi. exists es.
  destruct Hi as [Hx Hb Hi]. split_and!; [done|by eapply finish_clean|by apply b_events|by apply b_numbers].
Qed.

(** ** A concrete run *)

Module Sample.

Definition envelope (type : string) (data : list (string * json)) : StructuredEvent :=
  {| Sequence := 0; Kind := probeEventKind;
     Payload := Marshal (JObject [(bs "timestamp", JString (bs "2026-11-16T09:00:00.5Z")); (bs "type", JString (bs type));
                                  (bs "data", JObject (map (fun kv => (bs (fst kv), snd kv)) data))]) |}.

Definition str (s : string) : json := JString (bs s).
Definition num (n : Z) : json := JNumber (itoa n).
Definition yes : json := JBool true.

Definition plan : testPlan := {|
  TargetPlugin := bs "Demo"; RequiredDependencies := [bs "Vault"]; StabilizationMilliseconds := 1000;
  Console := [{| TestID := bs "ping"; Command := bs "ping"; TimeoutSeconds := 5;
                 Assertions := [{| Stream := bs "stdout"; Operator := bs "regex"; Pattern := bs "pong";
                                   Match_ := bs "present"; MinimumOccurrences := None |}] |}] |}.

Definition requirement (role name : string) : StructuredEvent :=
  envelope "TARGET_REQUIREMENT" [("role", str role); ("name", str name); ("configured", yes); ("loaded", yes); ("enabled", yes)].

Definition startup : list StructuredEvent :=
  [envelope "PROBE_LOADED" []; envelope "TEST_PLAN" [("status", str "LOADED"); ("consoleTests", num 1)];
   envelope "SERVER_LOADED" []; envelope "STABILIZATION_STARTED" []; envelope "STABILIZATION_COMPLETED" [];
   requirement "TARGET" "demo"; requirement "REQUIRED_DEPENDENCY" "Vault";
   envelope "SERVER_READY" [("requirementsSatisfied", yes)]].

Definition ping (type : string) (data : list (string * json)) : StructuredEvent := envelope type (("testId", str "ping") :: data).

Definition command (truncated passed : bool) : list StructuredEvent :=
  [ping "COMMAND_REGISTRATION" [("registered", yes); ("status", str "REGISTERED")];
   ping "COMMAND_EXECUTION_STARTED" [("timeoutSeconds", num 5)];
   ping "COMMAND_OUTPUT" [("truncated", JBool truncated); ("capturedBytes", num 4); ("observedBytes", num 4)];
   ping "COMMAND_EXECUTION_COMPLETED" [("status", str "COMPLETED"); ("dispatched", yes)];
   ping "COMMAND_ASSERTION" [("assertionId", str "ping:1"); ("evaluated", yes); ("passed", yes)];
   ping "COMMAND_TEST_COMPLETED" [("passed", JBool passed)]].

Definition shutdown (passed : bool) : list StructuredEvent :=
  [envelope "TEST_PLAN" [("status", str "COMPLETED"); ("consoleTests", num 1); ("passed", JBool passed); ("timedOut", JBool false)];
   envelope "CLEAN_SHUTDOWN_REQUESTED" []; envelope "SERVER_STOPPED" [("shutdownRequested", yes)]].

Definition output (l : list StructuredEvent) : @Executor.CollectedOutput unit unit Observation := {|
  Executor.OMeasuredNetwork := None; Executor.OMeasuredRuntime := None; Executor.OTerminalObservations := [];
  Executor.OStdout := []; Executor.OStderr := []; Executor.OCapturedBytes := 0; Executor.OObservedBytes := 0;
  Executor.OOutputTruncated := false; Executor.OStructuredEvents := l; Executor.OCompleteLog := None;
  Executor.OEvidenceUsage := {|
    RawBytesObserved := 0; ECapturedBytes := 0; EStructuredEventCount := 0; EStructuredEventBytes := 0; ECompleteLogBytes := 0;
    ECompressedLogBytes := 0; ETruncatedLineCount := 0; EOutputTruncated := false; ECompleteLogState := [];
    ECompleteLogTruncated := false; EventsTruncated := false; EEventChannelMaximumBytes := 0; EEventChannelBufferedBytes := 0;
    EEventChannelResourceBytes := 0; EEventChannelOverflowed := false; EEventChannelRemoved := false |};
  Executor.OStructuredEventError := []; Executor.OResourceUsage := None |}.

Definition passing : @Executor.CollectedOutput unit unit Observation := output (startup ++ command false true ++ shutdown true).

Lemma plan_distinct : distinct plan.
Proof. split; apply (bool_decide_eq_true_1 _); vm_compute; reflexivity. Qed.

End Sample.

Lemma lifecycle_sound_witness :
  exists es, Forall2 decodes (Executor.OStructuredEvents Sample.passing) es /\ clean_run Sample.plan es.
Proof.
  destruct (lifecycle_sound Sample.passing Sample.plan false
              (validateProbeLifecycleVersion Sample.passing Sample.plan false).1.1
              (validateProbeLifecycleVersion Sample.passing Sample.plan false).2) as (es & Hes & Hc & _).
  - exact Sample.plan_distinct.
  - vm_compute. reflexivity.
  - exists es. exact (conj Hes Hc).
Defined.
