(* ===== verification/ProbeEvidence.v ===== *)
(** What the validation of a lifecycle ([Probe.v]) hands to terminal evidence
    ([Terminal.v]): on every path, refused channels included, the observations are ones
    terminal evidence has a value for, and those of a clean run have all passed. *)

From Stdlib Require Import ZifyBool.
From S2P Require Import Prelude Strconv Json Url JsonStruct Execution Terminal Probe ProbeInv.

Open Scope string_scope.
Open Scope list_scope.
Open Scope Z_scope.

Lemma accept_on_assertion d st : accept (bs "COMMAND_ASSERTION") d st = accept_assertion d st.
Proof. reflexivity. Qed.

#[local] Opaque bs requiredProbeOrder.

(** Terminal evidence has a value for it, unless an assertion claims to have passed on
    truncated output. *)
Definition supported_observation (o : Observation) : Prop :=
  is_Some (observationValue o) \/ (is_console (OType o) = true /\ Passed o = true /\ OutputTruncated o = true).

Definition passed_observation (o : Observation) : Prop := exists v, observationValue o = Some (v, bs "passed").

(** The state of a command, whether it failed or not. *)
Definition regular (st : commandProbeState) : Prop :=
  (started st = true -> registered st = true) /\ (executionCompleted st = true -> started st = true) /\
  (outputTruncated st = true -> failure st = true).

Lemma accept_regular t d st st' : accept t d st = inr st' -> regular st -> regular st'.
Proof.
  unfold accept, accept_registration, accept_started, accept_timeout, accept_output, accept_execution, accept_assertion,
    accept_completion, positive_timeout, regular. intros H (H1 & H2 & H3). branches; bool_norm; split_and!; cbn; intros;
    repeat match goal with H : (_ || _) = true |- _ => apply orb_true_iff in H as [?|?] end; bool_norm; subst; auto;
    try congruence; try (by rewrite H3); try (by rewrite orb_true_r).
Qed.

Lemma acceptClassification_regular code st st' : acceptClassification code st = inr st' -> regular st -> regular st' /\ failure st' = true.
Proof.
  unfold acceptClassification, regular. intros H (H1 & H2 & H3). by branches; split_and!; cbn.
Qed.

(** ** Each observation *)

Lemma startup_supported ok : supported_observation (startup_ready true true true ok).
Proof. left. vm_compute. by eexists. Qed.

Lemma plugin_supported kind n l e :
  kind ∈ [bs "plugin-enabled"; bs "dependency-present"] -> (e = true -> l = true) -> supported_observation (plugin_state kind n l e).
Proof.
  intros Hk He. left. unfold observationValue. cbn [OType plugin_state Enabled Loaded].
  rewrite bool_decide_eq_false_2, bool_decide_eq_true_2 by (done || (intros ->; by vm_compute in Hk; apply list_elem_of_In in Hk as [|[|[]]])).
  destruct e, l; cbn; eauto; by specialize (He eq_refl).
Qed.

Lemma plugin_passed kind n :
  kind ∈ [bs "plugin-enabled"; bs "dependency-present"] -> passed_observation (plugin_state kind n true true).
Proof. intros [->|[->|[]%not_elem_of_nil]%elem_of_cons]%elem_of_cons; eexists; vm_compute; reflexivity. Qed.

Lemma assertion_shape v2 test id d st ev pa o :
  requiredBoolean d "evaluated" = inr ev -> requiredBoolean d "passed" = inr pa ->
  o ∈ assertion_observations v2 test id d st ->
  exists kind a, kind ∈ [bs "console-regex"; bs "console-contains"] /\
    o = console_assertion kind id a (registered st) (executionCompleted st) ev pa (outputTruncated st).
Proof.
  intros He Hp Ho. unfold assertion_observations in Ho. rewrite He, Hp in Ho.
  apply list_elem_of_In, in_concat in Ho as (l & Hl & Ho). apply list_elem_of_In, elem_of_lookup_imap in Hl as (n & a & -> & _).
  destruct (_ && _); [|done]. destruct Ho as [<-|[]]. eexists _, _. split; [|reflexivity].
  destruct (says (Operator a) "contains"); set_solver.
Qed.

Lemma console_value kind id a ev pa tr :
  kind ∈ [bs "console-regex"; bs "console-contains"] -> (ev = false -> pa = false /\ tr = true) ->
  let o := console_assertion kind id a true true ev pa tr in
  supported_observation o /\ (ev = true -> pa = true -> tr = false -> passed_observation o).
Proof.
  intros [->|[->|[]%not_elem_of_nil]%elem_of_cons]%elem_of_cons He; cbn zeta; destruct ev, pa, tr;
    try (by destruct (He eq_refl)); (split; [|intros; try done]);
    first [left; vm_compute; by eexists|right; by vm_compute|eexists; vm_compute; reflexivity].
Qed.

(** The observations of an assertion that was accepted: supported, and passed unless the
    command has failed. *)
Lemma assertion_observed v2 test id d st st' o :
  accept_assertion d st = inr st' -> regular st -> o ∈ assertion_observations v2 test id d st' ->
  supported_observation o /\ (failure st' = false -> passed_observation o).
Proof.
  intros H (Hr & Hs & Ht) Ho. unfold accept_assertion in H. branches; bool_norm.
  all: assert (Hx : executionCompleted st = true) by done.
  - destruct (assertion_shape _ _ _ _ _ _ _ _ Heqr0 Heqr1 Ho) as (kind & a & Hk & ->). cbn.
    rewrite Hr, Hx by auto. subst. destruct (console_value kind id a false false (outputTruncated st) Hk); [auto|].
    split; [done|]. by rewrite Ht.
  - destruct (assertion_shape _ _ _ _ _ _ _ _ Heqr0 Heqr1 Ho) as (kind & a & Hk & ->). cbn.
    rewrite Hr, Hx by auto. subst. destruct (console_value kind id a true b0 (outputTruncated st) Hk) as [Hsup Hpass]; [done|].
    split; [done|]. intros Hf. apply orb_false_iff in Hf as [Hf Hb]. apply negb_false_iff in Hb. subst. apply Hpass; try done.
    destruct (outputTruncated st); [|done]. by rewrite Ht in Hf.
Qed.

Lemma decodeRequirement_loaded d r : decodeRequirement d = inr r -> enabled r = true -> loaded r = true.
Proof.
  unfold decodeRequirement. destruct (object_of d); [|done]. destruct (decode_struct _ _ _ _) as [[? [|? ?] [] [] []]|]; try done.
  intros H He. branches. cbn in *. subst. bool_norm. by destruct b0.
Qed.

(** ** The observations of a channel *)

Record watched (plan : testPlan) (s : lifecycle) : Prop := {
  w_regular : forall id st, commandTests s !! id = Some st -> regular st;
  w_supported : Forall supported_observation (observations s);
  w_passed : lifecycleFailure s = None ->
    Forall (fun o => passed_observation o \/ exists id st, commandTests s !! id = Some st /\ failure st = true) (observations s);
}.

Lemma watched_start plan : watched plan (start plan).
Proof.
  split; cbn; try done. intros id st H.
  apply (inserts_value TestID newCommandProbeState regular) in H; [done| |by repeat split].
  intros k v Hk. by rewrite lookup_empty in Hk.
Qed.

(** A step that adds [os] and changes the command [id] at most. *)
Lemma watched_step plan s s' os :
  watched plan s -> observations s' = observations s ++ os ->
  (forall id st', commandTests s' !! id = Some st' -> regular st') ->
  (forall id st, commandTests s !! id = Some st -> failure st = true ->
     exists st', commandTests s' !! id = Some st' /\ failure st' = true) ->
  (lifecycleFailure s' = None -> lifecycleFailure s = None) ->
  Forall supported_observation os ->
  (lifecycleFailure s' = None ->
   Forall (fun o => passed_observation o \/ exists id st, commandTests s' !! id = Some st /\ failure st = true) os) ->
  watched plan s'.
Proof.
  intros [Hr Hs Hp] Eo Hreg Hkept Hnone Hsup Hpass. split; [done|rewrite Eo; by apply Forall_app|].
  intros Hf. rewrite Eo. apply Forall_app. split; [|by apply Hpass].
  eapply Forall_impl; [by apply Hp, Hnone|]. intros o [?|(id & st & Hl & Hst)]; [by left|right].
  destruct (Hkept _ _ Hl Hst) as (st' & ? & ?). by exists id, st'.
Qed.

(** A turn that leaves the commands alone. *)
Lemma watched_quiet plan s s' os :
  watched plan s -> observations s' = observations s ++ os -> commandTests s' = commandTests s ->
  (lifecycleFailure s' = None -> lifecycleFailure s = None) ->
  Forall supported_observation os -> (lifecycleFailure s' = None -> Forall passed_observation os) -> watched plan s'.
Proof.
  intros Hw Eo Ec Hn Hs Hp. eapply watched_step; [done..| | | | |].
  - rewrite Ec. apply (w_regular _ _ Hw).
  - rewrite Ec. eauto.
  - done.
  - done.
  - intros Hf. eapply Forall_impl; [by apply Hp|]. by left.
Qed.

Lemma NoDup_required : NoDup requiredProbeOrder.
Proof. apply (bool_decide_eq_true_1 _). vm_compute. reflexivity. Qed.

(** The required events before one that has come have come as well. *)
Lemma required_before es e s i j t :
  base (es ++ [e]) s -> requiredProbeOrder !! i = Some (Type_ e) -> requiredProbeOrder !! j = Some (bs t) -> (j < i)%nat ->
  seen s t = true.
Proof.
  intros [Hn Hs _ _] Hi Hj Hlt. unfold seen. apply bool_decide_eq_true, Hs; [by eapply list_elem_of_lookup_2|].
  assert (He : Type_ e ∈ take (nextRequired s) requiredProbeOrder).
  { rewrite <- Hn. apply list_elem_of_filter. split; [by eapply list_elem_of_lookup_2|]. rewrite map_app. set_solver. }
  apply list_elem_of_lookup in He as [k Hk]. apply lookup_take_Some in Hk as [Hk Hkn].
  assert (k = i) as -> by (eapply NoDup_lookup; [apply NoDup_required|done|done]).
  assert (Ht : bs t ∈ take (nextRequired s) requiredProbeOrder).
  { apply list_elem_of_lookup. exists j. apply lookup_take_Some. split; [done|lia]. }
  rewrite <- Hn in Ht. by apply list_elem_of_filter in Ht as [_ Ht].
Qed.

Lemma command_watched plan v2 t d s s' : on_command plan v2 t d s = inr s' -> watched plan s -> watched plan s'.
Proof.
  intros H Hw. pose proof H as Hs. apply on_command_spec in Hs as (_ & _ & id & st & i & st' & Hid & Hst & Ha & Ec & _).
  apply commandStateForEvent_spec in Hst as Hl. destruct Hl as (Hl & _).
  pose proof (w_regular _ _ Hw _ _ Hl) as Hr. pose proof (accept_regular _ _ _ _ Ha Hr) as Hr'.
  assert (Hobs : exists os, observations s' = observations s ++ os /\ lifecycleFailure s' = lifecycleFailure s /\
                   Forall (fun o => supported_observation o /\ (failure st' = false -> passed_observation o)) os).
  { unfold on_command in H. rewrite Hid, Hst, Ha in H. branches. cbn.
    destruct (Console plan !! Z.to_nat i) as [test|]; [|exists []; cbn; by rewrite app_nil_r].
    destruct (says t "COMMAND_ASSERTION") eqn:Et; [|exists []; cbn; by rewrite app_nil_r].
    eexists. cbn. split_and!; [done..|]. apply Forall_forall. intros o Ho. apply (assertion_observed v2 test id d st); [|done|done].
    apply says_true in Et. by rewrite Et, accept_on_assertion in Ha. }
  destruct Hobs as (os & Eo & Ef & Hos). eapply watched_step; [done|done|..].
  - intros x y. rewrite Ec. intros [[_ <-]|[_ Hx]]%lookup_insert_Some; [done|by eapply w_regular].
  - intros x y Hx Hy. rewrite Ec. destruct (decide (x = id)) as [->|Hne].
    + simplify_eq. exists st'. rewrite lookup_insert_eq. split; [done|by eapply accept_failure].
    + exists y. by rewrite lookup_insert_ne.
  - congruence.
  - eapply Forall_impl; [done|]. by intros o [? _].
  - intros _. eapply Forall_impl; [done|]. intros o [_ Hp]. destruct (failure st') eqn:Ex; [right|left; by apply Hp].
    exists id, st'. by rewrite Ec, lookup_insert_eq.
Qed.

Lemma requirement_watched plan d s s' : on_requirement d s = inr s' -> watched plan s -> watched plan s'.
Proof.
  unfold on_requirement. intros H Hw. branches. pose proof (decodeRequirement_loaded _ _ Heqr) as Hl.
  assert (Hnone : forall x, lifecycleFailure (if satisfied p then x else set_failure "plugin requirement %q was not loaded and enabled" x) = None ->
                  satisfied p = true /\ lifecycleFailure x = None).
  { intros x. destruct (satisfied p); [done|]. by intros Hf%set_failure_none. }
  assert (Hkind : (if says (role p) "TARGET" then bs "plugin-enabled" else bs "dependency-present")
                  ∈ [bs "plugin-enabled"; bs "dependency-present"]) by (destruct (says _ _); set_solver).
  destruct (requirements s !! lower_runes (name p)) as [ok|]; branches.
  - eapply (watched_quiet plan s _ [_]); [done|by destruct (satisfied p)|by destruct (satisfied p)|by intros [_ Hf]%Hnone| |].
    + constructor; [|done]. by apply plugin_supported.
    + intros [Hsat _]%Hnone. constructor; [|done]. unfold satisfied in Hsat. bool_norm.
      match goal with H : loaded p = true, H' : enabled p = true |- _ => rewrite H, H' end. by apply plugin_passed.
  - eapply (watched_quiet plan _ _ []); [done| |by destruct (satisfied p)|by intros [_ Hf]%Hnone|done|done].
    rewrite app_nil_r. by destruct (satisfied p).
Qed.

Lemma classification_watched plan d s s' : on_classification d s = inr s' -> watched plan s -> watched plan s'.
Proof.
  intros H Hw. pose proof (classification_fails _ _ _ H) as Hf. unfold on_classification in H. branches.
  - match goal with H : commandStateForEvent _ _ = inr _ |- _ => apply commandStateForEvent_spec in H as (Hl & _) end.
    match goal with H : acceptClassification _ _ = inr _ |- _ =>
      apply acceptClassification_regular in H as [Hr Hx]; [|by eapply w_regular] end.
    eapply (watched_step plan s _ []); [done|by rewrite app_nil_r| | |done..].
    + intros x y. cbn. intros [[_ <-]|[_ Hy]]%lookup_insert_Some; [done|by eapply w_regular].
    + intros x y Hxl Hy. cbn. destruct (decide (x = l1)) as [->|Hne]; [rewrite lookup_insert_eq|rewrite lookup_insert_ne by done]; eauto.
  - eapply (watched_quiet plan _ _ []); [done|by rewrite app_nil_r|done..].
Qed.

Lemma test_plan_watched plan d s s' : on_test_plan plan d s = inr s' -> watched plan s -> watched plan s'.
Proof.
  intros H Hw. assert (Hq : observations s' = observations s /\ commandTests s' = commandTests s /\
                            (lifecycleFailure s' = None -> lifecycleFailure s = None)).
  { unfold on_test_plan in H. branches; repeat case_match; split_and!; cbn; try done; by case_match. }
  destruct Hq as (Eo & Ec & Hn). apply (watched_quiet plan s s' []); try done. by rewrite app_nil_r.
Qed.

Lemma handle_watched plan v2 es e s s' :
  base (es ++ [e]) s -> handle plan v2 e s = inr s' -> watched plan s -> watched plan s'.
Proof.
  intros Hb H Hw. unfold handle in H.
  assert (Hnil : forall x, lifecycleFailure x = None \/ x = s -> True) by done.
  destruct (says (Type_ e) "TEST_PLAN"); [by eapply test_plan_watched|].
  destruct (one_of (Type_ e) commandEvents); [by eapply command_watched|].
  destruct (says (Type_ e) "TARGET_REQUIREMENT"); [by eapply requirement_watched|].
  destruct (says (Type_ e) "CLASSIFICATION"); [by eapply classification_watched|].
  destruct (says (Type_ e) "LIFECYCLE_EXCEPTION").
  { branches. eapply (watched_quiet plan s _ []); [done|by rewrite app_nil_r|done|by intros Hf%set_failure_none|done|done]. }
  destruct (says (Type_ e) "METADATA_INSPECTION"); [by branches|].
  destruct (says (Type_ e) "SERVER_READY") eqn:Er.
  { apply says_true in Er. assert (Hi : requiredProbeOrder !! 4%nat = Some (Type_ e)) by (rewrite Er; by vm_compute).
    branches. rewrite (required_before es e s 4 1 "SERVER_LOADED" Hb Hi) by (lia || by vm_compute).
    rewrite (required_before es e s 4 3 "STABILIZATION_COMPLETED" Hb Hi) by (lia || by vm_compute).
    apply (watched_quiet plan s _ [startup_ready true true true b]); [done|by destruct b|by destruct b| | |].
    - destruct b; [done|]. by intros Hf%set_failure_none.
    - constructor; [|done]. apply startup_supported.
    - destruct b; [|by intros Hf%set_failure_none]. intros _. constructor; [|done]. eexists. vm_compute. reflexivity. }
  destruct (says (Type_ e) "SERVER_STOPPED") eqn:Es; [|by branches].
  apply says_true in Es. assert (Hi : requiredProbeOrder !! 6%nat = Some (Type_ e)) by (rewrite Es; by vm_compute).
  branches. rewrite (required_before es e s 6 5 "CLEAN_SHUTDOWN_REQUESTED" Hb Hi) by (lia || by vm_compute).
  apply (watched_quiet plan s _ [clean_shutdown true true b]); [done|by destruct b|by destruct b| | |].
  - destruct b; [done|]. by intros Hf%set_failure_none.
  - constructor; [|done]. left. vm_compute. by eexists.
  - destruct b; [|by intros Hf%set_failure_none]. intros _. constructor; [|done]. eexists. vm_compute. reflexivity.
Qed.

Lemma rest_watched plan s s' : same_rest s s' -> watched plan s -> watched plan s'.
Proof.
  intros (_ & _ & Ec & _ & _ & Ef & _ & _ & _ & _ & _ & _ & _ & Eo) [Hr Hs Hp].
  split; rewrite ?Ec, ?Eo, ?Ef; done.
Qed.

Lemma step_watched plan v2 event es s s' err :
  distinct plan -> inv plan es s -> watched plan s -> step plan v2 event s = (s', err) ->
  watched plan s' /\ (err = None -> exists e, inv plan (es ++ [e]) s').
Proof.
  intros Hd Hi Hw H. split.
  - unfold step in H. destruct (admit_event event s) as [?|[e s1]] eqn:Ea; [by simplify_eq|].
    destruct (admit_event_spec _ _ _ _ _ Ea (i_base _ _ _ Hi)) as (_ & Hb1 & Hrest & _).
    pose proof (rest_watched _ _ _ Hrest Hw) as Hw1. destruct (handle plan v2 e s1) as [?|s2] eqn:Eh; simplify_eq; [done|].
    destruct (handle_watched _ _ _ _ _ _ Hb1 Eh Hw1) as [Hr Hs Hp]. by split.
  - intros ->. destruct (step_inv _ _ _ _ _ _ Hd Hi H) as (e & _ & ?). by exists e.
Qed.

Lemma consume_watched plan v2 l es s s' err :
  distinct plan -> inv plan es s -> watched plan s -> consume plan v2 l s = (s', err) -> watched plan s'.
Proof.
  intros Hd. revert es s. induction l as [|event l IH]; intros es s Hi Hw H; cbn in H; [by simplify_eq|].
  destruct (step plan v2 event s) as [s1 e1] eqn:E.
  destruct (step_watched _ _ _ _ _ _ _ Hd Hi Hw E) as [Hw1 Hi1]. destruct e1; [by simplify_eq|].
  destruct (Hi1 eq_refl) as [e He]. by eapply IH.
Qed.

(** C16: the observations that validation projects fit terminal evidence. On every path,
    also when the channel is refused, terminal evidence has a value for each of them: a
    readiness comes with its earlier stages, a shutdown with its request, an enabled plugin
    with its loading, an assertion with a registered and completed command. The one
    exception is an assertion reported as passed on truncated output, which terminal
    evidence refuses. The observations of a clean run have all passed. *)
Theorem observations_fit {NO SN : Type} (output : @Executor.CollectedOutput NO SN Observation) plan v2 :
  distinct plan ->
  let '(_, err, obs) := validateProbeLifecycleVersion output plan v2 in
  Forall supported_observation obs /\ (err = None -> Forall passed_observation obs).
Proof.
  unfold validateProbeLifecycleVersion. intros Hd.
  repeat match goal with |- context [if ?b then _ else _] => destruct b; [by repeat constructor|] end.
  destruct (consume _ _ _ _) as [s err] eqn:E. pose proof (inv_start _ Hd) as Hi0.
  pose proof (consume_watched _ _ _ _ _ _ _ Hd Hi0 (watched_start plan) E) as [Hr Hs Hp].
  destruct err as [e|]; [by split|]. split; [done|]. intros Hf.
  destruct (consume_inv _ _ _ _ _ _ Hd Hi0 E) as (es & _ & Hi). cbn in Hi.
  destruct (finish_settled _ _ _ Hi Hf) as [_ _ _ _ Hc _ _ Hn].
  eapply Forall_impl; [by apply Hp|]. intros o [?|(id & st & Hl & Hst)]; [done|]. exfalso.
  assert (Hin : id ∈ map TestID (Console plan)) by (apply (f_tests _ _ (i_fixed _ _ _ Hi)); by rewrite Hl).
  apply list_elem_of_fmap in Hin as (test & -> & Hin). apply list_elem_of_lookup in Hin as [i Hti].
  destruct (Hc _ _ Hti) as (st' & E' & _ & Hf'). congruence.
Qed.

Lemma observations_fit_witness :
  let '(_, err, obs) := validateProbeLifecycleVersion Sample.passing Sample.plan false in
  Forall supported_observation obs /\ (err = None -> Forall passed_observation obs).
Proof. apply (observations_fit Sample.passing Sample.plan false). exact Sample.plan_distinct. Defined.

(** The exception is real: a probe may report an assertion as passed on truncated output,
    the channel is validated to its end, and terminal evidence has no value for it. *)
Example truncated_pass_refused :
  exists o, (validateProbeLifecycleVersion (Sample.output (Sample.startup ++ Sample.command true false ++ Sample.shutdown false))
               Sample.plan false).2 !! 3%nat = Some o /\ observationValue o = None.
Proof. eexists. split; vm_compute; reflexivity. Qed.
