(* ===== verification/Offer.v ===== *)
(** What the gateway client checks before it believes a message
    ([src/internal/gatewayclient]): identifiers and times ([config.go], [client.go]),
    job correlation and features ([job_correlation.go]), test-secret selections
    ([src/internal/testsecrets/selection.go]), plugin names
    ([src/internal/pluginname/paper.go]), upload targets ([complete_log_upload.go])
    and lease offers ([offer_validation.go]). *)

From Stdlib Require Import ZifyBool.
From S2P Require Import Prelude Utf8 Strconv Json Sha256 GuestOutput Execution Policy Binder Messages Url JsonStruct.
Import Names Wire.

(** * Texts, times and features *)

Module Checks.

Definition MaximumMessageBytes : Z := 64 * 2 ^ 10.
Definition maximumIdentifierBytes : Z := 128.
Definition maximumReasonBytes : Z := 1024.
Definition Second : Z := 1000000000.
Definition Minute : Z := 60 * Second.
Definition maximumClockSkew : Z := 10 * Minute.

(** [^[A-Za-z0-9][A-Za-z0-9._:/-]*$] and [^[A-Za-z0-9][A-Za-z0-9._+:/-]*$] *)
Definition pattern (more : string) (s : bytes) : bool :=
  match s with
  | [] => false
  | b :: rest => alphanumeric b && forallb (fun b => alphanumeric b || one_of more b) rest
  end.

Definition identifierPattern : bytes -> bool := pattern "._:/-".
Definition versionPattern : bytes -> bool := pattern "._+:/-".

(** [^[0-9A-Fa-f]{8}-[0-9A-Fa-f]{4}-[0-9A-Fa-f]{4}-[0-9A-Fa-f]{4}-[0-9A-Fa-f]{12}$] *)
Definition uuidPattern (s : bytes) : bool := jobID (to_lower s).

(** The validators return whether they find no error. *)
Definition validateIdentifier (value : bytes) (maximum : Z) : bool :=
  negb (zlen value =? 0) && (zlen value <=? maximum) && identifierPattern value.

Definition validateUUID (value : bytes) : bool := uuidPattern value.

Definition validateBoundedText (value : bytes) (minimum maximum : Z) : bool :=
  Utf8.Valid value && (minimum <=? zlen value) && (zlen value <=? maximum) && bool_decide (TrimSpace value = value).

(** A label of a host name made of the letters [letter] accepts. *)
Definition host_label (letter : Z -> bool) (label : bytes) : bool :=
  (1 <=? zlen label) && (zlen label <=? 63) && negb (bool_decide (head label = Some 0x2D))
  && negb (bool_decide (last label = Some 0x2D)) && forallb (fun c => letter c || is_digit c || (c =? 0x2D)) label.

Definition validHost (host : bytes) : bool :=
  is_ip host
  || ((1 <=? zlen host) && (zlen host <=? 253) && forallb (host_label (fun c => is_lower c || is_upper c)) (split_on 0x2E host)).

(** [net.SplitHostPort]; [None] is an error. *)
Definition SplitHostPort (hostport : bytes) : option (bytes * bytes) :=
  match last_index_byte 0x3A hostport with
  | None => None
  | Some i =>
      match hostport with
      | 0x5B :: _ =>
          match index_byte 0x5D hostport with
          | None => None
          | Some close =>
              let host := drop 1 (take close hostport) in
              if (S close =? i)%nat && negb (contains 0x5B (drop 1 hostport)) && negb (contains 0x5D (drop (S close) hostport))
              then Some (host, drop (S i) hostport) else None
          end
      | _ =>
          let host := take i hostport in
          if contains 0x3A host || contains 0x5B hostport || contains 0x5D hostport then None
          else Some (host, drop (S i) hostport)
      end
  end.

(** Whether the text occurs in another. *)
Fixpoint occurs (sub s : bytes) : bool :=
  has_prefix sub s || match s with [] => false | _ :: rest => occurs sub rest end.

Definition validateGatewayAddress (address : bytes) : bool :=
  bool_decide (address = TrimSpace address) && negb (occurs (bs "://") address)
  && match SplitHostPort address with
     | None => false
     | Some (host, port) =>
         validHost host && match parse_uint 16 port with Some p => negb (p =? 0) | None => false end
     end.

Section times.
Context `{TS : Timestamps}.

Definition validateTimestamp (value : option Timestamp) : bool :=
  match value with Some t => TimestampValid t | None => false end.

(** [value.AsTime()]; of a missing timestamp it is the Unix epoch. *)
Definition unix_epoch : Z := 62135596800 * Second.
Definition as_time (value : option Timestamp) : Z := match value with Some t => AsTime t | None => unix_epoch end.

Definition validateTimestampNear (value : option Timestamp) (now : Z) : bool :=
  validateTimestamp value
  && (let difference := saturate (as_time value - now) in
      (- maximumClockSkew <=? difference) && (difference <=? maximumClockSkew)).

End times.

Definition validateDuration `{PolicyCodec} (value : option Duration) (minimum maximum : Z) : bool :=
  match value with
  | None => false
  | Some d => CheckValid d && (minimum <=? AsDuration value) && (AsDuration value <=? maximum)
  end.

Export GuestOutput.PluginName(ValidPaper).

(** ** Features *)

Definition advertisedFeature (features : list Z) (wanted : Z) : bool := existsb (Z.eqb wanted) features.

Section features.
Context `{GatewayProto}.

Definition known_features : list Z := [
  FEATURE_DURABLE_LEASE_ACKNOWLEDGEMENTS; FEATURE_CREDENTIAL_ROTATION; FEATURE_JOB_CORRELATION_V1;
  FEATURE_RESTART_UPLOAD_RECOVERY; FEATURE_OBJECT_UPLOAD_IDENTITY; FEATURE_TERMINAL_EVIDENCE_V1;
  FEATURE_TERMINAL_EVIDENCE_V2; FEATURE_NETWORK_POLICY_V2; FEATURE_NETWORK_AUTHORITY_V2; FEATURE_TEST_SECRETS_V1].

Fixpoint features_known (seen features : list Z) : bool :=
  match features with
  | [] => true
  | f :: rest => existsb (Z.eqb f) known_features && negb (existsb (Z.eqb f) seen) && features_known (f :: seen) rest
  end.

Definition validateAdvertisedFeatures (features : list Z) : bool :=
  features_known [] features
  && (negb (advertisedFeature features FEATURE_NETWORK_POLICY_V2 || advertisedFeature features FEATURE_NETWORK_AUTHORITY_V2)
      || forallb (advertisedFeature features) [1; 3; 7; 9; 10]).

End features.
End Checks.

Import Checks.

(** * Rejections *)

Record OfferRejection := { Reason : Z; RCode : bytes; RMessage : bytes }.

Definition maximumOfferDependencies : Z := 128.
Definition maximumAttemptNumber : Z := 1000000.
Definition maximumDownloadURIBytes : Z := 4096.
Definition maximumFilenameBytes : Z := 255.
Definition maximumOfferDetailBytes : Z := 256.
Definition minimumLeaseDuration : Z := Second.
Definition maximumLeaseDuration : Z := 24 * 60 * Minute.

(** ** Configuration of the client *)

Inductive ScopeKind := ScopePlatform | ScopeOrganization | ScopeOther.

Record ExpectedScope := { Kind : ScopeKind; OrganizationID : bytes }.

Record ResourceBounds := { CPUMillis : Z; MemoryBytes : Z; DiskBytes : Z; ProcessCount : Z }.

Record OfferConfig := {
  Scope : ExpectedScope; Bounds : ResourceBounds; EnableTestSecrets : bool; EnableTerminalEvidenceV2 : bool;
  DisableTerminalEvidence : bool;
}.

(** * Test-secret selections *)

Module Selection.

(** Every object of the value has distinct keys, and nothing is nested deeper than
    [depth]. *)
Fixpoint uniqueJSONValue (depth : nat) (v : json) : bool :=
  match depth with
  | O => false
  | S depth =>
      match v with
      | JObject ms => bool_decide (NoDup (map fst ms)) && forallb (fun m => uniqueJSONValue depth (snd m)) ms
      | JArray vs => forallb (uniqueJSONValue depth) vs
      | _ => true
      end
  end.

(** An object with integer values, as [json.Unmarshal] stores it in a
    [map[string]uint64]; [None] is an error. *)
Fixpoint integers (ms : list (bytes * json)) : option (list (bytes * Z)) :=
  match ms with
  | [] => Some []
  | (k, v) :: ms =>
      match match v with JNumber n => parse_uint 64 n | JNull => Some 0 | _ => None end, integers ms with
      | Some n, Some rest => Some ((k, n) :: rest)
      | _, _ => None
      end
  end.

(** The selection of a configuration whose keys are distinct. *)
Definition selection_of (ms : list (bytes * json)) : option (list (bytes * Z)) :=
  match member (bs "tests") ms with
  | None => Some []
  | Some (JObject tests) =>
      match member (bs "secrets") tests with
      | None => Some []
      | Some (JObject secrets) => integers secrets
      | Some _ => None
      end
  | Some _ => None
  end.

(** [^[a-z][a-z0-9]*([._-][a-z0-9]+)*$]: [after] is whether a letter or digit must come next. *)
Fixpoint name_tail (after : bool) (s : bytes) : bool :=
  match s with
  | [] => negb after
  | c :: rest =>
      if is_lower c || is_digit c then name_tail false rest
      else one_of "._-" c && negb after && name_tail true rest
  end.

Definition selectionName (s : bytes) : bool :=
  match s with c :: rest => is_lower c && name_tail false rest | [] => false end.

Definition selectionUUID : bytes -> bool := jobID.

Fixpoint references_ok (selection : list (bytes * Z)) (seen : list bytes) (previous : bytes)
    (refs : list (option TestSecretReference)) : bool :=
  match refs with
  | [] => true
  | None :: _ => false
  | Some ref :: refs =>
      (zlen (sunknown ref) =? 0) && selectionName (SName ref) && (zlen (SName ref) <=? 63)
      && (bytes_compare previous (SName ref) <? 0) && selectionUUID (SecretId ref)
      && negb (bool_decide (SecretId ref = nilID)) && negb (bool_decide (SecretId ref ∈ seen))
      && negb (SVersion ref =? 0) && (SVersion ref <=? 9007199254740991)
      && bool_decide (default 0 (snd <$> List.find (fun m => bool_decide (fst m = SName ref)) selection) = SVersion ref)
      && references_ok selection (SecretId ref :: seen) (SName ref) refs
  end.

Definition ValidateSelection `{Timestamps} (job : option JobSpecification) : bool :=
  match job with
  | None => false
  | Some job =>
      let raw := NormalizedConfigurationJson job in
      let trimmed := TrimSpace raw in
      if (zlen raw =? 0) || (65536 <? zlen raw) || (64 <? zlen (TestSecrets job)) then false
      else if (zlen trimmed =? 0) || negb (bool_decide (head trimmed = Some 0x7B)) || negb (Utf8.Valid trimmed) then false
      else
        match Json.parse raw with
        | Some (JObject ms) =>
            uniqueJSONValue 65 (JObject ms)
            && match selection_of ms with
               | None => false
               | Some selection =>
                   (zlen selection =? zlen (TestSecrets job)) && references_ok selection [] [] (TestSecrets job)
               end
        | _ => false
        end
  end.

End Selection.

Import Selection.

(** * Offers *)

Section offers.
Context `{TS : Timestamps} `{PB : RunnerProto} `{GP : !GatewayProto} `{CODEC : PolicyCodec}.

(** What the checks use of the protobuf library and of the package
    [src/internal/terminalevidence]. *)
Class OfferCodec := {
  SizeOffer : LeaseOffer -> Z;
  MarshalEnvironment : option ResolvedEnvironment -> option bytes;
  NewContextV2 : JobSpecification -> bool;
}.

Context `{OC : OfferCodec}.

Definition reject (reason : Z) (code message : bytes) : option OfferRejection :=
  Some {| Reason := reason; RCode := code; RMessage := message |}.

Definition rejectUnsupported (code message : string) : option OfferRejection := reject REASON_UNSUPPORTED (bs code) (bs message).

Definition rejectPolicy (code message : string) : option OfferRejection := reject REASON_POLICY (bs code) (bs message).

(** The first rejection of several checks. *)
Definition orelse (a b : option OfferRejection) : option OfferRejection := match a with Some r => Some r | None => b end.

Infix "<or>" := orelse (at level 60, right associativity).

Definition when (condition : bool) (r : option OfferRejection) : option OfferRejection := if condition then r else None.

(** ** Correlation *)

Definition jobCorrelationTraceparentBytes : Z := 55.
Definition jobCorrelationWorkflowBytes : Z := 44.
Definition jobCorrelationWorkflowPrefix : bytes := bs "release/".
Definition zeroUUID : bytes := bs "00000000-0000-0000-0000-000000000000".

Definition slice (s : bytes) (i j : nat) : bytes := take (j - i) (drop i s).

Definition lowerHex (value : bytes) : bool := forallb is_hex value.

Definition allZeroHex (value : bytes) : bool := forallb (Z.eqb 0x30) value.

Definition validTraceparent (value : bytes) : bool :=
  (zlen value =? jobCorrelationTraceparentBytes) && bool_decide (slice value 0 3 = bs "00-")
  && bool_decide (value !! 35%nat = Some 0x2D) && bool_decide (value !! 52%nat = Some 0x2D)
  && lowerHex (slice value 3 35) && lowerHex (slice value 36 52) && lowerHex (slice value 53 55)
  && negb (allZeroHex (slice value 3 35)) && negb (allZeroHex (slice value 36 52))
  && (bool_decide (slice value 53 55 = bs "00") || bool_decide (slice value 53 55 = bs "01")).

Definition validCanonicalNonzeroUUID (value : bytes) : bool :=
  negb (bool_decide (value = zeroUUID)) && bool_decide (value = to_lower value) && validateUUID value.

Definition validateOfferJobCorrelation (job : JobSpecification) (expected : ExpectedScope) (negotiated : bool)
  : option OfferRejection :=
  if negb negotiated then
    match JCorrelation job with
    | Some _ => rejectUnsupported "unexpected_job_correlation" "job correlation was not negotiated"
    | None => None
    end
  else
    match JCorrelation job with
    | None => rejectUnsupported "missing_job_correlation" "negotiated job correlation is required"
    | Some c =>
        let workflow := WorkflowId c in
        let candidate :=
          if (zlen workflow =? jobCorrelationWorkflowBytes) && has_prefix jobCorrelationWorkflowPrefix workflow
          then drop (length jobCorrelationWorkflowPrefix) workflow else [] in
        let attempted := match JAttempt job with Some a => ReleaseCandidateId a | None => [] end in
        when (negb (zlen (cunknown c) =? 0) || negb (validTraceparent (Traceparent c))
              || negb (validCanonicalNonzeroUUID (COrganizationId c)) || negb (validCanonicalNonzeroUUID (ProjectId c))
              || negb (validCanonicalNonzeroUUID candidate) || negb (bool_decide (candidate = attempted)))
             (rejectUnsupported "invalid_job_correlation" "job correlation is malformed or conflicts with attempt identity")
        <or>
        when (match Kind expected with ScopeOrganization => negb (bool_decide (COrganizationId c = OrganizationID expected)) | _ => false end)
             (rejectPolicy "job_correlation_scope_mismatch" "job correlation organization conflicts with runner scope")
    end.

(** ** Parts of an offer *)

Definition validSHA256 (value : option Digest) : bool :=
  match value with Some d => (Algorithm d =? DIGEST_ALGORITHM_SHA256) && (zlen (Value d) =? 32) | None => false end.

Definition sameDigest (left right : option Digest) : bool :=
  validSHA256 left && validSHA256 right
  && match left, right with Some l, Some r => bool_decide (Value l = Value r) | _, _ => false end.

Definition validPluginFilename (value : bytes) : bool :=
  Utf8.Valid value && (1 <=? zlen value) && (zlen value <=? maximumFilenameBytes) && bool_decide (TrimSpace value = value)
  && negb (bool_decide (value = bs ".")) && negb (bool_decide (value = bs ".."))
  && negb (existsb (fun c => (c =? 0x2F) || (c =? 0x5C) || (c =? 0)) value) && has_suffix (bs ".jar") (to_lower value).

Definition validJobDuration (value : option Duration) : bool :=
  match value with
  | None => false
  | Some d => CheckValid d && (0 <? AsDuration value) && (AsDuration value <=? LocalJob.MaximumTimeout)
              && (Z.rem (AsDuration value) LocalJob.Millisecond =? 0)
  end.

Definition offerExpiration (value : option Timestamp) (now leaseDuration : Z) : Z + OfferRejection :=
  let refuse r := match r with Some r => inr r | None => inl 0 end in
  if negb (validateTimestamp value) then
    refuse (rejectUnsupported "invalid_offer_expiration" "offer expiration is missing or invalid")
  else if as_time value <=? now then refuse (reject REASON_OFFER_EXPIRED (bs "offer_expired") (bs "lease offer has expired"))
  else if now + leaseDuration <? as_time value then
    refuse (rejectUnsupported "invalid_offer_expiration" "offer expiration exceeds the negotiated lease window")
  else inl (as_time value).

Definition validateOfferIdentity (job : JobSpecification) (now offerExpiresAt leaseDuration : Z) : option OfferRejection :=
  match JLease job with
  | None => rejectUnsupported "invalid_identity" "lease identity is required"
  | Some l =>
      when (negb (forallb validateUUID [LeaseId l; LJobId l; ExecutionId l]))
           (rejectUnsupported "invalid_identity" "lease identity is invalid")
      <or> when (negb (bool_decide (LJobId l = ExecutionId l)))
           (rejectUnsupported "invalid_identity" "job and execution identities must match")
      <or> when (negb (validateTimestamp (LExpiresAt l)))
           (rejectUnsupported "invalid_lease_expiration" "lease expiration is missing or invalid")
      <or> when ((as_time (LExpiresAt l) <=? offerExpiresAt) || (now + leaseDuration <? as_time (LExpiresAt l)))
           (rejectUnsupported "invalid_lease_expiration" "lease expiration is outside the negotiated lease window")
      <or>
      match JAttempt job with
      | None => rejectUnsupported "invalid_identity" "attempt identity is required"
      | Some a =>
          when (negb (forallb validateUUID [AttemptId a; ReleaseCandidateId a; MatrixEntryId a]))
               (rejectUnsupported "invalid_identity" "attempt identity is invalid")
          <or> when ((AttemptNumber a =? 0) || (maximumAttemptNumber <? AttemptNumber a))
               (rejectUnsupported "invalid_identity" "attempt number is invalid")
      end
  end.

(** The expiry of the lease of a job whose identity was validated. *)
Definition lease_expiry (job : JobSpecification) : Z := match JLease job with Some l => as_time (LExpiresAt l) | None => unix_epoch end.

Definition validateOfferScope (scope : option (option OrganizationScope)) (expected : ExpectedScope) : option OfferRejection :=
  match scope with
  | None | Some None => rejectPolicy "invalid_scope" "job organization scope is required"
  | Some (Some scope) =>
      match Kind expected with
      | ScopePlatform =>
          match scope with
          | PlatformScope => None
          | _ => rejectPolicy "scope_mismatch" "job organization scope does not match the runner"
          end
      | ScopeOrganization =>
          let id := match scope with OrganizationScopeOf id => id | PlatformScope => [] end in
          when (negb (validateUUID id) || negb (bool_decide (id = OrganizationID expected)))
               (rejectPolicy "scope_mismatch" "job organization scope does not match the runner")
      | ScopeOther => rejectPolicy "invalid_scope" "runner organization scope is invalid"
      end
  end.

(** Entries of the dependency hashes, with the identities and file names seen before. *)
Fixpoint dependency_hashes (ids filenames : list bytes) (ds : list (option DependencyHash)) : option OfferRejection :=
  match ds with
  | [] => None
  | None :: _ => rejectUnsupported "invalid_dependency_hash" "job dependency hash entry is invalid"
  | Some d :: ds =>
      when (negb (validateIdentifier (DependencyId d) maximumIdentifierBytes) || negb (validPluginFilename (HFilename d))
            || negb (validSHA256 (HDigest d)))
           (rejectUnsupported "invalid_dependency_hash" "job dependency hash entry is invalid")
      <or> when (bool_decide (DependencyId d ∈ ids))
           (rejectUnsupported "duplicate_dependency" "job dependency identities must be unique")
      <or> when (bool_decide (HFilename d ∈ filenames))
           (rejectUnsupported "duplicate_dependency" "job dependency filenames must be unique")
      <or> dependency_hashes (DependencyId d :: ids) (HFilename d :: filenames) ds
  end.

Definition validateOfferHashes (hashes : option JobHashes) : option OfferRejection :=
  match hashes with
  | None => rejectUnsupported "invalid_hashes" "job hashes are required"
  | Some h =>
      when (negb (forallb validSHA256 [HArtifact h; HConfiguration h; HEnvironment h; HPolicy h]))
           (rejectUnsupported "invalid_hashes" "job hashes must use 32-byte SHA-256 digests")
      <or> when (maximumOfferDependencies <? zlen (HDependencies h))
           (rejectUnsupported "too_many_dependencies" "job dependency count exceeds the supported limit")
      <or> dependency_hashes [] [] (HDependencies h)
  end.

(** [json.Unmarshal] into a struct merges what it finds under the names of its fields.
    [None] is an error; the result is the set of secrets. *)
Fixpoint selected_secrets (secrets : list bytes) (tests : list (bytes * json)) : option (list bytes) :=
  match tests with
  | [] => Some secrets
  | (k, v) :: rest =>
      if folded "secrets" k then
        match v with
        | JObject ms => selected_secrets (map fst ms ++ secrets) rest
        | JNull => selected_secrets [] rest
        | _ => None
        end
      else selected_secrets secrets rest
  end.

Fixpoint selected (secrets : list bytes) (members : list (bytes * json)) : option (list bytes) :=
  match members with
  | [] => Some secrets
  | (k, v) :: rest =>
      if folded "tests" k then
        match v with
        | JObject tests => match selected_secrets secrets tests with Some secrets => selected secrets rest | None => None end
        | JNull => selected secrets rest
        | _ => None
        end
      else selected secrets rest
  end.

Definition validateOfferConfigurationWithSecrets (configuration : bytes) (expected : option Digest) (enabled : bool)
  : option OfferRejection :=
  if (zlen configuration =? 0) || (MaximumMessageBytes <? zlen configuration) || negb (Utf8.Valid configuration) then
    rejectUnsupported "invalid_configuration" "normalized configuration is missing or invalid"
  else
    match Json.parse configuration with
    | Some (JObject members) =>
        when (negb (validSHA256 expected)
              || match expected with Some d => negb (bool_decide (Sum256 configuration = Value d)) | None => true end)
             (rejectUnsupported "configuration_hash_mismatch" "normalized configuration does not match its declared hash")
        <or>
        match selected [] members with
        | None => rejectUnsupported "invalid_configuration" "normalized test selection is invalid"
        | Some secrets =>
            when (negb (zlen secrets =? 0) && negb enabled)
                 (rejectUnsupported "test_secrets_unavailable" "test-secret execution is not enabled")
        end
    | _ => rejectUnsupported "invalid_configuration" "normalized configuration must contain one JSON object"
    end.

Definition validateOfferEnvironment (environment : option ResolvedEnvironment) : option OfferRejection :=
  match environment with
  | None => rejectUnsupported "invalid_environment" "resolved environment is required"
  | Some e =>
      when (negb (EProvider e =? SERVER_PROVIDER_PAPER) || negb (EOperatingSystem e =? OPERATING_SYSTEM_LINUX)
            || negb (EArchitecture e =? ARCHITECTURE_AMD64))
           (rejectUnsupported "unsupported_environment" "resolved environment is not supported by this runner")
      <or> when (existsb (fun v => (zlen v =? 0) || (maximumIdentifierBytes <? zlen v) || negb (versionPattern v))
                   [GameVersion e; ServerVersion e; JavaDistribution e; JavaVersion e])
           (rejectUnsupported "invalid_environment" "resolved environment identity is invalid")
      <or> when (negb (bool_decide (ServerVersion e = GameVersion e)) || (ServerBuild e =? 0))
           (rejectUnsupported "invalid_environment" "resolved Paper version and build are invalid")
      <or> when (negb (validateUUID (CatalogSnapshotId e)) || negb (validSHA256 (RunnerImage e)) || negb (validSHA256 (ServerBinary e)))
           (rejectUnsupported "invalid_environment" "resolved environment pins are invalid")
  end.

(** Plugin names, with the lower-case names seen before. *)
Fixpoint dependency_names (seen : list bytes) (ds : list (option DependencyInput)) : option OfferRejection :=
  match ds with
  | [] => None
  | None :: _ => rejectUnsupported "invalid_dependency_plugin_name" "dependency plugin name is missing or invalid"
  | Some d :: ds =>
      when (negb (ValidPaper (PluginName d)))
           (rejectUnsupported "invalid_dependency_plugin_name" "dependency plugin name is missing or invalid")
      <or> when (bool_decide (to_lower (PluginName d) ∈ seen))
           (rejectUnsupported "duplicate_plugin_name" "target and dependency plugin names must be unique")
      <or> dependency_names (to_lower (PluginName d) :: seen) ds
  end.

Definition validateOfferPluginNames (job : JobSpecification) : option OfferRejection :=
  when (negb (ValidPaper (TargetPluginName job)))
       (rejectUnsupported "invalid_target_plugin_name" "target plugin name is missing or invalid")
  <or> dependency_names [to_lower (TargetPluginName job)] (JDependencies job).

Definition network_supported (policy : EffectivePolicy) (networkMaximum : option NetworkPolicyV2) : bool :=
  match networkMaximum with
  | Some maximum => negb (Network policy) && WithinLocalMaximumV2 (NetworkV2 policy) (Some maximum)
  | None =>
      match NetworkV2 policy, LegacyNetwork policy with
      | None, Some n => (NMode n =? NETWORK_MODE_NONE) && (zlen (Allowlist n) =? 0) && (NMaximumConnections n =? 0)
      | _, _ => false
      end
  end.

Definition validateOfferPolicyVersion (policy : option EffectivePolicy) (maximum : ResourceBounds)
    (networkMaximum : option NetworkPolicyV2) : option OfferRejection :=
  match policy with
  | None => rejectPolicy "invalid_policy" "effective policy and resources are required"
  | Some p =>
      match Resources p with
      | None => rejectPolicy "invalid_policy" "effective policy and resources are required"
      | Some r =>
          when (negb (Sandbox p =? SANDBOX_KIND_GVISOR))
               (rejectPolicy "unsupported_sandbox" "effective sandbox is not supported by this runner")
          <or> when (negb (network_supported p networkMaximum))
               (match networkMaximum with
                | Some _ => rejectPolicy "unsupported_network" "effective network-v2 policy exceeds this runner's maximum"
                | None => rejectPolicy "unsupported_network" "effective network policy exceeds this runner's maximum"
                end)
          <or> when ((CpuMillis r =? 0) || (RMemoryBytes r =? 0) || (RDiskBytes r =? 0) || (RProcessCount r =? 0))
               (rejectPolicy "invalid_resources" "effective resource limits must be positive")
          <or> when ((CPUMillis maximum <? CpuMillis r) || (MemoryBytes maximum <? RMemoryBytes r)
                     || (DiskBytes maximum <? RDiskBytes r) || (ProcessCount maximum <? RProcessCount r))
               (rejectPolicy "resources_exceed_capacity" "effective resource limits exceed this runner's capacity")
          <or> when (negb (forallb validJobDuration [PreparationTimeout p; ExecutionTimeout p; GracefulShutdownTimeout p]))
               (rejectPolicy "invalid_timeout" "effective policy timeouts are invalid")
          <or> when (negb (Requirement p =? ENVIRONMENT_REQUIREMENT_REQUIRED)
                     && negb (Requirement p =? ENVIRONMENT_REQUIREMENT_INFORMATIONAL))
               (rejectPolicy "invalid_requirement" "environment requirement is invalid")
      end
  end.

(** ** Downloads *)

Definition download_uri (uri : bytes) : bool :=
  match ParseRequestURI uri with
  | None => false
  | Some u =>
      bool_decide (Scheme u = bs "https") && negb (zlen (Host u) =? 0) && negb (User u) && (zlen (Fragment u) =? 0)
      && (zlen (Opaque u) =? 0) && negb (zlen (Url.Hostname u) =? 0) && negb (is_ip (Url.Hostname u))
      && negb (bool_decide (fold_runes (Url.Hostname u) = bs "localhost"))
      && ((zlen (Url.Port u) =? 0) || bool_decide (Url.Port u = bs "443"))
  end.

Definition validateObjectDownload (object : option ObjectDownload) (offerExpiresAt leaseExpiresAt maximumBytes : Z)
  : option OfferRejection :=
  match object with
  | None => rejectUnsupported "invalid_download" "artifact download metadata is invalid"
  | Some o =>
      when ((DSizeBytes o <=? 0) || negb (validSHA256 (DDigest o)) || negb (validPluginFilename (DFilename o)))
           (rejectUnsupported "invalid_download" "artifact download metadata is invalid")
      <or> when (maximumBytes <? DSizeBytes o)
           (rejectPolicy "downloads_exceed_disk" "declared downloads exceed the effective disk limit")
      <or> when ((zlen (DUri o) =? 0) || (maximumDownloadURIBytes <? zlen (DUri o)) || negb (Utf8.Valid (DUri o)))
           (rejectUnsupported "invalid_download" "artifact download URI is invalid")
      <or> when (negb (download_uri (DUri o))) (rejectUnsupported "invalid_download" "artifact download URI is invalid")
      <or> when (negb (validateTimestamp (DExpiresAt o)))
           (rejectUnsupported "invalid_download_expiration" "artifact download expiration is missing or invalid")
      <or> when ((as_time (DExpiresAt o) <=? offerExpiresAt) || (as_time (DExpiresAt o) <=? leaseExpiresAt))
           (rejectUnsupported "download_expired" "artifact download expires before the initial lease")
  end.

(** The dependencies beside their hashes, with the file names and the disk space
    that is left. *)
Fixpoint dependency_downloads (offerExpiresAt leaseExpiresAt maximumBytes remaining : Z) (filenames : list bytes)
    (inputs : list (option DependencyInput)) (hashes : list (option DependencyHash)) : option OfferRejection :=
  match inputs, hashes with
  | input :: inputs, hash :: hashes =>
      let mismatch := rejectUnsupported "dependency_mismatch" "dependency downloads do not match the ordered dependency hashes" in
      match input, hash with
      | Some i, Some h =>
          let filename := match IObject i with Some o => DFilename o | None => [] end in
          let size := match IObject i with Some o => DSizeBytes o | None => 0 end in
          when (negb (bool_decide (IDependencyId i = DependencyId h))) mismatch
          <or> validateObjectDownload (IObject i) offerExpiresAt leaseExpiresAt maximumBytes
          <or> when (negb (bool_decide (filename = HFilename h)) || negb (sameDigest (IObject i ≫= DDigest) (HDigest h)))
               (rejectUnsupported "dependency_hash_mismatch" "dependency download does not match its declared hash")
          <or> when (bool_decide (filename ∈ filenames))
               (rejectUnsupported "duplicate_filename" "artifact and dependency filenames must be unique")
          <or> when (remaining <? size)
               (rejectPolicy "downloads_exceed_disk" "declared downloads exceed the effective disk limit")
          <or> dependency_downloads offerExpiresAt leaseExpiresAt maximumBytes (remaining - size) (filename :: filenames) inputs hashes
      | _, _ => mismatch
      end
  | _, _ => None
  end.

Definition disk_limit (job : JobSpecification) : Z := default 0 (RDiskBytes <$> (JEffectivePolicy job ≫= Resources)).

Definition validateOfferDownloads (job : JobSpecification) (offerExpiresAt leaseExpiresAt : Z) : option OfferRejection :=
  let hashes := default [] (HDependencies <$> JHashes job) in
  let maximumBytes := disk_limit job in
  let artifact := JArtifact job in
  when ((maximumOfferDependencies <? zlen (JDependencies job)) || negb (zlen (JDependencies job) =? zlen hashes))
       (rejectUnsupported "dependency_mismatch" "dependency downloads do not match the ordered dependency hashes")
  <or> validateObjectDownload artifact offerExpiresAt leaseExpiresAt maximumBytes
  <or> when (negb (sameDigest (artifact ≫= DDigest) (JHashes job ≫= HArtifact)))
       (rejectUnsupported "artifact_hash_mismatch" "artifact download does not match the declared artifact hash")
  <or> dependency_downloads offerExpiresAt leaseExpiresAt maximumBytes
         (maximumBytes - default 0 (DSizeBytes <$> artifact)) [default [] (DFilename <$> artifact)] (JDependencies job) hashes.

(** ** Uploads *)

Definition completeLogUploadContentType : bytes := bs "application/gzip".
Definition maximumUploadURIBytes : Z := 4096.
Definition maximumObjectKeyBytes : Z := 1024.

Record completeLogTarget := { turi : bytes; tobjectKey : bytes; texpiresAt : Z }.

Definition validUploadHostname (hostname : bytes) : bool :=
  (1 <=? zlen hostname) && (zlen hostname <=? 253) && forallb (host_label is_lower) (split_on 0x2E hostname).

(** A control character of a valid UTF-8 text: U+0000 to U+001F and U+007F to U+009F. *)
Fixpoint has_control (s : bytes) : bool :=
  match s with
  | [] => false
  | 0xC2 :: rest => match rest with b :: _ => (b <=? 0x9F) || has_control rest | [] => false end
  | b :: rest => is_control b || has_control rest
  end.

Definition validateUploadObjectKey (key : bytes) : bool :=
  negb (zlen key =? 0) && (zlen key <=? maximumObjectKeyBytes) && Utf8.Valid key && negb (has_prefix (bs "/") key)
  && negb (contains 0x5C key)
  && forallb (fun segment => negb (bool_decide (segment = [])) && negb (bool_decide (segment = bs "."))
                             && negb (bool_decide (segment = bs "..")) && negb (has_control segment)) (split_on 0x2F key).

Definition legacyUploadObjectKey (u : URL) : option bytes :=
  let escaped := EscapedPath u in
  if contains 0x25 escaped then None
  else
    match unescaped encodePath escaped with
    | None => None
    | Some path =>
        let key := if has_prefix (bs "/") path then drop 1 path else path in
        if validateUploadObjectKey key then Some key else None
    end.

Definition trim_dot (s : bytes) : bytes := if has_suffix (bs ".") s then take (length s - 1) s else s.

Definition validateCompleteLogUpload (upload : option ObjectUpload) (now offerExpiresAt leaseExpiresAt : Z)
    (authoritativeIdentity : bool) : option completeLogTarget + OfferRejection :=
  let refuse message := inr {| Reason := REASON_UNSUPPORTED; RCode := bs "invalid_complete_log_upload"; RMessage := bs message |} in
  match upload with
  | None => inl None
  | Some u =>
      if negb (zlen (uunknown u) =? 0) then refuse "complete log upload contains unsupported fields"
      else if (zlen (Uri u) =? 0) || (maximumUploadURIBytes <? zlen (Uri u)) || negb (Utf8.Valid (Uri u)) then
        refuse "complete log upload URI is missing or invalid"
      else
        match ParseRequestURI (Uri u) with
        | None => refuse "complete log upload URI must be an absolute HTTPS URL"
        | Some p =>
            let hostname := trim_dot (lower_runes (Url.Hostname p)) in
            if negb (bool_decide (Scheme p = bs "https")) || (zlen (Host p) =? 0) || negb (zlen (Opaque p) =? 0) || User p
               || negb (zlen (Fragment p) =? 0) then refuse "complete log upload URI must be an absolute HTTPS URL"
            else if negb (validUploadHostname hostname) || bool_decide (hostname = bs "localhost") || is_ip hostname
                    || (negb (zlen (Url.Port p) =? 0) && negb (bool_decide (Url.Port p = bs "443"))) then
              refuse "complete log upload destination is not supported"
            else if negb (bool_decide (UContentType u = completeLogUploadContentType)) then
              refuse "complete log upload content type must be application/gzip"
            else if negb (validateTimestamp (UExpiresAt u)) then
              refuse "complete log upload expiration is missing or invalid"
            else
              let expiresAt := as_time (UExpiresAt u) in
              if (expiresAt <=? now) || (expiresAt <? offerExpiresAt) || (expiresAt <=? leaseExpiresAt)
                 || (now + maximumLeaseDuration <? expiresAt) then
                refuse "complete log upload expiration is outside the lease window"
              else if authoritativeIdentity then
                if validateUploadObjectKey (ObjectKey u)
                then inl (Some {| turi := Uri u; tobjectKey := ObjectKey u; texpiresAt := expiresAt |})
                else refuse "complete log upload object key is invalid"
              else if negb (zlen (ObjectKey u) =? 0) then refuse "complete log upload object identity was not negotiated"
              else
                match legacyUploadObjectKey p with
                | Some key => inl (Some {| turi := Uri u; tobjectKey := key; texpiresAt := expiresAt |})
                | None => refuse "complete log upload object key is invalid"
                end
        end
  end.

Definition rejection_of {A} (r : A + OfferRejection) : option OfferRejection := match r with inl _ => None | inr r => Some r end.

(** ** Whole offers *)

Definition validateOfferVersion (offer : option LeaseOffer) (config : OfferConfig) (now leaseDuration : Z)
    (jobCorrelationV1 objectUploadIdentity : bool) (networkMaximum : option NetworkPolicyV2) : option OfferRejection :=
  match offer, offer ≫= OfferJob with
  | Some offer, Some job =>
      let hashes := default [] (HDependencies <$> JHashes job) in
      when (negb (zlen (TestSecrets job) =? 0) && (negb (EnableTestSecrets config) || negb jobCorrelationV1))
           (rejectUnsupported "test_secrets_unavailable" "test-secret execution is not enabled")
      <or> when (MaximumMessageBytes <? zlen (NormalizedConfigurationJson job))
           (rejectUnsupported "offer_too_large" "lease offer exceeds the message size limit")
      <or> when ((maximumOfferDependencies <? zlen (JDependencies job)) || (maximumOfferDependencies <? zlen hashes))
           (rejectUnsupported "too_many_dependencies" "job dependency count exceeds the supported limit")
      <or> when (MaximumMessageBytes <? SizeOffer offer)
           (rejectUnsupported "offer_too_large" "lease offer exceeds the message size limit")
      <or> when ((leaseDuration <? minimumLeaseDuration) || (maximumLeaseDuration <? leaseDuration))
           (rejectUnsupported "invalid_lease_duration" "negotiated lease duration is invalid")
      <or>
      match offerExpiration (OfferExpiresAt offer) now leaseDuration with
      | inr r => Some r
      | inl offerExpiresAt =>
          validateOfferIdentity job now offerExpiresAt leaseDuration
          <or> validateOfferScope (JOrganizationScope job) (Scope config)
          <or> validateOfferJobCorrelation job (Scope config) jobCorrelationV1
          <or> validateOfferHashes (JHashes job)
          <or> validateOfferConfigurationWithSecrets (NormalizedConfigurationJson job) (JHashes job ≫= HConfiguration)
                 (EnableTestSecrets config && jobCorrelationV1)
          <or> when (EnableTestSecrets config && negb (ValidateSelection (Some job)))
               (rejectUnsupported "invalid_test_secret_selection" "test-secret references do not match normalized configuration")
          <or> validateOfferEnvironment (JEnvironment job)
          <or> validateOfferPluginNames job
          <or> validateOfferPolicyVersion (JEffectivePolicy job) (Bounds config) networkMaximum
          <or> validateOfferDownloads job offerExpiresAt (lease_expiry job)
          <or> rejection_of (validateCompleteLogUpload (JCompleteLogUpload job) now offerExpiresAt (lease_expiry job) objectUploadIdentity)
      end
  | _, _ => rejectUnsupported "invalid_offer" "lease offer job is required"
  end.

Definition validateOffer (offer : option LeaseOffer) (config : OfferConfig) (now leaseDuration : Z)
    (jobCorrelationV1 objectUploadIdentity : bool) : option OfferRejection :=
  validateOfferVersion offer config now leaseDuration jobCorrelationV1 objectUploadIdentity None.

Fixpoint features_numbered (seen features : list Z) : bool :=
  match features with
  | [] => true
  | f :: rest => (1 <=? f) && (f <=? 10) && negb (existsb (Z.eqb f) seen) && features_numbered (f :: seen) rest
  end.

Definition with_secrets (c : OfferConfig) (enabled : bool) : OfferConfig :=
  {| Scope := Scope c; Bounds := Bounds c; EnableTestSecrets := enabled; EnableTerminalEvidenceV2 := EnableTerminalEvidenceV2 c;
     DisableTerminalEvidence := DisableTerminalEvidence c |}.

Definition validateNetworkV2Offer (offer : option LeaseOffer) (config : OfferConfig) (now leaseDuration : Z) (features : list Z)
    (maximum : option NetworkPolicyV2) : option OfferRejection :=
  when (negb (features_numbered [] features)) (rejectUnsupported "network_v2_unavailable" "invalid network-v2 negotiation")
  <or> when (negb (forallb (advertisedFeature features)
               [FEATURE_DURABLE_LEASE_ACKNOWLEDGEMENTS; FEATURE_JOB_CORRELATION_V1; FEATURE_TERMINAL_EVIDENCE_V2;
                FEATURE_NETWORK_POLICY_V2; FEATURE_NETWORK_AUTHORITY_V2]))
       (rejectUnsupported "network_v2_unavailable" "complete network-v2 negotiation is required")
  <or> when (negb (EnableTerminalEvidenceV2 config) || DisableTerminalEvidence config || negb (ValidateWireV2 maximum))
       (rejectUnsupported "network_v2_unavailable" "network-v2 local boundary is unavailable")
  <or> validateOfferVersion offer
         (with_secrets config (EnableTestSecrets config && advertisedFeature features FEATURE_TEST_SECRETS_V1))
         now leaseDuration true (advertisedFeature features FEATURE_OBJECT_UPLOAD_IDENTITY) maximum
  <or>
  match offer ≫= OfferJob with
  | None => None
  | Some job =>
      when (negb (ValidateSelection (Some job)))
           (rejectUnsupported "invalid_test_secret_selection" "test-secret references do not match normalized configuration")
      <or> when (negb (NewContextV2 job))
           (rejectUnsupported "invalid_network_v2_context" "network-v2 configuration or immutable identity is invalid")
      <or> when (negb (bool_decide (Sum256 <$> MarshalEnvironment (JEnvironment job) = Value <$> (JHashes job ≫= HEnvironment))))
           (rejectUnsupported "environment_hash_mismatch" "resolved environment does not match its declared hash")
  end.

(** ** What the checks decide *)

Lemma orelse_none a b : a <or> b = None <-> a = None /\ b = None.
Proof. destruct a; cbn; naive_solver. Qed.

Lemma when_reject c reason code message : when c (reject reason code message) = None <-> c = false.
Proof. by destruct c. Qed.

Lemma when_unsupported c code message : when c (rejectUnsupported code message) = None <-> c = false.
Proof. apply when_reject. Qed.

Lemma when_policy c code message : when c (rejectPolicy code message) = None <-> c = false.
Proof. apply when_reject. Qed.

Lemma rejection_none {A} (r : A + OfferRejection) : rejection_of r = None <-> exists a, r = inl a.
Proof. destruct r; cbn; naive_solver. Qed.

(** A download the lease can rely on. *)
Record download_ok (offerExpiresAt leaseExpiresAt maximumBytes : Z) (o : ObjectDownload) : Prop := {
  do_size : 0 < DSizeBytes o <= maximumBytes;
  do_digest : validSHA256 (DDigest o) = true;
  do_filename : validPluginFilename (DFilename o) = true;
  do_uri : 0 < zlen (DUri o) <= maximumDownloadURIBytes /\ Utf8.Valid (DUri o) = true /\ download_uri (DUri o) = true;
  do_expires : validateTimestamp (DExpiresAt o) = true /\ offerExpiresAt < as_time (DExpiresAt o) /\
               leaseExpiresAt < as_time (DExpiresAt o);
}.

Ltac checks := repeat rewrite ?orelse_none, ?when_unsupported, ?when_policy, ?when_reject, ?orb_false_iff, ?andb_false_iff,
                 ?negb_false_iff, ?andb_true_iff, ?bool_decide_eq_true, ?bool_decide_eq_false in *.

Lemma validateObjectDownload_exact o oe le m :
  validateObjectDownload o oe le m = None <-> exists d, o = Some d /\ download_ok oe le m d.
Proof.
  unfold validateObjectDownload. destruct o as [d|]; [|naive_solver]. checks. pose proof (zlen_nonneg (DUri d)).
  split; [intros H0; exists d; split; [done|]; split; naive_solver lia|].
  intros (d' & [= <-] & [? ? ? ? ?]). split_and!; naive_solver lia.
Qed.

(** A dependency beside its hash and its download. *)
Abbreviation triple := (DependencyInput * DependencyHash * ObjectDownload)%type (only parsing).

Record matched (oe le m : Z) (t : triple) : Prop := {
  mt_object : IObject t.1.1 = Some t.2;
  mt_id : IDependencyId t.1.1 = DependencyId t.1.2;
  mt_filename : DFilename t.2 = HFilename t.1.2;
  mt_digest : sameDigest (DDigest t.2) (HDigest t.1.2) = true;
  mt_download : download_ok oe le m t.2;
}.

Definition total (os : list ObjectDownload) : Z := foldr (fun o n => DSizeBytes o + n) 0 os.

Lemma total_cons o os : total (o :: os) = DSizeBytes o + total os.
Proof. done. Qed.

Lemma dependency_downloads_exact oe le m inputs : forall hashes remaining fns,
  length inputs = length hashes -> 0 <= remaining ->
  dependency_downloads oe le m remaining fns inputs hashes = None <->
  exists ts : list triple,
    inputs = map (fun t => Some t.1.1) ts /\ hashes = map (fun t => Some t.1.2) ts /\ Forall (matched oe le m) ts /\
    NoDup (map (fun t => DFilename t.2) ts) /\ (forall t, t ∈ ts -> DFilename t.2 ∉ fns) /\ total (map snd ts) <= remaining.
Proof.
  induction inputs as [|i inputs IH]; intros [|h hashes] remaining fns L Hr; try done.
  { cbn. split; [|done]. intros _. exists []. split_and!; [done|done|by constructor|by constructor| |cbn; lia].
    intros ? []%not_elem_of_nil. }
  cbn [dependency_downloads]. injection L as L. destruct i as [i|]; [destruct h as [h|]|].
  2,3: split; [done|]; intros (ts & H1 & H2 & _); destruct ts; [done|]; cbn in H1, H2; congruence.
  checks. rewrite validateObjectDownload_exact. split.
  - intros (Hid & (o & Ho & Hok) & Hm & Hf & Hsz & Hrest). rewrite Ho in *. cbn in Hm.
    destruct (proj1 (IH hashes (remaining - DSizeBytes o) (DFilename o :: fns) L ltac:(lia)) Hrest)
      as (ts & -> & -> & F & N & D & T). exists ((i, h, o) :: ts).
    cbn [map snd]. rewrite total_cons.
    split_and!; [done|done| | | |lia].
    + constructor; [|done]. destruct Hm as [Hm1 Hm2]. by split.
    + cbn. constructor; [|done]. intros ((t & E) & Ht)%list_elem_of_fmap. destruct Ht as [E' Ht]. specialize (D _ Ht).
      rewrite <-E' in D. by apply D, list_elem_of_here.
    + intros t [->|Ht]%elem_of_cons; [done|]. intros Hin. by apply (D t Ht), list_elem_of_further.
  - intros ([|[[i' h'] o] ts] & H1 & H2 & F & N & D & T); [done|]. cbn [map fst snd] in *. rewrite total_cons in T. injection H1 as <- ->. injection H2 as <- ->.
    apply Forall_cons in F as [[F1 F2 F3 F4 F5] F]. cbn in F1, F2, F3, F4, F5. rewrite F1. apply NoDup_cons in N as [N1 N].
    assert (0 <= total (map snd ts)).
    { clear -F. induction F as [|t ts [_ _ _ _ [? _ _ _ _]] F IHF]; cbn [map snd]; rewrite ?total_cons; [done|lia]. }
    split_and!; [done|by exists o|done|done|apply (D (i, h, o)), list_elem_of_here|lia|].
    apply (IH (map (fun t : triple => Some t.1.2) ts) (remaining - DSizeBytes o) (DFilename o :: fns) L ltac:(lia)).
    exists ts. split_and!; try done; [|lia].
    intros t Ht [E|Hin]%elem_of_cons; [|apply (D t); [by apply list_elem_of_further|done]].
    apply N1. rewrite <-E. by apply (list_elem_of_fmap_2 (fun t : triple => DFilename t.2)).
Qed.

Record hash_ok (h : DependencyHash) : Prop := {
  ho_id : validateIdentifier (DependencyId h) maximumIdentifierBytes = true;
  ho_filename : validPluginFilename (HFilename h) = true;
  ho_digest : validSHA256 (HDigest h) = true;
}.

Lemma dependency_hashes_exact ds : forall ids fns,
  dependency_hashes ids fns ds = None <->
  exists hs, ds = map Some hs /\ Forall hash_ok hs /\ NoDup (map DependencyId hs) /\ NoDup (map HFilename hs) /\
    (forall h, h ∈ hs -> DependencyId h ∉ ids /\ HFilename h ∉ fns).
Proof.
  induction ds as [|[d|] ds IH]; intros ids fns; cbn [dependency_hashes].
  - split; [|done]. intros _. exists []. split_and!; [done|by constructor..|]. intros ? []%not_elem_of_nil.
  - checks. rewrite IH. split.
    + intros ([[H1 H2] H3] & H4 & H5 & hs & -> & F & N1 & N2 & D). exists (d :: hs).
      split_and!; [done|by constructor|cbn; constructor; [|done]..|].
      * intros (h & E & Hh)%list_elem_of_fmap. apply (proj1 (D h Hh)). rewrite E. apply list_elem_of_here.
      * intros (h & E & Hh)%list_elem_of_fmap. apply (proj2 (D h Hh)). rewrite E. apply list_elem_of_here.
      * intros h [->|Hh]%elem_of_cons; [done|]. destruct (D h Hh) as [D1 D2].
        split; intros Hin; [apply D1|apply D2]; by apply list_elem_of_further.
    + intros ([|h hs] & E & F & N1 & N2 & D); [done|]. injection E as <- ->. apply Forall_cons in F as [[? ? ?] F].
      cbn in N1, N2. apply NoDup_cons in N1 as [M1 N1], N2 as [M2 N2]. destruct (D d (list_elem_of_here _ _)) as [D1 D2].
      split_and!; try done. exists hs. split_and!; try done. intros h Hh. destruct (D h (list_elem_of_further _ _ _ Hh)).
      split; intros [E|Hin]%elem_of_cons; try done; [apply M1|apply M2]; rewrite <-E; by apply list_elem_of_fmap_2.
  - split; [done|]. by intros ([|h hs] & E & _).
Qed.

Definition plugin_key (i : DependencyInput) : bytes := to_lower (PluginName i).

Lemma dependency_names_exact ds : forall seen,
  dependency_names seen ds = None <->
  exists ins, ds = map Some ins /\ Forall (fun i => ValidPaper (PluginName i) = true) ins /\ NoDup (map plugin_key ins) /\
    (forall i, i ∈ ins -> plugin_key i ∉ seen).
Proof.
  induction ds as [|[d|] ds IH]; intros seen; cbn [dependency_names].
  - split; [|done]. intros _. exists []. split_and!; [done|by constructor..|]. intros ? []%not_elem_of_nil.
  - checks. rewrite IH. split.
    + intros (H1 & H2 & ins & -> & F & N & D). exists (d :: ins). split_and!; [done|by constructor|cbn; constructor; [|done]|].
      * intros (i & E & Hi)%list_elem_of_fmap. apply (D i Hi). rewrite <-E. apply list_elem_of_here.
      * intros i [->|Hi]%elem_of_cons; [done|]. intros Hin. by apply (D i Hi), list_elem_of_further.
    + intros ([|i ins] & E & F & N & D); [done|]. injection E as <- ->. apply Forall_cons in F as [? F].
      cbn in N. apply NoDup_cons in N as [M N]. split_and!; [done|apply (D d), list_elem_of_here|]. exists ins.
      split_and!; try done. intros i Hi [E|Hin]%elem_of_cons; [|by apply (D i (list_elem_of_further _ _ _ Hi))].
      apply M. unfold plugin_key at 1. rewrite <-E. by apply list_elem_of_fmap_2.
  - split; [done|]. by intros ([|i ins] & E & _).
Qed.

Lemma configuration_exact cfg expected enabled :
  validateOfferConfigurationWithSecrets cfg expected enabled = None <->
  0 < zlen cfg <= MaximumMessageBytes /\ Utf8.Valid cfg = true /\
  exists members d secrets, Json.parse cfg = Some (JObject members) /\ expected = Some d /\ validSHA256 (Some d) = true /\
    Value d = Sum256 cfg /\ selected [] members = Some secrets /\ (secrets = [] \/ enabled = true).
Proof.
  unfold validateOfferConfigurationWithSecrets. pose proof (zlen_nonneg cfg) as Hz. destruct (_ || _) eqn:E.
  { split; [done|]. intros (H1 & H2 & _). rewrite H2 in E. lia. }
  checks. destruct E as [[E1 E2] E3]. destruct (Json.parse cfg) as [[| | | | |members]|]; try (split; [done|naive_solver]).
  checks. split.
  - intros ([H1 H2] & H3). split; [lia|]. split; [done|]. destruct expected as [d|]; [|done]. checks.
    destruct (selected [] members) as [secrets|] eqn:Es; [|done]. checks. exists members, d, secrets. split_and!; try done.
    destruct H3 as [H3|H3]; [left|right; done]. destruct secrets; [done|]. rewrite zlen_cons in H3.
    pose proof (zlen_nonneg secrets). lia.
  - intros (_ & _ & m & d & secrets & [= <-] & -> & H1 & H2 & -> & H3). rewrite H1. checks. split_and!; [done|done|].
    destruct H3 as [->| ->]; naive_solver.
Qed.

Lemma map_some_inj {A} (xs ys : list A) : map Some xs = map Some ys -> xs = ys.
Proof. revert ys. induction xs as [|x xs IH]; intros [|y ys]; cbn; try done. intros [= -> H]. f_equal. by apply IH. Qed.

(** What is downloaded is what was hashed, fits on the disk and has names of its own. *)
Record contents_ok (job : JobSpecification) (h : JobHashes) (disk oe le : Z) (artifact : ObjectDownload) (ts : list triple) : Prop := {
  co_artifact : JArtifact job = Some artifact;
  co_inputs : JDependencies job = map (fun t => Some t.1.1) ts;
  co_dependencies : HDependencies h = map (fun t => Some t.1.2) ts;
  co_count : zlen ts <= maximumOfferDependencies;
  co_digests : forallb validSHA256 [HArtifact h; HConfiguration h; HEnvironment h; HPolicy h] = true;
  co_download : download_ok oe le disk artifact;
  co_hashed : sameDigest (DDigest artifact) (HArtifact h) = true;
  co_matched : Forall (matched oe le disk) ts;
  co_entries : Forall (fun t => hash_ok t.1.2) ts;
  co_ids : NoDup (map (fun t => DependencyId t.1.2) ts);
  co_filenames : NoDup (DFilename artifact :: map (fun t => DFilename t.2) ts);
  co_total : DSizeBytes artifact + total (map snd ts) <= disk;
  co_target : ValidPaper (TargetPluginName job) = true;
  co_names : Forall (fun t => ValidPaper (PluginName t.1.1) = true) ts;
  co_keys : NoDup (to_lower (TargetPluginName job) :: map (fun t => plugin_key t.1.1) ts);
}.

Lemma contents_sound job h oe le :
  JHashes job = Some h ->
  validateOfferHashes (Some h) = None -> validateOfferPluginNames job = None -> validateOfferDownloads job oe le = None ->
  exists artifact ts, contents_ok job h (disk_limit job) oe le artifact ts.
Proof.
  unfold validateOfferHashes, validateOfferPluginNames, validateOfferDownloads. intros -> I4 I8 I10. checks.
  destruct I4 as (D1 & D2 & D3), I8 as [N1 N2], I10 as (X1 & X2 & X3 & X4).
  apply dependency_hashes_exact in D3 as (hs & D3 & D4 & D5 & D6 & _).
  apply dependency_names_exact in N2 as (ins & N2 & N3 & N4 & N5).
  rewrite validateObjectDownload_exact in X2. destruct X2 as (artifact & X2 & X5). rewrite X2 in *.
  cbn [mbind option_bind fmap option_fmap option_map default from_option] in *. unfold id in *.
  apply dependency_downloads_exact in X4 as (ts & Y1 & Y2 & Y3 & Y4 & Y5 & Y6);
    [|unfold zlen in X1; lia|destruct X5 as [? _ _ _ _]; lia].
  assert (hs = map (fun t => t.1.2) ts) as ->.
  { apply map_some_inj. rewrite <-D3, Y2. clear. induction ts; cbn; congruence. }
  assert (ins = map (fun t => t.1.1) ts) as ->.
  { apply map_some_inj. rewrite <-N2, Y1. clear. induction ts; cbn; congruence. }
  rewrite !map_map in *. rewrite Forall_map in D4, N3. exists artifact, ts. split; try done.
  - rewrite Y2 in D2. unfold zlen in *. rewrite length_map in D2. lia.
  - constructor; [|done]. intros (t & E & Ht)%list_elem_of_fmap. apply (Y5 t Ht). rewrite <-E. apply list_elem_of_here.
  - lia.
  - constructor; [|done]. intros (t & E & Ht)%list_elem_of_fmap. apply (N5 t.1.1); [|rewrite <-E; apply list_elem_of_here].
    apply list_elem_of_fmap. by exists t.
Qed.

Lemma contents_complete job h oe le artifact ts :
  JHashes job = Some h -> contents_ok job h (disk_limit job) oe le artifact ts ->
  validateOfferHashes (Some h) = None /\ validateOfferPluginNames job = None /\ validateOfferDownloads job oe le = None.
Proof.
  intros Eh [C1 C2 C3 C4 C5 C6 C7 C8 C9 C10 C11 C12 C13 C14 C15].
  apply NoDup_cons in C11 as [F1 F2], C15 as [K1 K2]. assert (Hdeps : zlen (HDependencies h) <= maximumOfferDependencies).
  { rewrite C3. unfold zlen in *. by rewrite length_map. }
  unfold validateOfferHashes, validateOfferPluginNames, validateOfferDownloads. rewrite Eh, C1.
  cbn [mbind option_bind fmap option_fmap option_map default from_option]. unfold id. checks. split_and!; try done.
  - lia.
  - apply dependency_hashes_exact. exists (map (fun t => t.1.2) ts). rewrite !map_map, Forall_map. split_and!; try done.
    + erewrite map_ext_in; [exact F2|]. intros t Ht. cbn. rewrite Forall_forall in C8.
      by destruct (C8 t (proj2 (list_elem_of_In _ _) Ht)).
    + intros t _. split; apply not_elem_of_nil.
  - apply dependency_names_exact. exists (map (fun t => t.1.1) ts). rewrite !map_map, Forall_map. split_and!; try done.
    intros i (t & -> & Ht)%list_elem_of_fmap Hin%list_elem_of_singleton. apply K1. rewrite <-Hin.
    by apply (list_elem_of_fmap_2 (fun t : triple => plugin_key t.1.1)).
  - rewrite C2. unfold zlen in *. rewrite length_map. lia.
  - rewrite C2, C3. unfold zlen. rewrite !length_map. lia.
  - apply validateObjectDownload_exact. by exists artifact.
  - apply dependency_downloads_exact; [by rewrite C2, C3, !length_map|destruct C6; lia|]. exists ts. split_and!; try done; [|lia].
    intros t Ht Hin%list_elem_of_singleton. apply F1. rewrite <-Hin.
    by apply (list_elem_of_fmap_2 (fun t : triple => DFilename t.2)).
Qed.

(** The offers the client accepts. *)
Record acceptable (offer : LeaseOffer) (config : OfferConfig) (now leaseDuration : Z) (jobCorrelationV1 objectUploadIdentity : bool)
    (job : JobSpecification) (l : LeaseIdentity) (a : AttemptIdentity) (h : JobHashes) (p : EffectivePolicy) (r : ResourceLimits)
    (artifact : ObjectDownload) (ts : list triple) : Prop := {
  ac_job : OfferJob offer = Some job;
  ac_lease : JLease job = Some l;
  ac_attempt : JAttempt job = Some a;
  ac_hashes : JHashes job = Some h;
  ac_policy : JEffectivePolicy job = Some p;
  ac_resources : Resources p = Some r;
  (** The offer and the lease end in this order within the negotiated duration. *)
  ac_duration : minimumLeaseDuration <= leaseDuration <= maximumLeaseDuration;
  ac_stamps : validateTimestamp (OfferExpiresAt offer) = true /\ validateTimestamp (LExpiresAt l) = true;
  ac_times : now < as_time (OfferExpiresAt offer) < as_time (LExpiresAt l) /\ as_time (LExpiresAt l) <= now + leaseDuration;
  ac_ids : forallb validateUUID [LeaseId l; LJobId l; ExecutionId l; AttemptId a; ReleaseCandidateId a; MatrixEntryId a] = true;
  ac_same : LJobId l = ExecutionId l;
  ac_number : AttemptNumber a <> 0 /\ AttemptNumber a <= maximumAttemptNumber;
  ac_size : SizeOffer offer <= MaximumMessageBytes;
  ac_secrets : (TestSecrets job = [] \/ EnableTestSecrets config = true /\ jobCorrelationV1 = true) /\
               (EnableTestSecrets config = true -> ValidateSelection (Some job) = true);
  ac_scope : validateOfferScope (JOrganizationScope job) (Scope config) = None;
  ac_correlation : validateOfferJobCorrelation job (Scope config) jobCorrelationV1 = None;
  ac_environment : validateOfferEnvironment (JEnvironment job) = None;
  ac_configuration : validateOfferConfigurationWithSecrets (NormalizedConfigurationJson job) (HConfiguration h)
                       (EnableTestSecrets config && jobCorrelationV1) = None;
  (** The policy is one this runner can enforce. *)
  ac_sandbox : Sandbox p = SANDBOX_KIND_GVISOR /\ network_supported p None = true;
  ac_positive : CpuMillis r <> 0 /\ RMemoryBytes r <> 0 /\ RDiskBytes r <> 0 /\ RProcessCount r <> 0;
  ac_bounds : CpuMillis r <= CPUMillis (Bounds config) /\ RMemoryBytes r <= MemoryBytes (Bounds config) /\
              RDiskBytes r <= DiskBytes (Bounds config) /\ RProcessCount r <= ProcessCount (Bounds config);
  ac_timeouts : forallb validJobDuration [PreparationTimeout p; ExecutionTimeout p; GracefulShutdownTimeout p] = true;
  ac_requirement : Requirement p = ENVIRONMENT_REQUIREMENT_REQUIRED \/ Requirement p = ENVIRONMENT_REQUIREMENT_INFORMATIONAL;
  ac_contents : contents_ok job h (RDiskBytes r) (as_time (OfferExpiresAt offer)) (as_time (LExpiresAt l)) artifact ts;
  ac_upload : exists target, validateCompleteLogUpload (JCompleteLogUpload job) now (as_time (OfferExpiresAt offer))
                               (as_time (LExpiresAt l)) objectUploadIdentity = inl target;
}.

Lemma offerExpiration_exact v now d oe :
  offerExpiration v now d = inl oe <-> validateTimestamp v = true /\ oe = as_time v /\ now < oe <= now + d.
Proof.
  unfold offerExpiration. destruct (validateTimestamp v); cbn [negb]; [|naive_solver].
  destruct (as_time v <=? now) eqn:E1; [cbn; naive_solver lia|]. destruct (now + d <? as_time v) eqn:E2; [cbn; naive_solver lia|].
  split; [intros [= <-]; split_and!; naive_solver lia|]. by intros (_ & -> & _).
Qed.

Lemma identity_exact job now oe d :
  validateOfferIdentity job now oe d = None <->
  exists l a, JLease job = Some l /\ JAttempt job = Some a /\
    forallb validateUUID [LeaseId l; LJobId l; ExecutionId l; AttemptId a; ReleaseCandidateId a; MatrixEntryId a] = true /\
    LJobId l = ExecutionId l /\ validateTimestamp (LExpiresAt l) = true /\ oe < as_time (LExpiresAt l) <= now + d /\
    AttemptNumber a <> 0 /\ AttemptNumber a <= maximumAttemptNumber.
Proof.
  unfold validateOfferIdentity. destruct (JLease job) as [l|]; [|naive_solver]. destruct (JAttempt job) as [a|].
  2: { checks. split; [naive_solver|]. by intros (? & ? & _ & ? & _). }
  cbn [forallb]. checks. split.
  - intros (H1 & H2 & H3 & [H4 H5] & H6 & H7 & H8). exists l, a. split_and!; naive_solver lia.
  - intros (? & ? & [= <-] & [= <-] & H1 & H2 & H3 & H4 & H5 & H6). split_and!; naive_solver lia.
Qed.

Lemma policy_exact policy maximum :
  validateOfferPolicyVersion policy maximum None = None <->
  exists p r, policy = Some p /\ Resources p = Some r /\ Sandbox p = SANDBOX_KIND_GVISOR /\ network_supported p None = true /\
    (CpuMillis r <> 0 /\ RMemoryBytes r <> 0 /\ RDiskBytes r <> 0 /\ RProcessCount r <> 0) /\
    (CpuMillis r <= CPUMillis maximum /\ RMemoryBytes r <= MemoryBytes maximum /\ RDiskBytes r <= DiskBytes maximum /\
     RProcessCount r <= ProcessCount maximum) /\
    forallb validJobDuration [PreparationTimeout p; ExecutionTimeout p; GracefulShutdownTimeout p] = true /\
    (Requirement p = ENVIRONMENT_REQUIREMENT_REQUIRED \/ Requirement p = ENVIRONMENT_REQUIREMENT_INFORMATIONAL).
Proof.
  unfold validateOfferPolicyVersion. destruct policy as [p|]; [|naive_solver]. destruct (Resources p) as [r|] eqn:Er.
  2: { split; [done|]. intros (? & ? & [= <-] & ? & _). congruence. }
  checks. rewrite !Z.eqb_eq, !Z.eqb_neq, !Z.ltb_ge. split.
  - intros (H1 & H2 & H3 & H4 & H5 & H6). exists p, r. split_and!; naive_solver.
  - intros (? & r' & [= <-] & Hr & H). rewrite Er in Hr. injection Hr as <-. naive_solver.
Qed.

Lemma accepted_sound offer config now d corr ident :
  validateOffer (Some offer) config now d corr ident = None ->
  exists job l a h p r artifact ts, acceptable offer config now d corr ident job l a h p r artifact ts.
Proof.
  unfold validateOffer, validateOfferVersion. cbn [mbind option_bind]. destruct (OfferJob offer) as [job|] eqn:Ej; [|done].
  checks. intros (H1 & H2 & H3 & H4 & H5 & H6). destruct (offerExpiration _ _ _) as [oe|] eqn:Eo; [|done].
  apply offerExpiration_exact in Eo as (Ho1 & -> & Ho2). checks.
  destruct H6 as (I1 & I2 & I3 & I4 & I5 & I6 & I7 & I8 & I9 & I10 & I11).
  apply identity_exact in I1 as (l & a & L1 & L2 & L3 & L4 & L5 & L6 & L7).
  apply policy_exact in I9 as (p & r & P1 & P2 & P3 & P4 & P5 & P6 & P7 & P8). apply rejection_none in I11 as [target I11].
  destruct (JHashes job) as [h|] eqn:Eh; [|done].
  destruct (contents_sound job h _ _ Eh I4 I8 I10) as (artifact & ts & C).
  unfold disk_limit, lease_expiry in *. rewrite P1, L1 in *. cbn [mbind option_bind] in *. rewrite P2 in C.
  exists job, l, a, h, p, r, artifact, ts. split; try assumption; try (split; assumption); [lia| |lia| |by exists target]; [split; lia|].
  split; [|by intros HS; destruct I6 as [I6|I6]; [congruence|]]. destruct H1 as [H1|H1]; [left|by right]. apply Z.eqb_eq in H1. by destruct (TestSecrets job).
Qed.

Lemma accepted_complete offer config now d corr ident job l a h p r artifact ts :
  acceptable offer config now d corr ident job l a h p r artifact ts ->
  validateOffer (Some offer) config now d corr ident = None.
Proof.
  intros [A1 A2 A3 A4 A5 A6 A7 [A8 A8'] A9 A10 A11 A12 A13 [A14 A14'] A15 A16 A17 A18 [A19 A19'] A20 A21 A22 A23 A24 [target A25]].
  unfold validateOffer, validateOfferVersion. cbn [mbind option_bind]. rewrite A1. checks.
  assert (Hd : disk_limit job = RDiskBytes r). { unfold disk_limit. rewrite A5. cbn. by rewrite A6. }
  assert (Hl : lease_expiry job = as_time (LExpiresAt l)). { unfold lease_expiry. by rewrite A2. }
  assert (Hn : zlen (JDependencies job) <= maximumOfferDependencies /\ zlen (HDependencies h) <= maximumOfferDependencies).
  { destruct A24 as [_ -> -> C4 _ _ _ _ _ _ _ _ _ _ _]. unfold zlen in *. rewrite !length_map. done. }
  destruct Hn as [Hn1 Hn2], A9 as [A9 A9'], A7 as [A7 A7'], A12 as [A12 A12'].
  assert (He : offerExpiration (OfferExpiresAt offer) now d = inl (as_time (OfferExpiresAt offer))).
  { apply offerExpiration_exact. clear - A8 A9 A9'. split_and!; [done|done|lia|lia]. }
  rewrite He. rewrite <-Hd in A24. destruct (contents_complete job h _ _ artifact ts A4 A24) as (K1 & K2 & K3).
  pose proof (proj1 (configuration_exact _ _ _) A18) as [[_ Hc] _]. rewrite Hl, A4.
  cbn [fmap option_fmap option_map default from_option mbind option_bind]. unfold id. checks.
  split_and!; try assumption; try (apply Z.ltb_ge; assumption).
  - destruct A14 as [->|[-> ->]]; [by left|by right].
  - apply identity_exact. exists l, a. split_and!; try assumption. apply A9.
  - destruct (EnableTestSecrets config); [right; by apply A14'|by left].
  - apply policy_exact. exists p, r. split_and!; assumption || apply A20 || apply A21.
  - apply rejection_none. by exists target.
Qed.


(** An address literal is refused as the host of a download, but not one with a zone: for
    [net.ParseIP] it is not an address, while dialling it reaches the address. *)
Lemma zoned_literal_accepted :
  download_uri (bs "https://[::1]/plugin.jar") = false /\ download_uri (bs "https://[::1%25lo]/plugin.jar") = true.
Proof. split; vm_compute; reflexivity. Qed.

(** ** Rejections are stable *)

Definition stable_text (r : OfferRejection) : bool :=
  (1 <=? zlen (RCode r)) && (zlen (RCode r) <=? maximumIdentifierBytes) && (1 <=? zlen (RMessage r))
  && (zlen (RMessage r) <=? maximumOfferDetailBytes).

Definition stable (o : option OfferRejection) : Prop := match o with Some r => stable_text r = true | None => True end.

Lemma stable_orelse a b : stable a -> stable b -> stable (a <or> b).
Proof. by destruct a. Qed.

Lemma stable_when c r : stable r -> stable (when c r).
Proof. by destruct c. Qed.

Lemma stable_none : stable None.
Proof. done. Qed.

Ltac stable_text :=
  match goal with
  | |- stable (rejectUnsupported _ _) => vm_compute; reflexivity
  | |- stable (rejectPolicy _ _) => vm_compute; reflexivity
  | |- stable (reject _ _ _) => vm_compute; reflexivity
  | |- stable None => exact I
  | |- stable (_ <or> _) => apply stable_orelse
  | |- stable (when _ _) => apply stable_when
  | |- stable (match ?x with _ => _ end) => destruct x
  | |- stable (rejection_of (match ?x with _ => _ end)) => destruct x
  | |- stable (rejection_of (inr _)) => vm_compute; reflexivity
  | |- stable (rejection_of (inl _)) => exact I
  end.

Ltac stable_texts := repeat stable_text.

Lemma stable_correlation job expected negotiated : stable (validateOfferJobCorrelation job expected negotiated).
Proof. unfold validateOfferJobCorrelation. stable_texts. Qed.

Lemma stable_download o oe le m : stable (validateObjectDownload o oe le m).
Proof. unfold validateObjectDownload. stable_texts. Qed.

Lemma stable_hashes ds : forall ids fns, stable (dependency_hashes ids fns ds).
Proof. induction ds as [|[d|] ds IH]; intros; cbn [dependency_hashes]; stable_texts. apply IH. Qed.

Lemma stable_names ds : forall seen, stable (dependency_names seen ds).
Proof. induction ds as [|[d|] ds IH]; intros; cbn [dependency_names]; stable_texts. apply IH. Qed.

Lemma stable_downloads oe le m inputs : forall remaining fns hashes, stable (dependency_downloads oe le m remaining fns inputs hashes).
Proof.
  induction inputs as [|i inputs IH]; intros remaining fns [|h hashes]; cbn [dependency_downloads]; [done..|].
  cbv zeta. destruct i as [i|]; [|stable_texts]. destruct h as [h|]; [|stable_texts].
  apply stable_orelse; [stable_texts|]. apply stable_orelse; [apply stable_download|].
  do 3 (apply stable_orelse; [stable_texts|]). apply IH.
Qed.

Lemma stable_upload u now oe le ident : stable (rejection_of (validateCompleteLogUpload u now oe le ident)).
Proof. unfold validateCompleteLogUpload. cbv zeta. stable_texts. Qed.

Lemma stable_version offer config now d corr ident maximum : stable (validateOfferVersion offer config now d corr ident maximum).
Proof.
  unfold validateOfferVersion. destruct offer as [offer|]; [|stable_texts]. cbn [mbind option_bind].
  destruct (OfferJob offer) as [job|]; [|stable_texts]. cbv zeta.
  do 5 (apply stable_orelse; [stable_texts|]). destruct (offerExpiration _ _ _) as [oe|r] eqn:E.
  2: { unfold offerExpiration in E. repeat (destruct (_ : bool) in E; [injection E as <-; vm_compute; reflexivity|]). done. }
  apply stable_orelse; [unfold validateOfferIdentity; stable_texts|].
  apply stable_orelse; [unfold validateOfferScope; stable_texts|].
  apply stable_orelse; [apply stable_correlation|].
  apply stable_orelse; [unfold validateOfferHashes; stable_texts; apply stable_hashes|].
  apply stable_orelse; [unfold validateOfferConfigurationWithSecrets; stable_texts|].
  apply stable_orelse; [stable_texts|].
  apply stable_orelse; [unfold validateOfferEnvironment; stable_texts|].
  apply stable_orelse; [unfold validateOfferPluginNames; stable_texts; apply stable_names|].
  apply stable_orelse; [unfold validateOfferPolicyVersion; stable_texts|].
  apply stable_orelse; [|apply stable_upload].
  unfold validateOfferDownloads. cbv zeta. stable_texts; [apply stable_download|apply stable_downloads].
Qed.

(** Whatever an offer holds, the rejection it meets has a code and a message within
    the limits that [reject] panics without. *)
Lemma rejections_stable offer config now d corr ident maximum features :
  stable (validateOffer offer config now d corr ident) /\
  stable (validateNetworkV2Offer offer config now d features maximum).
Proof.
  split; [apply stable_version|]. unfold validateNetworkV2Offer. do 3 (apply stable_orelse; [stable_texts|]).
  apply stable_orelse; [apply stable_version|]. stable_texts.
Qed.

End offers.
