(* ===== verification/PaperCatalog.v ===== *)
(** The catalogs of the Paper provider ([src/internal/provider/paper]): the pinned
    environments ([catalog.go], [probe_compatibility.go]), the catalogs an operator supplies
    ([operator_catalog.go]), their validation ([provider.go]), and where artifacts may be
    downloaded from ([source.go]). *)

From S2P Require Import Prelude Utf8 Strconv Json World Policy Url JsonStruct TerminalPlan Probe.
Import Names Addresses.

Open Scope string_scope.
Open Scope list_scope.
Open Scope Z_scope.
Open Scope probe_scope.

(** ** Pins *)

Record ArtifactPin := { PinURI : bytes; PinSHA256 : bytes; PinFilename : bytes; PinSizeBytes : Z }.

Record PaperPin := { PaperGameVersion : bytes; PaperBuild : Z; PaperArtifact : ArtifactPin }.

Record JavaPin := {
  JavaDistributionOf : bytes; JavaVersionOf : bytes; JavaOS : bytes; JavaArchitecture : bytes; ArchiveRoot : bytes;
  JavaArtifact : ArtifactPin; JavaExpandedBytes : Z;
}.

Record ArchivePin := { ArchiveArtifact : ArtifactPin; ArchiveExpandedBytes : Z }.

Record Catalog := {
  EnvironmentID : bytes; Paper : PaperPin; Java : JavaPin; ProbeVersion : bytes; ProbeSourceCommit : bytes;
  ProbePin : ArtifactPin; PreparedRuntime : ArchivePin;
}.

#[export] Instance ArtifactPin_eq_dec : EqDecision ArtifactPin.
Proof. solve_decision. Defined.

#[export] Instance ArchivePin_eq_dec : EqDecision ArchivePin.
Proof. solve_decision. Defined.

#[export] Instance PaperPin_eq_dec : EqDecision PaperPin.
Proof. solve_decision. Defined.

#[export] Instance JavaPin_eq_dec : EqDecision JavaPin.
Proof. solve_decision. Defined.

#[export] Instance Catalog_eq_dec : EqDecision Catalog.
Proof. solve_decision. Defined.

Definition no_pin : ArtifactPin := {| PinURI := []; PinSHA256 := []; PinFilename := []; PinSizeBytes := 0 |}.
Definition no_archive : ArchivePin := {| ArchiveArtifact := no_pin; ArchiveExpandedBytes := 0 |}.

Definition Paper1206EnvironmentID : bytes := bs "paper-1.20.6-151-linux-amd64-temurin-21.0.8+9".
Definition Paper1214EnvironmentID : bytes := bs "paper-1.21.4-232-linux-amd64-temurin-21.0.8+9".
Definition AlphaEnvironmentID : bytes := bs "paper-1.21.8-60-linux-amd64-temurin-21.0.8+9".
Definition AlphaProbeVersion : bytes := bs "0.1.0".
Definition AlphaProbeSourceCommit : bytes := bs "f82dcbf8244354059731ba533f73909ed5528bbd".
Definition AlphaProbeSHA256 : bytes := bs "040062e4ea15fdffe3c37e4402b978527dd4864870edefe2c662209e12d63868".
Definition AlphaProbeSizeBytes : Z := 478853.

Definition catalog (environmentID gameVersion : bytes) (build : Z) (paperSHA256 : bytes) (paperSize : Z) : Catalog :=
  let jar := bs "paper-" ++ gameVersion ++ bs "-" ++ itoa build ++ bs ".jar" in
  {| EnvironmentID := environmentID;
     Paper := {| PaperGameVersion := gameVersion; PaperBuild := build;
                 PaperArtifact := {| PinURI := bs "https://fill-data.papermc.io/v1/objects/" ++ paperSHA256 ++ bs "/" ++ jar;
                                     PinSHA256 := paperSHA256; PinFilename := jar; PinSizeBytes := paperSize |} |};
     Java := {| JavaDistributionOf := bs "eclipse-temurin"; JavaVersionOf := bs "21.0.8+9"; JavaOS := bs "linux";
                JavaArchitecture := bs "amd64"; ArchiveRoot := bs "jdk-21.0.8+9-jre";
                JavaArtifact := {|
                  PinURI := bs "https://github.com/adoptium/temurin21-binaries/releases/download/jdk-21.0.8%2B9/OpenJDK21U-jre_x64_linux_hotspot_21.0.8_9.tar.gz";
                  PinSHA256 := bs "968c283e104059dae86ea1d670672a80170f27a39529d815843ec9c1f0fa2a03";
                  PinFilename := bs "OpenJDK21U-jre_x64_linux_hotspot_21.0.8_9.tar.gz"; PinSizeBytes := 51942501 |};
                JavaExpandedBytes := 164834866 |};
     ProbeVersion := AlphaProbeVersion; ProbeSourceCommit := AlphaProbeSourceCommit;
     ProbePin := {| PinURI := []; PinSHA256 := AlphaProbeSHA256; PinFilename := bs "paper-probe.jar"; PinSizeBytes := AlphaProbeSizeBytes |};
     PreparedRuntime := no_archive |}.

Definition AlphaCatalog : Catalog :=
  catalog AlphaEnvironmentID (bs "1.21.8") 60 (bs "8de7c52c3b02403503d16fac58003f1efef7dd7a0256786843927fa92ee57f1e") 52811717.

Definition AlphaCatalogs : list Catalog := [
  catalog Paper1206EnvironmentID (bs "1.20.6") 151 (bs "4b011f5adb5f6c72007686a223174fce82f31aeb4b34faf4652abc840b47e640") 45826876;
  catalog Paper1214EnvironmentID (bs "1.21.4") 232 (bs "5ee4f542f628a14c644410b08c94ea42e772ef4d29fe92973636b6813d4eaffc") 51437498;
  AlphaCatalog].

Definition CatalogForEnvironmentID (environmentID : bytes) : option Catalog :=
  List.find (fun c => bool_decide (EnvironmentID c = environmentID)) AlphaCatalogs.

(** ** Probes *)

Definition LegacyProbeVersion : bytes := bs "0.2.0".
Definition LegacyProbeSourceCommit : bytes := bs "18400bb4a47d28c1d95c3f4067603af3f3409d5e".
Definition LegacyProbeSHA256 : bytes := bs "141a535d495a3afd5f413cab04618e75421390f0e14acba0707d1573c5a8c96b".
Definition LegacyProbeSizeBytes : Z := 480768.

Definition acceptedProbe (c : Catalog) : bool :=
  let pinned (version commit sha : bytes) (size : Z) :=
    bool_decide (ProbeVersion c = version) && bool_decide (ProbeSourceCommit c = commit)
    && bool_decide (PinSHA256 (ProbePin c) = sha) && (PinSizeBytes (ProbePin c) =? size) in
  if negb (says (PinFilename (ProbePin c)) "paper-probe.jar") then false
  else if pinned LegacyProbeVersion LegacyProbeSourceCommit LegacyProbeSHA256 LegacyProbeSizeBytes then true
  else if negb (pinned AlphaProbeVersion AlphaProbeSourceCommit AlphaProbeSHA256 AlphaProbeSizeBytes) then false
  else
    let v := PaperGameVersion (Paper c) in
    if says v "1.21" || has_prefix (bs "1.21.") v || has_prefix (bs "26.") v then true
    else if negb (has_prefix (bs "1.20.") v) then false
    else match parse_int64 (drop 5 v) with Some patch => 6 <=? patch | None => false end.

(** ** Patterns *)

(** [^[A-Za-z0-9][A-Za-z0-9._+-]{0,199}$] *)
Definition catalogSegment (s : bytes) : bool :=
  match s with
  | [] => false
  | b :: rest => (zlen s <=? 200) && alphanumeric b && forallb (fun b => alphanumeric b || Url.one_of "._+-" b) rest
  end.

(** The digits at the start of a text, at least one, and the rest. *)
Definition digit_run (s : bytes) : option bytes :=
  match scan_digits s with ([], _) => None | (_, rest) => Some rest end.

(** [[1-9][0-9]*] *)
Definition leading_number (s : bytes) : option bytes :=
  match s with b :: rest => if in_range 0x31 0x39 b then Some (snd (scan_digits rest)) else None | [] => None end.

(** [(?:sep[0-9]+){0,n}], as often as it matches: what follows is another byte. *)
Fixpoint dotted (sep : Z) (n : nat) (s : bytes) : bytes :=
  match n, s with
  | S n, b :: rest => if b =? sep then match digit_run rest with Some rest => dotted sep n rest | None => s end else s
  | _, _ => s
  end.

(** [^[1-9][0-9]*(?:\.[0-9]+){0,3}(?:\+[0-9]+)?$] *)
Definition javaVersionPattern (s : bytes) : bool :=
  match leading_number s with
  | Some rest => zlen (dotted 0x2B 1 (dotted 0x2E 3 rest)) =? 0
  | None => false
  end.

(** [^[1-9][0-9]*\.[0-9]+(?:\.[0-9]+)?$] *)
Definition gameVersionPattern (s : bytes) : bool :=
  match leading_number s with
  | Some (0x2E :: rest) => match digit_run rest with Some rest => zlen (dotted 0x2E 1 rest) =? 0 | None => false end
  | _ => false
  end.

(** [filepath.Base(s) == s] *)
Definition plain_filename (s : bytes) : bool := says s "/" || (negb (contains 0x2F s) && negb (zlen s =? 0)).

(** [hex.DecodeString] *)
Fixpoint decode_hex (s : bytes) : option bytes :=
  match s with
  | [] => Some []
  | h :: l :: rest =>
      match hex_value h, hex_value l, decode_hex rest with
      | Some h, Some l, Some rest => Some (h * 16 + l :: rest)
      | _, _, _ => None
      end
  | _ => None
  end.

(** [artifact.ParseSHA256] *)
Definition ParseSHA256 (s : bytes) : result bytes :=
  if negb (zlen s =? 64) then inl "parse SHA-256: digest must contain %d hexadecimal characters"
  else match decode_hex s with Some d => inr d | None => inl "parse SHA-256: %w" end.

(** ** Validation *)

Definition validatePin (pin : ArtifactPin) : result () :=
  refuse match ParseRequestURI (PinURI pin) with
         | None => true
         | Some u => negb (says (Scheme u) "https") || (zlen (Host u) =? 0) || User u || negb (zlen (Fragment u) =? 0)
         end as "catalog %s URI must be an HTTPS URL without credentials or a fragment";
  refuse negb (catalogSegment (PinFilename pin)) || negb (plain_filename (PinFilename pin)) as "catalog %s filename is invalid";
  refuse (PinSizeBytes pin <=? 0) || (2 ^ 30 <? PinSizeBytes pin) as "catalog %s size must be positive";
  inr tt.

Record resolvedCatalog := { rcatalog : Catalog; paperDigest : bytes; javaDigest : bytes; probeDigest : bytes; runtimeDigest : bytes }.

Definition expanded_ok (n : Z) : bool := (0 <? n) && (n <=? 2 ^ 30).

Definition validateCatalog (c : Catalog) : result resolvedCatalog :=
  let paper := Paper c in
  let java := Java c in
  refuse (zlen (EnvironmentID c) =? 0) || (zlen (PaperGameVersion paper) =? 0) || (PaperBuild paper =? 0)
    as "catalog Paper identity is incomplete";
  refuse (zlen (JavaDistributionOf java) =? 0) || (zlen (JavaVersionOf java) =? 0) || negb (says (JavaOS java) "linux")
         || negb (says (JavaArchitecture java) "amd64") || (zlen (ArchiveRoot java) =? 0)
    as "catalog Java identity must be a Linux amd64 runtime with an archive root";
  refuse (zlen (ProbeVersion c) =? 0) || (zlen (ProbeSourceCommit c) =? 0)
    as "catalog probe version and source commit are required";
  refuse contains 0x5C (ArchiveRoot java) || contains 0x2F (ArchiveRoot java) || says (ArchiveRoot java) "." || says (ArchiveRoot java) ".."
    as "catalog Java archive root is invalid";
  let? _ := validatePin (PaperArtifact paper) in
  let? _ := validatePin (JavaArtifact java) in
  let? _ := validatePin (ProbePin c) in
  let? _ := validatePin (ArchiveArtifact (PreparedRuntime c)) in
  refuse negb (expanded_ok (JavaExpandedBytes java)) || negb (expanded_ok (ArchiveExpandedBytes (PreparedRuntime c)))
    as "catalog archive expanded-byte limits must be between 1 and 1073741824";
  let? paperDigest := ParseSHA256 (PinSHA256 (PaperArtifact paper)) in
  let? javaDigest := ParseSHA256 (PinSHA256 (JavaArtifact java)) in
  let? probeDigest := ParseSHA256 (PinSHA256 (ProbePin c)) in
  let? runtimeDigest := ParseSHA256 (PinSHA256 (ArchiveArtifact (PreparedRuntime c))) in
  inr {| rcatalog := c; paperDigest := paperDigest; javaDigest := javaDigest; probeDigest := probeDigest; runtimeDigest := runtimeDigest |}.

Definition with_runtime (c : Catalog) (r : ArchivePin) : Catalog := {|
  EnvironmentID := EnvironmentID c; Paper := Paper c; Java := Java c; ProbeVersion := ProbeVersion c;
  ProbeSourceCommit := ProbeSourceCommit c; ProbePin := ProbePin c; PreparedRuntime := r |}.

Definition ValidateOperatorCatalog (c : Catalog) (requireRuntime : bool) : result () :=
  refuse negb (catalogSegment (EnvironmentID c)) || negb (gameVersionPattern (PaperGameVersion (Paper c))) || (PaperBuild (Paper c) =? 0)
    as "catalog Paper identity is invalid";
  refuse negb (forallb catalogSegment [JavaDistributionOf (Java c); JavaVersionOf (Java c); ArchiveRoot (Java c)])
    as "catalog Java identity is invalid";
  refuse negb (javaVersionPattern (JavaVersionOf (Java c))) as "catalog Java version must be an exact numeric release";
  refuse negb (acceptedProbe c) as "catalog must use the accepted immutable Paper probe";
  let c := if negb requireRuntime && bool_decide (PreparedRuntime c = no_archive)
           then with_runtime c {| ArchiveArtifact := PaperArtifact (Paper c); ArchiveExpandedBytes := 1 |} else c in
  let? _ := validateCatalog c in
  inr tt.

(** ** Catalogs an operator supplies *)

Definition MaximumCatalogJSONBytes : Z := 256 * 1024.
Definition MaximumOperatorCatalogs : Z := 32.

Definition catalog_keys : list string :=
  ["uri"; "sha256"; "filename"; "sizeBytes"; "environmentId"; "paper"; "gameVersion"; "build"; "artifact"; "java"; "distribution";
   "version"; "os"; "architecture"; "archiveRoot"; "maximumExpandedBytes"; "probeVersion"; "probeSourceCommit"; "probe"; "preparedRuntime"].

(** The values of a document with [depth] levels left below them. *)
Fixpoint validateJSONValue (depth : nat) (v : json) : result () :=
  match v with
  | JObject ms =>
      (fix members (seen : list bytes) (ms : list (bytes * json)) : result () :=
         match ms with
         | [] => inr tt
         | (k, v) :: ms =>
             refuse bool_decide (k ∈ seen) as "duplicate catalog JSON key";
             refuse negb (one_of k catalog_keys) as "catalog JSON keys must use canonical schema names";
             match depth with
             | O => inl "catalog JSON nesting exceeds schema limits"
             | S depth => let? _ := validateJSONValue depth v in members (k :: seen) ms
             end
         end) [] ms
  | JArray vs =>
      (fix items (vs : list json) : result () :=
         match vs with
         | [] => inr tt
         | v :: vs =>
             match depth with
             | O => inl "catalog JSON nesting exceeds schema limits"
             | S depth => let? _ := validateJSONValue depth v in items vs
             end
         end) vs
  | _ => inr tt
  end.

(** A struct with every key named; [null] leaves the zero value. *)
Definition decode_strict {S} (field : bytes -> option (json -> S -> option S)) (zero : S) (v : json) : option S :=
  match v with
  | JObject ms => decode_struct true field zero ms
  | JNull => Some zero
  | _ => None
  end.

Definition pin_field (key : bytes) : option (json -> ArtifactPin -> option ArtifactPin) :=
  let upd (u h f : option bytes) (n : option Z) (p : ArtifactPin) := {|
    PinURI := default (PinURI p) u; PinSHA256 := default (PinSHA256 p) h; PinFilename := default (PinFilename p) f;
    PinSizeBytes := default (PinSizeBytes p) n |} in
  if folded "uri" key then Some (store_string (fun x => upd (Some x) None None None))
  else if folded "sha256" key then Some (store_string (fun x => upd None (Some x) None None))
  else if folded "filename" key then Some (store_string (fun x => upd None None (Some x) None))
  else if folded "sizebytes" key then Some (store_int64 (fun x => upd None None None (Some x)))
  else None.

Definition paper_field (key : bytes) : option (json -> PaperPin -> option PaperPin) :=
  if folded "gameversion" key
  then Some (store_string (fun x p => {| PaperGameVersion := x; PaperBuild := PaperBuild p; PaperArtifact := PaperArtifact p |}))
  else if folded "build" key
  then Some (store_uint32 (fun x p => {| PaperGameVersion := PaperGameVersion p; PaperBuild := x; PaperArtifact := PaperArtifact p |}))
  else if folded "artifact" key
  then Some (fun v p => (fun a => {| PaperGameVersion := PaperGameVersion p; PaperBuild := PaperBuild p; PaperArtifact := a |})
                        <$> decode_strict pin_field (PaperArtifact p) v)
  else None.

Definition java_field (key : bytes) : option (json -> JavaPin -> option JavaPin) :=
  let upd (d v o a r : option bytes) (p : option ArtifactPin) (n : option Z) (j : JavaPin) := {|
    JavaDistributionOf := default (JavaDistributionOf j) d; JavaVersionOf := default (JavaVersionOf j) v; JavaOS := default (JavaOS j) o;
    JavaArchitecture := default (JavaArchitecture j) a; ArchiveRoot := default (ArchiveRoot j) r; JavaArtifact := default (JavaArtifact j) p;
    JavaExpandedBytes := default (JavaExpandedBytes j) n |} in
  if folded "distribution" key then Some (store_string (fun x => upd (Some x) None None None None None None))
  else if folded "version" key then Some (store_string (fun x => upd None (Some x) None None None None None))
  else if folded "os" key then Some (store_string (fun x => upd None None (Some x) None None None None))
  else if folded "architecture" key then Some (store_string (fun x => upd None None None (Some x) None None None))
  else if folded "archiveroot" key then Some (store_string (fun x => upd None None None None (Some x) None None))
  else if folded "artifact" key
  then Some (fun v j => (fun a => upd None None None None None (Some a) None j) <$> decode_strict pin_field (JavaArtifact j) v)
  else if folded "maximumexpandedbytes" key then Some (store_int64 (fun x => upd None None None None None None (Some x)))
  else None.

Definition archive_field (key : bytes) : option (json -> ArchivePin -> option ArchivePin) :=
  if folded "artifact" key
  then Some (fun v a => (fun p => {| ArchiveArtifact := p; ArchiveExpandedBytes := ArchiveExpandedBytes a |})
                        <$> decode_strict pin_field (ArchiveArtifact a) v)
  else if folded "maximumexpandedbytes" key
  then Some (store_int64 (fun x a => {| ArchiveArtifact := ArchiveArtifact a; ArchiveExpandedBytes := x |}))
  else None.

Definition catalog_field (key : bytes) : option (json -> Catalog -> option Catalog) :=
  let upd (e v s : option bytes) (p : option PaperPin) (j : option JavaPin) (b : option ArtifactPin) (r : option ArchivePin) (c : Catalog) := {|
    EnvironmentID := default (EnvironmentID c) e; Paper := default (Paper c) p; Java := default (Java c) j;
    ProbeVersion := default (ProbeVersion c) v; ProbeSourceCommit := default (ProbeSourceCommit c) s; ProbePin := default (ProbePin c) b;
    PreparedRuntime := default (PreparedRuntime c) r |} in
  if folded "environmentid" key then Some (store_string (fun x => upd (Some x) None None None None None None))
  else if folded "probeversion" key then Some (store_string (fun x => upd None (Some x) None None None None None))
  else if folded "probesourcecommit" key then Some (store_string (fun x => upd None None (Some x) None None None None))
  else if folded "paper" key
  then Some (fun v c => (fun p => upd None None None (Some p) None None None c) <$> decode_strict paper_field (Paper c) v)
  else if folded "java" key
  then Some (fun v c => (fun j => upd None None None None (Some j) None None c) <$> decode_strict java_field (Java c) v)
  else if folded "probe" key
  then Some (fun v c => (fun b => upd None None None None None (Some b) None c) <$> decode_strict pin_field (ProbePin c) v)
  else if folded "preparedruntime" key
  then Some (fun v c => (fun r => upd None None None None None None (Some r) c) <$> decode_strict archive_field (PreparedRuntime c) v)
  else None.

Definition no_catalog : Catalog := {|
  EnvironmentID := []; Paper := {| PaperGameVersion := []; PaperBuild := 0; PaperArtifact := no_pin |};
  Java := {| JavaDistributionOf := []; JavaVersionOf := []; JavaOS := []; JavaArchitecture := []; ArchiveRoot := []; JavaArtifact := no_pin;
             JavaExpandedBytes := 0 |};
  ProbeVersion := []; ProbeSourceCommit := []; ProbePin := no_pin; PreparedRuntime := no_archive |}.

Definition decodeCatalogJSON {A} (decode : json -> option A) (raw : bytes) : result A :=
  refuse (zlen raw =? 0) || (MaximumCatalogJSONBytes <? zlen raw) as "catalog JSON must be between 1 and 262144 bytes";
  match Json.parse raw with
  | None => inl "invalid catalog JSON"
  | Some v =>
      let? _ := validateJSONValue 16 v in
      match decode v with Some a => inr a | None => inl "catalog JSON has an invalid schema" end
  end.

Definition decode_catalogs (v : json) : option (list Catalog) :=
  match v with
  | JArray vs => mapM (decode_strict catalog_field no_catalog) vs
  | JNull => Some []
  | _ => None
  end.

(** The environment a catalog entry resolves to, as a key. *)
Definition catalogRemoteIdentity (c : Catalog) : bytes :=
  PaperGameVersion (Paper c) ++ 0 :: itoa (PaperBuild (Paper c)) ++ 0 :: JavaDistributionOf (Java c) ++ 0 :: JavaVersionOf (Java c)
  ++ 0 :: JavaOS (Java c) ++ 0 :: JavaArchitecture (Java c).

(** The loop over the entries, with the keys of those before. *)
Fixpoint check_catalogs (ids identities runtimes : list bytes) (l : list Catalog) : result () :=
  match l with
  | [] => inr tt
  | c :: l =>
      let? _ := ValidateOperatorCatalog c true in
      let runtime := PinSHA256 (ArchiveArtifact (PreparedRuntime c)) in
      refuse bool_decide (EnvironmentID c ∈ ids) || bool_decide (catalogRemoteIdentity c ∈ identities) || bool_decide (runtime ∈ runtimes)
        as "catalog contains duplicate environment, resolved identity, or prepared-runtime digest";
      check_catalogs (EnvironmentID c :: ids) (catalogRemoteIdentity c :: identities) (runtime :: runtimes) l
  end.

Definition DecodeOperatorCatalogs (raw : bytes) : result (list Catalog) :=
  let? catalogs := decodeCatalogJSON decode_catalogs raw in
  refuse (zlen catalogs <? 1) || (MaximumOperatorCatalogs <? zlen catalogs) as "catalog array must contain between 1 and 32 entries";
  let? _ := check_catalogs [] [] [] catalogs in
  inr catalogs.

Definition DecodePreparationCatalog (raw : bytes) : result Catalog :=
  let? c := decodeCatalogJSON (decode_strict catalog_field no_catalog) raw in
  let? _ := ValidateOperatorCatalog c false in
  inr c.

(** ** Where artifacts come from ([source.go]) *)

Definition validDNSName (host : bytes) : bool :=
  (zlen host <=? 253)
  && forallb (fun label => (1 <=? zlen label) && (zlen label <=? 63) && negb (bool_decide (head label = Some 0x2D))
                           && negb (bool_decide (last label = Some 0x2D))
                           && forallb (fun c => is_lower c || is_digit c || (c =? 0x2D)) label) (split_on 0x2E host).

(** [strings.TrimSuffix(s, ".")] *)
Definition trim_dot (s : bytes) : bytes := if has_suffix (bs ".") s then take (length s - 1) s else s.

Definition local_host (host : bytes) : bool := says host "localhost" || has_suffix (bs ".localhost") host.

(** The host of a URL that may be fetched. *)
Definition validateHTTPSURLValue (u : URL) : result bytes :=
  refuse negb (says (Scheme u) "https") || (zlen (Host u) =? 0) || User u || negb (zlen (Fragment u) =? 0)
    as "must be an HTTPS URL without credentials or a fragment";
  refuse negb (zlen (Port u) =? 0) && negb (says (Port u) "443") as "HTTPS artifact URL must use port 443";
  let host := lower_runes (trim_dot (Url.Hostname u)) in
  refuse (zlen host =? 0) || local_host host || negb (validDNSName host) as "HTTPS artifact host is not public";
  refuse is_ip host as "HTTPS artifact hosts must use allowlisted DNS names, not IP literals";
  inr host.

Definition normalizeConfiguredHost (host : bytes) : result bytes :=
  let host := lower_runes (trim_dot (TrimSpace host)) in
  refuse (zlen host =? 0) || existsb (Url.one_of "/@#?") host || contains 0x3A host || local_host host || is_ip host || negb (validDNSName host)
    as "invalid artifact host %q";
  inr host.

(** A parsed URL with what follows its path, from the question mark on: [String] prints it
    as it was read. *)
Record URI := { uurl : URL; uquery : bytes }.

Definition ParseURI (raw : bytes) : option URI :=
  (fun u => {| uurl := u; uquery := match index_byte 0x3F raw with Some i => drop i raw | None => [] end |}) <$> ParseRequestURI raw.

(** [url.URL.String] of a URL without a user. *)
Definition URIString (u : URI) : bytes :=
  let l := uurl u in
  (if zlen (Scheme l) =? 0 then [] else Scheme l ++ bs ":")
  ++ (if negb (zlen (Opaque l) =? 0) then Opaque l
      else (if zlen (Host l) =? 0 then [] else bs "//" ++ escape encodeHost (Host l)) ++ EscapedPath l)
  ++ uquery u.

(** The interface [sourcePolicy]. *)
Record sourcePolicy := { ValidateInitial : URI -> result (); ValidateRedirect : URI -> result () }.

Definition allowlist_validate (hosts : list bytes) (u : URI) : result () :=
  let? host := validateHTTPSURLValue (uurl u) in
  refuse negb (bool_decide (host ∈ hosts)) as "HTTPS artifact host %q is not allowlisted";
  inr tt.

Fixpoint normalize_hosts (hosts : list bytes) : result (list bytes) :=
  match hosts with
  | [] => inr []
  | h :: hosts => let? h := normalizeConfiguredHost h in let? hosts := normalize_hosts hosts in inr (h :: hosts)
  end.

Definition newHTTPSAllowlist (hosts : list bytes) : result sourcePolicy :=
  let? allowed := normalize_hosts hosts in
  refuse zlen allowed =? 0 as "at least one HTTPS artifact host is required";
  inr {| ValidateInitial := allowlist_validate allowed; ValidateRedirect := allowlist_validate allowed |}.

(** The URLs of the pins, as printed, and their hosts. *)
Fixpoint pinned_sources (raws : list bytes) : result (list bytes * list bytes) :=
  match raws with
  | [] => inr ([], [])
  | raw :: raws =>
      match ParseURI raw with
      | None => inl "invalid pinned artifact URL"
      | Some u =>
          let? host := validateHTTPSURLValue (uurl u) in
          let? (initial, redirects) := pinned_sources raws in
          inr (URIString u :: initial, host :: redirects)
      end
  end.

Definition pins_of (c : Catalog) : list ArtifactPin := [PaperArtifact (Paper c); JavaArtifact (Java c); ProbePin c; ArchiveArtifact (PreparedRuntime c)].

(** A URL with a user is none of the pinned ones, which have no user. *)
Definition newPinnedSourcePolicies (catalogs : list Catalog) : result sourcePolicy :=
  let? (initial, hosts) := pinned_sources (concat (map (fun c => map PinURI (pins_of c)) catalogs)) in
  let redirects := bs "release-assets.githubusercontent.com" :: bs "objects.githubusercontent.com" :: hosts in
  inr {| ValidateInitial := fun u =>
           refuse User (uurl u) || negb (bool_decide (URIString u ∈ initial)) as "artifact URL does not match a pinned catalog source";
           let? _ := validateHTTPSURLValue (uurl u) in inr tt;
         ValidateRedirect := fun u =>
           let? host := validateHTTPSURLValue (uurl u) in
           refuse negb (bool_decide (host ∈ redirects)) as "pinned artifact redirect host %q is not allowlisted";
           inr tt |}.

(** ** Dialling *)

(** [Addr.Unmap] *)
Definition Unmap (a : Addr) : Addr := match a with V6 x _ => if Is4In6 a then V4 (x mod 2 ^ 32) else a | _ => a end.

Definition nonPublicPrefixes : list Prefix := [
  net4 0 0 0 0 8; net4 10 0 0 0 8; net4 100 64 0 0 10; net4 127 0 0 0 8; net4 169 254 0 0 16; net4 172 16 0 0 12;
  net4 192 0 0 0 24; net4 192 0 2 0 24; net4 192 31 196 0 24; net4 192 52 193 0 24; net4 192 88 99 0 24;
  net4 192 168 0 0 16; net4 192 175 48 0 24; net4 198 18 0 0 15; net4 198 51 100 0 24; net4 203 0 113 0 24;
  net4 224 0 0 0 4; net4 240 0 0 0 4;
  {| paddr := V6 0 []; pbits := 128 |}; {| paddr := V6 1 []; pbits := 128 |}; net6 0x64 0xFF9B 0 96; net6 0x64 0xFF9B 1 48;
  net6 0x100 0 0 64; net6 0x2001 0 0 23; net6 0x2001 0xDB8 0 32; net6 0x2002 0 0 16; net6 0x3FFF 0 0 20; net6 0x5F00 0 0 16;
  net6 0xFC00 0 0 7; net6 0xFE80 0 0 10; net6 0xFF00 0 0 8].

Definition validateResolvedAddress (a : Addr) : result () :=
  let a := Unmap a in
  refuse negb (IsValid a) || negb (IsGlobalUnicast a) as "address %s is not a permitted public unicast address";
  refuse existsb (fun p => Contains p a) nonPublicPrefixes as "address %s is in non-public special-purpose range %s";
  inr tt.

Section dial.
Context {W Conn : Type}.

(** The resolver and the dialer: an address or an error for a host, a connection or an
    error for an address and a port. *)
Variable lookup : bytes -> M W (option (list Addr)).
Variable dial : bytes -> Addr -> bytes -> M W (option Conn).

(** The addresses in order, those of another family left out. *)
Fixpoint dial_each (network port : bytes) (l : list Addr) : M W (result Conn) :=
  match l with
  | [] => ret (inl "dial validated artifact host %q: %w")
  | a :: l =>
      let a := Unmap a in
      if (says network "tcp4" && negb (Is4 a)) || (says network "tcp6" && negb (Is6 a)) then dial_each network port l
      else bind (dial network a port) (fun c => match c with Some c => ret (inr c) | None => dial_each network port l end)
  end.

(** [address] is the host and the port the transport dials; [None] when [SplitHostPort]
    refuses it. *)
Definition secureDialContext (network : bytes) (address : option (bytes * bytes)) : M W (result Conn) :=
  match address with
  | None => ret (inl "validate artifact dial address: %w")
  | Some (host, port) =>
      bind (lookup host) (fun addresses =>
        match addresses with
        | None => ret (inl "resolve artifact host %q: %w")
        | Some [] => ret (inl "resolve artifact host %q: no addresses")
        | Some l =>
            if forallb (fun a => match validateResolvedAddress a with inr _ => true | inl _ => false end) l
            then dial_each network port l else ret (inl "resolve artifact host %q: %w")
        end)
  end.
End dial.
