(* ===== verification/PaperAdapter.v ===== *)
(** How the Paper provider turns a remote job into a local one
    ([src/internal/provider/paper/adapter.go]) and a local one into an environment
    ([provider.go]): the provider and its limits, the normalized configuration, the
    budget of a preparation. Jobs are of providers with the catalogs of an operator; the
    runtimes that are fetched for a job ([automatic_runtime.go]) are not here. *)

From S2P Require Import Prelude Utf8 Strconv Json Sha256 World Execution GuestOutput Policy Binder Messages Url JsonStruct TerminalBuild TerminalPlan Probe Offer PaperCatalog.
Import Names Wire PluginName.

Open Scope string_scope.
Open Scope list_scope.
Open Scope Z_scope.
Open Scope probe_scope.

(** ** Providers *)

Definition defaultMaximumArtifactBytes : Z := 512 * 2 ^ 20.
Definition defaultMaximumDependencyBytes : Z := 2 ^ 30.
Definition defaultMaximumPreparationBytes : Z := 2 * 2 ^ 30.

(** The caches, the workspaces and the sandbox matter for whether they are there. *)
Record Config := {
  hasCaches : bool; hasWorkspaces : bool; hasSandbox : bool; OneCatalog : Catalog; Catalogs : list Catalog;
  ArtifactHosts : list bytes; MaximumArtifactBytes : Z; MaximumDependencyBytes : Z; MaximumPreparationBytes : Z;
}.

Record preparationLimits := { maximumArtifactBytes : Z; maximumDependencyBytes : Z; maximumPreparationBytes : Z }.

Record Provider := {
  plimits : preparationLimits; catalogs : gmap bytes resolvedCatalog; inputPolicy : sourcePolicy; pinPolicy : sourcePolicy;
}.

(** The loop over the configured catalogs; [identities] are those of the entries before. *)
Fixpoint resolve_catalogs (maximum : Z) (m : gmap bytes resolvedCatalog) (identities : list bytes) (l : list Catalog)
  : result (gmap bytes resolvedCatalog) :=
  match l with
  | [] => inr m
  | c :: l =>
      let? resolved := validateCatalog c in
      refuse bool_decide (is_Some (m !! EnvironmentID c)) as "create Paper provider: duplicate catalog environmentId %q";
      refuse bool_decide (catalogRemoteIdentity c ∈ identities)
        as "create Paper provider: catalogs %q and %q have the same resolved environment";
      refuse existsb (fun pin => maximum <? PinSizeBytes pin) (pins_of c)
        as "create Paper provider: pinned artifact %q exceeds the per-artifact limit";
      resolve_catalogs maximum (<[EnvironmentID c := resolved]> m) (catalogRemoteIdentity c :: identities) l
  end.

Definition New (config : Config) : result Provider :=
  refuse negb (hasCaches config)
    as "create Paper provider: artifact, Paper, Java, probe, and prepared runtime caches are required";
  refuse negb (hasWorkspaces config) as "create Paper provider: workspace manager is required";
  refuse negb (hasSandbox config) as "create Paper provider: isolated workload provider is required";
  let orDefault n d := if n =? 0 then d else n in
  let artifact := orDefault (MaximumArtifactBytes config) defaultMaximumArtifactBytes in
  let dependency := orDefault (MaximumDependencyBytes config) defaultMaximumDependencyBytes in
  let preparation := orDefault (MaximumPreparationBytes config) defaultMaximumPreparationBytes in
  refuse (artifact <? 1) || (dependency <? 1) || (preparation <? 1) as "create Paper provider: preparation limits must be positive";
  refuse (64 * 2 ^ 30 <? preparation) || (preparation <? artifact) || (preparation <? dependency)
    as "create Paper provider: preparation limits exceed the supported aggregate boundary";
  refuse negb (zlen (EnvironmentID (OneCatalog config)) =? 0) && negb (zlen (Catalogs config) =? 0)
    as "create Paper provider: Catalog and Catalogs cannot both be configured";
  let configured := if zlen (Catalogs config) =? 0
                    then [if zlen (EnvironmentID (OneCatalog config)) =? 0 then AlphaCatalog else OneCatalog config]
                    else Catalogs config in
  let? resolved := resolve_catalogs artifact ∅ [] configured in
  let? inputPolicy := newHTTPSAllowlist (ArtifactHosts config) in
  let? pinPolicy := newPinnedSourcePolicies configured in
  inr {| plimits := {| maximumArtifactBytes := artifact; maximumDependencyBytes := dependency; maximumPreparationBytes := preparation |};
         catalogs := resolved; inputPolicy := inputPolicy; pinPolicy := pinPolicy |}.

(** ** The configuration of an environment *)

Record artifactReference := { RefURI : bytes; RefSHA256 : bytes; RefFilename : bytes; RefSizeBytes : Z }.

Record dependencyReference := { DepID : bytes; DepPlugin : bytes; DepArtifact : artifactReference }.

Record configuration := {
  ArtifactKind : bytes; CEnvironmentID : bytes; Target : artifactReference; Dependencies : list dependencyReference; TestPlan : testPlan;
  CMemoryBytes : Z; CCPUMillis : Z; CPIDs : Z; CDiskBytes : Z; MaxLineBytes : Z; RedactSecrets : list bytes;
}.

Record resolvedReference := { reference : artifactReference; rdigest : bytes }.
Record resolvedDependency := { rdID : bytes; rdPlugin : bytes; rdArtifact : resolvedReference }.
Record resolvedConfiguration := { rconfiguration : configuration; rtarget : resolvedReference; rdependencies : list resolvedDependency }.

Definition ArtifactKindMinecraftPlugin : bytes := bs "minecraft-plugin".
Definition minimumMemoryBytes : Z := 512 * 2 ^ 20.
Definition maximumDependencies : Z := 128.

(** [^[A-Za-z0-9][A-Za-z0-9_. -]{0,63}$] *)
Definition safePluginName (s : bytes) : bool :=
  match s with
  | [] => false
  | b :: rest => (zlen s <=? 64) && alphanumeric b && forallb (fun b => alphanumeric b || Url.one_of "_. -" b) rest
  end.

Definition resolveReference (policy : sourcePolicy) (maximumBytes : Z) (r : artifactReference) : result resolvedReference :=
  match ParseURI (RefURI r) with
  | None => inl "%s.uri: invalid URL"
  | Some u =>
      let? _ := ValidateInitial policy u in
      refuse (zlen (RefFilename r) =? 0) || negb (plain_filename (RefFilename r)) || negb (has_suffix (bs ".jar") (lower_runes (RefFilename r)))
        as "%s.filename must be a plain JAR filename";
      refuse (RefSizeBytes r <=? 0) || (maximumBytes <? RefSizeBytes r) as "%s.sizeBytes must be between 1 and %d";
      let? digest := ParseSHA256 (RefSHA256 r) in
      inr {| reference := r; rdigest := digest |}
  end.

(** The loop over the dependencies: their bytes, and the plugins seen. *)
Fixpoint resolve_dependencies (policy : sourcePolicy) (limits : preparationLimits) (ids plugins : list bytes) (total : Z)
    (l : list dependencyReference) : result (list resolvedDependency * list bytes * Z) :=
  match l with
  | [] => inr ([], plugins, total)
  | d :: l =>
      refuse (zlen (DepID d) =? 0) || (128 <? zlen (DepID d)) || existsb (fun b => existsb (Z.eqb b) [0x5C; 0x2F; 0]) (DepID d)
        as "dependencies[%d].id is invalid";
      refuse bool_decide (DepID d ∈ ids) as "dependencies[%d].id is duplicated";
      refuse negb (safePluginName (DepPlugin d)) as "dependencies[%d].plugin is invalid";
      let key := lower_runes (DepPlugin d) in
      refuse bool_decide (key ∈ plugins) as "dependencies[%d].plugin is duplicated";
      let? resolved := resolveReference policy (maximumArtifactBytes limits) (DepArtifact d) in
      refuse maximumDependencyBytes limits - total <? RefSizeBytes (reference resolved)
        as "dependency artifacts exceed the aggregate %d-byte limit";
      let? (rest, plugins, total) := resolve_dependencies policy limits (DepID d :: ids) (key :: plugins)
                                       (total + RefSizeBytes (reference resolved)) l in
      inr ({| rdID := DepID d; rdPlugin := DepPlugin d; rdArtifact := resolved |} :: rest, plugins, total)
  end.

(** ** The budget of a preparation *)

(** An [int64] sum. *)
Definition int64 (n : Z) : Z := (n + 2 ^ 63) mod 2 ^ 64 - 2 ^ 63.

(** The sizes that are downloaded, as far as they fit. *)
Fixpoint sum_downloads (maximum downloads : Z) (sizes : list Z) : option Z :=
  match sizes with
  | [] => Some downloads
  | size :: sizes =>
      if size =? 0 then sum_downloads maximum downloads sizes
      else if (size <? 0) || (int64 (maximum - downloads) <? size) then None
      else sum_downloads maximum (int64 (downloads + size)) sizes
  end.

Definition validatePreparationBudget (target diskBytes : Z) (c : Catalog) (dependencyBytes : Z) (limits : preparationLimits) : result () :=
  let paper := PinSizeBytes (PaperArtifact (Paper c)) in
  match sum_downloads (maximumPreparationBytes limits) 0
          [paper; PinSizeBytes (JavaArtifact (Java c)); PinSizeBytes (ProbePin c);
           PinSizeBytes (ArchiveArtifact (PreparedRuntime c)); target; dependencyBytes] with
  | None => inl "declared downloads exceed the aggregate %d-byte preparation limit"
  | Some downloads =>
      let workspaceSeed := int64 (ArchiveExpandedBytes (PreparedRuntime c) + paper + PinSizeBytes (ProbePin c) + target + dependencyBytes + 64 * 1024) in
      refuse (workspaceSeed <? 0) || (Z.quot (int64 (diskBytes + 1)) 2 <? workspaceSeed)
        as "diskBytes is too small for the declared prepared server and plugin artifacts";
      let hostBytes := int64 (downloads + JavaExpandedBytes (Java c) + workspaceSeed) in
      refuse (hostBytes <? downloads) || (maximumPreparationBytes limits <? hostBytes)
        as "cache and workspace preparation exceed the aggregate %d-byte limit";
      inr tt
  end.

Definition resolveConfiguration (config : configuration) (c : resolvedCatalog) (policy : sourcePolicy) (limits : preparationLimits)
  : result resolvedConfiguration :=
  let plan := TestPlan config in
  let between lo hi n := (lo <=? n) && (n <=? hi) in
  refuse negb (bool_decide (ArtifactKind config = ArtifactKindMinecraftPlugin)) as "artifactKind must be %q";
  refuse negb (bool_decide (CEnvironmentID config = EnvironmentID (rcatalog c))) as "environmentId must be the pinned catalog entry %q";
  refuse negb (safePluginName (TargetPlugin plan)) as "testPlan.targetPlugin is invalid";
  refuse negb (between 0 60000 (StabilizationMilliseconds plan)) as "testPlan.stabilizationMilliseconds must be between 0 and 60000";
  refuse maximumDependencies <? zlen (Dependencies config) as "dependencies must contain at most %d entries";
  refuse negb (between minimumMemoryBytes (64 * 2 ^ 30) (CMemoryBytes config)) as "memoryBytes must be between 536870912 and 68719476736";
  refuse negb (between 10 64000 (CCPUMillis config)) as "cpuMillis must be between 10 and 64000";
  refuse negb (between 1 4096 (CPIDs config)) as "pids must be between 1 and 4096";
  refuse negb (between (2 ^ 20) (64 * 2 ^ 30) (CDiskBytes config)) as "diskBytes must be between 1048576 and 68719476736";
  let? target := resolveReference policy (maximumArtifactBytes limits) (Target config) in
  let? (dependencies, plugins, dependencyBytes) :=
    resolve_dependencies policy limits [] [lower_runes (TargetPlugin plan)] 0 (Dependencies config) in
  refuse negb (forallb (fun r => bool_decide (lower_runes r ∈ plugins) && safePluginName r) (RequiredDependencies plan))
    as "required dependency %q is not a configured dependency plugin";
  let? _ := validatePreparationBudget (RefSizeBytes (reference target)) (CDiskBytes config) (rcatalog c) dependencyBytes limits in
  inr {| rconfiguration := config; rtarget := target; rdependencies := dependencies |}.

(** ** JSON *)

(** A member that is left out when it is empty. *)
Definition omit (empty : bool) (key : string) (v : json) : list (bytes * json) := if empty then [] else [(bs key, v)].

Definition text (key : string) (v : bytes) : bytes * json := (bs key, JString v).
Definition numeral (key : string) (n : Z) : bytes * json := (bs key, JNumber (itoa n)).

Definition assertion_value (a : commandAssertion) : json :=
  JObject (text "stream" (Stream a) :: omit (zlen (Operator a) =? 0) "operator" (JString (Operator a))
           ++ [text "pattern" (Pattern a); text "match" (Match_ a)]
           ++ match MinimumOccurrences a with Some n => [numeral "minimumOccurrences" n] | None => [] end).

Definition test_value (t : consoleCommandTest) : json :=
  JObject [text "id" (TestID t); text "command" (Command t); numeral "timeoutSeconds" (TimeoutSeconds t);
           (bs "assertions", JArray (map assertion_value (Assertions t)))].

Definition plan_value (p : testPlan) : json :=
  JObject (text "targetPlugin" (TargetPlugin p)
           :: omit (zlen (RequiredDependencies p) =? 0) "requiredDependencies" (JArray (map JString (RequiredDependencies p)))
           ++ omit (StabilizationMilliseconds p =? 0) "stabilizationMilliseconds" (JNumber (itoa (StabilizationMilliseconds p)))
           ++ omit (zlen (Console p) =? 0) "console" (JArray (map test_value (Console p)))).

Definition reference_value (r : artifactReference) : json :=
  JObject [text "uri" (RefURI r); text "sha256" (RefSHA256 r); text "filename" (RefFilename r); numeral "sizeBytes" (RefSizeBytes r)].

Definition dependency_value (d : dependencyReference) : json :=
  JObject [text "id" (DepID d); text "plugin" (DepPlugin d); (bs "artifact", reference_value (DepArtifact d))].

Definition configuration_value (c : configuration) : json :=
  JObject ([text "artifactKind" (ArtifactKind c); text "environmentId" (CEnvironmentID c); (bs "target", reference_value (Target c))]
           ++ omit (zlen (Dependencies c) =? 0) "dependencies" (JArray (map dependency_value (Dependencies c)))
           ++ [(bs "testPlan", plan_value (TestPlan c)); numeral "memoryBytes" (CMemoryBytes c); numeral "cpuMillis" (CCPUMillis c);
               numeral "pids" (CPIDs c); numeral "diskBytes" (CDiskBytes c)]
           ++ omit (MaxLineBytes c =? 0) "maxLineBytes" (JNumber (itoa (MaxLineBytes c)))
           ++ omit (zlen (RedactSecrets c) =? 0) "redactSecrets" (JArray (map JString (RedactSecrets c)))).

(** Reading them. A field of a slice, and of a pointer to an [int64]; what a key holds
    twice is not looked at. *)
Definition string_of (v : json) : option bytes := match v with JString s => Some s | JNull => Some [] | _ => None end.

Definition store_int64_pointer {S} (set : option Z -> S -> S) (v : json) (s : S) : option S :=
  match v with
  | JNumber n => match parse_int64 n with Some x => Some (set (Some x) s) | None => None end
  | JNull => Some (set None s)
  | _ => None
  end.

(** [strict] refuses a key that names no field. *)
Definition decode_as {S} (strict : bool) (field : bytes -> option (json -> S -> option S)) (zero : S) (v : json) : option S :=
  match v with
  | JObject ms => decode_struct strict field zero ms
  | JNull => Some zero
  | _ => None
  end.

Definition assertion_field (key : bytes) : option (json -> commandAssertion -> option commandAssertion) :=
  let upd (s o p m : option bytes) (n : option (option Z)) (a : commandAssertion) := {|
    Stream := default (Stream a) s; Operator := default (Operator a) o; Pattern := default (Pattern a) p;
    Match_ := default (Match_ a) m; MinimumOccurrences := default (MinimumOccurrences a) n |} in
  if folded "stream" key then Some (store_string (fun x => upd (Some x) None None None None))
  else if folded "operator" key then Some (store_string (fun x => upd None (Some x) None None None))
  else if folded "pattern" key then Some (store_string (fun x => upd None None (Some x) None None))
  else if folded "match" key then Some (store_string (fun x => upd None None None (Some x) None))
  else if folded "minimumoccurrences" key then Some (store_int64_pointer (fun x => upd None None None None (Some x)))
  else None.

Definition no_assertion : commandAssertion := {| Stream := []; Operator := []; Pattern := []; Match_ := []; MinimumOccurrences := None |}.

Definition test_field (strict : bool) (key : bytes) : option (json -> consoleCommandTest -> option consoleCommandTest) :=
  let upd (i c : option bytes) (n : option Z) (l : option (list commandAssertion)) (t : consoleCommandTest) := {|
    TestID := default (TestID t) i; Command := default (Command t) c; TimeoutSeconds := default (TimeoutSeconds t) n;
    Assertions := default (Assertions t) l |} in
  if folded "id" key then Some (store_string (fun x => upd (Some x) None None None))
  else if folded "command" key then Some (store_string (fun x => upd None (Some x) None None))
  else if folded "timeoutseconds" key then Some (store_int64 (fun x => upd None None (Some x) None))
  else if folded "assertions" key
  then Some (store_slice (decode_as strict assertion_field no_assertion) (fun l => upd None None None (Some l)))
  else None.

Definition no_test : consoleCommandTest := {| TestID := []; Command := []; TimeoutSeconds := 0; Assertions := [] |}.

Definition test_plan_field (key : bytes) : option (json -> testPlan -> option testPlan) :=
  let upd (t : option bytes) (r : option (list bytes)) (n : option Z) (l : option (list consoleCommandTest)) (p : testPlan) := {|
    TargetPlugin := default (TargetPlugin p) t; RequiredDependencies := default (RequiredDependencies p) r;
    StabilizationMilliseconds := default (StabilizationMilliseconds p) n; Console := default (Console p) l |} in
  if folded "targetplugin" key then Some (store_string (fun x => upd (Some x) None None None))
  else if folded "requireddependencies" key then Some (store_slice string_of (fun l => upd None (Some l) None None))
  else if folded "stabilizationmilliseconds" key then Some (store_int64 (fun x => upd None None (Some x) None))
  else if folded "console" key
  then Some (store_slice (decode_as true (test_field true) no_test) (fun l => upd None None None (Some l)))
  else None.

Definition no_plan : testPlan := {| TargetPlugin := []; RequiredDependencies := []; StabilizationMilliseconds := 0; Console := [] |}.

Definition reference_field (key : bytes) : option (json -> artifactReference -> option artifactReference) :=
  let upd (u h f : option bytes) (n : option Z) (r : artifactReference) := {|
    RefURI := default (RefURI r) u; RefSHA256 := default (RefSHA256 r) h; RefFilename := default (RefFilename r) f;
    RefSizeBytes := default (RefSizeBytes r) n |} in
  if folded "uri" key then Some (store_string (fun x => upd (Some x) None None None))
  else if folded "sha256" key then Some (store_string (fun x => upd None (Some x) None None))
  else if folded "filename" key then Some (store_string (fun x => upd None None (Some x) None))
  else if folded "sizebytes" key then Some (store_int64 (fun x => upd None None None (Some x)))
  else None.

Definition no_reference : artifactReference := {| RefURI := []; RefSHA256 := []; RefFilename := []; RefSizeBytes := 0 |}.

Definition dependency_reference_field (key : bytes) : option (json -> dependencyReference -> option dependencyReference) :=
  if folded "id" key then Some (store_string (fun x d => {| DepID := x; DepPlugin := DepPlugin d; DepArtifact := DepArtifact d |}))
  else if folded "plugin" key then Some (store_string (fun x d => {| DepID := DepID d; DepPlugin := x; DepArtifact := DepArtifact d |}))
  else if folded "artifact" key
  then Some (fun v d => (fun r => {| DepID := DepID d; DepPlugin := DepPlugin d; DepArtifact := r |})
                        <$> decode_as true reference_field (DepArtifact d) v)
  else None.

Definition no_dependency : dependencyReference := {| DepID := []; DepPlugin := []; DepArtifact := no_reference |}.

(** A decoded configuration, and whether it has the manifest of a fetched runtime. *)
Definition configuration_field (key : bytes) : option (json -> configuration * bool -> option (configuration * bool)) :=
  let upd (k e : option bytes) (t : option artifactReference) (d : option (list dependencyReference)) (p : option testPlan)
      (m c i k' l : option Z) (s : option (list bytes)) (x : configuration * bool) :=
    let x' := fst x in
    ({| ArtifactKind := default (ArtifactKind x') k; CEnvironmentID := default (CEnvironmentID x') e; Target := default (Target x') t;
        Dependencies := default (Dependencies x') d; TestPlan := default (TestPlan x') p; CMemoryBytes := default (CMemoryBytes x') m;
        CCPUMillis := default (CCPUMillis x') c; CPIDs := default (CPIDs x') i; CDiskBytes := default (CDiskBytes x') k';
        MaxLineBytes := default (MaxLineBytes x') l; RedactSecrets := default (RedactSecrets x') s |}, snd x) in
  if folded "runtimemanifest" key
  then Some (fun v x => match v with JNull => Some (fst x, false) | JObject _ => Some (fst x, true) | _ => None end)
  else if folded "artifactkind" key then Some (store_string (fun x => upd (Some x) None None None None None None None None None None))
  else if folded "environmentid" key then Some (store_string (fun x => upd None (Some x) None None None None None None None None None))
  else if folded "target" key
  then Some (fun v x => (fun r => upd None None (Some r) None None None None None None None None x) <$> decode_as true reference_field (Target (fst x)) v)
  else if folded "dependencies" key
  then Some (store_slice (decode_as true dependency_reference_field no_dependency) (fun l => upd None None None (Some l) None None None None None None None))
  else if folded "testplan" key
  then Some (fun v x => (fun p => upd None None None None (Some p) None None None None None None x) <$> decode_as true test_plan_field (TestPlan (fst x)) v)
  else if folded "memorybytes" key then Some (store_int64 (fun x => upd None None None None None (Some x) None None None None None))
  else if folded "cpumillis" key then Some (store_int64 (fun x => upd None None None None None None (Some x) None None None None))
  else if folded "pids" key then Some (store_int64 (fun x => upd None None None None None None None (Some x) None None None))
  else if folded "diskbytes" key then Some (store_int64 (fun x => upd None None None None None None None None (Some x) None None))
  else if folded "maxlinebytes" key then Some (store_int64 (fun x => upd None None None None None None None None None (Some x) None))
  else if folded "redactsecrets" key then Some (store_slice string_of (fun l => upd None None None None None None None None None None (Some l)))
  else None.

Definition no_configuration : configuration := {|
  ArtifactKind := []; CEnvironmentID := []; Target := no_reference; Dependencies := []; TestPlan := no_plan; CMemoryBytes := 0;
  CCPUMillis := 0; CPIDs := 0; CDiskBytes := 0; MaxLineBytes := 0; RedactSecrets := [] |}.

(** ** Resolving a local job *)

(** [Resolve] of an environment; a manifest is refused, as no trust is configured. *)
Definition Resolve (p : Provider) (environment : bytes) : result (resolvedCatalog * resolvedConfiguration) :=
  match Json.parse environment ≫= decode_as true configuration_field (no_configuration, false) with
  | None => inl "decode Paper environment: %w"
  | Some (_, true) => inl "automatic runtime trust is not configured"
  | Some (config, false) =>
      match catalogs p !! CEnvironmentID config with
      | None => inl "environmentId does not match a configured Paper catalog entry"
      | Some c =>
          let? resolved := resolveConfiguration config c (inputPolicy p) (plimits p) in
          inr (c, resolved)
      end
  end.

(** ** The normalized configuration of a job *)

Definition maximumNormalizedConfigurationBytes : Z := 2 ^ 20.
Definition maximumProbePlanBytes : Z := 262144.
Definition defaultMaximumLineBytes : Z := 4 * 1024.

Record normalizedDependency := { NDID : bytes; NDRequired : bool }.

(** [Console] is the raw text of the tests, here the value it stands for; [None] for a nil
    pointer and a missing text. *)
Record normalizedTests := { NStartup : option Z; NConsole : option json }.

Record normalizedConfiguration := {
  APIVersion : bytes; NProject : option bytes; NDependencies : list normalizedDependency; NTests : option normalizedTests;
  NLogBytes : option Z;
}.

(** A pointer to a struct: [null] makes it nil, an object is decoded into what is there. *)
Definition decode_pointer {S} (field : bytes -> option (json -> S -> option S)) (zero : S) (old : option S) (v : json) : option (option S) :=
  match v with
  | JNull => Some None
  | JObject ms => Some <$> decode_struct false field (default zero old) ms
  | _ => None
  end.

Definition name_field (key : bytes) : option (json -> bytes -> option bytes) :=
  if folded "name" key then Some (store_string (fun x _ => x)) else None.

Definition seconds_field (key : bytes) : option (json -> Z -> option Z) :=
  if folded "stabilizationseconds" key then Some (store_int64 (fun x _ => x)) else None.

Definition log_field (key : bytes) : option (json -> Z -> option Z) :=
  if folded "logbytes" key then Some (store_int64 (fun x _ => x)) else None.

Definition normalized_dependency_field (key : bytes) : option (json -> normalizedDependency -> option normalizedDependency) :=
  if folded "id" key then Some (store_string (fun x d => {| NDID := x; NDRequired := NDRequired d |}))
  else if folded "required" key then Some (store_bool (fun x d => {| NDID := NDID d; NDRequired := x |}))
  else None.

Definition normalized_tests_field (key : bytes) : option (json -> normalizedTests -> option normalizedTests) :=
  if folded "startup" key
  then Some (fun v t => (fun s => {| NStartup := s; NConsole := NConsole t |}) <$> decode_pointer seconds_field 0 (NStartup t) v)
  else if folded "console" key then Some (fun v t => Some {| NStartup := NStartup t; NConsole := Some v |})
  else None.

Definition normalized_field (key : bytes) : option (json -> normalizedConfiguration -> option normalizedConfiguration) :=
  let upd (a : option bytes) (p : option (option bytes)) (d : option (list normalizedDependency)) (t : option (option normalizedTests))
      (l : option (option Z)) (c : normalizedConfiguration) := {|
    APIVersion := default (APIVersion c) a; NProject := default (NProject c) p; NDependencies := default (NDependencies c) d;
    NTests := default (NTests c) t; NLogBytes := default (NLogBytes c) l |} in
  if folded "apiversion" key then Some (store_string (fun x => upd (Some x) None None None None))
  else if folded "project" key then Some (fun v c => (fun p => upd None (Some p) None None None c) <$> decode_pointer name_field [] (NProject c) v)
  else if folded "dependencies" key
  then Some (store_slice (decode_as false normalized_dependency_field {| NDID := []; NDRequired := false |}) (fun l => upd None None (Some l) None None))
  else if folded "tests" key
  then Some (fun v c => (fun t => upd None None None (Some t) None c)
                        <$> decode_pointer normalized_tests_field {| NStartup := None; NConsole := None |} (NTests c) v)
  else if folded "resources" key then Some (fun v c => (fun l => upd None None None None (Some l) c) <$> decode_pointer log_field 0 (NLogBytes c) v)
  else None.

Definition no_normalized : normalizedConfiguration :=
  {| APIVersion := []; NProject := None; NDependencies := []; NTests := None; NLogBytes := None |}.

(** [utf8.RuneCountInString] *)
Fixpoint rune_count (fuel : nat) (s : bytes) : Z :=
  match fuel, s with
  | S fuel, _ :: _ => 1 + rune_count fuel (drop (Nat.max 1 (snd (DecodeRune s))) s)
  | _, _ => 0
  end.

Definition RuneCountInString (s : bytes) : Z := rune_count (length s) s.

(** [^[a-z][a-z0-9]*(?:[._-][a-z0-9]+)*$]: [after] tells whether a separator may follow. *)
Fixpoint identifier_rest (after : bool) (s : bytes) : bool :=
  match s with
  | [] => after
  | b :: rest =>
      if is_lower b || is_digit b then identifier_rest true rest
      else after && Url.one_of "._-" b && identifier_rest false rest
  end.

Definition consoleIdentifier (s : bytes) : bool :=
  match s with b :: rest => is_lower b && identifier_rest true rest | [] => false end.

Definition checkAssertion (a : commandAssertion) : result () :=
  let count := RuneCountInString (Pattern a) in
  refuse negb (one_of (Stream a) ["stdout"; "stderr"; "combined"]) as "%s.stream is unsupported";
  refuse negb ((zlen (Operator a) =? 0) || one_of (Operator a) ["contains"; "regex"]) as "%s.operator is unsupported";
  refuse (count <? 1) || (1000 <? count) as "%s.pattern is invalid";
  refuse negb (one_of (Match_ a) ["present"; "absent"]) as "%s.match is unsupported";
  refuse match MinimumOccurrences a with
         | Some n => (n <? 1) || (10000 <? n) || says (Match_ a) "absent"
         | None => false
         end as "%s.minimumOccurrences is invalid";
  inr tt.

Fixpoint check_assertions (l : list commandAssertion) : result () :=
  match l with
  | [] => inr tt
  | a :: l => let? _ := checkAssertion a in check_assertions l
  end.

Fixpoint check_tests (seen : list bytes) (events : Z) (l : list consoleCommandTest) : result () :=
  match l with
  | [] => inr tt
  | t :: l =>
      let count := RuneCountInString (Command t) in
      refuse (63 <? zlen (TestID t)) || negb (consoleIdentifier (TestID t)) as "%s.id is invalid";
      refuse bool_decide (TestID t ∈ seen) as "normalized_configuration_json tests.console ids must be unique";
      refuse (count <? 1) || (500 <? count) || existsb (fun b => existsb (Z.eqb b) [0x0D; 0x0A; 0]) (Command t) as "%s.command is invalid";
      refuse (TimeoutSeconds t <? 1) || (86400 <? TimeoutSeconds t) as "%s.timeoutSeconds must be between 1 and 86400";
      refuse (zlen (Assertions t) <? 1) || (20 <? zlen (Assertions t)) as "%s.assertions must contain between 1 and 20 entries";
      let? _ := check_assertions (Assertions t) in
      let events := events + 6 + zlen (Assertions t) in
      refuse 512 <? events as "normalized_configuration_json tests.console exceeds the 512-event evidence budget";
      check_tests (TestID t :: seen) events l
  end.

Definition validateConsoleTests (tests : list consoleCommandTest) : result () :=
  refuse 100 <? zlen tests as "normalized_configuration_json tests.console exceeds 100 commands";
  check_tests [] 0 tests.

(** What a job asks for, decoded: the target, the dependencies, the seconds of
    stabilization, the bytes of log and the console tests. *)
Record decodedConfiguration := {
  DName : bytes; DDependencies : list normalizedDependency; DSeconds : Z; DLogBytes : Z; DConsole : list consoleCommandTest;
}.

Definition decodeNormalizedConfigurationVersion (data : bytes) (measuredV2 : bool) : result decodedConfiguration :=
  refuse (zlen data =? 0) || (maximumNormalizedConfigurationBytes <? zlen data)
    as "normalized_configuration_json must contain between 1 and 1048576 bytes";
  refuse negb (Utf8.Valid data) as "normalized_configuration_json must be valid UTF-8";
  match Json.parse data ≫= decode_as false normalized_field no_normalized with
  | None => inl "decode normalized_configuration_json: %w"
  | Some c =>
      refuse negb (says (APIVersion c) "provenance.dev/v1") && negb (measuredV2 && says (APIVersion c) "provenance.dev/v2")
        as "normalized_configuration_json apiVersion must be provenance.dev/v1";
      match NProject c with
      | None | Some [] => inl "normalized_configuration_json project.name is required"
      | Some name =>
          match NTests c with
          | Some {| NStartup := Some seconds; NConsole := Some console |} =>
              refuse (seconds <? 1) || (60 <? seconds)
                as "normalized_configuration_json tests.startup.stabilizationSeconds must be between 1 and 60 for the Paper probe";
              match NLogBytes c with
              | None => inl "normalized_configuration_json resources.logBytes must be positive"
              | Some logBytes =>
                  refuse logBytes <=? 0 as "normalized_configuration_json resources.logBytes must be positive";
                  match match console with JArray vs => mapM (decode_as false (test_field false) no_test) vs | _ => None end with
                  | None => inl "normalized_configuration_json tests.console must be an array"
                  | Some tests =>
                      let? _ := validateConsoleTests tests in
                      inr {| DName := name; DDependencies := NDependencies c; DSeconds := seconds; DLogBytes := logBytes; DConsole := tests |}
                  end
              end
          | _ => inl "normalized_configuration_json tests.startup and tests.console are required"
          end
      end
  end.

(** ** Adapting a remote job *)

Section adapt.
Context `{TS : Timestamps} `{PB : RunnerProto} `{GP : !GatewayProto} `{PM : !ProtoMessages} `{CODEC : PolicyCodec}.
Context `{CS : !ConfigurationSchema}.

Definition sha256Digest (d : option Digest) : result bytes :=
  match d with
  | None => inl "%s must be a 32-byte SHA-256 digest"
  | Some d =>
      refuse negb (Algorithm d =? DIGEST_ALGORITHM_SHA256) || negb (zlen (Value d) =? 32) as "%s must be a 32-byte SHA-256 digest";
      inr (Sha256.hex (Value d))
  end.

Definition remoteTimeout (d : option Duration) : result Z :=
  match d with
  | None => inl "%s is required"
  | Some d =>
      refuse negb (CheckValid d) as "%s is invalid";
      let value := AsDuration (Some d) in
      refuse (value <=? 0) || (LocalJob.MaximumTimeout <? value) || negb (Z.rem value LocalJob.Millisecond =? 0)
        as "%s must be a whole number of milliseconds between 1 and %d";
      inr value
  end.

Definition boundedInt64 (value : Z) : result Z :=
  refuse 2 ^ 63 - 1 <? value as "%s exceeds the supported integer boundary"; inr value.

Definition downloadReference (object : option ObjectDownload) (maximumBytes : Z) : result artifactReference :=
  match object with
  | None => inl "%s is required"
  | Some o =>
      refuse DSizeBytes o <=? 0 as "%s.size_bytes must be positive";
      refuse maximumBytes <? DSizeBytes o as "%s.size_bytes exceeds the configured %d-byte artifact quota";
      let? digest := sha256Digest (DDigest o) in
      inr {| RefURI := DUri o; RefSHA256 := digest; RefFilename := DFilename o; RefSizeBytes := DSizeBytes o |}
  end.

Definition validateConfigurationDigest (hashes : option JobHashes) (data : bytes) : result () :=
  match hashes with
  | None => inl "hashes is required"
  | Some h =>
      let? expected := sha256Digest (HConfiguration h) in
      refuse negb (bool_decide (expected = Sha256.hex (Sum256 data))) as "hashes.configuration does not match normalized_configuration_json";
      inr tt
  end.

Definition requireMatchingDigest (expected : option Digest) (actual : bytes) : result () :=
  let? value := sha256Digest expected in
  refuse negb (bool_decide (value = actual)) as "%s does not match its download";
  inr tt.

Record dependencyHash := { dhFilename : bytes; dhDigest : bytes }.

Fixpoint collect_hashes (m : gmap bytes dependencyHash) (l : list (option DependencyHash)) : result (gmap bytes dependencyHash) :=
  match l with
  | [] => inr m
  | None :: _ => inl "hashes.dependencies[%d] is incomplete"
  | Some d :: l =>
      refuse (zlen (DependencyId d) =? 0) || (zlen (HFilename d) =? 0) as "hashes.dependencies[%d] is incomplete";
      refuse bool_decide (is_Some (m !! DependencyId d)) as "hashes.dependencies contains duplicate %q";
      let? digest := sha256Digest (HDigest d) in
      collect_hashes (<[DependencyId d := {| dhFilename := HFilename d; dhDigest := digest |}]> m) l
  end.

Definition remoteDependencyHashes (hashes : option JobHashes) : result (gmap bytes dependencyHash) :=
  match hashes with None => inl "hashes is required" | Some h => collect_hashes ∅ (HDependencies h) end.

(** The catalog entry of an environment: the first that matches, of the entries of a map
    in some order. *)
Definition catalogForRemoteEnvironment (entries : list resolvedCatalog) (environment : option ResolvedEnvironment) : result resolvedCatalog :=
  match environment with
  | None => inl "environment is required"
  | Some e =>
      refuse negb (EProvider e =? SERVER_PROVIDER_PAPER) as "environment.provider must be Paper";
      refuse negb (EOperatingSystem e =? OPERATING_SYSTEM_LINUX) || negb (EArchitecture e =? ARCHITECTURE_AMD64)
        as "environment must target Linux amd64";
      refuse negb (bool_decide (ServerVersion e = GameVersion e)) as "environment.server_version must exactly match environment.game_version";
      match List.find (fun c => let c := rcatalog c in
              bool_decide (GameVersion e = PaperGameVersion (Paper c)) && (ServerBuild e =? PaperBuild (Paper c))
              && bool_decide (JavaDistribution e = JavaDistributionOf (Java c)) && bool_decide (JavaVersion e = JavaVersionOf (Java c))) entries with
      | None => inl "environment does not match a configured Paper catalog entry"
      | Some c =>
          let? digest := sha256Digest (ServerBinary e) in
          refuse negb (bool_decide (digest = PinSHA256 (PaperArtifact (Paper (rcatalog c)))))
            as "environment.server_binary does not match the pinned Paper artifact";
          inr c
      end
  end.

(** The dependencies of the normalized configuration by identity. *)
Fixpoint configured_dependencies (m : gmap bytes bool) (l : list normalizedDependency) : result (gmap bytes bool) :=
  match l with
  | [] => inr m
  | d :: l =>
      refuse zlen (NDID d) =? 0 as "adapt Paper job: normalized dependency id is required";
      refuse bool_decide (is_Some (m !! NDID d)) as "adapt Paper job: normalized dependency %q is duplicated";
      configured_dependencies (<[NDID d := NDRequired d]> m) l
  end.

(** The dependencies that are downloaded, and the plugins that are required. *)
Fixpoint adapt_dependencies (limits : preparationLimits) (configured : gmap bytes bool) (hashes : gmap bytes dependencyHash)
    (ids names : list bytes) (l : list (option DependencyInput)) : result (list dependencyReference * list bytes) :=
  match l with
  | [] => inr ([], [])
  | None :: _ => inl "adapt Paper job: dependencies[%d].dependency_id is required"
  | Some input :: l =>
      let id := IDependencyId input in
      refuse zlen id =? 0 as "adapt Paper job: dependencies[%d].dependency_id is required";
      refuse bool_decide (id ∈ ids) as "adapt Paper job: dependency %q is duplicated";
      refuse negb (ValidPaper (PluginName input)) as "adapt Paper job: dependencies[%d].plugin_name is missing or invalid";
      let key := to_lower (PluginName input) in
      refuse bool_decide (key ∈ names) as "adapt Paper job: dependency plugin name %q is duplicated";
      match configured !! id with
      | None => inl "adapt Paper job: dependency %q is absent from normalized configuration"
      | Some required =>
          let? reference := downloadReference (IObject input) (maximumArtifactBytes limits) in
          match hashes !! id with
          | None => inl "adapt Paper job: hashes.dependencies is missing %q"
          | Some expected =>
              refuse negb (bool_decide (dhFilename expected = RefFilename reference)) || negb (bool_decide (dhDigest expected = RefSHA256 reference))
                as "adapt Paper job: hashes.dependencies entry for %q does not match its download";
              let? (dependencies, requiredNames) := adapt_dependencies limits configured hashes (id :: ids) (key :: names) l in
              inr ({| DepID := id; DepPlugin := PluginName input; DepArtifact := reference |} :: dependencies,
                   (if required : bool then [PluginName input] else []) ++ requiredNames)
          end
      end
  end.

(** Every dependency the configuration requires is downloaded. *)
Definition all_downloaded (configured : gmap bytes bool) (dependencies : list dependencyReference) : bool :=
  forallb (fun kv => negb (snd kv) || bool_decide (fst kv ∈ map DepID dependencies)) (map_to_list configured).

Definition network_none (noneV2 : bool) (policy : EffectivePolicy) : bool :=
  if noneV2
  then match LegacyNetwork policy, NetworkV2 policy with None, Some n => Mode n =? NETWORK_MODE_NONE | _, _ => false end
  else match NetworkV2 policy, LegacyNetwork policy with None, Some n => NMode n =? NETWORK_MODE_NONE | _, _ => false end.

(** The plan and the rest of the configuration an adapted job has. *)
Definition adapted_configuration (c : resolvedCatalog) (target : artifactReference) (dependencies : list dependencyReference)
    (required : list bytes) (name : bytes) (d : decodedConfiguration) (memory disk cpu pids : Z) : configuration := {|
  ArtifactKind := ArtifactKindMinecraftPlugin; CEnvironmentID := EnvironmentID (rcatalog c); Target := target; Dependencies := dependencies;
  TestPlan := {| TargetPlugin := name; RequiredDependencies := required; StabilizationMilliseconds := DSeconds d * 1000; Console := DConsole d |};
  CMemoryBytes := memory; CCPUMillis := cpu; CPIDs := pids; CDiskBytes := disk; MaxLineBytes := defaultMaximumLineBytes; RedactSecrets := [] |}.

Definition adaptJob (p : Provider) (specification : option JobSpecification) (noneV2 : bool) : result LocalJob.Job :=
  match specification with
  | None => inl "adapt Paper job: specification is nil"
  | Some spec =>
      let jobID := match JLease spec with Some l => LJobId l | None => [] end in
      refuse zlen jobID =? 0 as "adapt Paper job: lease.job_id is required";
      refuse negb (ValidPaper (TargetPluginName spec)) as "adapt Paper job: target_plugin_name is missing or invalid";
      let? c := catalogForRemoteEnvironment (map snd (map_to_list (catalogs p))) (JEnvironment spec) in
      match JEffectivePolicy spec with
      | None => inl "adapt Paper job: effective_policy.resources is required"
      | Some policy =>
          match Resources policy with
          | None => inl "adapt Paper job: effective_policy.resources is required"
          | Some resources =>
              refuse negb (Sandbox policy =? SANDBOX_KIND_GVISOR) as "adapt Paper job: effective_policy.sandbox must be gVisor";
              refuse negb (network_none noneV2 policy) as "adapt Paper job: effective_policy.network.mode must be none";
              let? preparation := remoteTimeout (PreparationTimeout policy) in
              let? execution := remoteTimeout (ExecutionTimeout policy) in
              let? graceful := remoteTimeout (GracefulShutdownTimeout policy) in
              let? memory := boundedInt64 (RMemoryBytes resources) in
              let? disk := boundedInt64 (RDiskBytes resources) in
              let? decoded := decodeNormalizedConfigurationVersion (NormalizedConfigurationJson spec) noneV2 in
              refuse negb (bool_decide (DName decoded = TargetPluginName spec))
                as "adapt Paper job: target_plugin_name must exactly match normalized_configuration_json project.name";
              let? _ := validateConfigurationDigest (JHashes spec) (NormalizedConfigurationJson spec) in
              let? target := downloadReference (JArtifact spec) (maximumArtifactBytes (plimits p)) in
              let? _ := requireMatchingDigest (match JHashes spec with Some h => HArtifact h | None => None end) (RefSHA256 target) in
              let? configured := configured_dependencies ∅ (DDependencies decoded) in
              let? hashes := remoteDependencyHashes (JHashes spec) in
              let? (dependencies, required) :=
                adapt_dependencies (plimits p) configured hashes [] [to_lower (TargetPluginName spec)] (JDependencies spec) in
              refuse negb (Z.of_nat (size hashes) =? zlen dependencies)
                as "adapt Paper job: hashes.dependencies does not match the dependency downloads";
              refuse negb (all_downloaded configured dependencies) as "adapt Paper job: required dependency %q has no download";
              let config := adapted_configuration c target dependencies required (TargetPluginName spec) decoded memory disk
                              (CpuMillis resources) (RProcessCount resources) in
              refuse maximumProbePlanBytes <? zlen (Json.Marshal (plan_value (TestPlan config)))
                as "adapt Paper job: materialized test plan exceeds %d bytes";
              let? _ := resolveConfiguration config c (inputPolicy p) (plimits p) in
              let environment := Json.Marshal (configuration_value config) in
              refuse maximumNormalizedConfigurationBytes <? zlen environment
                as "adapt Paper job: materialized environment exceeds 1048576 bytes";
              let milliseconds d := Z.quot d LocalJob.Millisecond in
              let job := {| LocalJob.schemaVersion := LocalJob.SchemaVersion; LocalJob.ID := jobID; LocalJob.Provider := bs "paper";
                            LocalJob.TimeoutMilliseconds := milliseconds execution;
                            LocalJob.PreparationTimeoutMilliseconds := milliseconds preparation;
                            LocalJob.GracefulShutdownTimeoutMilliseconds := milliseconds graceful;
                            LocalJob.MaxOutputBytes := DLogBytes decoded; LocalJob.JEnvironment := environment |} in
              match LocalJob.Validate job with
              | Some _ => inl "adapt Paper job: %w"
              | None => inr job
              end
          end
      end
  end.

Definition AdaptJob (p : Provider) (specification : option JobSpecification) : result LocalJob.Job := adaptJob p specification false.

Definition AdaptNoNetworkV2 (p : Provider) (specification : option JobSpecification) : result LocalJob.Job :=
  match specification with
  | None => inl "isolated no-network v2 admission refused"
  | Some spec =>
      refuse match JEffectivePolicy spec with Some policy => negb (network_none true policy) | None => true end
        as "isolated no-network v2 admission refused";
      refuse match TerminalPlan.NewContextV2 specification with Some _ => false | None => true end || negb (Selection.ValidateSelection specification)
        as "isolated no-network v2 identity refused";
      adaptJob p specification true
  end.
End adapt.
