(* ===== verification/PaperSample.v ===== *)
(** A provider with a catalog entry of the program, its probe and runtime filled in, and a remote job for it with a dependency
    and a console test, to evaluate the adaptation of jobs with. *)

From S2P Require Import Prelude Utf8 Strconv Json Sha256 World Execution GuestOutput Policy Binder Messages Url JsonStruct TerminalBuild TerminalPlan TerminalSample Probe Offer PaperCatalog PaperAdapter.
Import Names Wire PluginName.

Module PaperSample.

#[export] Existing Instance sample_proto.
#[export] Existing Instance sample_codec.
#[export] Existing Instance sample_timestamps.
#[export] Existing Instance sample_gateway_proto.
#[export] Existing Instance TerminalSample.messages.
#[export] Existing Instance TerminalSample.schema.

Definition pin (name sha256 : string) (size : Z) : ArtifactPin := {|
  PinURI := bs "https://mirror.example.com/" ++ bs name; PinSHA256 := bs sha256; PinFilename := bs name; PinSizeBytes := size |}.

Definition entry : Catalog := let c := AlphaCatalog in {|
  EnvironmentID := EnvironmentID c; Paper := Paper c; Java := Java c; ProbeVersion := ProbeVersion c; ProbeSourceCommit := ProbeSourceCommit c;
  ProbePin := pin "paper-probe.jar" "040062e4ea15fdffe3c37e4402b978527dd4864870edefe2c662209e12d63868" 478853;
  PreparedRuntime := {| ArchiveArtifact := pin "runtime.tar.gz" "968c283e104059dae86ea1d670672a80170f27a39529d815843ec9c1f0fa2a03" 1000000;
                        ArchiveExpandedBytes := 200000000 |} |}.

Definition config : Config := {|
  hasCaches := true; hasWorkspaces := true; hasSandbox := true; OneCatalog := entry; Catalogs := [];
  ArtifactHosts := [bs "objects.example.com"]; MaximumArtifactBytes := 0; MaximumDependencyBytes := 0; MaximumPreparationBytes := 0 |}.

Definition no_provider : Provider := {|
  plimits := {| maximumArtifactBytes := 0; maximumDependencyBytes := 0; maximumPreparationBytes := 0 |}; catalogs := ∅;
  inputPolicy := {| ValidateInitial := fun _ => inr tt; ValidateRedirect := fun _ => inr tt |};
  pinPolicy := {| ValidateInitial := fun _ => inr tt; ValidateRedirect := fun _ => inr tt |} |}.

Definition provider : Provider := match New config with inr p => p | inl _ => no_provider end.

Definition digest_of (p : bytes) : Digest := new_digest (Sum256 p).

Definition download (p : bytes) (name : string) : ObjectDownload := {|
  DUri := bs "https://objects.example.com/" ++ bs name; DSizeBytes := zlen p; DDigest := Some (digest_of p); DFilename := bs name;
  DExpiresAt := None |}.

Definition configuration : bytes := Json.Marshal (JObject [
  (bs "apiVersion", JString (bs "provenance.dev/v1")); (bs "project", JObject [(bs "name", JString (bs "Plugin"))]);
  (bs "dependencies", JArray [JObject [(bs "id", JString (bs "lib")); (bs "required", JBool true)]]);
  (bs "tests", JObject [
     (bs "startup", JObject [(bs "stabilizationSeconds", JNumber (bs "5"))]);
     (bs "console", JArray [JObject [
        (bs "id", JString (bs "greets")); (bs "command", JString (bs "hello")); (bs "timeoutSeconds", JNumber (bs "10"));
        (bs "assertions", JArray [JObject [(bs "stream", JString (bs "stdout")); (bs "operator", JString (bs "contains"));
           (bs "pattern", JString (bs "hi")); (bs "match", JString (bs "present")); (bs "minimumOccurrences", JNumber (bs "1"))]])]])]);
  (bs "resources", JObject [(bs "logBytes", JNumber (bs "65536"))])]).

Definition seconds (n : Z) : option Duration := Some {| Seconds := n; Nanos := 0 |}.

Definition policy : EffectivePolicy := {|
  reflect := Msg true [] []; LegacyNetwork := Some {| NMode := NETWORK_MODE_NONE; Allowlist := []; NMaximumConnections := 0 |}; NetworkV2 := None; Sandbox := SANDBOX_KIND_GVISOR; Requirement := 1;
  Resources := Some {| CpuMillis := 2000; RMemoryBytes := 2 ^ 31; RDiskBytes := 2 ^ 32; RProcessCount := 256 |};
  PreparationTimeout := seconds 60; ExecutionTimeout := seconds 300; GracefulShutdownTimeout := seconds 30 |}.

Definition library : bytes := bs "library".

Definition pinned (hex : bytes) : Digest := new_digest (default [] (decode_hex hex)).

Definition environment : ResolvedEnvironment :=
  let c := AlphaCatalog in {|
  EProvider := SERVER_PROVIDER_PAPER; EOperatingSystem := OPERATING_SYSTEM_LINUX; EArchitecture := ARCHITECTURE_AMD64;
  GameVersion := PaperGameVersion (Paper c); ServerVersion := PaperGameVersion (Paper c);
  JavaDistribution := JavaDistributionOf (Java c); JavaVersion := JavaVersionOf (Java c); ServerBuild := PaperBuild (Paper c);
  CatalogSnapshotId := []; RunnerImage := None; ServerBinary := Some (pinned (PinSHA256 (PaperArtifact (Paper c)))) |}.

Definition job : JobSpecification := {|
  JLease := Some {| LeaseId := bs "lease"; LJobId := bs "job"; ExecutionId := bs "execution"; LExpiresAt := None; lreflect := Msg true [] [] |};
  JAttempt := None; JEffectivePolicy := Some policy;
  JHashes := Some {| HArtifact := Some (digest_of (bs "artifact")); HConfiguration := Some (digest_of configuration);
                     HEnvironment := None; HPolicy := None;
                     HDependencies := [Some {| DependencyId := bs "lib"; HFilename := bs "lib.jar"; HDigest := Some (digest_of library) |}] |};
  JOrganizationScope := None; JCorrelation := None; NormalizedConfigurationJson := configuration; JEnvironment := Some environment;
  TargetPluginName := bs "Plugin";
  JDependencies := [Some {| IDependencyId := bs "lib"; PluginName := bs "Library"; IObject := Some (download library "lib.jar") |}];
  JArtifact := Some (download (bs "artifact") "plugin.jar"); JCompleteLogUpload := None; TestSecrets := [] |}.

Lemma provider_made : New config = inr provider.
Proof. unfold provider. assert (E : match New config with inr _ => true | inl _ => false end = true) by by vm_compute. by destruct (New config). Qed.

Definition no_job : LocalJob.Job := {|
  LocalJob.schemaVersion := []; LocalJob.ID := []; LocalJob.Provider := []; LocalJob.TimeoutMilliseconds := 0;
  LocalJob.PreparationTimeoutMilliseconds := 0; LocalJob.GracefulShutdownTimeoutMilliseconds := 0; LocalJob.MaxOutputBytes := 0;
  LocalJob.JEnvironment := [] |}.

Definition adapted : LocalJob.Job := match adaptJob provider (Some job) false with inr j => j | inl _ => no_job end.

Lemma job_adapted : adaptJob provider (Some job) false = inr adapted.
Proof.
  unfold adapted. assert (E : match adaptJob provider (Some job) false with inr _ => true | inl _ => false end = true) by by vm_compute.
  by destruct (adaptJob provider (Some job) false).
Qed.

End PaperSample.
