(* ===== verification/PaperLaws.v ===== *)
(** What the Paper provider guarantees ([PaperCatalog.v], [PaperAdapter.v]): artifacts are
    only dialled at public addresses, a remote environment selects one catalog entry, the
    budget of a preparation is exact, and a job that was adapted resolves. *)

From Stdlib Require Import ZifyBool.
From S2P Require Import Prelude Utf8 Strconv Json JsonLaws Sha256 World Execution GuestOutput Policy Binder Messages Url JsonStruct TerminalBuild TerminalPlan Probe ProbeInv Offer PaperCatalog PaperAdapter TerminalSample PaperSample.
Import Names Wire PluginName Addresses.

Open Scope string_scope.
Open Scope list_scope.
Open Scope Z_scope.

(** ** Dialling *)

(** An address of the public Internet: global unicast and in none of the special ranges,
    as [netip.Prefix] decides it, to which no address with a zone belongs. *)
Definition public_address (a : Addr) : Prop :=
  IsGlobalUnicast a = true /\ Is4In6 a = false /\ forall p, p ∈ nonPublicPrefixes -> Contains p a = false.

Lemma validated_public a : validateResolvedAddress a = inr tt -> public_address (Unmap a).
Proof.
  unfold validateResolvedAddress. destruct (_ || _) eqn:E1; [done|]. destruct (existsb _ _) eqn:E2; [done|]. intros _.
  bool_norm. split_and!; [done| |].
  - destruct a as [| |x z]; [done|done|]. cbn [Unmap]. destruct (Is4In6 (V6 x z)) eqn:E; [done|exact E].
  - intros p Hp. destruct (Contains p (Unmap a)) eqn:E; [|done]. rewrite <-E2. symmetry. apply existsb_exists.
    exists p. split; [by apply list_elem_of_In|done].
Qed.

Lemma dial_each_public {W Conn} (dial : bytes -> Addr -> bytes -> M W (option Conn)) (I : W -> Prop) network port l w :
  (forall n a port w, public_address a -> I w -> I (snd (dial n a port w))) ->
  Forall (fun a => validateResolvedAddress a = inr tt) l -> I w -> I (snd (dial_each dial network port l w)).
Proof.
  intros Hd H. revert w. induction H as [|a l Ha _ IH]; intros w Hw; [done|]. cbn [dial_each].
  destruct (_ || _); [by apply IH|]. unfold bind. specialize (Hd network (Unmap a) port w (validated_public _ Ha) Hw).
  destruct (dial network (Unmap a) port w) as [[c|] w']; [done|by apply IH].
Qed.


(** A trace of the addresses that were dialled. *)
Definition trace_dial (n : bytes) (a : Addr) (port : bytes) : M (list Addr) (option ()) := fun w => (None, a :: w).


(** An address with a zone is in no prefix, so that a unique local one passes. *)
Example zoned_address_accepted :
  validateResolvedAddress (V6 (0xFC00 * 2 ^ 112 + 1) []) <> inr tt /\
  validateResolvedAddress (V6 (0xFC00 * 2 ^ 112 + 1) (bs "eth0")) = inr tt.
Proof. split; [by vm_compute|by vm_compute]. Qed.

(** ** Catalogs of a provider *)

Definition resolved_ok (m : gmap bytes resolvedCatalog) : Prop :=
  map_Forall (fun id c => EnvironmentID (rcatalog c) = id /\ validateCatalog (rcatalog c) = inr c) m /\
  forall i j a b, m !! i = Some a -> m !! j = Some b ->
    catalogRemoteIdentity (rcatalog a) = catalogRemoteIdentity (rcatalog b) -> i = j.

Lemma validatePin_size p : validatePin p = inr tt -> 0 < PinSizeBytes p <= 2 ^ 30.
Proof.
  unfold validatePin. destruct (match ParseRequestURI _ with None => _ | Some _ => _ end); [done|].
  destruct (negb _ || _); [done|]. destruct ((_ <=? _) || _) eqn:E; [done|]. intros _. lia.
Qed.

Lemma validateCatalog_inv c r :
  validateCatalog c = inr r ->
  rcatalog r = c /\ JavaOS (Java c) = bs "linux" /\ JavaArchitecture (Java c) = bs "amd64" /\
  Forall (fun p => 0 < PinSizeBytes p <= 2 ^ 30) (pins_of c) /\ 0 < JavaExpandedBytes (Java c) <= 2 ^ 30 /\
  0 < ArchiveExpandedBytes (PreparedRuntime c) <= 2 ^ 30.
Proof.
  unfold validateCatalog. destruct (_ || (PaperBuild (Paper c) =? 0)); [done|].
  destruct (_ || (zlen (ArchiveRoot (Java c)) =? 0)) eqn:J; [done|].
  destruct ((zlen (ProbeVersion c) =? 0) || _); [done|]. destruct (_ || says (ArchiveRoot (Java c)) ".."); [done|].
  destruct (validatePin (PaperArtifact (Paper c))) as [|[]] eqn:P1; [done|].
  destruct (validatePin (JavaArtifact (Java c))) as [|[]] eqn:P2; [done|].
  destruct (validatePin (ProbePin c)) as [|[]] eqn:P3; [done|].
  destruct (validatePin (ArchiveArtifact (PreparedRuntime c))) as [|[]] eqn:P4; [done|].
  destruct (negb (expanded_ok _) || _) eqn:E; [done|]. do 4 (destruct (ParseSHA256 _); [done|]). intros [= <-]. cbn [rcatalog].
  unfold says in J. unfold expanded_ok in E. bool_norm. split_and!; try done; try lia. repeat constructor; by apply validatePin_size.
Qed.

Lemma resolve_catalogs_ok maximum l : forall m identities r,
  resolve_catalogs maximum m identities l = inr r ->
  resolved_ok m -> map_Forall (fun _ c => catalogRemoteIdentity (rcatalog c) ∈ identities) m -> resolved_ok r.
Proof.
  induction l as [|c l IH]; intros m identities r; cbn [resolve_catalogs]; [by intros [= <-]|].
  destruct (validateCatalog c) as [|v] eqn:Ev; [done|]. destruct (bool_decide (is_Some _)) eqn:E1; [done|].
  destruct (bool_decide (_ ∈ identities)) eqn:E2; [done|]. destruct (existsb _ _); [done|].
  apply bool_decide_eq_false, eq_None_not_Some in E1. apply bool_decide_eq_false in E2.
  destruct (validateCatalog_inv c v Ev) as (Hv & _). intros H [Hm Hu] Hi.
  assert (Hfresh : forall i a, m !! i = Some a -> catalogRemoteIdentity (rcatalog a) <> catalogRemoteIdentity c).
  { intros i a Ha E. apply E2. rewrite <-E. exact (Hi i a Ha). }
  apply (IH _ _ _ H).
  - split.
    + apply map_Forall_insert_2; [|done]. by rewrite Hv.
    + intros i j a b Ha Hb E. apply lookup_insert_Some in Ha as [[<- <-]|[_ Ha]], Hb as [[<- <-]|[_ Hb]]; rewrite ?Hv in E.
      * done.
      * by destruct (Hfresh _ _ Hb).
      * by destruct (Hfresh _ _ Ha).
      * exact (Hu i j a b Ha Hb E).
  - apply map_Forall_insert_2; [rewrite Hv; constructor|].
    eapply map_Forall_impl; [exact Hi|]. intros i a Ha. by constructor.
Qed.

Lemma New_inv config p :
  New config = inr p ->
  resolved_ok (catalogs p) /\ 1 <= maximumArtifactBytes (plimits p) /\ 1 <= maximumDependencyBytes (plimits p) /\
  maximumArtifactBytes (plimits p) <= maximumPreparationBytes (plimits p) /\
  maximumDependencyBytes (plimits p) <= maximumPreparationBytes (plimits p) <= 64 * 2 ^ 30.
Proof.
  unfold New. do 3 (destruct (negb _); [done|]).
  match goal with |- (if (?a <? 1) || (?d <? 1) || (?p <? 1) then _ else _) = _ -> _ => generalize a d p end.
  intros artifact dependency preparation. destruct (_ || _ || _) eqn:E1; [done|]. destruct (_ || (preparation <? dependency)) eqn:E2; [done|].
  destruct (_ && _); [done|]. destruct (resolve_catalogs _ _ _ _) as [|m] eqn:Em; [done|]. destruct (newHTTPSAllowlist _); [done|].
  destruct (newPinnedSourcePolicies _); [done|]. intros [= <-]. cbn. split; [|bool_norm; lia].
  apply (resolve_catalogs_ok _ _ _ _ _ Em); [|apply map_Forall_empty]. split; [apply map_Forall_empty|].
  intros i j a b Ha%lookup_empty_Some. done.
Qed.

Section environment.
Context `{TS : Timestamps} `{PB : RunnerProto} `{GP : !GatewayProto} `{PM : !ProtoMessages} `{CODEC : PolicyCodec}.
Context `{CS : !ConfigurationSchema}.

(** The first of a list that satisfies a predicate only one entry satisfies. *)
Lemma find_any {A} (f : A -> bool) l l' :
  l ≡ₚ l' -> (forall a b, a ∈ l -> b ∈ l -> f a = true -> f b = true -> a = b) -> List.find f l = List.find f l'.
Proof.
  intros HP Hu. destruct (List.find f l) as [a|] eqn:E, (List.find f l') as [b|] eqn:E'; [|exfalso|exfalso|done].
  - apply find_some in E as [Ha Fa], E' as [Hb Fb]. apply list_elem_of_In in Ha, Hb. f_equal. apply Hu; [done|by rewrite HP|done|done].
  - apply find_some in E as [Ha Fa]. apply list_elem_of_In in Ha. rewrite HP in Ha. apply list_elem_of_In in Ha.
    by rewrite (find_none _ _ E' a Ha) in Fa.
  - apply find_some in E' as [Ha Fa]. apply list_elem_of_In in Ha. rewrite <-HP in Ha. apply list_elem_of_In in Ha.
    by rewrite (find_none _ _ E b Ha) in Fa.
Qed.

Lemma entries_lookup {A} (m : gmap bytes A) a : a ∈ map snd (map_to_list m) <-> exists i, m !! i = Some a.
Proof.
  split.
  - intros ([i x] & -> & H%elem_of_map_to_list)%list_elem_of_fmap. by exists i.
  - intros [i H%elem_of_map_to_list]. apply list_elem_of_fmap. by exists (i, a).
Qed.

Lemma catalog_entries config p entries :
  New config = inr p -> entries ≡ₚ map snd (map_to_list (catalogs p)) ->
  forall a, a ∈ entries -> catalogs p !! EnvironmentID (rcatalog a) = Some a /\ validateCatalog (rcatalog a) = inr a.
Proof. intros ([Hm _] & _)%New_inv HP a. rewrite HP, entries_lookup. intros [i Hi]. by destruct (Hm i a Hi) as [<- ?]. Qed.

(** An entry that is selected is the provider's entry for its identity, has what the
    environment names and was validated. *)
Lemma selected_entry config p environment entries c :
  New config = inr p -> entries ≡ₚ map snd (map_to_list (catalogs p)) ->
  catalogForRemoteEnvironment entries environment = inr c ->
  catalogs p !! EnvironmentID (rcatalog c) = Some c /\ validateCatalog (rcatalog c) = inr c /\
  exists e, environment = Some e /\ GameVersion e = PaperGameVersion (Paper (rcatalog c)) /\
    ServerBuild e = PaperBuild (Paper (rcatalog c)) /\ JavaVersion e = JavaVersionOf (Java (rcatalog c)) /\
    sha256Digest (ServerBinary e) = inr (PinSHA256 (PaperArtifact (Paper (rcatalog c)))).
Proof.
  intros HN HP. unfold catalogForRemoteEnvironment. destruct environment as [e|]; [|done].
  destruct (negb (EProvider e =? _)); [done|]. destruct (negb (EOperatingSystem e =? _) || _); [done|].
  destruct (negb (bool_decide (ServerVersion e = _))); [done|]. destruct (List.find _ entries) as [x|] eqn:E; [|done].
  destruct (sha256Digest _) as [|digest] eqn:D; [done|]. destruct (negb _) eqn:Eq; [done|]. intros [= <-].
  apply find_some in E as [Hx Fx]. apply list_elem_of_In in Hx. destruct (catalog_entries _ _ _ HN HP x Hx) as [Hi Vx].
  bool_norm. subst. split_and!; [done|done|]. exists e. by rewrite D.
Qed.

(** C19: the catalog entry a remote environment selects does not depend on the order in
    which the map of catalogs is walked; and an entry that is selected is the provider's
    entry for its identity, has what the environment names and was validated. *)
Theorem environment_selects_one config p environment entries :
  New config = inr p -> entries ≡ₚ map snd (map_to_list (catalogs p)) ->
  catalogForRemoteEnvironment entries environment = catalogForRemoteEnvironment (map snd (map_to_list (catalogs p))) environment /\
  forall c, catalogForRemoteEnvironment entries environment = inr c ->
    catalogs p !! EnvironmentID (rcatalog c) = Some c /\ validateCatalog (rcatalog c) = inr c /\
    exists e, environment = Some e /\ GameVersion e = PaperGameVersion (Paper (rcatalog c)) /\
      ServerBuild e = PaperBuild (Paper (rcatalog c)) /\ JavaVersion e = JavaVersionOf (Java (rcatalog c)) /\
      sha256Digest (ServerBinary e) = inr (PinSHA256 (PaperArtifact (Paper (rcatalog c)))).
Proof.
  intros HN HP. split; [|intros c; by apply selected_entry with config].
  unfold catalogForRemoteEnvironment. destruct environment as [e|]; [|done]. erewrite find_any; [done|exact HP|].
  intros a b Ha Hb Fa Fb. destruct (catalog_entries _ _ _ HN HP a Ha) as [Hi Va], (catalog_entries _ _ _ HN HP b Hb) as [Hj Vb].
  apply validateCatalog_inv in Va as (_ & Oa & Aa & _), Vb as (_ & Ob & Ab & _). apply New_inv in HN as ([_ Hu] & _). bool_norm.
  enough (EnvironmentID (rcatalog a) = EnvironmentID (rcatalog b)) as E by (rewrite E in Hi; congruence).
  apply (Hu _ _ a b Hi Hj). unfold catalogRemoteIdentity. congruence.
Qed.

End environment.

Section selected_sample.
Import PaperSample.

Lemma environment_selects_one_witness :
  exists c, catalogForRemoteEnvironment (map snd (map_to_list (catalogs PaperSample.provider))) (Some PaperSample.environment) = inr c /\
    catalogs PaperSample.provider !! EnvironmentID (rcatalog c) = Some c.
Proof.
  destruct (environment_selects_one PaperSample.config PaperSample.provider (Some PaperSample.environment) _ PaperSample.provider_made (reflexivity _))
    as [_ H].
  assert (E : match catalogForRemoteEnvironment (map snd (map_to_list (catalogs PaperSample.provider))) (Some PaperSample.environment) with
              | inr _ => true | inl _ => false end = true) by (vm_compute; reflexivity).
  destruct (catalogForRemoteEnvironment _ _) as [|c]; [discriminate E|]. exists c. split; [reflexivity|]. apply H. reflexivity.
Defined.

End selected_sample.

(** ** The budget *)

(** The bytes a job needs, as numbers: of the downloads, and of a workspace to start from. *)
Definition download_bytes (c : Catalog) (target dependencies : Z) : Z :=
  PinSizeBytes (PaperArtifact (Paper c)) + PinSizeBytes (JavaArtifact (Java c)) + PinSizeBytes (ProbePin c)
  + PinSizeBytes (ArchiveArtifact (PreparedRuntime c)) + target + dependencies.

Definition seed_bytes (c : Catalog) (target dependencies : Z) : Z :=
  ArchiveExpandedBytes (PreparedRuntime c) + PinSizeBytes (PaperArtifact (Paper c)) + PinSizeBytes (ProbePin c) + target + dependencies + 64 * 1024.

Lemma int64_id n : - 2 ^ 63 <= n < 2 ^ 63 -> int64 n = n.
Proof. intros H. unfold int64. rewrite Z.mod_small; lia. Qed.

Lemma sum_downloads_exact maximum sizes : forall downloads,
  Forall (fun n => 0 <= n) sizes -> 0 <= downloads <= maximum -> maximum < 2 ^ 62 ->
  sum_downloads maximum downloads sizes =
    if downloads + foldr Z.add 0 sizes <=? maximum then Some (downloads + foldr Z.add 0 sizes) else None.
Proof.
  induction sizes as [|n sizes IH]; intros downloads Hs Hd Hm; cbn [sum_downloads foldr].
  { rewrite Z.add_0_r. by destruct (Z.leb_spec downloads maximum); [|lia]. }
  inversion_clear Hs. assert (0 <= foldr Z.add 0 sizes) by (clear -H0; induction H0; cbn; lia).
  destruct (Z.eqb_spec n 0) as [->|Hn]; [by rewrite IH|]. rewrite !int64_id by lia.
  destruct (Z.ltb_spec n 0); [lia|]. cbn [orb]. destruct (Z.ltb_spec (maximum - downloads) n).
  - destruct (Z.leb_spec (downloads + (n + foldr Z.add 0 sizes)) maximum); [lia|done].
  - rewrite int64_id, IH by (done || lia). by rewrite Z.add_assoc.
Qed.

(** The checks, on 64-bit integers, decide what they mean in numbers. *)
Lemma budget_exact c r limits target disk dependencies :
  validateCatalog c = inr r -> 1 <= maximumPreparationBytes limits <= 64 * 2 ^ 30 ->
  0 <= target <= 64 * 2 ^ 30 -> 0 <= dependencies <= 64 * 2 ^ 30 -> 0 <= disk <= 64 * 2 ^ 30 ->
  validatePreparationBudget target disk c dependencies limits = inr tt <->
  2 * seed_bytes c target dependencies <= disk + 1 /\
  download_bytes c target dependencies + JavaExpandedBytes (Java c) + seed_bytes c target dependencies <= maximumPreparationBytes limits.
Proof.
  intros (_ & _ & _ & Hp & Hj & Ha)%validateCatalog_inv Hm Ht Hd Hk. unfold pins_of in Hp. apply Forall_cons in Hp as [P1 Hp].
  apply Forall_cons in Hp as [P2 Hp]. apply Forall_cons in Hp as [P3 Hp]. apply Forall_cons in Hp as [P4 _].
  unfold validatePreparationBudget, download_bytes, seed_bytes.
  rewrite sum_downloads_exact; [|repeat (constructor; [lia|]); constructor|lia|lia]. cbn [foldr].
  rewrite !Z.add_assoc, Z.add_0_l, Z.add_0_r. match goal with |- context [Z.leb ?a ?b] => destruct (Z.leb_spec a b) end; [|split; [done|lia]].
  rewrite !int64_id by lia. rewrite Z.quot_div_nonneg by lia.
  repeat match goal with |- context [Z.ltb ?a ?b] => destruct (Z.ltb_spec a b) end; cbn [orb];
    (split; [intros ?; try done|intros ?; try done]); Z.to_euclidean_division_equations; lia.
Qed.

(** ** Resolved jobs *)

Definition dependency_bytes (l : list resolvedDependency) : Z :=
  foldr Z.add 0 (map (fun d => RefSizeBytes (reference (rdArtifact d))) l).

(** A reference that may be fetched: the policy lets its URL pass, and its size is within
    the limit of one artifact. *)
Definition fetchable (policy : sourcePolicy) (maximum : Z) (r : resolvedReference) : Prop :=
  (exists u, ParseURI (RefURI (reference r)) = Some u /\ ValidateInitial policy u = inr tt) /\
  ParseSHA256 (RefSHA256 (reference r)) = inr (rdigest r) /\ 1 <= RefSizeBytes (reference r) <= maximum.

Lemma resolveReference_inv policy maximum r x :
  resolveReference policy maximum r = inr x -> reference x = r /\ fetchable policy maximum x.
Proof.
  unfold resolveReference. destruct (ParseURI (RefURI r)) as [u|] eqn:Eu; [|done].
  destruct (ValidateInitial policy u) as [|[]] eqn:Ev; [done|]. destruct (_ || negb (has_suffix _ _)); [done|].
  destruct ((RefSizeBytes r <=? 0) || _) eqn:E; [done|]. destruct (ParseSHA256 _) as [|d] eqn:Ed; [done|].
  intros [= <-]. split; [done|]. split_and!; [by exists u|done|cbn [reference]; lia|cbn [reference]; lia].
Qed.

Lemma resolve_dependencies_inv policy limits l : forall ids plugins total out plugins' total',
  resolve_dependencies policy limits ids plugins total l = inr (out, plugins', total') ->
  total <= maximumDependencyBytes limits -> NoDup plugins ->
  map rdID out = map DepID l /\ map rdPlugin out = map DepPlugin l /\
  total' = total + dependency_bytes out /\ total' <= maximumDependencyBytes limits /\
  (forall i, i ∈ ids -> i ∉ map rdID out) /\ NoDup (map rdID out) /\
  plugins' ≡ₚ map lower_runes (map rdPlugin out) ++ plugins /\ NoDup plugins' /\
  Forall (fun d => fetchable policy (maximumArtifactBytes limits) (rdArtifact d)) out.
Proof.
  induction l as [|d l IH]; intros ids plugins total out plugins' total'; cbn [resolve_dependencies].
  { intros [= <- <- <-] Ht Hp. cbn. split_and!; try done; try constructor; try lia. by intros i _ Hi%elem_of_nil. }
  destruct (_ || existsb _ (DepID d)); [done|]. destruct (bool_decide (DepID d ∈ ids)) eqn:E1; [done|].
  destruct (negb (safePluginName _)); [done|]. destruct (bool_decide (_ ∈ plugins)) eqn:E2; [done|].
  destruct (resolveReference _ _ _) as [|x] eqn:Ex; [done|]. destruct (_ <? _) eqn:E3; [done|].
  destruct (resolve_dependencies _ _ _ _ _ l) as [|[[rest q] t]] eqn:Er; [done|]. intros [= <- <- <-] Ht Hp.
  apply bool_decide_eq_false in E1, E2. apply Z.ltb_ge in E3. apply resolveReference_inv in Ex as [_ Hx].
  destruct (IH _ _ _ _ _ _ Er ltac:(lia) ltac:(by constructor)) as (H1 & H2 & H3 & H4 & H5 & H6 & H7 & H8 & H9).
  unfold dependency_bytes in *. cbn [map foldr rdID rdPlugin rdArtifact]. split_and!; try done; try congruence.
  - lia.
  - intros i Hi [->|Hr]%elem_of_cons; [done|]. by apply (H5 i); [constructor|].
  - constructor; [|done]. apply H5. constructor.
  - rewrite H7. cbn. by rewrite Permutation_middle.
  - by constructor.
Qed.

Lemma resolveConfiguration_inv config c policy limits r :
  resolveConfiguration config c policy limits = inr r -> 0 <= maximumDependencyBytes limits ->
  rconfiguration r = config /\ fetchable policy (maximumArtifactBytes limits) (rtarget r) /\
  dependency_bytes (rdependencies r) <= maximumDependencyBytes limits /\ NoDup (map rdID (rdependencies r)) /\
  NoDup (map lower_runes (TargetPlugin (TestPlan config) :: map rdPlugin (rdependencies r))) /\
  validatePreparationBudget (RefSizeBytes (reference (rtarget r))) (CDiskBytes config) (rcatalog c)
    (dependency_bytes (rdependencies r)) limits = inr tt /\ 2 ^ 20 <= CDiskBytes config <= 64 * 2 ^ 30 /\
  Forall (fun d => fetchable policy (maximumArtifactBytes limits) (rdArtifact d)) (rdependencies r).
Proof.
  unfold resolveConfiguration. do 2 (destruct (negb (bool_decide _)); [done|]). destruct (negb (safePluginName _)); [done|].
  destruct (negb (_ && (StabilizationMilliseconds _ <=? _))); [done|]. destruct (_ <? zlen _); [done|].
  do 3 (destruct (negb (_ && _)); [done|]). destruct (negb (_ && (CDiskBytes config <=? _))) eqn:Ed; [done|].
  destruct (resolveReference _ _ _) as [|x] eqn:Ex; [done|]. destruct (resolve_dependencies _ _ _ _ _ _) as [|[[out q] t]] eqn:Er; [done|].
  destruct (negb (forallb _ _)); [done|]. destruct (validatePreparationBudget _ _ _ _ _) as [|[]] eqn:Eb; [done|]. intros [= <-] Hl.
  apply resolveReference_inv in Ex as [_ Hx].
  apply resolve_dependencies_inv in Er as (_ & _ & H3 & H4 & _ & H6 & H7 & H8 & H9); [|lia|apply NoDup_singleton].
  cbn [rconfiguration rtarget rdependencies]. rewrite Z.add_0_l in H3. subst t. bool_norm. split_and!; try done; try lia.
  rewrite H7 in H8. cbn [map]. by rewrite Permutation_cons_append.
Qed.

(** C18: a job that is resolved by a provider fits, counted in numbers and not in 64-bit
    integers: the workspace it starts from in half of its disk, all it downloads and
    unpacks in the provider's limit, its dependencies in theirs and each artifact in its
    own. Every source passed the policy for inputs, no dependency is named twice, and no
    two plugins have names that differ in case only. *)
Theorem resolved_within_budget config p environment c r :
  New config = inr p -> Resolve p environment = inr (c, r) ->
  let target := RefSizeBytes (reference (rtarget r)) in
  let dependencies := dependency_bytes (rdependencies r) in
  catalogs p !! CEnvironmentID (rconfiguration r) = Some c /\
  2 * seed_bytes (rcatalog c) target dependencies <= CDiskBytes (rconfiguration r) + 1 /\
  download_bytes (rcatalog c) target dependencies + JavaExpandedBytes (Java (rcatalog c)) + seed_bytes (rcatalog c) target dependencies
    <= maximumPreparationBytes (plimits p) /\
  dependencies <= maximumDependencyBytes (plimits p) /\
  Forall (fetchable (inputPolicy p) (maximumArtifactBytes (plimits p))) (rtarget r :: map rdArtifact (rdependencies r)) /\
  NoDup (map rdID (rdependencies r)) /\
  NoDup (map lower_runes (TargetPlugin (TestPlan (rconfiguration r)) :: map rdPlugin (rdependencies r))).
Proof.
  intros ([Hm _] & Hl)%New_inv. unfold Resolve. destruct (_ ≫= _) as [[x []]|]; [done| |done].
  destruct (catalogs p !! CEnvironmentID x) as [k|] eqn:Ek; [|done]. destruct (resolveConfiguration _ _ _ _) as [|z] eqn:Ez; [done|].
  intros [= -> ->]. apply resolveConfiguration_inv in Ez as (-> & Ht & Hd & Hn & Hp & Hb & Hdisk & Hall); [|lia].
  cbn zeta. destruct (Hm _ _ Ek) as [_ Hv].
  assert (0 <= dependency_bytes (rdependencies r)).
  { unfold dependency_bytes. clear -Hall. induction Hall as [|d l (_ & _ & ?) _ IH]; cbn; lia. }
  apply (budget_exact _ _ _ _ _ _ Hv) in Hb; [|lia|destruct Ht as (_ & _ & ?); lia|lia|lia].
  split_and!; try done; try lia. constructor; [done|]. by apply Forall_fmap.
Qed.

Section resolved_sample.
Import PaperSample.

Lemma resolved_within_budget_witness :
  exists c r, Resolve PaperSample.provider (LocalJob.JEnvironment PaperSample.adapted) = inr (c, r) /\
    dependency_bytes (rdependencies r) <= maximumDependencyBytes (plimits PaperSample.provider).
Proof.
  pose proof (resolved_within_budget PaperSample.config PaperSample.provider (LocalJob.JEnvironment PaperSample.adapted)) as H.
  assert (E : match Resolve PaperSample.provider (LocalJob.JEnvironment PaperSample.adapted) with inr _ => true | inl _ => false end = true)
    by (vm_compute; reflexivity).
  destruct (Resolve _ _) as [|[c r]]; [discriminate E|]. exists c, r. split; [reflexivity|].
  apply (H c r PaperSample.provider_made). reflexivity.
Defined.

End resolved_sample.
