(* ===== verification/PaperResolve.v ===== *)
(** Jobs that were adapted resolve ([PaperAdapter.v]): the environment of a job is the
    JSON of its configuration, which reads back as the configuration that was checked. *)

From Stdlib Require Import ZifyBool.
From S2P Require Import Prelude Utf8 Strconv Json JsonLaws Sha256 World Execution GuestOutput Policy Binder Messages Url JsonStruct CanonicalLaws TerminalBuild TerminalPlan TerminalSample TerminalLaws Probe ProbeInv Offer PaperCatalog PaperAdapter PaperSample PaperLaws.
Import Names Wire PluginName.

Open Scope string_scope.
Open Scope list_scope.
Open Scope Z_scope.

(** ** The JSON of a configuration *)

Abbreviation utf8 s := (Utf8.Valid s = true).
Definition int63 (n : Z) : Prop := 0 <= n < 2 ^ 63.

(** Configurations that JSON prints without loss: strings are UTF-8, numbers are
    non-negative [int64]s. *)
Definition good_assertion (a : commandAssertion) : Prop :=
  utf8 (Stream a) /\ utf8 (Operator a) /\ utf8 (Pattern a) /\ utf8 (Match_ a) /\
  match MinimumOccurrences a with Some n => int63 n | None => True end.

Definition good_test (t : consoleCommandTest) : Prop :=
  utf8 (TestID t) /\ utf8 (Command t) /\ int63 (TimeoutSeconds t) /\ Forall good_assertion (Assertions t).

Definition good_plan (p : testPlan) : Prop :=
  utf8 (TargetPlugin p) /\ Forall (fun s => utf8 s) (RequiredDependencies p) /\ int63 (StabilizationMilliseconds p) /\
  Forall good_test (Console p).

Definition good_reference (r : artifactReference) : Prop :=
  utf8 (RefURI r) /\ utf8 (RefSHA256 r) /\ utf8 (RefFilename r) /\ int63 (RefSizeBytes r).

Definition good_dependency (d : dependencyReference) : Prop := utf8 (DepID d) /\ utf8 (DepPlugin d) /\ good_reference (DepArtifact d).

Definition good_configuration (c : configuration) : Prop :=
  utf8 (ArtifactKind c) /\ utf8 (CEnvironmentID c) /\ good_reference (Target c) /\ Forall good_dependency (Dependencies c) /\
  good_plan (TestPlan c) /\ Forall int63 [CMemoryBytes c; CCPUMillis c; CPIDs c; CDiskBytes c; MaxLineBytes c] /\
  Forall (fun s => utf8 s) (RedactSecrets c).

Lemma number_well_formed d n : int63 n -> well_formed d (JNumber (itoa n)).
Proof. intros [H _]. by apply itoa_number. Qed.

Lemma omit_Forall (P : bytes * json -> Prop) b k v : P (bs k, v) -> Forall P (omit b k v).
Proof. unfold omit. destruct b; [constructor|]. intros. by constructor. Qed.

Lemma strings_well_formed d l : Forall (fun s => utf8 s) l -> well_formed (S d) (JArray (map JString l)).
Proof. intros H. apply shaped_array. split; [lia|]. by apply Forall_fmap. Qed.

Lemma array_well_formed {A} d (f : A -> json) (P : A -> Prop) l :
  (forall x, P x -> well_formed d (f x)) -> Forall P l -> well_formed (S d) (JArray (map f l)).
Proof. intros Hf H. apply shaped_array. split; [lia|]. apply Forall_fmap. eapply Forall_impl; [exact H|]. exact Hf. Qed.

(** The members of an object, one after the other. *)
Ltac each_member :=
  repeat first
    [ apply Forall_app; split
    | apply omit_Forall; split; [by vm_compute|]; cbn [snd]
    | apply Forall_cons; split; [split; [by vm_compute|cbn [snd]]|]
    | apply Forall_nil_2 ];
  try done; try (by apply number_well_formed).
Ltac members := apply shaped_object; split; [lia|]; cbn [pred]; each_member.

Lemma assertion_well_formed a : good_assertion a -> well_formed 1 (assertion_value a).
Proof. intros (? & ? & ? & ? & H). unfold assertion_value. members. destruct (MinimumOccurrences a); each_member. Qed.

Lemma test_well_formed t : good_test t -> well_formed 3 (test_value t).
Proof. intros (? & ? & ? & ?). unfold test_value. members. by eapply array_well_formed, H2; apply assertion_well_formed. Qed.

Lemma plan_well_formed p : good_plan p -> well_formed 5 (plan_value p).
Proof.
  intros (? & H & ? & H'). unfold plan_value. members; [by apply strings_well_formed|].
  eapply array_well_formed, H'. apply test_well_formed.
Qed.

Lemma reference_well_formed d r : good_reference r -> well_formed (S d) (reference_value r).
Proof. intros (? & ? & ? & ?). unfold reference_value. members. Qed.

Lemma dependency_well_formed d x : good_dependency x -> well_formed (S (S d)) (dependency_value x).
Proof. intros (? & ? & ?). unfold dependency_value. members. by apply reference_well_formed. Qed.

Lemma configuration_well_formed c : good_configuration c -> well_formed 6 (configuration_value c).
Proof.
  intros (? & ? & ? & Hd & Hp & Hn & Hs). rewrite !Forall_cons in Hn. destruct Hn as (? & ? & ? & ? & ? & _).
  unfold configuration_value. members.
  - by apply reference_well_formed.
  - eapply array_well_formed, Hd. apply dependency_well_formed.
  - by apply plan_well_formed.
  - by apply strings_well_formed.
Qed.

(** ** Reading it back *)

Lemma decode_array {A} (f : A -> json) (g : json -> option A) (P : A -> Prop) l :
  (forall x, P x -> g (f x) = Some x) -> Forall P l -> mapM g (map f l) = Some l.
Proof. intros Hf. induction 1 as [|x l Hx _ IH]; [done|]. cbn [map]. rewrite mapM_cons_eq, Hf by done. cbn. by rewrite IH. Qed.

Lemma decode_member {S} strict (field : bytes -> option (json -> S -> option S)) s s' k v ms store :
  field k = Some store -> store v s = Some s' -> decode_struct strict field s ((k, v) :: ms) = decode_struct strict field s' ms.
Proof. intros Hf Hs. cbn [decode_struct]. by rewrite Hf, Hs. Qed.

(** A member that was left out has the zero value. *)
Lemma decode_omitted {S} strict (field : bytes -> option (json -> S -> option S)) s s' b k v ms store :
  field (bs k) = Some store -> store v s = Some s' -> (b = true -> s' = s) ->
  decode_struct strict field s (omit b k v ++ ms) = decode_struct strict field s' ms.
Proof.
  intros Hf H1 H2. unfold omit. destruct b; [by rewrite H2|]. cbn [app]. by eapply decode_member.
Qed.

Lemma int63_text n : int63 n -> parse_int64 (itoa n) = Some n.
Proof. apply parse_int64_itoa. Qed.

Ltac stored := cbn [store_string store_int64 store_int64_pointer store_slice default id]; rewrite ?int63_text by done; cbn; reflexivity.

Lemma decode_reference z r : good_reference r -> decode_as true reference_field z (reference_value r) = Some r.
Proof.
  intros (_ & _ & _ & Hn). destruct r as [u h f n]. cbn [RefSizeBytes] in Hn. unfold decode_as, reference_value, text, numeral.
  erewrite decode_member; [|reflexivity|stored]. erewrite decode_member; [|reflexivity|stored].
  erewrite decode_member; [|reflexivity|stored]. erewrite decode_member; [|reflexivity|stored]. reflexivity.
Qed.

Ltac read_member := erewrite decode_member; [|reflexivity|stored].

Lemma zlen_zero {A} (l : list A) : (zlen l =? 0) = true -> l = [].
Proof. destruct l; [done|]. rewrite zlen_cons. pose proof (zlen_nonneg l). lia. Qed.

Ltac read_omitted :=
  erewrite decode_omitted;
  [ | reflexivity | stored
    | let E := fresh in intros E; first [apply zlen_zero in E | apply Z.eqb_eq in E]; subst; reflexivity ].

Lemma decode_assertion strict a : good_assertion a -> decode_as strict assertion_field no_assertion (assertion_value a) = Some a.
Proof.
  intros (_ & _ & _ & _ & Hn). destruct a as [s o p m n]. cbn [MinimumOccurrences] in Hn.
  unfold decode_as, assertion_value, text, numeral. cbn [Stream Operator Pattern Match_ MinimumOccurrences].
  read_member. read_omitted. cbn [app]. read_member. read_member. destruct n as [n|]; [read_member|]; reflexivity.
Qed.

Lemma decode_test strict t : good_test t -> decode_as strict (test_field strict) no_test (test_value t) = Some t.
Proof.
  intros (_ & _ & Hn & Ha). destruct t as [i c n l]. cbn [TimeoutSeconds Assertions] in *.
  apply (decode_array _ _ _ _ (decode_assertion strict)) in Ha.
  unfold decode_as, test_value, text, numeral. cbn [TestID Command TimeoutSeconds Assertions].
  do 3 read_member. erewrite decode_member; [|reflexivity|cbn [store_slice]; rewrite Ha; reflexivity]. reflexivity.
Qed.

Lemma decode_strings l : mapM string_of (map JString l) = Some l.
Proof. apply (decode_array _ _ (fun _ => True)); [done|]. by apply Forall_true. Qed.

Lemma decode_plan p : good_plan p -> decode_as true test_plan_field no_plan (plan_value p) = Some p.
Proof.
  intros (_ & _ & Hn & Hc). destruct p as [t r n l]. cbn [StabilizationMilliseconds Console] in *.
  apply (decode_array _ _ _ _ (decode_test true)) in Hc.
  unfold decode_as, plan_value, text, numeral. cbn [TargetPlugin RequiredDependencies StabilizationMilliseconds Console].
  read_member. erewrite decode_omitted; [|reflexivity|cbn [store_slice]; rewrite decode_strings; reflexivity|by intros ->%zlen_zero].
  read_omitted. rewrite <-(app_nil_r (omit _ "console" _)).
  erewrite decode_omitted; [|reflexivity|cbn [store_slice]; rewrite Hc; reflexivity|by intros ->%zlen_zero]. reflexivity.
Qed.

Lemma decode_dependency d : good_dependency d -> decode_as true dependency_reference_field no_dependency (dependency_value d) = Some d.
Proof.
  intros (_ & _ & Hr). destruct d as [i p r]. cbn [DepArtifact] in Hr. unfold decode_as, dependency_value, text.
  cbn [DepID DepPlugin DepArtifact]. do 2 read_member.
  erewrite decode_member; [|reflexivity|cbn beta; rewrite decode_reference by done; reflexivity]. reflexivity.
Qed.

Lemma decode_configuration c :
  good_configuration c -> decode_as true configuration_field (no_configuration, false) (configuration_value c) = Some (c, false).
Proof.
  intros (_ & _ & Ht & Hd & Hp & Hn & _). rewrite !Forall_cons in Hn. destruct Hn as (? & ? & ? & ? & ? & _).
  destruct c as [k e t d p m u i s l x]. cbn [Target Dependencies TestPlan CMemoryBytes CCPUMillis CPIDs CDiskBytes MaxLineBytes] in *.
  apply (decode_array _ _ _ _ decode_dependency) in Hd. apply decode_plan in Hp.
  unfold decode_as, configuration_value, text, numeral.
  cbn [ArtifactKind CEnvironmentID Target Dependencies TestPlan CMemoryBytes CCPUMillis CPIDs CDiskBytes MaxLineBytes RedactSecrets app].
  do 2 read_member. erewrite decode_member; [|reflexivity|cbn beta; rewrite decode_reference by done; reflexivity].
  erewrite decode_omitted; [|reflexivity|cbn [store_slice]; rewrite Hd; reflexivity|by intros ->%zlen_zero].
  erewrite decode_member; [|reflexivity|cbn beta; cbn [fst TestPlan default]; rewrite Hp; reflexivity].
  do 4 read_member. read_omitted. rewrite <-(app_nil_r (omit _ "redactSecrets" _)).
  erewrite decode_omitted; [|reflexivity|cbn [store_slice]; rewrite decode_strings; reflexivity|by intros ->%zlen_zero]. reflexivity.
Qed.

(** The JSON reads back, with unknown fields disallowed, as the configuration it was
    written from, with no manifest of a runtime. *)
Lemma configuration_roundtrip c :
  good_configuration c ->
  Json.parse (Json.Marshal (configuration_value c)) ≫= decode_as true configuration_field (no_configuration, false) = Some (c, false).
Proof.
  intros H. rewrite parse_Marshal.
  - rewrite (coerced_id _ _ (configuration_well_formed c H)). by apply decode_configuration.
  - eapply shaped_weaken, shaped_deeper; [|by apply configuration_well_formed|]; [done|]. by apply Nat.leb_le.
Qed.

(** ** The tests of a normalized configuration *)

Lemma decode_struct_inv {S} strict (field : bytes -> option (json -> S -> option S)) (P : S -> Prop) d ms : forall s s',
  (forall k store v s s', field k = Some store -> well_formed d v -> P s -> store v s = Some s' -> P s') ->
  Forall (fun kv => utf8 kv.1 /\ well_formed d kv.2) ms -> P s -> decode_struct strict field s ms = Some s' -> P s'.
Proof.
  induction ms as [|[k v] ms IH]; intros s s' Hf Hm Hs; cbn [decode_struct]; [by intros [= <-]|].
  apply Forall_cons in Hm as [[_ Hv] Hm]. destruct (field k) as [store|] eqn:Ek.
  - destruct (store v s) as [s1|] eqn:Es; [|done]. apply IH; [done|done|]. by eapply Hf.
  - destruct strict; [done|]. by apply IH.
Qed.

Lemma decode_as_inv {S} strict (field : bytes -> option (json -> S -> option S)) (P : S -> Prop) zero d v s :
  (forall k store v s s', field k = Some store -> well_formed (pred d) v -> P s -> store v s = Some s' -> P s') ->
  P zero -> well_formed d v -> decode_as strict field zero v = Some s -> P s.
Proof.
  intros Hf Hz Hv. destruct v as [| | | | |ms]; try done; [by intros [= <-]|]. apply shaped_object in Hv as [_ Hv].
  by apply (decode_struct_inv _ _ _ (pred d)).
Qed.

Lemma slice_inv {A} (g : json -> option A) (P : A -> Prop) d vs l :
  (forall v x, well_formed d v -> g v = Some x -> P x) -> Forall (well_formed d) vs -> mapM g vs = Some l -> Forall P l.
Proof.
  intros Hg Hv Hm%mapM_Some. induction Hm as [|v x vs l Hx _ IH]; [constructor|].
  apply Forall_cons in Hv as [Hv Hvs]. constructor; [by eapply Hg|by apply IH].
Qed.

(** A text that was stored is one that was read. *)
Lemma store_string_inv {S} (set : bytes -> S -> S) v s s' d :
  store_string set v s = Some s' -> well_formed d v -> s' = s \/ exists x, utf8 x /\ s' = set x s.
Proof. unfold store_string. destruct v; try done; [intros [= <-]; by left|]. intros [= <-] H. right. by eexists. Qed.

Ltac fields :=
  repeat match goal with
  | |- (if folded _ _ then _ else _) = Some _ -> _ => destruct (folded _ _); [intros [= <-]|]
  end; try done.

Definition text_assertion (a : commandAssertion) : Prop := utf8 (Stream a) /\ utf8 (Operator a) /\ utf8 (Pattern a) /\ utf8 (Match_ a).
Definition text_test (t : consoleCommandTest) : Prop := utf8 (TestID t) /\ utf8 (Command t) /\ Forall text_assertion (Assertions t).

Lemma assertion_texts d v a : well_formed d v -> decode_as false assertion_field no_assertion v = Some a -> text_assertion a.
Proof.
  intros Hv. apply (decode_as_inv _ _ text_assertion _ d); [|by vm_compute|done].
  intros k store w s s'. unfold assertion_field. fields; intros Hw (T1 & T2 & T3 & T4) H.
  1-4: by eapply store_string_inv in H as [->|(x & Hx & ->)]; [| |exact Hw].
  unfold store_int64_pointer in H. destruct w; try done; [by injection H as <-|]. destruct (parse_int64 _); [|done]. by injection H as <-.
Qed.

Lemma test_texts d v t : well_formed d v -> decode_as false (test_field false) no_test v = Some t -> text_test t.
Proof.
  intros Hv. apply (decode_as_inv _ _ text_test _ d); [|by repeat split; vm_compute|done].
  intros k store w s s'. unfold test_field. fields; intros Hw (T1 & T2 & T3) H.
  1-2: by eapply store_string_inv in H as [->|(x & Hx & ->)]; [| |exact Hw].
  - unfold store_int64 in H. destruct w; try done; [by injection H as <-|]. destruct (parse_int64 _); [|done]. by injection H as <-.
  - unfold store_slice in H. destruct w as [| | | |vs|]; try done; [by injection H as <-|].
    destruct (mapM _ vs) as [l|] eqn:El; [|done]. injection H as <-. apply shaped_array in Hw as [_ Hw].
    split_and!; [done|done|]. eapply slice_inv; [|exact Hw|exact El]. apply assertion_texts.
Qed.

Lemma parse_good p v : Json.parse p = Some v -> well_formed maxNestingDepth v.
Proof. unfold Json.parse. destruct (decode_prefix p) as [[w q]|] eqn:E; [|done]. destruct (skip_space q); [|done]. intros [= <-]. by eapply decode_well_formed. Qed.

(** The raw tests are a value of the document. *)
Definition console_of (t : normalizedTests) : Prop := match NConsole t with Some v => exists d, well_formed d v | None => True end.
Definition tests_of (c : normalizedConfiguration) : Prop := match NTests c with Some t => console_of t | None => True end.

Lemma pointer_inv {S} (field : bytes -> option (json -> S -> option S)) (P : S -> Prop) zero old d v s :
  (forall k store v s s', field k = Some store -> well_formed (pred d) v -> P s -> store v s = Some s' -> P s') ->
  P (default zero old) -> well_formed d v -> decode_pointer field zero old v = Some (Some s) -> P s.
Proof.
  intros Hf Hz Hv. destruct v as [| | | | |ms]; try done. apply shaped_object in Hv as [_ Hv]. cbn [decode_pointer].
  destruct (decode_struct _ _ _ _) as [s'|] eqn:E; [|done]. intros [= <-]. by eapply (decode_struct_inv _ _ _ (pred d)).
Qed.

Lemma tests_pointer d v old t :
  match old with Some t => console_of t | None => True end -> well_formed d v ->
  decode_pointer normalized_tests_field {| NStartup := None; NConsole := None |} old v = Some (Some t) -> console_of t.
Proof.
  intros Hold. apply pointer_inv; [|by destruct old]. clear. intros k store v s s'. unfold normalized_tests_field.
  fields; intros Hv Hs H.
  - destruct (decode_pointer _ _ _ _); [|done]. by injection H as <-.
  - injection H as <-. by exists (pred d).
Qed.

Lemma normalized_tests d v c : well_formed d v -> decode_as false normalized_field no_normalized v = Some c -> tests_of c.
Proof.
  intros Hv. apply (decode_as_inv _ _ tests_of _ d); [|done|done]. clear v c Hv. intros k store v s s'. unfold normalized_field.
  fields; intros Hv Hs H.
  - by eapply store_string_inv in H as [->|(x & _ & ->)]; [| |exact Hv].
  - destruct (decode_pointer _ _ _ _); [|done]. by injection H as <-.
  - unfold store_slice in H. destruct v; try done; [by injection H as <-|]. destruct (mapM _ _); [|done]. by injection H as <-.
  - destruct (decode_pointer _ _ _ _) as [[t|]|] eqn:E; [| |done]; injection H as <-; [|done]. by apply (tests_pointer (pred d) v (NTests s)).
  - destruct (decode_pointer _ _ _ _); [|done]. by injection H as <-.
Qed.

(** Tests that were checked: distinct, with text that prints and numbers in range. *)
Lemma check_assertions_ok l : check_assertions l = inr tt -> Forall text_assertion l -> Forall good_assertion l.
Proof.
  intros H Ht. induction Ht as [|a l (T1 & T2 & T3 & T4) _ IH]; [constructor|]. cbn [check_assertions] in H.
  destruct (checkAssertion a) as [|[]] eqn:E; [done|]. constructor; [|by apply IH]. split_and!; try done.
  unfold checkAssertion in E. destruct (negb _); [done|]. destruct (negb _); [done|]. destruct (_ || _); [done|]. destruct (negb _); [done|].
  destruct (MinimumOccurrences a) as [n|]; [|done]. destruct ((n <? 1) || (10000 <? n) || _) eqn:En; [done|]. unfold int63. lia.
Qed.

Lemma check_tests_ok l : forall seen events,
  check_tests seen events l = inr tt -> Forall text_test l ->
  Forall good_test l /\ NoDup (map TestID l) /\ forall i, i ∈ seen -> i ∉ map TestID l.
Proof.
  induction l as [|t l IH]; intros seen events H Ht.
  { split_and!; [constructor|constructor|]. by intros i _ Hi%elem_of_nil. }
  apply Forall_cons in Ht as [(T1 & T2 & T3) Ht]. cbn [check_tests] in H. destruct (_ || negb (consoleIdentifier _)); [done|].
  destruct (bool_decide _) eqn:E1; [done|]. apply bool_decide_eq_false in E1. destruct (_ || existsb _ (Command t)); [done|].
  destruct ((TimeoutSeconds t <? 1) || _) eqn:E2; [done|]. destruct ((zlen (Assertions t) <? 1) || _); [done|].
  destruct (check_assertions _) as [|[]] eqn:E3; [done|]. destruct (512 <? _); [done|].
  destruct (IH _ _ H Ht) as (H1 & H2 & H3). split_and!.
  - constructor; [|done]. split_and!; [done|done|unfold int63; lia|by apply check_assertions_ok].
  - constructor; [|done]. apply H3. constructor.
  - intros i Hi [->|Hl]%elem_of_cons; [done|]. by apply (H3 i); [constructor|].
Qed.

Lemma normalized_good data v2 d :
  decodeNormalizedConfigurationVersion data v2 = inr d -> 1 <= DSeconds d <= 60 /\ Forall good_test (DConsole d) /\ NoDup (map TestID (DConsole d)).
Proof.
  unfold decodeNormalizedConfigurationVersion. destruct (_ || _); [done|]. destruct (negb _); [done|].
  destruct (Json.parse data) as [v|] eqn:Ev; [|done]. apply parse_good in Ev. cbn [mbind option_bind].
  destruct (decode_as _ _ _ v) as [c|] eqn:Ec; [|done]. apply (normalized_tests _ _ _ Ev) in Ec. destruct (_ && _); [done|].
  destruct (NProject c) as [[|x name]|]; [done| |done]. unfold tests_of in Ec.
  destruct (NTests c) as [[[seconds|] [console|]]|]; try done. cbn in Ec. destruct Ec as [k Ec].
  destruct ((seconds <? 1) || _) eqn:Es; [done|]. destruct (NLogBytes c) as [log|]; [|done]. destruct (log <=? 0); [done|].
  destruct console as [| | | |vs|]; try done. destruct (mapM _ vs) as [tests|] eqn:Et; [|done].
  destruct (validateConsoleTests tests) as [|[]] eqn:Eo; [done|]. intros [= <-]. cbn [DSeconds DConsole]. split; [lia|].
  apply shaped_array in Ec as [_ Ec]. pose proof (slice_inv _ _ _ _ _ (test_texts _) Ec Et) as Ht.
  unfold validateConsoleTests in Eo. destruct (100 <? _); [done|]. by destruct (check_tests_ok _ _ _ Eo Ht) as (H1 & H2 & _).
Qed.

(** ** Adapted jobs *)

Section adapted.
Context `{TS : Timestamps} `{PB : RunnerProto} `{GP : !GatewayProto} `{PM : !ProtoMessages} `{CODEC : PolicyCodec}.
Context `{CS : !ConfigurationSchema}.

(** The strings of a message are UTF-8, as those of a proto3 message are. *)
Definition utf8_object (o : option ObjectDownload) : Prop :=
  match o with Some o => utf8 (DUri o) /\ utf8 (DFilename o) | None => True end.

Definition utf8_input (i : option DependencyInput) : Prop :=
  match i with Some i => utf8 (IDependencyId i) /\ utf8_object (IObject i) | None => True end.

Definition utf8_specification (spec : JobSpecification) : Prop :=
  utf8_object (JArtifact spec) /\ Forall utf8_input (JDependencies spec).

Lemma sha256Digest_utf8 d x : sha256Digest d = inr x -> utf8 x.
Proof.
  unfold sha256Digest. destruct d as [d|]; [|done]. destruct (_ || _); [done|]. intros [= <-]. apply plain_Valid, hex_plain.
Qed.

Lemma downloadReference_good o maximum r :
  downloadReference o maximum = inr r -> utf8_object o -> maximum <= 64 * 2 ^ 30 -> good_reference r.
Proof.
  unfold downloadReference. destruct o as [o|]; [|done]. destruct (_ <=? 0) eqn:E1; [done|]. destruct (_ <? _) eqn:E2; [done|].
  destruct (sha256Digest _) as [|x] eqn:E; [done|]. apply sha256Digest_utf8 in E. intros [= <-] [Hu Hf] Hm.
  split_and!; [done|done|done|]. unfold int63. cbn [RefSizeBytes]. lia.
Qed.

Lemma ValidPaper_utf8 s : ValidPaper s = true -> utf8 s.
Proof. intros H. by apply ascii_Valid, ValidPaper_ascii. Qed.

Lemma sublist_all {A} (P : A -> Prop) l k : sublist l k -> Forall P k -> Forall P l.
Proof. induction 1 as [|x l k _ IH|x l k _ IH]; [done|..]; rewrite !Forall_cons; [|by intros [_ ?]; apply IH]. intros [? ?]. split; [done|by apply IH]. Qed.

(** The dependencies are those of the message, and the required ones are among them. *)
Lemma adapt_dependencies_ok limits configured hashes l : forall ids names dependencies required,
  adapt_dependencies limits configured hashes ids names l = inr (dependencies, required) ->
  Forall utf8_input l -> maximumArtifactBytes limits <= 64 * 2 ^ 30 ->
  (exists inputs, l = map Some inputs /\ map DepID dependencies = map IDependencyId inputs /\
     map DepPlugin dependencies = map PluginName inputs) /\
  sublist required (map DepPlugin dependencies) /\ Forall good_dependency dependencies.
Proof.
  induction l as [|[i|] l IH]; intros ids names dependencies required H Hu Hm; cbn [adapt_dependencies] in H; [| |done].
  { injection H as <- <-. split_and!; [by exists []|constructor|constructor]. }
  apply Forall_cons in Hu as [[Hi Ho] Hu]. destruct (zlen _ =? 0); [done|]. destruct (bool_decide (_ ∈ ids)); [done|].
  destruct (negb (ValidPaper _)) eqn:Ev; [done|]. destruct (bool_decide (_ ∈ names)); [done|].
  destruct (configured !! _) as [needed|]; [|done]. destruct (downloadReference _ _) as [|r] eqn:Er; [done|].
  destruct (hashes !! _); [|done]. destruct (negb _ || _); [done|].
  destruct (adapt_dependencies _ _ _ _ _ l) as [|[ds rs]] eqn:Ea; [done|]. injection H as <- <-.
  destruct (IH _ _ _ _ Ea Hu Hm) as ((inputs & -> & H1 & H2) & H3 & H4). apply negb_false_iff, ValidPaper_utf8 in Ev.
  split_and!.
  - exists (i :: inputs). cbn. by rewrite H1, H2.
  - cbn [map DepPlugin]. destruct needed; [by apply sublist_skip|by apply sublist_cons].
  - constructor; [|done]. split_and!; [done|done|]. by eapply downloadReference_good.
Qed.

Lemma resolveConfiguration_lists config c policy limits r :
  resolveConfiguration config c policy limits = inr r -> 0 <= maximumDependencyBytes limits ->
  CEnvironmentID config = EnvironmentID (rcatalog c) /\ Forall int63 [CMemoryBytes config; CCPUMillis config; CPIDs config; CDiskBytes config] /\
  map rdID (rdependencies r) = map DepID (Dependencies config) /\ map rdPlugin (rdependencies r) = map DepPlugin (Dependencies config).
Proof.
  unfold resolveConfiguration. destruct (negb (bool_decide _)); [done|]. destruct (negb (bool_decide _)) eqn:Ee; [done|].
  destruct (negb (safePluginName _)); [done|]. destruct (negb (_ && (StabilizationMilliseconds _ <=? _))); [done|].
  destruct (_ <? zlen _); [done|]. destruct (negb (_ && (CMemoryBytes config <=? _))) eqn:E1; [done|].
  destruct (negb (_ && (CCPUMillis config <=? _))) eqn:E2; [done|]. destruct (negb (_ && (CPIDs config <=? _))) eqn:E3; [done|].
  destruct (negb (_ && (CDiskBytes config <=? _))) eqn:E4; [done|]. destruct (resolveReference _ _ _); [done|].
  destruct (resolve_dependencies _ _ _ _ _ _) as [|[[out q] t]] eqn:Er; [done|]. destruct (negb (forallb _ _)); [done|].
  destruct (validatePreparationBudget _ _ _ _ _); [done|]. intros [= <-] Hl.
  apply resolve_dependencies_inv in Er as (H1 & H2 & _); [|lia|apply NoDup_singleton].
  apply negb_false_iff, bool_decide_eq_true in Ee. unfold minimumMemoryBytes in E1. split_and!; try done.
  repeat (constructor; [unfold int63; lia|]). constructor.
Qed.

(** The parts an adapted job is made of. *)
Lemma adaptJob_inv p spec v2 job :
  adaptJob p (Some spec) v2 = inr job ->
  exists c decoded target dependencies required configured hashes memory disk cpu pids r,
    let config := adapted_configuration c target dependencies required (TargetPluginName spec) decoded memory disk cpu pids in
    catalogForRemoteEnvironment (map snd (map_to_list (catalogs p))) (JEnvironment spec) = inr c /\
    ValidPaper (TargetPluginName spec) = true /\
    decodeNormalizedConfigurationVersion (NormalizedConfigurationJson spec) v2 = inr decoded /\
    downloadReference (JArtifact spec) (maximumArtifactBytes (plimits p)) = inr target /\
    adapt_dependencies (plimits p) configured hashes [] [to_lower (TargetPluginName spec)] (JDependencies spec) = inr (dependencies, required) /\
    resolveConfiguration config c (inputPolicy p) (plimits p) = inr r /\
    LocalJob.JEnvironment job = Json.Marshal (configuration_value config) /\
    Some (LocalJob.ID job) = LJobId <$> JLease spec.
Proof.
  unfold adaptJob. destruct (zlen _ =? 0) eqn:Ei; [done|]. destruct (negb (ValidPaper _)) eqn:Ev; [done|].
  destruct (catalogForRemoteEnvironment _ _) as [|c] eqn:Ec; [done|]. destruct (JEffectivePolicy spec) as [policy|]; [|done].
  destruct (Resources policy) as [resources|]; [|done]. destruct (negb (Sandbox _ =? _)); [done|]. destruct (negb (network_none _ _)); [done|].
  do 3 (destruct (remoteTimeout _); [done|]). do 2 (destruct (boundedInt64 _); [done|]).
  destruct (decodeNormalizedConfigurationVersion _ _) as [|decoded] eqn:Ed; [done|]. destruct (negb (bool_decide (DName _ = _))); [done|].
  destruct (validateConfigurationDigest _ _); [done|]. destruct (downloadReference _ _) as [|target] eqn:Et; [done|].
  destruct (requireMatchingDigest _ _); [done|]. destruct (configured_dependencies _ _) as [|configured]; [done|].
  destruct (remoteDependencyHashes _) as [|hashes]; [done|].
  destruct (adapt_dependencies _ _ _ _ _ _) as [|[dependencies required]] eqn:Ea; [done|].
  destruct (negb (Z.of_nat _ =? _)); [done|]. destruct (negb (all_downloaded _ _)); [done|]. destruct (maximumProbePlanBytes <? _); [done|].
  destruct (resolveConfiguration _ _ _ _) as [|r] eqn:Er; [done|]. destruct (maximumNormalizedConfigurationBytes <? _); [done|].
  destruct (LocalJob.Validate _); [done|]. intros [= <-]. apply negb_false_iff in Ev.
  do 12 eexists. cbn zeta. split_and!; try done. cbn [LocalJob.ID]. by destruct (JLease spec).
Qed.


End adapted.

Section adapted_sample.
Import PaperSample.


End adapted_sample.
