(* ===== verification/Journal.v ===== *)
(** The journal of the gateway client ([src/internal/gatewayclient/journal.go]): the
    one job a runner has, the message it waits to have acknowledged, and the rotation
    of its credential, kept in a file that is replaced as a whole. *)

From Stdlib Require Import ZifyBool.
From S2P Require Import Prelude Utf8 Strconv Endian Json Sha256 World Execution Policy Binder Messages Url Offer.
Import Names Wire Checks Selection.

Open Scope world_scope.

(** ** Errors

    What decides whether the client reconnects ([transient] of [client.go]); the texts
    are left out. An error of the stream or of the operating system is [temporary] when
    it is an end of file, a network error that says so, or a status the client retries. *)

Inductive gerr := EPermanent | EPlain | EEnvironment (temporary : bool) | ERotationReconnect | EHostedRenewal.

#[export] Instance gerr_eq_dec : EqDecision gerr.
Proof. solve_decision. Defined.

Definition transient (e : gerr) : bool :=
  match e with
  | ERotationReconnect | EHostedRenewal => true
  | EPermanent | EPlain => false
  | EEnvironment temporary => temporary
  end.

(** [errors.Join] of two errors of the file system, for [transient]. *)
Definition join (e : gerr) (other : option gerr) : gerr :=
  match e, other with
  | EPlain, Some other => other
  | _, Some EPermanent => EPermanent
  | _, _ => e
  end.

(** A step ends in a value, in an error, or in a panic; or a loop of it has used up its
    fuel. *)
Inductive outcome (A : Type) := Ok (a : A) | Fail (e : gerr) | Panic | Diverge.
Arguments Ok {A} _.
Arguments Fail {A} _.
Arguments Panic {A}.
Arguments Diverge {A}.

Definition try {W A B} (m : M W (outcome A)) (k : A -> M W (outcome B)) : M W (outcome B) :=
  bind m (fun o => match o with Ok a => k a | Fail e => ret (Fail e) | Panic => ret Panic | Diverge => ret Diverge end).

(** The error of a step, as a value. *)
Definition caught {W A} (m : M W (outcome A)) : M W (outcome (option gerr)) :=
  bind m (fun o => match o with Ok _ => ret (Ok None) | Fail e => ret (Ok (Some e)) | Panic => ret Panic | Diverge => ret Diverge end).

Definition ok {W} : M W (outcome unit) := ret (Ok tt).
Definition fail {W A} (e : gerr) : M W (outcome A) := ret (Fail e).
Definition check {W} (condition : bool) (e : gerr) : M W (outcome unit) := if condition then ok else fail e.

Notation "'let*' x := m 'in' k" := (try m (fun x => k))
  (at level 200, x name, m at level 100, k at level 200, only parsing) : world_scope.
Notation "'let*' ( x , y ) := m 'in' k" := (try m (fun '(x, y) => k))
  (at level 200, x name, y name, m at level 100, k at level 200, only parsing) : world_scope.
Notation "m >> k" := (try m (fun _ => k)) (at level 100, k at level 200, right associativity, only parsing) : world_scope.

(** ** Names of messages

    [fmt.Sprintf("%x-%016x", digest[:12], sequence)], and the number read back from it. *)

Definition message_id (instance : bytes) (sequence : Z) : bytes :=
  hex (take 12 (Sum256 instance)) ++ 0x2D :: hex (put_be 8 sequence).

Fixpoint read_hex (acc : Z) (s : bytes) : option Z :=
  match s with
  | [] => Some acc
  | b :: rest => match hex_value b with Some v => read_hex (acc * 16 + v) rest | None => None end
  end.

(** The sequence number a message id ends in. *)
Definition id_sequence (id : bytes) : option Z :=
  match last_index_byte 0x2D id with
  | None => None
  | Some separator =>
      let suffix := drop (S separator) id in
      if (length suffix =? 16)%nat then read_hex 0 suffix else None
  end.

Definition is_byte (b : Z) : Prop := 0 <= b < 256.

Lemma put_be_bytes n : forall v, Forall is_byte (put_be n v).
Proof.
  induction n as [|n IH]; intros v; [constructor|]. apply Forall_app_2; [apply IH|].
  repeat constructor; apply Z.mod_pos_bound; lia.
Qed.

Lemma hex_value_digit v : 0 <= v < 16 -> hex_value (hex_digit v) = Some v /\ hex_digit v <> 0x2D.
Proof.
  intros Hv. unfold hex_value, hex_digit, in_range. destruct (v <? 10) eqn:?.
  - replace _ with true at 1 by lia. split; [f_equal|]; lia.
  - replace (_ && _) with false at 1 by lia. replace (_ && _) with true at 1 by lia. split; [f_equal|]; lia.
Qed.

Lemma read_hex_hex s : forall acc, Forall is_byte s -> read_hex acc (hex s) = Some (fold_left (fun v b => v * 256 + b) s acc).
Proof.
  induction s as [|b s IH]; intros acc Hs; [done|]. apply Forall_cons in Hs as [Hb Hs]. unfold is_byte in Hb.
  unfold hex. cbn [map concat app read_hex fold_left].
  rewrite (Z.mod_small (b / 16) 16) by (split; [apply Z.div_pos|apply Z.div_lt_upper_bound]; lia).
  rewrite (proj1 (hex_value_digit (b / 16) ltac:(split; [apply Z.div_pos|apply Z.div_lt_upper_bound]; lia))).
  rewrite (proj1 (hex_value_digit (b mod 16) ltac:(apply Z.mod_pos_bound; lia))).
  rewrite IH by done. do 2 f_equal. pose proof (Z.div_mod b 16). lia.
Qed.

Lemma hex_no_dash s : Forall is_byte s -> Forall (fun b => b <> 0x2D) (hex s).
Proof.
  induction 1 as [|b s Hb _ IH]; [constructor|]. unfold is_byte in Hb. unfold hex. cbn [map concat app].
  repeat constructor; [..|exact IH]; apply hex_value_digit; apply Z.mod_pos_bound; lia.
Qed.

Lemma index_byte_first b s t : Forall (fun c => c <> b) s -> index_byte b (s ++ b :: t) = Some (length s).
Proof.
  induction 1 as [|c s Hc _ IH]; cbn; [by rewrite Z.eqb_refl|]. rewrite (proj2 (Z.eqb_neq c b)) by done. by rewrite IH.
Qed.

Lemma last_index_byte_last b p s : Forall (fun c => c <> b) s -> last_index_byte b (p ++ b :: s) = Some (length p).
Proof.
  intros Hs. unfold last_index_byte. rewrite rev_app_distr. cbn [rev]. rewrite <-app_assoc. cbn.
  rewrite index_byte_first by (by apply Forall_rev). cbn. rewrite length_rev, length_app. cbn. f_equal. lia.
Qed.

Lemma length_hex s : length (hex s) = (2 * length s)%nat.
Proof. induction s as [|b s IH]; [done|]. unfold hex in *. cbn. lia. Qed.

(** The number of a message is read back from its id. *)
Lemma id_sequence_message_id instance sequence : 0 <= sequence < 2 ^ 64 -> id_sequence (message_id instance sequence) = Some sequence.
Proof.
  intros Hs. unfold id_sequence, message_id. pose proof (put_be_bytes 8 sequence) as Hb.
  rewrite last_index_byte_last by (by apply hex_no_dash).
  rewrite drop_app_ge, Nat.sub_succ_l, Nat.sub_diag by lia. rewrite skipn_cons, drop_0.
  rewrite length_hex, put_be_length. cbn [Nat.mul Nat.add Nat.eqb]. rewrite read_hex_hex by done.
  f_equal. apply (get_put_be 8). exact Hs.
Qed.

Section journal.
Context `{TS : Timestamps} `{PB : RunnerProto} `{GP : !GatewayProto}.

(** What the client uses of [src/internal/terminalevidence]: the version of a frozen
    proof, and whether a proof fits a job and a runner. *)
Class TerminalEvidence := {
  Evidence : Type;
  FrozenVersion : Evidence -> option bytes;
  ValidateFrozen : Evidence -> JobSpecification -> bytes -> bool;
  ValidateFrozenV2 : Evidence -> JobSpecification -> bytes -> bool;
}.

Context `{EV : TerminalEvidence}.

(** The protobuf library: encodings of runner messages and of jobs, with their sizes,
    the encodings that are hashed, and [proto.Equal]. *)
Class GatewayCodec := {
  RunnerBytes : Type;
  MarshalRunner : RunnerMessage Evidence -> option RunnerBytes;
  UnmarshalRunner : RunnerBytes -> option (RunnerMessage Evidence);
  SizeRunner : RunnerMessage Evidence -> Z;
  JobBytes : Type;
  MarshalJob : JobSpecification -> option JobBytes;
  UnmarshalJob : JobBytes -> option JobSpecification;
  JobLength : JobBytes -> Z;
  MarshalGateway : GatewayMessage -> option bytes;
  MarshalCancel : CancelJob -> option bytes;
  LeaseEqual : option LeaseIdentity -> option LeaseIdentity -> bool;
  AttemptEqual : option AttemptIdentity -> option AttemptIdentity -> bool;
  CorrelationEqual : option JobCorrelation -> option JobCorrelation -> bool;
  JobEqual : JobSpecification -> JobSpecification -> bool;
}.

Context `{GC : GatewayCodec}.

(** An encoding reads back as what was encoded. *)
Class GatewayCodecLaws : Prop := {
  runner_roundtrip : forall m raw, MarshalRunner m = Some raw -> UnmarshalRunner raw = Some m;
  job_roundtrip : forall j raw, MarshalJob j = Some raw -> UnmarshalJob raw = Some j;
}.

(** ** The state

    A time is 0 when it is not set, a field of bytes is empty. A pending message is
    absent instead of empty: an encoded message has at least its id. *)

Definition journalSchemaVersion : bytes := bs "provenance.runner-journal/v1alpha1".
Definition maximumJournalBytes : Z := 256 * 2 ^ 10.

Record journalJob := {
  Specification : JobBytes;
  OfferMessageID : bytes;
  OfferDigest : bytes;
  JobCorrelationV1 : bool;
  TerminalEvidenceV2 : bool;
  Phase : Z;
  ExpiresAt : Z;
  CancellationID : bytes;
  CancellationDeadline : Z;
  CancellationDigest : bytes;
}.

Record journalCredentialRotation := {
  CrRunnerID : bytes; CrRotationID : bytes; CrFingerprint : bytes; CrIssuedAt : Z; CrExpiresAt : Z; CrReconnectBefore : Z;
  CrPersistedAt : Z;
}.

Record journalCommittedCredential := {
  CcRunnerID : bytes; CcRotationID : bytes; CcFingerprint : bytes; CcIssuedAt : Z; CcExpiresAt : Z; CcPersistedAt : Z;
}.

Record journalState := {
  SchemaVersion : bytes;
  MessageSequence : Z;
  HeartbeatSequence : Z;
  Active : option journalJob;
  PendingMessage : option RunnerBytes;
  PendingHeartbeat : option RunnerBytes;
  CredentialRotation : option journalCredentialRotation;
  CommittedCredential : option journalCommittedCredential;
}.

Definition empty_state : journalState := {|
  SchemaVersion := journalSchemaVersion; MessageSequence := 0; HeartbeatSequence := 0; Active := None; PendingMessage := None;
  PendingHeartbeat := None; CredentialRotation := None; CommittedCredential := None |}.

(** The encoding of the state in its file, [encoding/json] with unknown fields and
    trailing values refused. *)
Class JournalCodec := {
  JournalBytes : Type;
  EncodeJournal : journalState -> option JournalBytes;
  DecodeJournal : JournalBytes -> option journalState;
  JournalLength : JournalBytes -> Z;
}.

Context `{JC : JournalCodec}.

(** An encoding reads back as what was encoded, and a decoded [uint64] is one. *)
Class JournalCodecLaws : Prop := {
  journal_roundtrip : forall s raw, EncodeJournal s = Some raw -> DecodeJournal raw = Some s;
  journal_numbers : forall s raw, DecodeJournal raw = Some s ->
    0 <= MessageSequence s < 2 ^ 64 /\ 0 <= HeartbeatSequence s < 2 ^ 64;
}.

Definition with_sequences (s : journalState) (message heartbeat : Z) : journalState := {|
  SchemaVersion := SchemaVersion s; MessageSequence := message; HeartbeatSequence := heartbeat; Active := Active s;
  PendingMessage := PendingMessage s; PendingHeartbeat := PendingHeartbeat s; CredentialRotation := CredentialRotation s;
  CommittedCredential := CommittedCredential s |}.

Definition with_active (s : journalState) (a : option journalJob) : journalState := {|
  SchemaVersion := SchemaVersion s; MessageSequence := MessageSequence s; HeartbeatSequence := HeartbeatSequence s;
  Active := a; PendingMessage := PendingMessage s; PendingHeartbeat := PendingHeartbeat s;
  CredentialRotation := CredentialRotation s; CommittedCredential := CommittedCredential s |}.

Definition with_pending (s : journalState) (m : option RunnerBytes) : journalState := {|
  SchemaVersion := SchemaVersion s; MessageSequence := MessageSequence s; HeartbeatSequence := HeartbeatSequence s;
  Active := Active s; PendingMessage := m; PendingHeartbeat := PendingHeartbeat s;
  CredentialRotation := CredentialRotation s; CommittedCredential := CommittedCredential s |}.

Definition with_heartbeat (s : journalState) (m : option RunnerBytes) : journalState := {|
  SchemaVersion := SchemaVersion s; MessageSequence := MessageSequence s; HeartbeatSequence := HeartbeatSequence s;
  Active := Active s; PendingMessage := PendingMessage s; PendingHeartbeat := m;
  CredentialRotation := CredentialRotation s; CommittedCredential := CommittedCredential s |}.

Definition with_credentials (s : journalState) (r : option journalCredentialRotation) (c : option journalCommittedCredential)
  : journalState := {|
  SchemaVersion := SchemaVersion s; MessageSequence := MessageSequence s; HeartbeatSequence := HeartbeatSequence s;
  Active := Active s; PendingMessage := PendingMessage s; PendingHeartbeat := PendingHeartbeat s;
  CredentialRotation := r; CommittedCredential := c |}.

Definition with_phase (j : journalJob) (phase : Z) : journalJob := {|
  Specification := Specification j; OfferMessageID := OfferMessageID j; OfferDigest := OfferDigest j;
  JobCorrelationV1 := JobCorrelationV1 j; TerminalEvidenceV2 := TerminalEvidenceV2 j; Phase := phase; ExpiresAt := ExpiresAt j;
  CancellationID := CancellationID j; CancellationDeadline := CancellationDeadline j; CancellationDigest := CancellationDigest j |}.

Definition with_lease (j : journalJob) (spec : JobBytes) (expiresAt : Z) : journalJob := {|
  Specification := spec; OfferMessageID := OfferMessageID j; OfferDigest := OfferDigest j;
  JobCorrelationV1 := JobCorrelationV1 j; TerminalEvidenceV2 := TerminalEvidenceV2 j; Phase := Phase j; ExpiresAt := expiresAt;
  CancellationID := CancellationID j; CancellationDeadline := CancellationDeadline j; CancellationDigest := CancellationDigest j |}.

Definition with_cancellation (j : journalJob) (id : bytes) (deadline : Z) (digest : bytes) : journalJob := {|
  Specification := Specification j; OfferMessageID := OfferMessageID j; OfferDigest := OfferDigest j;
  JobCorrelationV1 := JobCorrelationV1 j; TerminalEvidenceV2 := TerminalEvidenceV2 j; Phase := Phase j; ExpiresAt := ExpiresAt j;
  CancellationID := id; CancellationDeadline := deadline; CancellationDigest := digest |}.

(** ** Identities of messages *)

Abbreviation message := (RunnerMessage Evidence) (only parsing).

Definition runnerMessageIdentity (m : message) : option LeaseIdentity * option AttemptIdentity :=
  match Payload m with
  | Some (LeaseAccepted l a _) | Some (LeaseRejected l a _ _) | Some (LeaseRenewal l a _ _) | Some (JobPreparing l a _)
  | Some (JobStarted l a _) | Some (Completed l a _ _) | Some (Failed l a _ _ _ _ _) | Some (Cancelled l a _ _ _ _) => (l, a)
  | _ => (None, None)
  end.

Definition durableRunnerMessage (m : message) : bool :=
  match Payload m with
  | Some (LeaseAccepted _ _ _) | Some (LeaseRejected _ _ _ _) | Some (LeaseRenewal _ _ _ _) | Some (JobPreparing _ _ _)
  | Some (JobStarted _ _ _) | Some (Completed _ _ _ _) | Some (Failed _ _ _ _ _ _ _) | Some (Cancelled _ _ _ _ _ _) => true
  | _ => false
  end.

Definition is_rejection (m : message) : bool := match Payload m with Some (LeaseRejected _ _ _ _) => true | _ => false end.

Definition sameLeaseAttempt (ll : option LeaseIdentity) (la : option AttemptIdentity) (rl : option LeaseIdentity)
    (ra : option AttemptIdentity) : bool :=
  match ll, la, rl, ra with
  | Some ll, Some la, Some rl, Some ra =>
      bool_decide (LeaseId ll = LeaseId rl) && bool_decide (LJobId ll = LJobId rl) && bool_decide (ExecutionId ll = ExecutionId rl)
      && bool_decide (AttemptId la = AttemptId ra) && (AttemptNumber la =? AttemptNumber ra)
      && bool_decide (ReleaseCandidateId la = ReleaseCandidateId ra) && bool_decide (MatrixEntryId la = MatrixEntryId ra)
  | _, _, _, _ => false
  end.

Definition activeMatchesIdentity (active : option journalJob) (l : option LeaseIdentity) (a : option AttemptIdentity) : bool :=
  match active with
  | None => false
  | Some active =>
      match UnmarshalJob (Specification active) with
      | None => false
      | Some spec => sameLeaseAttempt (JLease spec) (JAttempt spec) l a
      end
  end.

(** [None]: there is no active lease, or it cannot be read. *)
Definition activeIdentity (s : journalState) : option (option LeaseIdentity * option AttemptIdentity) :=
  match Active s with
  | None => None
  | Some active => (fun spec => (JLease spec, JAttempt spec)) <$> UnmarshalJob (Specification active)
  end.

(** ** Frozen proofs *)

Definition terminalProof (m : message) : option Evidence :=
  match Payload m with
  | Some (Completed _ _ _ proof) => proof
  | Some (Failed _ _ _ _ _ _ proof) => proof
  | _ => None
  end.

Definition evidence_v1 : bytes := bs "provenance.execution-evidence/v1".
Definition evidence_v2 : bytes := bs "provenance.execution-evidence/v2".

Definition validateTerminalProof (m : message) (s : journalState) (runnerID : bytes) : bool :=
  match terminalProof m with
  | None => true
  | Some proof =>
      match Active s with
      | None => false
      | Some active =>
          match UnmarshalJob (Specification active), FrozenVersion proof with
          | Some job, Some version =>
              let v2 := bool_decide (version = evidence_v2) in
              Bool.eqb v2 (TerminalEvidenceV2 active)
              && (if v2 then ValidateFrozenV2 proof job runnerID else ValidateFrozen proof job runnerID)
          | _, _ => false
          end
      end
  end.

Definition terminalMessageBound (m : message) : bool :=
  match terminalProof m with Some _ => SizeRunner m <=? MaximumMessageBytes | None => true end.

(** ** Validation *)

Definition validateJournalRunnerEnvelope (m : message) (messageSequence : Z) : bool :=
  validateIdentifier (MessageId m) maximumIdentifierBytes && validateTimestamp (SentAt m) && (SizeRunner m <=? MaximumMessageBytes)
  && match id_sequence (MessageId m) with
     | Some sequence => negb (sequence =? 0) && (sequence <=? messageSequence)
     | None => false
     end.

Definition lower_uuid (id : bytes) : bool := validateUUID id && bool_decide (id = to_lower id).

Definition Hour : Z := 60 * Minute.

Definition rotation_ok (r : journalCredentialRotation) : bool :=
  (bool_decide (CrRunnerID r = []) || lower_uuid (CrRunnerID r)) && lower_uuid (CrRotationID r) && (zlen (CrFingerprint r) =? 32)
  && negb (CrIssuedAt r =? 0) && (CrIssuedAt r <? CrExpiresAt r) && (saturate (CrExpiresAt r - CrIssuedAt r) <=? Hour)
  && (CrIssuedAt r <? CrReconnectBefore r) && (CrReconnectBefore r <? CrExpiresAt r)
  && (saturate (CrReconnectBefore r - CrIssuedAt r) <=? 5 * Minute)
  && ((CrPersistedAt r =? 0) || (CrIssuedAt r - maximumClockSkew <=? CrPersistedAt r)).

Definition committed_ok (c : journalCommittedCredential) : bool :=
  lower_uuid (CcRunnerID c) && lower_uuid (CcRotationID c) && (zlen (CcFingerprint c) =? 32) && negb (CcIssuedAt c =? 0)
  && negb (CcExpiresAt c =? 0) && negb (CcPersistedAt c =? 0) && (CcIssuedAt c <? CcExpiresAt c)
  && (saturate (CcExpiresAt c - CcIssuedAt c) <=? Hour) && (CcIssuedAt c - maximumClockSkew <=? CcPersistedAt c)
  && (CcPersistedAt c <? CcExpiresAt c).

(** A committed credential is the one a persisted rotation brought. *)
Definition rotation_committed (c : journalCommittedCredential) (r : journalCredentialRotation) : bool :=
  bool_decide (CcRunnerID c = CrRunnerID r) && bool_decide (CcRotationID c = CrRotationID r)
  && bool_decide (CcFingerprint c = CrFingerprint r) && (CcIssuedAt c =? CrIssuedAt r) && (CcExpiresAt c =? CrExpiresAt r)
  && (CcPersistedAt c =? CrPersistedAt r).

Definition credentials_ok (s : journalState) : bool :=
  match CredentialRotation s with Some r => rotation_ok r | None => true end
  && match CommittedCredential s with
     | None => true
     | Some c =>
         committed_ok c
         && match CredentialRotation s with
            | Some r => (CrPersistedAt r =? 0) || rotation_committed c r
            | None => true
            end
     end.

Definition heartbeat_ok (s : journalState) : bool :=
  match PendingHeartbeat s with
  | None => true
  | Some raw =>
      match UnmarshalRunner raw with
      | None => false
      | Some m =>
          validateJournalRunnerEnvelope m (MessageSequence s)
          && match Payload m with
             | Some (HeartbeatOf h) =>
                 negb (HSequence h =? 0) && (HSequence h <=? HeartbeatSequence s) && (zlen (HActiveLeases h) <=? 1)
                 && match HCapacity h with Some _ => true | None => false end && validateTimestamp (HObservedAt h)
             | _ => false
             end
      end
  end.

Definition identity_ok (l : option LeaseIdentity) (a : option AttemptIdentity) : bool :=
  match l, a with
  | Some l, Some a =>
      forallb validateUUID [LeaseId l; LJobId l; ExecutionId l; AttemptId a; ReleaseCandidateId a; MatrixEntryId a]
      && negb (AttemptNumber a =? 0) && (AttemptNumber a <=? maximumAttemptNumber)
  | _, _ => false
  end.

Definition no_scope : ExpectedScope := {| Kind := ScopeOther; OrganizationID := [] |}.

Definition specification_ok (active : journalJob) (spec : JobSpecification) : bool :=
  match JLease spec with
  | None => false
  | Some l => validateTimestamp (LExpiresAt l) && (ExpiresAt active =? as_time (LExpiresAt l))
  end
  && identity_ok (JLease spec) (JAttempt spec) && ValidPaper (TargetPluginName spec)
  && bool_decide (validateOfferJobCorrelation spec no_scope (JobCorrelationV1 active) = None)
  && ((zlen (TestSecrets spec) =? 0) || (JobCorrelationV1 active && ValidateSelection (Some spec)))
  && forallb (fun d => match d with Some d => ValidPaper (PluginName d) | None => false end) (JDependencies spec).

Definition cancellation_ok (a : journalJob) : bool :=
  (if bool_decide (CancellationID a = []) then (zlen (CancellationDigest a) =? 0) && (CancellationDeadline a =? 0)
   else if zlen (CancellationDigest a) =? 0 then CancellationDeadline a =? 0
   else (zlen (CancellationDigest a) =? 32) && negb (CancellationDeadline a =? 0))
  && (bool_decide (CancellationID a = []) || validateIdentifier (CancellationID a) maximumIdentifierBytes).

Definition active_phases : list Z := [JOB_PHASE_ACCEPTED; JOB_PHASE_PREPARING; JOB_PHASE_RUNNING; JOB_PHASE_CANCELLING].

Definition active_ok (a : journalJob) : bool :=
  negb (JobLength (Specification a) =? 0) && (JobLength (Specification a) <=? MaximumMessageBytes)
  && match UnmarshalJob (Specification a) with Some spec => specification_ok a spec | None => false end
  && validateIdentifier (OfferMessageID a) maximumIdentifierBytes && (zlen (OfferDigest a) =? 32)
  && existsb (Z.eqb (Phase a)) active_phases && cancellation_ok a.

Definition pending_ok (s : journalState) : bool :=
  match PendingMessage s with
  | None => true
  | Some raw =>
      match UnmarshalRunner raw with
      | None => false
      | Some m =>
          validateJournalRunnerEnvelope m (MessageSequence s)
          && match Active s with
             | None => is_rejection m
             | Some _ =>
                 durableRunnerMessage m && validateTerminalProof m s []
                 && (is_rejection m
                     || activeMatchesIdentity (Active s) (fst (runnerMessageIdentity m)) (snd (runnerMessageIdentity m)))
             end
      end
  end.

Definition validateJournalState (s : journalState) : bool :=
  bool_decide (SchemaVersion s = journalSchemaVersion) && credentials_ok s && heartbeat_ok s
  && match Active s with Some a => active_ok a | None => true end && pending_ok s.

(** ** The file

    The calls that replace the journal. An error carries whether it is temporary. *)

Inductive lstat := Missing | PrivateRegular | OtherFile | StatError (temporary : bool).

Inductive read_file := ReadMissing | ReadError | ReadData (data : JournalBytes).

Record JournalFS (W : Type) := {
  ReadJournal : M W read_file;
  MkdirAll : M W (option bool);
  CreateTemp : M W (option bool);
  ChmodTemp : M W (option bool);
  WriteTemp : JournalBytes -> M W (option bool);
  SyncTemp : M W (option bool);
  CloseTemp : M W (option bool);
  LstatJournal : M W lstat;
  RenameTemp : M W (option bool);
  RemoveTemp : M W unit;
  OpenDirectory : M W (option bool);
  SyncDirectory : M W (option bool);
}.
Arguments ReadJournal {W} _.
Arguments MkdirAll {W} _.
Arguments CreateTemp {W} _.
Arguments ChmodTemp {W} _.
Arguments WriteTemp {W} _ _.
Arguments SyncTemp {W} _.
Arguments CloseTemp {W} _.
Arguments LstatJournal {W} _.
Arguments RenameTemp {W} _.
Arguments RemoveTemp {W} _.
Arguments OpenDirectory {W} _.
Arguments SyncDirectory {W} _.

(** The journal in memory; [durable] is whether it has a path. *)
Record journal := { durable : bool; state : journalState }.

Section file.
Context {W : Type} (fs : JournalFS W).

(** [steps] up to the first error, which removes the temporary file. *)
Fixpoint before_rename (steps : list (M W (option bool))) : M W (option gerr) :=
  match steps with
  | [] => ret None
  | step :: steps =>
      let! r := step in
      match r with
      | Some temporary => RemoveTemp fs ;; ret (Some (EEnvironment temporary))
      | None => before_rename steps
      end
  end.

(** Whether the new state was committed, and the error. *)
Definition persistLocked (j : journal) : M W (bool * option gerr) :=
  if negb (durable j) then ret (true, None)
  else
    match EncodeJournal (state j) with
    | None => ret (false, Some EPlain)
    | Some data =>
        if maximumJournalBytes <? JournalLength data then ret (false, Some EPlain)
        else
          let! created := CreateTemp fs in
          match created with
          | Some temporary => ret (false, Some (EEnvironment temporary))
          | None =>
              let! written := before_rename [ChmodTemp fs; WriteTemp fs data; SyncTemp fs; CloseTemp fs] in
              match written with
              | Some e => ret (false, Some e)
              | None =>
                  let! existing := LstatJournal fs in
                  match existing with
                  | OtherFile => RemoveTemp fs ;; ret (false, Some EPlain)
                  | StatError temporary => RemoveTemp fs ;; ret (false, Some (EEnvironment temporary))
                  | Missing | PrivateRegular =>
                      let! renamed := RenameTemp fs in
                      match renamed with
                      | Some temporary => RemoveTemp fs ;; ret (false, Some (EEnvironment temporary))
                      | None =>
                          let! opened := OpenDirectory fs in
                          match opened with
                          | Some temporary => ret (true, Some (EEnvironment temporary))
                          | None =>
                              let! synced := SyncDirectory fs in
                              ret (true, EEnvironment <$> synced)
                          end
                      end
                  end
              end
          end
    end.

(** [change] may fail after it changed the state: then the change stays. *)
Definition update (j : journal) (change : journalState -> outcome unit * journalState) : M W (journal * outcome unit) :=
  match change (state j) with
  | (Ok _, s) =>
      if negb (validateJournalState s) then ret (j, Fail EPlain)
      else
        let! (committed, err) := persistLocked {| durable := durable j; state := s |} in
        match err with
        | Some e => ret (if committed then {| durable := durable j; state := s |} else j, Fail e)
        | None => ret ({| durable := durable j; state := s |}, Ok tt)
        end
  | (o, s) => ret ({| durable := durable j; state := s |}, o)
  end.

Definition openJournal (path : bool) : M W (journal + gerr) :=
  let fresh := {| durable := path; state := empty_state |} in
  if negb path then ret (inl fresh)
  else
    let! read := ReadJournal fs in
    match read with
    | ReadMissing =>
        let! made := MkdirAll fs in
        match made with
        | Some temporary => ret (inr (EEnvironment temporary))
        | None =>
            let! (_, err) := persistLocked fresh in
            ret (match err with Some e => inr e | None => inl fresh end)
        end
    | ReadError => ret (inr EPlain)
    | ReadData data =>
        match DecodeJournal data with
        | None => ret (inr EPlain)
        | Some s => ret (if validateJournalState s then inl {| durable := true; state := s |} else inr EPlain)
        end
    end.

End file.

Definition maximum_uint64 : Z := 2 ^ 64 - 1.

Definition next_message (s : journalState) : outcome unit * journalState :=
  if MessageSequence s =? maximum_uint64 then (Fail EPlain, s)
  else (Ok tt, with_sequences s (MessageSequence s + 1) (HeartbeatSequence s)).

Definition next_heartbeat (s : journalState) : outcome unit * journalState :=
  if HeartbeatSequence s =? maximum_uint64 then (Fail EPlain, s)
  else (Ok tt, with_sequences s (MessageSequence s) (HeartbeatSequence s + 1)).

(** ** Credentials *)

Definition validCredentialPredecessor (committed : option journalCommittedCredential) (pending : option journalCredentialRotation)
  : bool :=
  match committed, pending with
  | Some c, Some p =>
      bool_decide (CcRunnerID c = CrRunnerID p) && negb (bool_decide (CcRotationID c = CrRotationID p))
      && negb (bool_decide (CcFingerprint c = CrFingerprint p)) && (CcIssuedAt c - maximumClockSkew <=? CrIssuedAt p)
      && (CcPersistedAt c - maximumClockSkew <=? CrIssuedAt p)
  | _, _ => false
  end.

(** The part of [credentialMatchesCommittedRotation] after the journal was opened. *)
Definition credential_bound (s : journalState) (runnerID credential : bytes) (now : Z) : bool :=
  let digest := Sum256 credential in
  match CredentialRotation s with
  | Some r =>
      if CrPersistedAt r =? 0 then
        bool_decide (CrRunnerID r = runnerID) && (now <? CrExpiresAt r)
        && match CommittedCredential s with
           | None => bool_decide (digest = CrFingerprint r)
           | Some c =>
               validCredentialPredecessor (Some c) (Some r)
               && (bool_decide (digest = CrFingerprint r) || ((now <? CcExpiresAt c) && bool_decide (digest = CcFingerprint c)))
           end
      else
        match CommittedCredential s with
        | None => false
        | Some c =>
            bool_decide (CcRunnerID c = runnerID) && (now <? CcExpiresAt c) && bool_decide (CrRunnerID r = runnerID)
            && bool_decide (CrRotationID r = CcRotationID c) && bool_decide (CrFingerprint r = CcFingerprint c)
            && bool_decide (digest = CcFingerprint c)
        end
  | None =>
      match CommittedCredential s with
      | None => false
      | Some c => bool_decide (CcRunnerID c = runnerID) && (now <? CcExpiresAt c) && bool_decide (digest = CcFingerprint c)
      end
  end.

Definition credentialMatchesCommittedRotation {W} (fs : JournalFS W) (path present : bool) (runnerID credential : bytes) (now : Z)
  : M W bool :=
  if negb path || (zlen credential =? 0) || negb present then ret false
  else
    let! opened := openJournal fs true in
    ret (match opened with inl j => credential_bound (state j) runnerID credential now | inr _ => false end).

End journal.

Arguments ReadJournal {TS EV GC JC W} _.
Arguments MkdirAll {TS EV GC JC W} _.
Arguments CreateTemp {TS EV GC JC W} _.
Arguments ChmodTemp {TS EV GC JC W} _.
Arguments WriteTemp {TS EV GC JC W} _.
Arguments SyncTemp {TS EV GC JC W} _.
Arguments CloseTemp {TS EV GC JC W} _.
Arguments LstatJournal {TS EV GC JC W} _.
Arguments RenameTemp {TS EV GC JC W} _.
Arguments RemoveTemp {TS EV GC JC W} _.
Arguments OpenDirectory {TS EV GC JC W} _.
Arguments SyncDirectory {TS EV GC JC W} _.
