(* ===== verification/Wp.v ===== *)
(** Reasoning about computations that pass a state and may fail: weakest preconditions,
    and the parts of the state that a computation leaves alone. *)

From S2P Require Import Prelude World Journal.

Open Scope world_scope.

Section wp.
Context {St : Type}.

Definition wp {A} (Q : A -> St -> Prop) (m : M St A) (st : St) : Prop := Q (fst (m st)) (snd (m st)).

Lemma wp_ret {A} (Q : A -> St -> Prop) a st : Q a st -> wp Q (ret a) st.
Proof. done. Qed.

Lemma wp_bind {A B} (Q : B -> St -> Prop) (m : M St A) (k : A -> M St B) st :
  wp (fun a st' => wp Q (k a) st') m st -> wp Q (bind m k) st.
Proof. unfold wp, bind. by destruct (m st). Qed.

Lemma wp_mono {A} (Q Q' : A -> St -> Prop) m st : wp Q m st -> (forall a st', Q a st' -> Q' a st') -> wp Q' m st.
Proof. unfold wp. auto. Qed.

Lemma wp_try {A B} (Q : outcome B -> St -> Prop) (m : M St (outcome A)) (k : A -> M St (outcome B)) st :
  wp (fun o st' => match o with
                   | Ok a => wp Q (k a) st'
                   | Fail e => Q (Fail e) st'
                   | Panic => Q Panic st'
                   | Diverge => Q Diverge st'
                   end) m st -> wp Q (try m k) st.
Proof. unfold wp, try, bind. destruct (m st) as [[] st']; done. Qed.

Lemma wp_caught {A} (Q : outcome (option gerr) -> St -> Prop) (m : M St (outcome A)) st :
  wp (fun o st' => match o with
                   | Ok _ => Q (Ok None) st'
                   | Fail e => Q (Ok (Some e)) st'
                   | Panic => Q Panic st'
                   | Diverge => Q Diverge st'
                   end) m st -> wp Q (caught m) st.
Proof. unfold wp, caught, bind. destruct (m st) as [[] st']; done. Qed.

Lemma wp_reads {A B} (Q : B -> St -> Prop) (f : St -> A) (k : A -> M St B) st :
  wp Q (k (f st)) st -> wp Q (bind (reads f) k) st.
Proof. done. Qed.

Lemma wp_check {B} (Q : outcome B -> St -> Prop) b e (k : unit -> M St (outcome B)) st :
  (b = true -> wp Q (k tt) st) -> Q (Fail e) st -> wp Q (try (check b e) k) st.
Proof. destruct b; unfold wp, try, bind; cbn; auto. Qed.

End wp.

(** ** What an operation leaves alone *)

Section preserves.
Context {S X : Type} (view : S -> X).

Definition preserves {A} (m : M S A) : Prop := forall s, view (snd (m s)) = view s.

Lemma preserves_ret {A} (a : A) : preserves (ret a).
Proof. done. Qed.

Lemma preserves_reads {A} (f : S -> A) : preserves (reads f).
Proof. done. Qed.

Lemma preserves_bind {A B} (m : M S A) (k : A -> M S B) : preserves m -> (forall a, preserves (k a)) -> preserves (bind m k).
Proof. intros Hm Hk s. unfold bind. specialize (Hm s). destruct (m s) as [a s']. by rewrite Hk. Qed.

Lemma preserves_try {A B} (m : M S (outcome A)) (k : A -> M S (outcome B)) :
  preserves m -> (forall a, preserves (k a)) -> preserves (try m k).
Proof. intros Hm Hk. apply preserves_bind; [done|]. by intros []. Qed.

Lemma preserves_caught {A} (m : M S (outcome A)) : preserves m -> preserves (caught m).
Proof. intros Hm. apply preserves_bind; [done|]. by intros []. Qed.

Lemma preserves_check b e : preserves (check b e).
Proof. by destruct b. Qed.

End preserves.

