(* ===== verification/ClientState.v ===== *)
(** The state of the gateway client ([src/internal/gatewayclient/client.go],
    [supervisor.go], [secret_exchange.go], [live_evidence.go]): the client, which
    outlives its connections, the session of one connection, and the events a worker
    hands to it; with one setter per field. *)

From S2P Require Import Prelude Utf8 Strconv World Execution Policy Binder Messages Offer Journal.

(** ** Configuration *)

Record Config := {
  RunnerID : bytes; InstanceID : bytes; CRunnerVersion : bytes; Offers : OfferConfig; DisableObjectUploadIdentity : bool;
  EnableNetworkPolicyV2 : bool; IdentityKeyFile : bool; credentialStore : bool;
}.

(** What the worker is: whether it executes jobs with evidence of the second version,
    and whether it can be a source of test secrets. *)
Record RemoteWorker := { executesV2 : bool; SupportsTestSecretSource : bool }.

Section state.
Context `{TS : Timestamps} `{PB : RunnerProto} `{GP : !GatewayProto} `{EV : !TerminalEvidence} `{GC : !GatewayCodec}.

(** The observations of a result stay unread: their types are parameters. *)
Context {NetworkObservation Snapshot Observation TerminalContext : Type}.

Abbreviation Res := (@Executor.Result NetworkObservation Snapshot Observation TerminalContext) (only parsing).
Abbreviation message := (RunnerMessage Evidence) (only parsing).

(** ** Worker events

    A channel for the answer to a start, and a request for secrets, are named by a
    number. *)

Inductive evidence_payload := LogEvidence (batch : LogBatch) | UsageEvidence (usage : UsageReport) | NoEvidence.

Record workerEvidenceEvent := {
  evGeneration : Z; evLease : option LeaseIdentity; evAttempt : option AttemptIdentity; evPayload : evidence_payload;
  evTerminal : bool;
}.

Record workerSecretRequest := { requestId : nat; requestGeneration : Z }.

Inductive workerEvent :=
  | SecretEvent (request : workerSecretRequest)
  | EvidenceEvent (e : workerEvidenceEvent)
  | StartEvent (start : nat)
  | ResultEvent (result : Res) (finalEvidence finalUsage : option workerEvidenceEvent)
  | EmptyEvent.

Record pendingSecretRequest := { psWorker : workerSecretRequest; psRequestID : bytes; psJob : JobSpecification }.

Record activeCompleteLogUpload := { auLeaseID : bytes; auAttemptID : bytes; auTarget : completeLogTarget; auRecovery : bool }.

(** ** The client

    [workerCancel] and [workerSecretCancel] are whether the functions are set,
    [workerNetworkAuthority] whether there is a guard. *)

Record Client := {
  c_journal : journal;
  c_draining : bool;
  workerRunning : bool;
  workerCancel : bool;
  workerNetworkAuthority : bool;
  workerNetworkJob : option JobSpecification;
  workerNetworkGeneration : Z;
  workerSecretCancel : bool;
  workerSecretGeneration : Z;
  startResponse : option nat;
  recovering : bool;
  sessionGeneration : Z;
  ephemeralSequence : Z;
  activeUpload : option activeCompleteLogUpload;
  deferredWorkerEvents : list workerEvent;
  c_credential : bytes;
}.

Definition set_c_journal (c : Client) (v : journal) : Client := {|
  c_journal := v; c_draining := c_draining c; workerRunning := workerRunning c; workerCancel := workerCancel c;
  workerNetworkAuthority := workerNetworkAuthority c; workerNetworkJob := workerNetworkJob c; workerNetworkGeneration
  := workerNetworkGeneration c; workerSecretCancel := workerSecretCancel c; workerSecretGeneration :=
  workerSecretGeneration c; startResponse := startResponse c; recovering := recovering c; sessionGeneration :=
  sessionGeneration c; ephemeralSequence := ephemeralSequence c; activeUpload := activeUpload c; deferredWorkerEvents
  := deferredWorkerEvents c; c_credential := c_credential c |}.

Definition set_c_draining (c : Client) (v : bool) : Client := {|
  c_journal := c_journal c; c_draining := v; workerRunning := workerRunning c; workerCancel := workerCancel c;
  workerNetworkAuthority := workerNetworkAuthority c; workerNetworkJob := workerNetworkJob c; workerNetworkGeneration
  := workerNetworkGeneration c; workerSecretCancel := workerSecretCancel c; workerSecretGeneration :=
  workerSecretGeneration c; startResponse := startResponse c; recovering := recovering c; sessionGeneration :=
  sessionGeneration c; ephemeralSequence := ephemeralSequence c; activeUpload := activeUpload c; deferredWorkerEvents
  := deferredWorkerEvents c; c_credential := c_credential c |}.

Definition set_workerRunning (c : Client) (v : bool) : Client := {|
  c_journal := c_journal c; c_draining := c_draining c; workerRunning := v; workerCancel := workerCancel c;
  workerNetworkAuthority := workerNetworkAuthority c; workerNetworkJob := workerNetworkJob c; workerNetworkGeneration
  := workerNetworkGeneration c; workerSecretCancel := workerSecretCancel c; workerSecretGeneration :=
  workerSecretGeneration c; startResponse := startResponse c; recovering := recovering c; sessionGeneration :=
  sessionGeneration c; ephemeralSequence := ephemeralSequence c; activeUpload := activeUpload c; deferredWorkerEvents
  := deferredWorkerEvents c; c_credential := c_credential c |}.

Definition set_workerCancel (c : Client) (v : bool) : Client := {|
  c_journal := c_journal c; c_draining := c_draining c; workerRunning := workerRunning c; workerCancel := v;
  workerNetworkAuthority := workerNetworkAuthority c; workerNetworkJob := workerNetworkJob c; workerNetworkGeneration
  := workerNetworkGeneration c; workerSecretCancel := workerSecretCancel c; workerSecretGeneration :=
  workerSecretGeneration c; startResponse := startResponse c; recovering := recovering c; sessionGeneration :=
  sessionGeneration c; ephemeralSequence := ephemeralSequence c; activeUpload := activeUpload c; deferredWorkerEvents
  := deferredWorkerEvents c; c_credential := c_credential c |}.

Definition set_workerNetworkAuthority (c : Client) (v : bool) : Client := {|
  c_journal := c_journal c; c_draining := c_draining c; workerRunning := workerRunning c; workerCancel := workerCancel
  c; workerNetworkAuthority := v; workerNetworkJob := workerNetworkJob c; workerNetworkGeneration :=
  workerNetworkGeneration c; workerSecretCancel := workerSecretCancel c; workerSecretGeneration :=
  workerSecretGeneration c; startResponse := startResponse c; recovering := recovering c; sessionGeneration :=
  sessionGeneration c; ephemeralSequence := ephemeralSequence c; activeUpload := activeUpload c; deferredWorkerEvents
  := deferredWorkerEvents c; c_credential := c_credential c |}.

Definition set_workerNetworkJob (c : Client) (v : option JobSpecification) : Client := {|
  c_journal := c_journal c; c_draining := c_draining c; workerRunning := workerRunning c; workerCancel := workerCancel
  c; workerNetworkAuthority := workerNetworkAuthority c; workerNetworkJob := v; workerNetworkGeneration :=
  workerNetworkGeneration c; workerSecretCancel := workerSecretCancel c; workerSecretGeneration :=
  workerSecretGeneration c; startResponse := startResponse c; recovering := recovering c; sessionGeneration :=
  sessionGeneration c; ephemeralSequence := ephemeralSequence c; activeUpload := activeUpload c; deferredWorkerEvents
  := deferredWorkerEvents c; c_credential := c_credential c |}.

Definition set_workerNetworkGeneration (c : Client) (v : Z) : Client := {|
  c_journal := c_journal c; c_draining := c_draining c; workerRunning := workerRunning c; workerCancel := workerCancel
  c; workerNetworkAuthority := workerNetworkAuthority c; workerNetworkJob := workerNetworkJob c;
  workerNetworkGeneration := v; workerSecretCancel := workerSecretCancel c; workerSecretGeneration :=
  workerSecretGeneration c; startResponse := startResponse c; recovering := recovering c; sessionGeneration :=
  sessionGeneration c; ephemeralSequence := ephemeralSequence c; activeUpload := activeUpload c; deferredWorkerEvents
  := deferredWorkerEvents c; c_credential := c_credential c |}.

Definition set_workerSecretCancel (c : Client) (v : bool) : Client := {|
  c_journal := c_journal c; c_draining := c_draining c; workerRunning := workerRunning c; workerCancel := workerCancel
  c; workerNetworkAuthority := workerNetworkAuthority c; workerNetworkJob := workerNetworkJob c;
  workerNetworkGeneration := workerNetworkGeneration c; workerSecretCancel := v; workerSecretGeneration :=
  workerSecretGeneration c; startResponse := startResponse c; recovering := recovering c; sessionGeneration :=
  sessionGeneration c; ephemeralSequence := ephemeralSequence c; activeUpload := activeUpload c; deferredWorkerEvents
  := deferredWorkerEvents c; c_credential := c_credential c |}.

Definition set_workerSecretGeneration (c : Client) (v : Z) : Client := {|
  c_journal := c_journal c; c_draining := c_draining c; workerRunning := workerRunning c; workerCancel := workerCancel
  c; workerNetworkAuthority := workerNetworkAuthority c; workerNetworkJob := workerNetworkJob c;
  workerNetworkGeneration := workerNetworkGeneration c; workerSecretCancel := workerSecretCancel c;
  workerSecretGeneration := v; startResponse := startResponse c; recovering := recovering c; sessionGeneration :=
  sessionGeneration c; ephemeralSequence := ephemeralSequence c; activeUpload := activeUpload c; deferredWorkerEvents
  := deferredWorkerEvents c; c_credential := c_credential c |}.

Definition set_startResponse (c : Client) (v : option nat) : Client := {|
  c_journal := c_journal c; c_draining := c_draining c; workerRunning := workerRunning c; workerCancel := workerCancel
  c; workerNetworkAuthority := workerNetworkAuthority c; workerNetworkJob := workerNetworkJob c;
  workerNetworkGeneration := workerNetworkGeneration c; workerSecretCancel := workerSecretCancel c;
  workerSecretGeneration := workerSecretGeneration c; startResponse := v; recovering := recovering c;
  sessionGeneration := sessionGeneration c; ephemeralSequence := ephemeralSequence c; activeUpload := activeUpload c;
  deferredWorkerEvents := deferredWorkerEvents c; c_credential := c_credential c |}.

Definition set_recovering (c : Client) (v : bool) : Client := {|
  c_journal := c_journal c; c_draining := c_draining c; workerRunning := workerRunning c; workerCancel := workerCancel
  c; workerNetworkAuthority := workerNetworkAuthority c; workerNetworkJob := workerNetworkJob c;
  workerNetworkGeneration := workerNetworkGeneration c; workerSecretCancel := workerSecretCancel c;
  workerSecretGeneration := workerSecretGeneration c; startResponse := startResponse c; recovering := v;
  sessionGeneration := sessionGeneration c; ephemeralSequence := ephemeralSequence c; activeUpload := activeUpload c;
  deferredWorkerEvents := deferredWorkerEvents c; c_credential := c_credential c |}.

Definition set_sessionGeneration (c : Client) (v : Z) : Client := {|
  c_journal := c_journal c; c_draining := c_draining c; workerRunning := workerRunning c; workerCancel := workerCancel
  c; workerNetworkAuthority := workerNetworkAuthority c; workerNetworkJob := workerNetworkJob c;
  workerNetworkGeneration := workerNetworkGeneration c; workerSecretCancel := workerSecretCancel c;
  workerSecretGeneration := workerSecretGeneration c; startResponse := startResponse c; recovering := recovering c;
  sessionGeneration := v; ephemeralSequence := ephemeralSequence c; activeUpload := activeUpload c;
  deferredWorkerEvents := deferredWorkerEvents c; c_credential := c_credential c |}.

Definition set_ephemeralSequence (c : Client) (v : Z) : Client := {|
  c_journal := c_journal c; c_draining := c_draining c; workerRunning := workerRunning c; workerCancel := workerCancel
  c; workerNetworkAuthority := workerNetworkAuthority c; workerNetworkJob := workerNetworkJob c;
  workerNetworkGeneration := workerNetworkGeneration c; workerSecretCancel := workerSecretCancel c;
  workerSecretGeneration := workerSecretGeneration c; startResponse := startResponse c; recovering := recovering c;
  sessionGeneration := sessionGeneration c; ephemeralSequence := v; activeUpload := activeUpload c;
  deferredWorkerEvents := deferredWorkerEvents c; c_credential := c_credential c |}.

Definition set_activeUpload (c : Client) (v : option activeCompleteLogUpload) : Client := {|
  c_journal := c_journal c; c_draining := c_draining c; workerRunning := workerRunning c; workerCancel := workerCancel
  c; workerNetworkAuthority := workerNetworkAuthority c; workerNetworkJob := workerNetworkJob c;
  workerNetworkGeneration := workerNetworkGeneration c; workerSecretCancel := workerSecretCancel c;
  workerSecretGeneration := workerSecretGeneration c; startResponse := startResponse c; recovering := recovering c;
  sessionGeneration := sessionGeneration c; ephemeralSequence := ephemeralSequence c; activeUpload := v;
  deferredWorkerEvents := deferredWorkerEvents c; c_credential := c_credential c |}.

Definition set_deferredWorkerEvents (c : Client) (v : list workerEvent) : Client := {|
  c_journal := c_journal c; c_draining := c_draining c; workerRunning := workerRunning c; workerCancel := workerCancel
  c; workerNetworkAuthority := workerNetworkAuthority c; workerNetworkJob := workerNetworkJob c;
  workerNetworkGeneration := workerNetworkGeneration c; workerSecretCancel := workerSecretCancel c;
  workerSecretGeneration := workerSecretGeneration c; startResponse := startResponse c; recovering := recovering c;
  sessionGeneration := sessionGeneration c; ephemeralSequence := ephemeralSequence c; activeUpload := activeUpload c;
  deferredWorkerEvents := v; c_credential := c_credential c |}.

Definition set_c_credential (c : Client) (v : bytes) : Client := {|
  c_journal := c_journal c; c_draining := c_draining c; workerRunning := workerRunning c; workerCancel := workerCancel
  c; workerNetworkAuthority := workerNetworkAuthority c; workerNetworkJob := workerNetworkJob c;
  workerNetworkGeneration := workerNetworkGeneration c; workerSecretCancel := workerSecretCancel c;
  workerSecretGeneration := workerSecretGeneration c; startResponse := startResponse c; recovering := recovering c;
  sessionGeneration := sessionGeneration c; ephemeralSequence := ephemeralSequence c; activeUpload := activeUpload c;
  deferredWorkerEvents := deferredWorkerEvents c; c_credential := v |}.

(** ** The session of one connection *)

Record clientSession := {
  seen : gmap bytes bytes;
  seenOrder : list bytes;
  pendingHeartbeat : option message;
  heartbeatDeferred : bool;
  reconciled : bool;
  settledEvents : gmap bytes (message * Z);
  settledEventOrder : list bytes;
  acknowledgedHeartbeats : gmap bytes message;
  acknowledgedHBOrder : list bytes;
  cancellationFinalUsage : option LeaseIdentity * option AttemptIdentity;
  pendingSecret : option pendingSecretRequest;
}.

Definition set_seen (s : clientSession) (v : gmap bytes bytes) : clientSession := {|
  seen := v; seenOrder := seenOrder s; pendingHeartbeat := pendingHeartbeat s; heartbeatDeferred := heartbeatDeferred
  s; reconciled := reconciled s; settledEvents := settledEvents s; settledEventOrder := settledEventOrder s;
  acknowledgedHeartbeats := acknowledgedHeartbeats s; acknowledgedHBOrder := acknowledgedHBOrder s;
  cancellationFinalUsage := cancellationFinalUsage s; pendingSecret := pendingSecret s |}.

Definition set_seenOrder (s : clientSession) (v : list bytes) : clientSession := {|
  seen := seen s; seenOrder := v; pendingHeartbeat := pendingHeartbeat s; heartbeatDeferred := heartbeatDeferred s;
  reconciled := reconciled s; settledEvents := settledEvents s; settledEventOrder := settledEventOrder s;
  acknowledgedHeartbeats := acknowledgedHeartbeats s; acknowledgedHBOrder := acknowledgedHBOrder s;
  cancellationFinalUsage := cancellationFinalUsage s; pendingSecret := pendingSecret s |}.

Definition set_pendingHeartbeat (s : clientSession) (v : option message) : clientSession := {|
  seen := seen s; seenOrder := seenOrder s; pendingHeartbeat := v; heartbeatDeferred := heartbeatDeferred s;
  reconciled := reconciled s; settledEvents := settledEvents s; settledEventOrder := settledEventOrder s;
  acknowledgedHeartbeats := acknowledgedHeartbeats s; acknowledgedHBOrder := acknowledgedHBOrder s;
  cancellationFinalUsage := cancellationFinalUsage s; pendingSecret := pendingSecret s |}.

Definition set_heartbeatDeferred (s : clientSession) (v : bool) : clientSession := {|
  seen := seen s; seenOrder := seenOrder s; pendingHeartbeat := pendingHeartbeat s; heartbeatDeferred := v; reconciled
  := reconciled s; settledEvents := settledEvents s; settledEventOrder := settledEventOrder s; acknowledgedHeartbeats
  := acknowledgedHeartbeats s; acknowledgedHBOrder := acknowledgedHBOrder s; cancellationFinalUsage :=
  cancellationFinalUsage s; pendingSecret := pendingSecret s |}.

Definition set_reconciled (s : clientSession) (v : bool) : clientSession := {|
  seen := seen s; seenOrder := seenOrder s; pendingHeartbeat := pendingHeartbeat s; heartbeatDeferred :=
  heartbeatDeferred s; reconciled := v; settledEvents := settledEvents s; settledEventOrder := settledEventOrder s;
  acknowledgedHeartbeats := acknowledgedHeartbeats s; acknowledgedHBOrder := acknowledgedHBOrder s;
  cancellationFinalUsage := cancellationFinalUsage s; pendingSecret := pendingSecret s |}.

Definition set_settledEvents (s : clientSession) (v : gmap bytes (message * Z)) : clientSession := {|
  seen := seen s; seenOrder := seenOrder s; pendingHeartbeat := pendingHeartbeat s; heartbeatDeferred :=
  heartbeatDeferred s; reconciled := reconciled s; settledEvents := v; settledEventOrder := settledEventOrder s;
  acknowledgedHeartbeats := acknowledgedHeartbeats s; acknowledgedHBOrder := acknowledgedHBOrder s;
  cancellationFinalUsage := cancellationFinalUsage s; pendingSecret := pendingSecret s |}.

Definition set_settledEventOrder (s : clientSession) (v : list bytes) : clientSession := {|
  seen := seen s; seenOrder := seenOrder s; pendingHeartbeat := pendingHeartbeat s; heartbeatDeferred :=
  heartbeatDeferred s; reconciled := reconciled s; settledEvents := settledEvents s; settledEventOrder := v;
  acknowledgedHeartbeats := acknowledgedHeartbeats s; acknowledgedHBOrder := acknowledgedHBOrder s;
  cancellationFinalUsage := cancellationFinalUsage s; pendingSecret := pendingSecret s |}.

Definition set_acknowledgedHeartbeats (s : clientSession) (v : gmap bytes message) : clientSession := {|
  seen := seen s; seenOrder := seenOrder s; pendingHeartbeat := pendingHeartbeat s; heartbeatDeferred :=
  heartbeatDeferred s; reconciled := reconciled s; settledEvents := settledEvents s; settledEventOrder :=
  settledEventOrder s; acknowledgedHeartbeats := v; acknowledgedHBOrder := acknowledgedHBOrder s;
  cancellationFinalUsage := cancellationFinalUsage s; pendingSecret := pendingSecret s |}.

Definition set_acknowledgedHBOrder (s : clientSession) (v : list bytes) : clientSession := {|
  seen := seen s; seenOrder := seenOrder s; pendingHeartbeat := pendingHeartbeat s; heartbeatDeferred :=
  heartbeatDeferred s; reconciled := reconciled s; settledEvents := settledEvents s; settledEventOrder :=
  settledEventOrder s; acknowledgedHeartbeats := acknowledgedHeartbeats s; acknowledgedHBOrder := v;
  cancellationFinalUsage := cancellationFinalUsage s; pendingSecret := pendingSecret s |}.

Definition set_cancellationFinalUsage (s : clientSession) (v : option LeaseIdentity * option AttemptIdentity) : clientSession := {|
  seen := seen s; seenOrder := seenOrder s; pendingHeartbeat := pendingHeartbeat s; heartbeatDeferred :=
  heartbeatDeferred s; reconciled := reconciled s; settledEvents := settledEvents s; settledEventOrder :=
  settledEventOrder s; acknowledgedHeartbeats := acknowledgedHeartbeats s; acknowledgedHBOrder := acknowledgedHBOrder
  s; cancellationFinalUsage := v; pendingSecret := pendingSecret s |}.

Definition set_pendingSecret (s : clientSession) (v : option pendingSecretRequest) : clientSession := {|
  seen := seen s; seenOrder := seenOrder s; pendingHeartbeat := pendingHeartbeat s; heartbeatDeferred :=
  heartbeatDeferred s; reconciled := reconciled s; settledEvents := settledEvents s; settledEventOrder :=
  settledEventOrder s; acknowledgedHeartbeats := acknowledgedHeartbeats s; acknowledgedHBOrder := acknowledgedHBOrder
  s; cancellationFinalUsage := cancellationFinalUsage s; pendingSecret := v |}.

(** What a session is opened with. *)
Record SessionInfo := {
  authenticated : Authenticated; jobCorrelationV1 : bool; restartUploadRecovery : bool; objectUploadIdentity : bool;
  terminalEvidenceV1 : bool; terminalEvidenceV2 : bool; testSecretsV1 : bool; networkFeatures : list Z;
  networkMaximum : option EffectivePolicy; generation : Z;
}.

Definition new_session : clientSession := {|
  seen := ∅; seenOrder := []; pendingHeartbeat := None; heartbeatDeferred := false; reconciled := false; settledEvents := ∅;
  settledEventOrder := []; acknowledgedHeartbeats := ∅; acknowledgedHBOrder := []; cancellationFinalUsage := (None, None);
  pendingSecret := None |}.

(** [newClientWithWorker]: a client that has just opened its journal. *)
Definition new_client (j : journal) (credential : bytes) : Client := {|
  c_journal := j; c_draining := false; workerRunning := false; workerCancel := false; workerNetworkAuthority := false;
  workerNetworkJob := None; workerNetworkGeneration := 0; workerSecretCancel := false; workerSecretGeneration := 0;
  startResponse := None; recovering := match Active (state j) with Some _ => true | None => false end;
  sessionGeneration := 0; ephemeralSequence := 0; activeUpload := None; deferredWorkerEvents := []; c_credential := credential |}.

End state.
