(* ===== verification/Session.v ===== *)
(** The session of the gateway client ([src/internal/gatewayclient/supervisor.go],
    with [network_authority.go], [terminal_evidence.go], [credential_rotation.go],
    [secret_exchange.go], [live_evidence.go] and the messages of [client.go]): how it
    accepts a lease, reports and renews it, starts and stops the worker, and settles
    every durable event with the gateway. *)

From Stdlib Require Import ZifyBool.
From S2P Require Import Prelude Utf8 Patterns Strconv Json Endian Sha256 World Execution Policy Binder Messages Authority Url Offer.
From S2P Require Import Journal ClientState.
Import Names Wire Checks Selection.

Open Scope world_scope.

Definition maximumRememberedGatewayMessageIDs : nat := 4096.
Definition Microsecond : Z := 1000.

Definition is_some {A} (o : option A) : bool := match o with Some _ => true | None => false end.

(** ** Terminal results *)

(** [value.UTC().Truncate(time.Microsecond)] *)
Definition normalizedTerminalTime (t : Z) : Z := t - t mod Microsecond.

Definition normalizedTerminalTimes (startedAt completedAt : Z) : option (Z * Z) :=
  if (startedAt =? 0) || (completedAt =? 0) || (completedAt <? startedAt) then None
  else Some (normalizedTerminalTime startedAt, normalizedTerminalTime completedAt).

Definition boundedSummary (value : bytes) : bytes :=
  let value := TrimSpace value in
  if zlen value =? 0 then bs "runner event failed"
  else if maximumReasonBytes <? zlen value then trim_valid (take (Z.to_nat maximumReasonBytes) value)
  else value.

(** [int32(v)] *)
Definition to_int32 (v : Z) : Z := (v + 2 ^ 31) mod 2 ^ 32 - 2 ^ 31.

Definition resourceUsageMessage (u : ResourceUsage) : UsageMessage := {|
  UmCpuTime := if 0 <? CPUTime u then Some (DurationNew (CPUTime u)) else None;
  UmPeakMemoryBytes := PeakMemoryBytes u; UmDiskReadBytes := DiskReadBytes u; UmDiskWriteBytes := DiskWriteBytes u;
  UmNetworkReceiveBytes := NetworkReceiveBytes u; UmNetworkTransmitBytes := NetworkTransmitBytes u |}.

Section pure.
Context `{PB : RunnerProto} `{GP : !GatewayProto}.

Definition failureStage (phase : Execution.Phase) : Z :=
  match phase with
  | PhaseValidation | PhaseResolution => FAILURE_STAGE_LEASE
  | PhasePreparation => FAILURE_STAGE_PREPARATION
  | PhaseCleanup | PhaseCollection => FAILURE_STAGE_CLEANUP
  | _ => FAILURE_STAGE_EXECUTION
  end.

Context {NetworkObservation Snapshot Observation TerminalContext : Type}.

Local Abbreviation Result := (@Executor.Result NetworkObservation Snapshot Observation TerminalContext).

Definition Passed (r : Result) : bool := bool_decide (Executor.RClassification r = ClassificationPassed).

Definition resultFailure (r : Result) : FailureDetail :=
  let stage := match Executor.RFailure r with
               | Some f => match Stage f with
                           | FailureStagePreparation => FAILURE_STAGE_PREPARATION
                           | FailureStageStartup => FAILURE_STAGE_STARTUP
                           | FailureStageExecution => FAILURE_STAGE_EXECUTION
                           | _ => failureStage (Executor.RPhase r)
                           end
               | None => failureStage (Executor.RPhase r)
               end in
  let code := match Executor.RFailure r with Some f => Code f | None => bs "runner_execution_failed" end in
  let summary := match Executor.RFailure r with Some f => boundedSummary (Execution.Message f) | None => bs "remote execution failed" end in
  let detail category code retryable :=
    {| FCategory := category; FStage := stage; FCode := code; FSummary := summary; FRetryable := retryable |} in
  match Executor.RClassification r with
  | ClassificationInvalidJob => detail FAILURE_CATEGORY_POLICY code false
  | ClassificationWorkloadFailure => detail FAILURE_CATEGORY_PLUGIN code false
  | ClassificationCancelled => detail FAILURE_CATEGORY_INFRASTRUCTURE (bs "job_cancelled") true
  | ClassificationTimedOut => detail FAILURE_CATEGORY_INFRASTRUCTURE (bs "job_timed_out") false
  | _ => detail FAILURE_CATEGORY_INFRASTRUCTURE code true
  end.

Definition infrastructure_failure (stage : Z) (code summary : bytes) : FailureDetail :=
  {| FCategory := FAILURE_CATEGORY_INFRASTRUCTURE; FStage := stage; FCode := code; FSummary := summary; FRetryable := true |}.

Definition restartFailureDetail : FailureDetail :=
  infrastructure_failure FAILURE_STAGE_EXECUTION (bs "runner_restarted")
    (bs "runner restarted with an authoritative lease whose execution outcome is uncertain").

(** A result of a job that failed before its workload could leave a log. *)
Definition beforeExecutionFailure (r : Result) : bool :=
  bool_decide (Executor.Status r = failed) && negb (Passed r)
  && match Executor.RFailure r, Executor.Execution r, Executor.RCompleteLog r with
     | Some _, None, None =>
         match Executor.RPhase r with PhaseValidation | PhaseResolution | PhasePreparation => true | _ => false end
     | _, _, _ => false
     end.

(** ** Statuses and phases *)

Definition terminalLeaseStatus (status : Z) : bool :=
  (status =? LEASE_STATUS_COMPLETED) || (status =? LEASE_STATUS_CANCELLED) || (status =? LEASE_STATUS_EXPIRED)
  || (status =? LEASE_STATUS_RELEASED).

Definition jobPhaseRank (phase : Z) : Z :=
  if phase =? JOB_PHASE_ACCEPTED then 1
  else if phase =? JOB_PHASE_PREPARING then 2
  else if phase =? JOB_PHASE_RUNNING then 3
  else if phase =? JOB_PHASE_CANCELLING then 4
  else 0.

Context `{TS : Timestamps}.

Definition is_nil (b : bytes) : bool := zlen b =? 0.

Definition validateReconciliation (r : LeaseReconciliation) : bool :=
  match RLease r, RAttempt r with
  | Some l, Some a =>
      existsb (Z.eqb (Disposition r)) [DISPOSITION_APPLIED; DISPOSITION_ALREADY_APPLIED; DISPOSITION_STALE]
      && existsb (Z.eqb (Status r)) [LEASE_STATUS_OFFERED; LEASE_STATUS_ACCEPTED; LEASE_STATUS_ACTIVE; LEASE_STATUS_COMPLETED;
                                     LEASE_STATUS_CANCELLED; LEASE_STATUS_EXPIRED; LEASE_STATUS_RELEASED]
      && existsb (Z.eqb (RPhase r)) [JOB_PHASE_UNSPECIFIED; JOB_PHASE_ACCEPTED; JOB_PHASE_PREPARING; JOB_PHASE_RUNNING;
                                     JOB_PHASE_CANCELLING]
      && validateTimestamp (LExpiresAt l)
      && forallb validateUUID [LeaseId l; LJobId l; ExecutionId l; AttemptId a; ReleaseCandidateId a; MatrixEntryId a]
      && negb (AttemptNumber a =? 0) && (AttemptNumber a <=? maximumAttemptNumber)
      && forallb (fun value => is_nil value || validateIdentifier value maximumIdentifierBytes) [TerminalMessageId r; CancellationId r]
      && (is_nil (CancellationId r) || (RPhase r =? JOB_PHASE_CANCELLING))
      && negb ((RPhase r =? JOB_PHASE_CANCELLING) && is_nil (CancellationId r) && negb (terminalLeaseStatus (Status r)))
      && match CompleteLogUpload r with
         | None => true
         | Some _ => (Status r =? LEASE_STATUS_ACTIVE) && negb (RPhase r =? JOB_PHASE_CANCELLING) && is_nil (CancellationId r)
                     && is_nil (TerminalMessageId r)
         end
  | _, _ => false
  end.

Definition stale (r : LeaseReconciliation) : bool := Disposition r =? DISPOSITION_STALE.

Context `{EV : !TerminalEvidence} `{GC : !GatewayCodec}.

(** What a pending event may be answered with. *)
Definition validatePendingReconciliation (pending : RunnerMessage Evidence) (r : LeaseReconciliation) (s : journalState) : bool :=
  if stale r || terminalLeaseStatus (Status r) then true
  else
    match Payload pending with
    | Some (LeaseAccepted _ _ _) => (Status r =? LEASE_STATUS_ACCEPTED) && (RPhase r =? JOB_PHASE_ACCEPTED)
    | Some (JobPreparing _ _ _) => (Status r =? LEASE_STATUS_ACTIVE) && (RPhase r =? JOB_PHASE_PREPARING)
    | Some (JobStarted _ _ _) => (Status r =? LEASE_STATUS_ACTIVE) && (RPhase r =? JOB_PHASE_RUNNING)
    | Some (LeaseRenewal _ _ _ _) =>
        match Active s with
        | None => false
        | Some a => (Status r =? LEASE_STATUS_ACTIVE) && (RPhase r =? Phase a)
                    && ((RPhase r =? JOB_PHASE_PREPARING) || (RPhase r =? JOB_PHASE_RUNNING))
        end
    | _ => false
    end.

Definition validateSettledEventAcknowledgement (settled : RunnerMessage Evidence) (phase : Z) (r : LeaseReconciliation) : bool :=
  validateReconciliation r
  && (let '(l, a) := runnerMessageIdentity settled in sameLeaseAttempt l a (RLease r) (RAttempt r))
  && (stale r || terminalLeaseStatus (Status r)
      || match Payload settled with
         | Some (LeaseAccepted _ _ _) =>
             ((Status r =? LEASE_STATUS_ACCEPTED) || (Status r =? LEASE_STATUS_ACTIVE))
             && (jobPhaseRank JOB_PHASE_ACCEPTED <=? jobPhaseRank (RPhase r))
         | Some (JobPreparing _ _ _) =>
             (Status r =? LEASE_STATUS_ACTIVE) && (jobPhaseRank JOB_PHASE_PREPARING <=? jobPhaseRank (RPhase r))
         | Some (JobStarted _ _ _) =>
             (Status r =? LEASE_STATUS_ACTIVE) && (jobPhaseRank JOB_PHASE_RUNNING <=? jobPhaseRank (RPhase r))
         | Some (LeaseRenewal _ _ _ _) => (Status r =? LEASE_STATUS_ACTIVE) && (jobPhaseRank phase <=? jobPhaseRank (RPhase r))
         | _ => false
         end).

(** The envelope of a message of the gateway. *)
Definition validateGatewayEnvelope (m : GatewayMessage) (now : Z) : bool :=
  validateIdentifier (GMessageId m) maximumIdentifierBytes && validateTimestampNear (GSentAt m) now
  && match GPayload m with Some _ => true | None => false end.

Definition enabledNetworkJob (job : JobSpecification) : bool :=
  match JEffectivePolicy job ≫= NetworkV2 with Some p => negb (Mode p =? NETWORK_MODE_NONE) | None => false end.

End pure.

(** ** Credentials

    [base64.RawURLEncoding.DecodeString]: groups of four symbols, and at the end two or
    three of them, whose last bits are dropped. *)

Definition url_value (b : Z) : option Z :=
  if is_upper b then Some (b - 0x41)
  else if is_lower b then Some (b - 0x61 + 26)
  else if is_digit b then Some (b - 0x30 + 52)
  else if b =? 0x2D then Some 62
  else if b =? 0x5F then Some 63
  else None.

Fixpoint raw_url_groups (vs : list Z) : option bytes :=
  match vs with
  | [] => Some []
  | [_] => None
  | [a; b] => Some [Z.shiftr (a * 64 + b) 4]
  | [a; b; c] => let v := Z.shiftr ((a * 64 + b) * 64 + c) 2 in Some [Z.shiftr v 8; Z.land v 0xFF]
  | a :: b :: c :: d :: rest =>
      let v := ((a * 64 + b) * 64 + c) * 64 + d in
      (fun out => Z.shiftr v 16 :: Z.land (Z.shiftr v 8) 0xFF :: Z.land v 0xFF :: out) <$> raw_url_groups rest
  end.

Definition raw_url_decode (s : bytes) : option bytes := mapM url_value s ≫= raw_url_groups.

Definition raw_url_encode (s : bytes) : bytes := Encodings.base64 Encodings.url_alphabet false s.

(** [^prc_v1_[A-Za-z0-9_-]{42}[AEIMQUYcgkosw048]$] *)
Definition canonicalConnectionCredentialPattern (s : bytes) : bool :=
  (length s =? 50)%nat && has_prefix (bs "prc_v1_") s && forallb (fun b => is_some (url_value b)) (take 42 (drop 7 s))
  && match s !! 49%nat with Some b => existsb (Z.eqb b) (bs "AEIMQUYcgkosw048") | None => false end.

Definition bytesToDigest (value : bytes) : bytes := take 32 (value ++ replicate 32 0).

Definition sameCredentialRotation (left right : journalCredentialRotation) : bool :=
  (bool_decide (CrRunnerID left = CrRunnerID right) || bool_decide (CrRunnerID left = []) || bool_decide (CrRunnerID right = []))
  && bool_decide (CrRotationID left = CrRotationID right) && bool_decide (CrFingerprint left = CrFingerprint right)
  && (CrIssuedAt left =? CrIssuedAt right) && (CrExpiresAt left =? CrExpiresAt right)
  && (CrReconnectBefore left =? CrReconnectBefore right).

Definition validateCredentialRotation `{TS : Timestamps} (r : RotateCredential) (now : Z) : option (journalCredentialRotation * bytes) :=
  let credential := ConnectionCredential r in
  let encoded := drop 7 credential in
  let issuedAt := as_time (IssuedAt r) in
  let expiresAt := as_time (RExpiresAt r) in
  let reconnectBefore := as_time (ReconnectBefore r) in
  if negb (validateUUID (RotationId r)) || negb (bool_decide (RotationId r = to_lower (RotationId r))) then None
  else if negb (zlen credential =? 50) || negb (canonicalConnectionCredentialPattern credential) then None
  else if match raw_url_decode encoded with
          | Some decoded => negb (zlen decoded =? 32) || negb (bool_decide (raw_url_encode decoded = encoded))
          | None => true
          end then None
  else if negb (zlen (CredentialFingerprint r) =? 32) || negb (bool_decide (CredentialFingerprint r = Sum256 credential)) then None
  else if negb (forallb validateTimestamp [IssuedAt r; RExpiresAt r; ReconnectBefore r]) then None
  else if (now + maximumClockSkew <? issuedAt) || (expiresAt <=? issuedAt) || (Hour <? saturate (expiresAt - issuedAt))
          || (reconnectBefore <=? issuedAt) || (expiresAt <=? reconnectBefore)
          || (5 * Minute <? saturate (reconnectBefore - issuedAt)) || (reconnectBefore <=? now) then None
  else Some ({| CrRunnerID := []; CrRotationID := RotationId r; CrFingerprint := Sum256 credential; CrIssuedAt := issuedAt;
                CrExpiresAt := expiresAt; CrReconnectBefore := reconnectBefore; CrPersistedAt := 0 |}, credential).

(** ** Reconnecting *)

Definition initialReconnectDelay : Z := 250 * 1000000.
Definition maximumReconnectDelay : Z := 30 * Second.

(** What [Run] does after a session: it stops with an error, or it connects again after
    a delay, and the next delay it would use. *)
Inductive reconnect := Stop (e : gerr) | Again (wait : option Z) (next : Z).

Definition next_delay (delay : Z) : Z :=
  if delay <? maximumReconnectDelay then Z.min (delay * 2) maximumReconnectDelay else delay.

Definition after_session (established : bool) (e : gerr) (delay : Z) : reconnect :=
  if negb (transient e) then Stop e
  else match e with
       | ERotationReconnect | EHostedRenewal => Again None initialReconnectDelay
       | _ => let delay := if established then initialReconnectDelay else delay in Again (Some delay) (next_delay delay)
       end.

(** [sessionExpiration]: when a session ends for its credential, and whether it is
    renewed then. *)
Definition sessionExpiration (credential : bytes) (remaining : Z) : Z * bool :=
  if has_prefix (bs "phc_v1_") credential && (2 * Minute <? remaining) then (remaining - Minute, true) else (remaining, false).

(** * The operations *)

Section session.
Context `{TS : Timestamps} `{PB : RunnerProto} `{GP : !GatewayProto} `{EV : !TerminalEvidence} `{GC : !GatewayCodec}.
Context `{JC : !JournalCodec} `{CODEC : PolicyCodec} `{OC : !OfferCodec}.
Context {NetworkObservation Snapshot Observation TerminalContext : Type}.

Local Abbreviation Result := (@Executor.Result NetworkObservation Snapshot Observation TerminalContext).
Local Abbreviation message := (RunnerMessage Evidence).
Local Abbreviation payload := (runner_payload Evidence).
Local Abbreviation event := (@workerEvent _ NetworkObservation Snapshot Observation TerminalContext).
Local Abbreviation Client := (@Client _ _ _ NetworkObservation Snapshot Observation TerminalContext).

(** What a recovered execution left on the disk ([restart_evidence.go]). *)
Record recoveredEvidence := { reIdentity : bytes; reUsage : option UsageMessage; reCompleteLog : option CompleteLog }.

(** What the terminal evidence of a result is built with. *)
Class ResultEvidence := {
  Matches : TerminalContext -> option LeaseIdentity -> option AttemptIdentity -> bool;
  Build : TerminalContext -> bytes -> list Observation -> option Snapshot -> option Evidence;
  BuildObservedNetwork : TerminalContext -> bytes -> list Observation -> NetworkObservation -> option Evidence;
}.

Context `{RE : ResultEvidence}.

(** What surrounds the client: the clock, the file of the journal, the stream, the
    worker and its network guard, the evidence that survives a restart, the uploads,
    the credential store and the test secrets. *)
Record Env (W : Type) := {
  fs : JournalFS W;
  clock : M W Z;
  stream : message -> M W (option gerr);
  respond : nat -> option gerr -> M W unit;
  spawn : JobSpecification -> M W unit;
  cancel_worker : M W unit;
  cancel_secrets : M W unit;
  close_log : CompleteLog -> M W unit;
  guard_new : JobSpecification -> M W bool;
  guard_reconcile : LeaseReconciliation -> list Z -> Z -> M W (option bool);
  guard_withdraw : M W unit;
  guard_close : M W bool;
  guard_done : M W bool;
  begin_evidence : option LeaseIdentity -> option AttemptIdentity -> M W (option gerr);
  clear_evidence : M W (option gerr);
  evidence_active : M W bool;
  open_evidence : option journalJob -> M W (option gerr);
  evidence_snapshot : M W (option recoveredEvidence);
  evidence_identity : option LeaseIdentity -> option AttemptIdentity -> option bytes;
  upload : completeLogTarget -> option CompleteLog -> M W (option LogObject);
  archive : option CompleteLog -> M W (option (bytes * Z));
  replace_credential : bytes -> M W bool;
  request_done : nat -> M W bool;
  finish_secret : nat -> option Z -> M W unit;
  seal : JobSpecification -> bytes -> GatewayMessage -> Z -> M W (option Z);
  close_files : M W unit;
  random_text : M W bytes;
  timer_fired : Z -> M W bool;
}.
Arguments fs {W} _.
Arguments clock {W} _.
Arguments stream {W} _ _.
Arguments respond {W} _ _ _.
Arguments spawn {W} _ _.
Arguments cancel_worker {W} _.
Arguments cancel_secrets {W} _.
Arguments close_log {W} _ _.
Arguments guard_new {W} _ _.
Arguments guard_reconcile {W} _ _ _ _.
Arguments guard_withdraw {W} _.
Arguments guard_close {W} _.
Arguments guard_done {W} _.
Arguments begin_evidence {W} _ _ _.
Arguments clear_evidence {W} _.
Arguments evidence_active {W} _.
Arguments open_evidence {W} _ _.
Arguments evidence_snapshot {W} _.
Arguments evidence_identity {W} _ _ _.
Arguments upload {W} _ _ _.
Arguments archive {W} _ _.
Arguments replace_credential {W} _ _.
Arguments request_done {W} _ _.
Arguments finish_secret {W} _ _ _.
Arguments seal {W} _ _ _ _ _.
Arguments close_files {W} _.
Arguments random_text {W} _.
Arguments timer_fired {W} _ _.

Section operations.
Context {W : Type} (env : Env W) (config : Config) (worker : option RemoteWorker) (info : SessionInfo).

(** The client, the session and the world. *)
Local Abbreviation St := (Client * clientSession * W)%type.
Local Abbreviation G A := (M St (outcome A)).

Definition lift {A} (m : M W A) : M St A := fun st => let '(a, w) := m (snd st) in (a, (fst st, w)).
Definition the_client : M St Client := reads (fun st : St => st.1.1).
Definition the_session : M St clientSession := reads (fun st : St => st.1.2).
Definition on_client (f : Client -> Client) : M St unit := changes (fun st : St => (f st.1.1, st.1.2, st.2)).
Definition on_session (f : clientSession -> clientSession) : M St unit := changes (fun st : St => (st.1.1, f st.1.2, st.2)).

Definition snapshot : M St journalState := reads (fun st : St => state (c_journal st.1.1)).

Definition journal_update (change : journalState -> outcome unit * journalState) : G unit :=
  fun st => let '(j, o, w) := update (fs env) (c_journal st.1.1) change st.2 in (o, (set_c_journal st.1.1 j, st.1.2, w)).

(** A change that does not fail. *)
Definition plainly (f : journalState -> journalState) (s : journalState) : outcome unit * journalState := (Ok tt, f s).

(** A change of the active job; without one the code dereferences nil. *)
Definition of_active (f : journalJob -> journalJob) (s : journalState) : outcome unit * journalState :=
  match Active s with Some a => (Ok tt, with_active s (Some (f a))) | None => (Panic, s) end.

Definition Drain : M St unit := on_client (fun c => set_c_draining c true).

(** The lease duration the gateway announced. *)
Definition lease_duration : Z := AsDuration (LeaseDuration (authenticated info)).

(** ** Messages *)

Definition runnerMessage (p : payload) : G message :=
  let! now := lift (clock env) in
  journal_update next_message >>
  let! s := snapshot in
  ret (Ok {| MessageId := message_id (InstanceID config) (MessageSequence s); SentAt := Some (TimestampNew now); Payload := Some p |}).

Definition send (m : message) : G unit :=
  let! e := lift (stream env m) in
  match e with Some e => fail e | None => ok end.

Definition sendRetained (m : message) : G unit :=
  let advertised := match terminalProof m with
                    | None => true
                    | Some proof =>
                        match FrozenVersion proof with
                        | None => false
                        | Some version =>
                            negb (bool_decide (version = evidence_v1) && negb (terminalEvidenceV1 info))
                            && negb (bool_decide (version = evidence_v2) && negb (terminalEvidenceV2 info))
                        end
                    end in
  let! s := snapshot in
  check advertised EPermanent >> check (validateTerminalProof m s (RunnerID config)) EPermanent >> send m.

(** A durable event: in the journal first, then on the stream. *)
Definition queueDurable (p : payload) (mutate : journalState -> outcome unit * journalState) : G unit :=
  let* m := runnerMessage p in
  check (terminalMessageBound m) EPlain >>
  match MarshalRunner m with
  | None => fail EPlain
  | Some encoded =>
      journal_update (fun s =>
        match PendingMessage s with
        | Some _ => (Fail EPlain, s)
        | None =>
            if negb (validateTerminalProof m s (RunnerID config)) then (Fail EPlain, s)
            else match mutate s with
                 | (Ok _, s) => (Ok tt, with_pending s (Some encoded))
                 | r => r
                 end
        end) >>
      sendRetained m
  end.

(** The pending message, when there is one and it can be read. *)
Definition replayPending : G unit :=
  let! s := snapshot in
  match PendingMessage s with
  | None => ok
  | Some raw => match UnmarshalRunner raw with Some m => sendRetained m | None => fail EPlain end
  end.

Definition clearPending : G unit := journal_update (plainly (fun s => with_pending s None)).

Definition capacity : M St Capacity :=
  let! c := the_client in
  let busy := c_draining c || match Active (state (c_journal c)) with Some _ => true | None => false end || workerRunning c in
  let bounds := Bounds (Offers config) in
  ret {| ConcurrentJobs := 1; AvailableJobs := if busy then 0 else 1; CapCpuMillis := Offer.CPUMillis bounds;
         CapMemoryBytes := Offer.MemoryBytes bounds; CapDiskBytes := Offer.DiskBytes bounds |}.

Definition heartbeatMessage (observedAt : Z) (leases : list HeartbeatLease) : G message :=
  journal_update next_heartbeat >>
  let! s := snapshot in
  let! cap := capacity in
  runnerMessage (HeartbeatOf {| HSequence := HeartbeatSequence s; HCapacity := Some cap; HActiveLeases := leases;
                                HObservedAt := Some (TimestampNew observedAt) |}).

Definition sendHeartbeat (observedAt : Z) : G unit :=
  let! s := snapshot in
  let! se := the_session in
  let* _ := match pendingHeartbeat se, PendingHeartbeat s with
            | None, Some raw =>
                match UnmarshalRunner raw with
                | Some m => bind (on_session (fun se => set_pendingHeartbeat se (Some m))) (fun _ => ok)
                | None => fail EPlain
                end
            | _, _ => ok
            end in
  let! se := the_session in
  match pendingHeartbeat se with
  | Some m =>
      let leased := match Payload m with Some (HeartbeatOf h) => negb (zlen (HActiveLeases h) =? 0) | _ => false end in
      match PendingMessage s with
      | Some _ =>
          if leased then on_session (fun se => set_heartbeatDeferred se true) ;; ok
          else on_session (fun se => set_heartbeatDeferred se false) ;; send m
      | None => on_session (fun se => set_heartbeatDeferred se false) ;; send m
      end
  | None =>
      let* leases := match Active s, PendingMessage s with
                     | Some a, None =>
                         match UnmarshalJob (Specification a) with
                         | Some spec => ret (Ok [{| HlLease := JLease spec; HlAttempt := JAttempt spec; HlPhase := Phase a |}])
                         | None => fail EPlain
                         end
                     | _, _ => ret (Ok [])
                     end in
      let* m := heartbeatMessage observedAt leases in
      match MarshalRunner m with
      | None => fail EPlain
      | Some encoded =>
          journal_update (fun s =>
            match PendingHeartbeat s with
            | Some _ => (Fail EPlain, s)
            | None => (Ok tt, with_heartbeat s (Some encoded))
            end) >>
          on_session (fun se => set_heartbeatDeferred (set_pendingHeartbeat se (Some m)) false) ;; send m
      end
  end.

(** ** The worker and its network guard *)

Definition stopNetworkAuthority (gen : Z) : M St unit :=
  let! c := the_client in
  if workerNetworkAuthority c && ((gen =? 0) || (gen =? workerNetworkGeneration c)) then lift (guard_withdraw env) else ret tt.

Definition stopWorker : M St unit :=
  let! c := the_client in
  (if workerCancel c then lift (cancel_worker env) else ret tt) ;;
  stopNetworkAuthority 0.

Definition markWorkerStopped : M St unit :=
  on_client (fun c => set_workerSecretGeneration (set_workerSecretCancel (set_workerCancel (set_workerRunning c false) false) false) 0).

Definition completeStartResponse (err : option gerr) : M St unit :=
  let! c := the_client in
  on_client (fun c => set_startResponse c None) ;;
  match startResponse c with Some start => lift (respond env start err) | None => ret tt end.

Definition failStartResponse (e : gerr) : M St unit := completeStartResponse (Some e).

Definition canUseTestSecrets : bool :=
  match worker with Some w => EnableTestSecrets (Offers config) && SupportsTestSecretSource w | None => false end.

Definition startWorker : G unit :=
  let! c := the_client in
  if workerRunning c then fail EPlain
  else
    match Active (state (c_journal c)), worker with
    | Some a, Some w =>
        match UnmarshalJob (Specification a) with
        | None => fail EPlain
        | Some spec =>
            if TerminalEvidenceV2 a && negb (executesV2 w) then fail EPlain
            else if negb (zlen (TestSecrets spec) =? 0) && negb canUseTestSecrets then fail EPlain
            else
              on_client (fun c =>
                let c := if zlen (TestSecrets spec) =? 0 then c
                         else set_workerSecretCancel (set_workerSecretGeneration c (sessionGeneration c)) true in
                set_workerCancel (set_workerRunning c true) true) ;;
              lift (spawn env spec) ;; ok
        end
    | _, _ => fail EPlain
    end.

Definition networkAuthorityStopped : M St bool :=
  let! c := the_client in
  if negb (workerNetworkAuthority c) then ret false
  else
    match Active (state (c_journal c)), workerNetworkJob c with
    | Some a, Some job =>
        if activeMatchesIdentity (Some a) (JLease job) (JAttempt job) then lift (guard_done env) else ret false
    | _, _ => ret false
    end.

Definition consumeNetworkAuthority (value : LeaseReconciliation) : G unit :=
  let! s := snapshot in
  let unexpected := match Observed value with Some _ => fail EPermanent | None => ok end in
  if negb (activeMatchesIdentity (Active s) (RLease value) (RAttempt value)) then unexpected
  else
    match Active s ≫= (fun a => UnmarshalJob (Specification a)) with
    | None => fail EPermanent
    | Some job =>
        if negb (enabledNetworkJob job) then unexpected
        else if terminalLeaseStatus (Status value) || negb (is_nil (CancellationId value))
                || (RPhase value =? JOB_PHASE_CANCELLING) || (Status value =? LEASE_STATUS_OFFERED) then
          stopNetworkAuthority 0 ;; unexpected
        else if negb (advertisedFeature (networkFeatures info) FEATURE_NETWORK_AUTHORITY_V2) then
          stopNetworkAuthority 0 ;; fail EPlain
        else
          let credentialExpiry := as_time (CredentialExpiresAt (authenticated info)) in
          let! c := the_client in
          if recovering c then
            match NewAuthority (Some job) with
            | None => fail EPlain
            | Some a =>
                let! now := lift (clock env) in
                check (snd (Authority.Reconcile a (Some value) (networkFeatures info) credentialExpiry now)) EPlain
            end
          else
            let other := match workerNetworkJob c with
                         | None => true
                         | Some previous => negb (sameLeaseAttempt (JLease previous) (JAttempt previous) (JLease job) (JAttempt job))
                         end in
            let* guarded := if workerNetworkAuthority c && other then
                              if workerRunning c then fail EPlain
                              else
                                let! closed := lift (guard_close env) in
                                if closed : bool then ret (Ok false) else Drain ;; fail EPlain
                            else ret (Ok (workerNetworkAuthority c)) in
            let* _ := if guarded : bool then ok
                      else
                        let! made := lift (guard_new env job) in
                        if made : bool
                        then on_client (fun c => set_workerNetworkJob (set_workerNetworkAuthority c true) (Some job)) ;; ok
                        else fail EPlain in
            on_client (fun c => set_workerNetworkGeneration c (generation info)) ;;
            let! refused := lift (guard_reconcile env value (networkFeatures info) credentialExpiry) in
            match refused with Some false => fail EPlain | _ => ok end
    end.

(** ** Upload targets *)

Definition setCompleteLogTargetKind (l : option LeaseIdentity) (a : option AttemptIdentity) (target : option completeLogTarget)
    (recovery : bool) : M St unit :=
  on_client (fun c => set_activeUpload c
    match target, l, a with
    | Some t, Some l, Some a =>
        Some {| auLeaseID := LeaseId l; auAttemptID := AttemptId a; auTarget := t; auRecovery := recovery |}
    | _, _, _ => None
    end).

Definition completeLogTarget_for (l : option LeaseIdentity) (a : option AttemptIdentity) : M St (option completeLogTarget) :=
  let! c := the_client in
  ret match activeUpload c, l, a with
      | Some u, Some l, Some a =>
          if bool_decide (auLeaseID u = LeaseId l) && bool_decide (auAttemptID u = AttemptId a) then Some (auTarget u) else None
      | _, _, _ => None
      end.

Definition clearCompleteLogTarget : M St unit := on_client (fun c => set_activeUpload c None).

Definition clearRecoveryCompleteLogTarget : M St unit :=
  on_client (fun c => match activeUpload c with Some u => if auRecovery u then set_activeUpload c None else c | None => c end).

(** [closeCompleteLog]: an archive is closed once, then forgotten. *)
Definition closeCompleteLog (log : option CompleteLog) : M St unit :=
  match log with
  | Some log => match Archive log with Some _ => lift (close_log env log) | None => ret tt end
  | None => ret tt
  end.

(** ** Deferred events *)

Definition deferWorkerEvent (e : event) : M St unit :=
  on_client (fun c => set_deferredWorkerEvents c (deferredWorkerEvents c ++ [e])).

Definition popDeferredWorkerEvent : M St (option event) :=
  let! c := the_client in
  match deferredWorkerEvents c with
  | [] => ret None
  | e :: rest => on_client (fun c => set_deferredWorkerEvents c rest) ;; ret (Some e)
  end.

Definition discard_event (reason : gerr) (e : event) : M St unit :=
  match e with
  | SecretEvent r => lift (finish_secret env (requestId r) None)
  | StartEvent start => lift (respond env start (Some reason))
  | ResultEvent r _ _ => closeCompleteLog (Executor.RCompleteLog r)
  | _ => ret tt
  end.

Fixpoint discard_all (reason : gerr) (es : list event) : M St unit :=
  match es with
  | [] => ret tt
  | e :: es => discard_event reason e ;; discard_all reason es
  end.

Definition discardDeferred (reason : gerr) : M St unit :=
  let! c := the_client in
  on_client (fun c => set_deferredWorkerEvents c []) ;;
  discard_all reason (deferredWorkerEvents c).

(** ** Remembered messages *)

Definition rememberSettledMessage (m : message) (phase : Z) : M St unit :=
  if is_nil (MessageId m) then ret tt
  else
    on_session (fun se =>
      let order := match settledEvents se !! MessageId m with
                   | Some _ => settledEventOrder se
                   | None => settledEventOrder se ++ [MessageId m]
                   end in
      let events := <[MessageId m := (m, phase)]> (settledEvents se) in
      match order with
      | oldest :: rest =>
          if (maximumRememberedGatewayMessageIDs <? length order)%nat
          then set_settledEventOrder (set_settledEvents se (delete oldest events)) rest
          else set_settledEventOrder (set_settledEvents se events) order
      | [] => set_settledEventOrder (set_settledEvents se events) order
      end).

Definition rememberSettledEvent (encoded : option RunnerBytes) (phase : Z) : M St unit :=
  match encoded ≫= UnmarshalRunner with Some m => rememberSettledMessage m phase | None => ret tt end.

Definition rememberAcknowledgedHeartbeat (m : message) : M St unit :=
  on_session (fun se =>
    let order := match acknowledgedHeartbeats se !! MessageId m with
                 | Some _ => acknowledgedHBOrder se
                 | None => acknowledgedHBOrder se ++ [MessageId m]
                 end in
    let heartbeats := <[MessageId m := m]> (acknowledgedHeartbeats se) in
    match order with
    | oldest :: rest =>
        if (maximumRememberedGatewayMessageIDs <? length order)%nat
        then set_acknowledgedHBOrder (set_acknowledgedHeartbeats se (delete oldest heartbeats)) rest
        else set_acknowledgedHBOrder (set_acknowledgedHeartbeats se heartbeats) order
    | [] => set_acknowledgedHBOrder (set_acknowledgedHeartbeats se heartbeats) order
    end).

Definition clearPendingAcknowledged (pending : message) (active : option journalJob) : G unit :=
  clearPending >>
  rememberSettledMessage pending (match active with Some a => Phase a | None => JOB_PHASE_UNSPECIFIED end) ;; ok.

(** ** Events of the job *)

Definition no_change : journalState -> outcome unit * journalState := plainly id.

(** The identity of the active lease; an error without one. *)
Definition identity_of (s : journalState) : G (option LeaseIdentity * option AttemptIdentity) :=
  match activeIdentity s with Some identity => ret (Ok identity) | None => fail EPlain end.

Definition the_identity : G (option LeaseIdentity * option AttemptIdentity) :=
  let! s := snapshot in
  identity_of s.

(** A deferred call, and an error that is dropped. *)
Definition finally {A} (m : G A) (last : M St unit) : G A := let! o := m in last ;; ret o.

Definition quietly {A} (m : G A) : G unit := caught m >> ok.

Definition queuePreparing (now : Z) : G unit :=
  let* (l, a) := the_identity in
  queueDurable (JobPreparing l a (Some (TimestampNew now))) (of_active (fun j => with_phase j JOB_PHASE_PREPARING)).

Definition queueRenewal (now : Z) : G unit :=
  let* (l, a) := the_identity in
  queueDurable (LeaseRenewal l a (DurationNew lease_duration) (Some (TimestampNew now))) no_change.

Definition failed_at (l : option LeaseIdentity) (a : option AttemptIdentity) (now : Z) (failure : FailureDetail) : payload :=
  Failed l a (Some (TimestampNew (normalizedTerminalTime now))) failure None None None.

Definition queueLeaseExpired (now : Z) : G unit :=
  let* (l, a) := the_identity in
  queueDurable (failed_at l a now (infrastructure_failure FAILURE_STAGE_LEASE (bs "lease_expired")
                                     (bs "authoritative runner lease expired"))) no_change.

Definition queueCancellation (now : Z) (result : option Result) : G unit :=
  let! s := snapshot in
  let* (l, a) := identity_of s in
  match Active s with
  | None => ret Panic
  | Some active =>
      let cleanup := result ≫= Executor.Cleanup in
      let completed := match result with
                       | None => true
                       | Some _ => match cleanup with Some c => Succeeded c | None => false end
                       end in
      let failure := match cleanup with
                     | Some c => if Succeeded c then None
                                 else Some (infrastructure_failure FAILURE_STAGE_CLEANUP (bs "cleanup_failed")
                                              (boundedSummary (CleanupError c)))
                     | None => None
                     end in
      queueDurable (Cancelled l a (CancellationID active) (Some (TimestampNew (normalizedTerminalTime now))) completed failure)
        no_change
  end.

Definition queueNetworkAuthorityFailure (now : Z) : G unit :=
  let! c := the_client in
  if negb (workerNetworkAuthority c) || workerRunning c then ok
  else
    let! closed := lift (guard_close env) in
    (if closed : bool then ret tt else Drain) ;;
    let* (l, a) := the_identity in
    queueDurable (failed_at l a now
                    (if closed : bool
                     then infrastructure_failure FAILURE_STAGE_PREPARATION (bs "network_authority_lost")
                            (bs "network authority unavailable before execution")
                     else infrastructure_failure FAILURE_STAGE_CLEANUP (bs "network_cleanup_failed")
                            (bs "owned network teardown could not be proven")))
      no_change.

Definition queueRestartFailureWithoutEvidence (now : Z) (l : option LeaseIdentity) (a : option AttemptIdentity) : G unit :=
  clearCompleteLogTarget ;;
  lift (clear_evidence env) ;;
  queueDurable (failed_at l a now restartFailureDetail) no_change.

Definition validateRestartLogObject (object : LogObject) (target : completeLogTarget) (log : option CompleteLog) : M St bool :=
  let! content := lift (archive env log) in
  ret match content with
      | None => false
      | Some (digest, size) =>
          bool_decide (LObjectKey object = tobjectKey target) && bool_decide (LContentType object = completeLogUploadContentType)
          && (LCompressedSizeBytes object =? size)
          && match LDigest object with
             | Some d => (Algorithm d =? DIGEST_ALGORITHM_SHA256) && bool_decide (Value d = digest)
             | None => false
             end
      end.

(** The failure a recovered job is settled with: its execution may have happened. *)
Definition queueRestartFailure (now : Z) : G unit :=
  let* (l, a) := the_identity in
  let! active := lift (evidence_active env) in
  if negb active then queueDurable (failed_at l a now restartFailureDetail) no_change
  else
    let! target := completeLogTarget_for l a in
    match target with
    | None => ok
    | Some target =>
        let! recovered := lift (evidence_snapshot env) in
        match recovered with
        | None => queueRestartFailureWithoutEvidence now l a
        | Some r =>
            finally
              (if negb (bool_decide (Some (reIdentity r) = evidence_identity env l a))
               then queueRestartFailureWithoutEvidence now l a
               else
                 let! uploaded := lift (upload env target (reCompleteLog r)) in
                 match uploaded with
                 | None => clearCompleteLogTarget ;; fail EPlain
                 | Some object =>
                     let! valid := validateRestartLogObject object target (reCompleteLog r) in
                     clearCompleteLogTarget ;;
                     if negb valid then fail EPermanent
                     else queueDurable (Failed l a (Some (TimestampNew (normalizedTerminalTime now))) restartFailureDetail
                                          (reUsage r) (Some object) None) no_change
                 end)
              (closeCompleteLog (reCompleteLog r))
        end
    end.

(** [FreezeTerminalEvidence] of [execution/terminal_evidence.go]: the proof of a result,
    [Fail] when it cannot be built. *)
Definition FreezeTerminalEvidence (r : Result) (runnerID : bytes) : outcome (option Evidence) :=
  let built o := match o with Some proof => Ok (Some proof) | None => Fail EPlain end in
  match Executor.MeasuredNetwork r, Executor.RTerminalContext r with
  | Some network, Some context =>
      match Executor.MeasuredRuntime r with
      | Some _ => Fail EPlain
      | None => built (BuildObservedNetwork context runnerID (Executor.TerminalObservations r) network)
      end
  | Some _, None => Fail EPlain
  | None, None => Ok None
  | None, Some context => built (Build context runnerID (Executor.TerminalObservations r) (Executor.MeasuredRuntime r))
  end.

(** The proof a result is reported with. *)
Definition result_proof (r : Result) (l : option LeaseIdentity) (a : option AttemptIdentity) : outcome (option Evidence) :=
  let negotiated := terminalEvidenceV2 info && advertisedFeature (networkFeatures info) FEATURE_NETWORK_POLICY_V2
                    && advertisedFeature (networkFeatures info) FEATURE_NETWORK_AUTHORITY_V2 in
  match Executor.MeasuredNetwork r, Executor.RTerminalContext r with
  | Some _, None => Fail EPermanent
  | network, context =>
      if match network with Some _ => negb negotiated | None => false end then Fail EPermanent
      else
        match context with
        | None => Ok None
        | Some context =>
            if negb (Matches context l a) || negb (bool_decide (AuRunnerId (authenticated info) = RunnerID config))
            then Fail EPermanent
            else match FreezeTerminalEvidence r (AuRunnerId (authenticated info)) with
                 | Ok proof => Ok proof
                 | _ => Fail EPermanent
                 end
        end
  end.

Definition resultResourceUsage (r : Result) : option UsageMessage := resourceUsageMessage <$> MeasuredResources (Executor.Usage r).

(** The report of a result whose log has been uploaded, or needs none. *)
Definition result_payload (r : Result) (l : option LeaseIdentity) (a : option AttemptIdentity) (startedAt completedAt : Z)
    (completeLog : option LogObject) (proof : option Evidence) : payload :=
  if Passed r then
    Completed l a
      {| SOutcome := RESULT_OUTCOME_PASSED; SUsage := resultResourceUsage r; SCompleteLog := completeLog;
         SStartedAt := Some (TimestampNew startedAt); SCompletedAt := Some (TimestampNew completedAt);
         ProcessExitCode := to_int32 <$> (Executor.Execution r ≫= ExitCode) |} proof
  else Failed l a (Some (TimestampNew completedAt)) (resultFailure r) (resultResourceUsage r) completeLog proof.

Definition queueResult (r : Result) : G unit :=
  let* (l, a) := the_identity in
  let* proof := ret (result_proof r l a) in
  match normalizedTerminalTimes (Executor.StartedAt r) (Executor.CompletedAt r) with
  | None => fail EPlain
  | Some (startedAt, completedAt) =>
      let! target := completeLogTarget_for l a in
      match (if beforeExecutionFailure r then None else target) with
      | None => queueDurable (result_payload r l a startedAt completedAt None proof) no_change
      | Some target =>
          let! uploaded := lift (upload env target (Executor.RCompleteLog r)) in
          match uploaded with
          | None =>
              queueDurable (Failed l a (Some (TimestampNew completedAt))
                              (infrastructure_failure FAILURE_STAGE_RESULT_UPLOAD (bs "complete_log_upload_failed")
                                 (bs "complete log evidence could not be uploaded"))
                              (resultResourceUsage r) None proof) no_change
          | Some object => queueDurable (result_payload r l a startedAt completedAt (Some object) proof) no_change
          end
      end
  end.

(** ** Live evidence and test secrets *)

Definition maximum_int64 : Z := 2 ^ 63 - 1.

(** [ephemeralSequence.Add(1)] of a [uint64]; [None] when it may not be used. *)
Definition next_ephemeral : M St (option Z) :=
  let! c := the_client in
  let sequence := (ephemeralSequence c + 1) mod 2 ^ 64 in
  on_client (fun c => set_ephemeralSequence c sequence) ;;
  ret (if (sequence =? 0) || (maximum_int64 <? sequence) then None else Some sequence).

Definition sendWorkerEvidence (e : workerEvidenceEvent) : G unit :=
  let! s := snapshot in
  let! se := the_session in
  match (if evGeneration e =? generation info then Active s else None) with
  | Some a =>
      let! now := lift (clock env) in
      if (ExpiresAt a <=? now) || negb (activeMatchesIdentity (Some a) (evLease e) (evAttempt e)) then ok
      else
        let cancelled := negb (is_nil (CancellationID a)) in
        let final := evTerminal e && match evPayload e with UsageEvidence _ => true | _ => false end in
        let sent := sameLeaseAttempt (fst (cancellationFinalUsage se)) (snd (cancellationFinalUsage se)) (evLease e) (evAttempt e) in
        if cancelled && (negb final || sent) then ok
        else
          (if cancelled then on_session (fun se => set_cancellationFinalUsage se (evLease e, evAttempt e)) else ret tt) ;;
          let! now := lift (clock env) in
          let! sequence := next_ephemeral in
          match sequence, evPayload e with
          | None, _ | _, NoEvidence => ok
          | Some sequence, p =>
              let m := {| MessageId := bs "live-" ++ hex (put_be 8 sequence); SentAt := Some (TimestampNew now);
                          Payload := match p with
                                     | LogEvidence b => Some (LogBatchOf b)
                                     | UsageEvidence u => Some (UsageOf u)
                                     | NoEvidence => None
                                     end |} in
              if MaximumMessageBytes <? SizeRunner m then ok else send m
          end
  | None => ok
  end.

(** The job secrets may be asked for: the active one, unchanged since it was leased. *)
Definition secret_job (a : journalJob) : option JobSpecification :=
  match UnmarshalJob (Specification a) with
  | None => None
  | Some job =>
      if negb (zlen (TestSecrets job) =? 0) && match JAttempt job with Some _ => true | None => false end
         && match JLease job ≫= LExpiresAt with Some t => AsTime t =? ExpiresAt a | None => false end
         && bool_decide (validateOfferJobCorrelation job (Scope (Offers config)) true = None) && ValidateSelection (Some job)
      then Some job else None
  end.

Definition preparing (a : journalJob) (now : Z) : bool :=
  (Phase a =? JOB_PHASE_PREPARING) && is_nil (CancellationID a) && (now <? ExpiresAt a).

Definition beginSecretRequest (request : workerSecretRequest) : G unit :=
  let refuse := lift (finish_secret env (requestId request) None) ;; ok in
  let! se := the_session in
  let! over := lift (request_done env (requestId request)) in
  if negb (testSecretsV1 info) || negb (jobCorrelationV1 info) || negb (reconciled se) || over
     || negb (requestGeneration request =? generation info) || match pendingSecret se with Some _ => true | None => false end
  then refuse
  else
    let! s := snapshot in
    let! now := lift (clock env) in
    match Active s with
    | None => refuse
    | Some a =>
        if negb (preparing a now) then refuse
        else
          match PendingMessage s with
          | Some _ => deferWorkerEvent (SecretEvent request) ;; ok
          | None =>
              match secret_job a with
              | None => refuse
              | Some job =>
                  let! sequence := next_ephemeral in
                  match sequence with
                  | None => refuse
                  | Some sequence =>
                      let! nonce := lift (random_text env) in
                      let! now := lift (clock env) in
                      let id := bs "secret-" ++ nonce ++ 0x2D :: hex (put_be 8 (generation info)) ++ 0x2D :: hex (put_be 8 sequence) in
                      let m := {| MessageId := id; SentAt := Some (TimestampNew now);
                                  Payload := Some (TestSecretsRequestOf (JLease job) (JAttempt job)) |} in
                      if MaximumMessageBytes <? SizeRunner m then refuse
                      else
                        on_session (fun se => set_pendingSecret se (Some {| psWorker := request; psRequestID := id; psJob := job |})) ;;
                        let* err := caught (send m) in
                        match err with
                        | None => ok
                        | Some e =>
                            on_session (fun se => set_pendingSecret se None) ;;
                            lift (finish_secret env (requestId request) None) ;; fail e
                        end
                  end
              end
          end
    end.

Definition with_job_lease (job : JobSpecification) (l : LeaseIdentity) : JobSpecification := {|
  JLease := Some l; JAttempt := JAttempt job; JEffectivePolicy := JEffectivePolicy job; JHashes := JHashes job;
  JOrganizationScope := JOrganizationScope job; JCorrelation := JCorrelation job;
  NormalizedConfigurationJson := NormalizedConfigurationJson job; JEnvironment := JEnvironment job;
  TargetPluginName := TargetPluginName job; JDependencies := JDependencies job; JArtifact := JArtifact job;
  JCompleteLogUpload := JCompleteLogUpload job; TestSecrets := TestSecrets job |}.

Definition lease_until (l : LeaseIdentity) (t : option Timestamp) : LeaseIdentity := {|
  LeaseId := LeaseId l; LJobId := LJobId l; ExecutionId := ExecutionId l; LExpiresAt := t; lreflect := lreflect l |}.

(** Whether the active job is still the one the secrets were asked for. *)
Definition same_secret_job (a : journalJob) (job : JobSpecification) : outcome bool :=
  match UnmarshalJob (Specification a) with
  | None => Ok false
  | Some current =>
      match JLease current ≫= LExpiresAt with
      | None => Ok false
      | Some t =>
          if negb (AsTime t =? ExpiresAt a) then Ok false
          else match JLease job with
               | None => Panic
               | Some l => Ok (JobEqual current (with_job_lease job (lease_until l (Some t))))
               end
      end
  end.

Definition receiveSecretDelivery (m : GatewayMessage) : G unit :=
  let! se := the_session in
  on_session (fun se => set_pendingSecret se None) ;;
  match pendingSecret se with
  | None => fail EPermanent
  | Some pending =>
      let request := psWorker pending in
      let failure := lift (finish_secret env (requestId request) None) ;; fail EPermanent in
      let! s := snapshot in
      let! over := lift (request_done env (requestId request)) in
      let! now := lift (clock env) in
      let! received := lift (clock env) in
      match Active s with
      | None => failure
      | Some a =>
          if negb (testSecretsV1 info) || over || negb (requestGeneration request =? generation info) || negb (reconciled se)
             || negb (preparing a now) || negb (activeMatchesIdentity (Some a) (JLease (psJob pending)) (JAttempt (psJob pending)))
             || negb (validateGatewayEnvelope m received) then failure
          else
            let* same := ret (same_secret_job a (psJob pending)) in
            if negb same then failure
            else
              let! now := lift (clock env) in
              let! sealed := lift (seal env (psJob pending) (psRequestID pending) m now) in
              match sealed with
              | None => failure
              | Some expiry =>
                  if ExpiresAt a <? expiry then lift (close_files env) ;; failure
                  else lift (finish_secret env (requestId request) (Some expiry)) ;; ok
              end
      end
  end.

Definition abandonSecretRequest : M St unit :=
  let! se := the_session in
  match pendingSecret se with
  | None => ret tt
  | Some pending =>
      on_session (fun se => set_pendingSecret se None) ;; lift (finish_secret env (requestId (psWorker pending)) None)
  end.

Definition stopSecretWorker : M St unit :=
  let! c := the_client in
  if workerSecretCancel c && (workerSecretGeneration c =? generation info) then lift (cancel_secrets env) else ret tt.

(** ** Worker events *)

Definition start_event (start : nat) (s : journalState) (a : journalJob) : G unit :=
  if negb (is_nil (CancellationID a)) then lift (respond env start (Some EPlain)) ;; ok
  else
    match activeIdentity s with
    | None => lift (respond env start (Some EPlain)) ;; fail EPlain
    | Some (l, at') =>
        on_client (fun c => set_startResponse c (Some start)) ;;
        let! now := lift (clock env) in
        queueDurable (JobStarted l at' (Some (TimestampNew now))) (of_active (fun j => with_phase j JOB_PHASE_RUNNING))
    end.

(** What a result is settled with: the cancellation, the expiry of the lease, or itself. *)
Definition settle (r : Result) (a : journalJob) : G unit :=
  let! now := lift (clock env) in
  if negb (is_nil (CancellationID a)) then queueCancellation now (Some r)
  else if ExpiresAt a <=? now then let! now := lift (clock env) in queueLeaseExpired now
  else queueResult r.

Definition result_event (e : event) (r : Result) (a : journalJob) : G unit :=
  if negb (is_nil (CancellationID a)) && (zlen (CancellationDigest a) =? 0) then deferWorkerEvent e ;; ok
  else
    let* err := caught (settle r a) in
    let! s := snapshot in
    (match PendingMessage s, err with
     | Some _, _ => closeCompleteLog (Executor.RCompleteLog r) ;; clearCompleteLogTarget
     | None, Some _ => deferWorkerEvent e
     | None, None => ret tt
     end) ;;
    match err with Some e => fail e | None => ok end.

(** The worker has ended: no slot is reused after a failed teardown, and what it last
    observed is sent. *)
Definition worker_ended (r : Result) (finalEvidence finalUsage : option workerEvidenceEvent) : G unit :=
  (if match Executor.Cleanup r with Some c => negb (Succeeded c) | None => false end then Drain else ret tt) ;;
  markWorkerStopped ;;
  match finalEvidence with Some e => quietly (sendWorkerEvidence e) | None => ok end >>
  match finalUsage with Some e => quietly (sendWorkerEvidence e) | None => ok end.

Definition handleWorkerEvent (e : event) : G unit :=
  match e with
  | SecretEvent request => beginSecretRequest request
  | EvidenceEvent e => sendWorkerEvidence e
  | StartEvent start =>
      let! s := snapshot in
      match Active s, PendingMessage s with
      | None, _ => lift (respond env start (Some EPlain)) ;; ok
      | Some _, Some _ => deferWorkerEvent e ;; ok
      | Some a, None => start_event start s a
      end
  | ResultEvent r finalEvidence finalUsage =>
      worker_ended r finalEvidence finalUsage >>
      let! s := snapshot in
      match Active s, PendingMessage s with
      | None, _ => closeCompleteLog (Executor.RCompleteLog r) ;; clearCompleteLogTarget ;; ok
      | Some _, Some _ => deferWorkerEvent e ;; ok
      | Some a, None => result_event e r a
      end
  | EmptyEvent =>
      let! s := snapshot in
      match Active s, PendingMessage s with
      | None, _ => ok
      | Some _, Some _ => deferWorkerEvent e ;; ok
      | Some _, None => fail EPlain
      end
  end.

(** The loop of [drainDeferred], and the loop with the fuel for the events that are
    deferred when it begins. *)
Fixpoint drain (fuel : nat) : G unit :=
  match fuel with
  | O => ret Diverge
  | S fuel =>
      let! s := snapshot in
      match PendingMessage s with
      | Some _ => ok
      | None =>
          let! e := popDeferredWorkerEvent in
          match e with None => ok | Some e => handleWorkerEvent e >> drain fuel end
      end
  end.

Definition drainDeferred : G unit :=
  let! c := the_client in
  drain (S (length (deferredWorkerEvents c))).

(** ** Progress *)

Definition stop_and_fail : M St unit := stopWorker ;; failStartResponse EPlain.

Definition advance (now : Z) : G unit :=
  let! s := snapshot in
  let! c := the_client in
  let! se := the_session in
  match Active s with
  | None => ok
  | Some a =>
      let idle := negb (is_some (PendingMessage s)) in
      if recovering c && reconciled se && idle then queueRestartFailure now
      else if negb (is_nil (CancellationID a)) then
        stop_and_fail ;;
        if (zlen (CancellationDigest a) =? 0) || negb idle || workerRunning c then ok
        else if negb (zlen (deferredWorkerEvents c) =? 0) then drainDeferred
        else queueCancellation now None
      else if ExpiresAt a <=? now then
        stop_and_fail ;;
        if negb idle || workerRunning c then ok else queueLeaseExpired now
      else if negb idle then ok
      else
        let! stopped := networkAuthorityStopped in
        if stopped : bool then
          if workerRunning c then ok
          else if negb (zlen (deferredWorkerEvents c) =? 0) then drainDeferred
          else queueNetworkAuthorityFailure now
        else if ((Phase a =? JOB_PHASE_PREPARING) || (Phase a =? JOB_PHASE_RUNNING))
                && (saturate (ExpiresAt a - now) <=? Z.quot lease_duration 2) then queueRenewal now
        else drainDeferred
  end.

(** ** Reconciliation *)

(** The lease the gateway reports, which never ends before the one already held. *)
Definition authoritative_lease (a : journalJob) (l : LeaseIdentity) : LeaseIdentity * Z :=
  let expiresAt := as_time (LExpiresAt l) in
  if expiresAt <? ExpiresAt a then (lease_until l (Some (TimestampNew (ExpiresAt a))), ExpiresAt a) else (l, expiresAt).

Definition reconciled_phase (a : journalJob) (r : LeaseReconciliation) : Z :=
  if negb (RPhase r =? JOB_PHASE_UNSPECIFIED) && (jobPhaseRank (Phase a) <=? jobPhaseRank (RPhase r)) then RPhase r else Phase a.

(** The change of the journal; the last error comes after the lease and the phase have
    been changed. *)
Definition reconcile_active (r : LeaseReconciliation) (s : journalState) : outcome unit * journalState :=
  match Active s with
  | None => (Fail EPlain, s)
  | Some a =>
      if negb (activeMatchesIdentity (Some a) (RLease r) (RAttempt r)) then (Fail EPlain, s)
      else
        match UnmarshalJob (Specification a), RLease r with
        | Some spec, Some l =>
            let '(l, expiresAt) := authoritative_lease a l in
            match MarshalJob (with_job_lease spec l) with
            | None => (Fail EPlain, s)
            | Some encoded =>
                let a' := with_phase (with_lease a encoded expiresAt) (reconciled_phase a r) in
                if is_nil (CancellationId r) then (Ok tt, with_active s (Some a'))
                else if negb (is_nil (CancellationID a)) && negb (bool_decide (CancellationID a = CancellationId r))
                then (Fail EPlain, with_active s (Some a'))
                else (Ok tt, with_active s (Some (with_phase (with_cancellation a' (CancellationId r) (CancellationDeadline a)
                                                                (CancellationDigest a)) JOB_PHASE_CANCELLING)))
            end
        | _, _ => (Fail EPlain, s)
        end
  end.

Definition applyAuthoritativeReconciliation (r : LeaseReconciliation) : G unit := journal_update (reconcile_active r).

Definition acceptRestartCompleteLogUpload (r : LeaseReconciliation) (now : Z) : G unit :=
  match CompleteLogUpload r with
  | None => ok
  | Some u =>
      let! active := lift (evidence_active env) in
      if negb (restartUploadRecovery info) || negb active || negb (bool_decide (AuRunnerId (authenticated info) = RunnerID config))
      then fail EPermanent
      else
        let! s := snapshot in
        if negb (activeMatchesIdentity (Active s) (RLease r) (RAttempt r)) then fail EPermanent
        else
          match Active s ≫= (fun a => UnmarshalJob (Specification a)) with
          | None => fail EPermanent
          | Some spec =>
              let expiresAt := as_time (RLease r ≫= LExpiresAt) in
              if negb (LeaseEqual (JLease spec) (RLease r)) || negb (AttemptEqual (JAttempt spec) (RAttempt r)) || (expiresAt <=? now)
              then fail EPermanent
              else
                match validateCompleteLogUpload (Some u) now expiresAt expiresAt (objectUploadIdentity info) with
                | inl (Some target) => setCompleteLogTargetKind (RLease r) (RAttempt r) (Some target) true ;; ok
                | _ => fail EPermanent
                end
          end
  end.

Definition settled_state (s : journalState) : journalState := with_pending (with_active s None) None.

(** The lease has ended: the worker is stopped and the job forgotten. *)
Definition applyLateReconciliation (r : LeaseReconciliation) (now : Z) : G unit :=
  consumeNetworkAuthority r >>
  let! s := snapshot in
  if negb (activeMatchesIdentity (Active s) (RLease r) (RAttempt r)) then
    match CompleteLogUpload r with Some _ => fail EPermanent | None => ok end
  else
    acceptRestartCompleteLogUpload r now >>
    if terminalLeaseStatus (Status r) then
      stop_and_fail ;;
      journal_update (plainly settled_state) >>
      on_client (fun c => set_recovering c false) ;;
      clearCompleteLogTarget ;;
      rememberSettledEvent (PendingMessage s) (match Active s with Some a => Phase a | None => 0 end) ;;
      discardDeferred EPlain ;;
      lift (clear_evidence env) ;; ok
    else
      applyAuthoritativeReconciliation r >>
      if negb (is_nil (CancellationId r)) then stop_and_fail ;; ok else ok.

Definition handleSettledEventAcknowledgement (settled : message) (phase : Z) (ack : RunnerEventAcknowledgement) (now : Z) : G unit :=
  match AckReconciliation ack with
  | None => fail EPermanent
  | Some r =>
      check (validateSettledEventAcknowledgement settled phase r) EPermanent >>
      applyLateReconciliation r now >>
      advance now
  end.

(** A stale event is queued again, for the lease as it now is. *)
Definition reissued (m : message) (l : option LeaseIdentity) (a : option AttemptIdentity) (now : Z) : option payload :=
  match Payload m with
  | Some (LeaseAccepted _ _ _) => Some (LeaseAccepted l a (Some (TimestampNew now)))
  | Some (LeaseRejected _ _ reason summary) => Some (LeaseRejected l a reason summary)
  | Some (LeaseRenewal _ _ extension _) => Some (LeaseRenewal l a extension (Some (TimestampNew now)))
  | Some (JobPreparing _ _ _) => Some (JobPreparing l a (Some (TimestampNew now)))
  | Some (JobStarted _ _ _) => Some (JobStarted l a (Some (TimestampNew now)))
  | Some (Completed _ _ result proof) => Some (Completed l a result proof)
  | Some (Failed _ _ failedAt failure usage log proof) => Some (Failed l a failedAt failure usage log proof)
  | Some (Cancelled _ _ id cancelledAt completed failure) => Some (Cancelled l a id cancelledAt completed failure)
  | _ => None
  end.

Definition reissueStaleEvent (m : message) (now : Z) : G unit :=
  let! s := snapshot in
  let '(l, a) := runnerMessageIdentity m in
  let* (l, a) := if activeMatchesIdentity (Active s) l a then identity_of s else ret (Ok (l, a)) in
  match reissued m l a now with
  | Some p => queueDurable p no_change
  | None => fail EPlain
  end.

(** ** Acknowledgements *)

Definition is_terminal_event (m : message) : bool :=
  match Payload m with
  | Some (Completed _ _ _ _) | Some (Failed _ _ _ _ _ _ _) | Some (Cancelled _ _ _ _ _ _) => true
  | _ => false
  end.

(** The end of a lease that the acknowledgement of an event reports. *)
Definition end_lease (pending : message) (active : option journalJob) : G unit :=
  stop_and_fail ;;
  journal_update (plainly settled_state) >>
  clearCompleteLogTarget ;;
  on_client (fun c => set_recovering c false) ;;
  match active with
  | None => ret Panic
  | Some a =>
      rememberSettledMessage pending (Phase a) ;;
      discardDeferred EPlain ;;
      lift (clear_evidence env) ;; ok
  end.

(** What follows the acceptance of an event, once it has left the journal. *)
Definition after_event (pending : message) (now : Z) : G unit :=
  let! c := the_client in
  match Payload pending with
  | Some (LeaseAccepted _ _ _) | Some (JobPreparing _ _ _) =>
      if recovering c then queueRestartFailure now
      else
        let! s := snapshot in
        match Active s with
        | None => ret Panic
        | Some a =>
            if negb (is_nil (CancellationID a)) then advance now
            else match Payload pending with Some (LeaseAccepted _ _ _) => queuePreparing now | _ => startWorker end
        end
  | Some (JobStarted _ _ _) =>
      if recovering c then queueRestartFailure now else completeStartResponse None ;; drainDeferred
  | Some (LeaseRenewal _ _ _ _) => if recovering c then queueRestartFailure now else drainDeferred
  | _ => ok
  end.

(** The pending event was applied by the gateway, and the lease goes on. *)
Definition event_applied (pending : message) (s : journalState) (r : LeaseReconciliation) (matches : bool) (now : Z) : G unit :=
  let terminal := terminalLeaseStatus (Status r) in
  (if matches then applyAuthoritativeReconciliation r else ok) >>
  let! stopped := if matches && negb terminal then networkAuthorityStopped else ret false in
  if stopped && negb (is_terminal_event pending) then clearPendingAcknowledged pending (Active s) >> advance now
  else if stale r then clearPendingAcknowledged pending (Active s) >> reissueStaleEvent pending now
  else if is_rejection pending || terminal then clearPendingAcknowledged pending (Active s)
  else if is_terminal_event pending then on_client (fun c => set_recovering c false) ;; end_lease pending (Active s)
  else if negb (durableRunnerMessage pending) then fail EPermanent
  else clearPendingAcknowledged pending (Active s) >> after_event pending now.

Definition handlePendingAcknowledgement (pending : message) (s : journalState) (r : LeaseReconciliation) (now : Z) : G unit :=
  let '(l, a) := runnerMessageIdentity pending in
  check (validateReconciliation r && sameLeaseAttempt l a (RLease r) (RAttempt r) && validatePendingReconciliation pending r s) EPermanent >>
  let matches := activeMatchesIdentity (Active s) (RLease r) (RAttempt r) in
  consumeNetworkAuthority r >>
  let terminal := terminalLeaseStatus (Status r) in
  if negb terminal && negb (is_nil (CancellationId r)) then
    (if matches then applyAuthoritativeReconciliation r >> stop_and_fail ;; ok else ok) >>
    clearPendingAcknowledged pending (Active s) >>
    (if matches then advance now else ok)
  else if terminal && matches then end_lease pending (Active s)
  else event_applied pending s r matches now.

Definition handleEventAcknowledgement (ack : RunnerEventAcknowledgement) (now : Z) : G unit :=
  check (validateTimestamp (AckCommittedAt ack)) EPermanent >>
  check (negb (is_some (AckReconciliation ack ≫= CompleteLogUpload))) EPermanent >>
  let! se := the_session in
  match settledEvents se !! AckRunnerMessageId ack with
  | Some (settled, phase) => handleSettledEventAcknowledgement settled phase ack now
  | None =>
      let! s := snapshot in
      match PendingMessage s ≫= UnmarshalRunner, AckReconciliation ack with
      | Some pending, Some r =>
          check (bool_decide (AckRunnerMessageId ack = MessageId pending)) EPermanent >> handlePendingAcknowledgement pending s r now
      | _, _ => fail EPermanent
      end
  end.

(** One reconciliation per lease the heartbeat named, in its order. *)
Fixpoint heartbeat_reconciliations (rs : list (option LeaseReconciliation)) (leases : list HeartbeatLease) (now : Z) : G unit :=
  match rs, leases with
  | [], _ => ok
  | Some r :: rs, expected :: leases =>
      check (validateReconciliation r && sameLeaseAttempt (HlLease expected) (HlAttempt expected) (RLease r) (RAttempt r)) EPermanent >>
      applyLateReconciliation r now >>
      heartbeat_reconciliations rs leases now
  | None :: _, _ => fail EPermanent
  | _ :: _, [] => ret Panic
  end.

Definition handleHeartbeatAcknowledgement (ack : HeartbeatAcknowledgement) (now : Z) : G unit :=
  check (validateTimestamp (HbCommittedAt ack)) EPermanent >>
  let! se := the_session in
  let current := match pendingHeartbeat se with Some m => bool_decide (HbRunnerMessageId ack = MessageId m) | None => false end in
  match (if current then pendingHeartbeat se else acknowledgedHeartbeats se !! HbRunnerMessageId ack) with
  | None => fail EPermanent
  | Some m =>
      let '(sequence, leases) := match Payload m with Some (HeartbeatOf h) => (HSequence h, HActiveLeases h) | _ => (0, []) end in
      check ((HbSequence ack =? sequence) && (length (HbReconciliations ack) =? length leases)%nat) EPermanent >>
      heartbeat_reconciliations (HbReconciliations ack) leases now >>
      (if current then
         journal_update (plainly (fun s => with_heartbeat s None)) >>
         on_session (fun se => set_heartbeatDeferred (set_pendingHeartbeat se None) false) ;;
         rememberAcknowledgedHeartbeat m ;; ok
       else ok) >>
      on_session (fun se => set_reconciled se true) ;;
      advance now
  end.

(** ** Offers and cancellations *)

Definition rejectOffer (offer : LeaseOffer) (reason : Z) (summary : bytes) : G unit :=
  match OfferJob offer with
  | None => fail EPermanent
  | Some job =>
      match JLease job, JAttempt job with
      | Some l, Some a => queueDurable (LeaseRejected (Some l) (Some a) reason (boundedSummary summary)) no_change
      | _, _ => fail EPermanent
      end
  end.

Definition reject_with (offer : LeaseOffer) (r : OfferRejection) : G unit :=
  rejectOffer offer (Reason r) (RCode r ++ bs ": " ++ RMessage r).

Definition sanitized (job : JobSpecification) : JobSpecification := {|
  JLease := JLease job; JAttempt := JAttempt job; JEffectivePolicy := JEffectivePolicy job; JHashes := JHashes job;
  JOrganizationScope := JOrganizationScope job; JCorrelation := JCorrelation job;
  NormalizedConfigurationJson := NormalizedConfigurationJson job; JEnvironment := JEnvironment job;
  TargetPluginName := TargetPluginName job; JDependencies := JDependencies job; JArtifact := JArtifact job;
  JCompleteLogUpload := None; TestSecrets := TestSecrets job |}.

(** The timeouts of a policy are within those of the measured maximum. *)
Definition timeouts_within (policy maximum : EffectivePolicy) : bool :=
  (AsDuration (PreparationTimeout policy) <=? AsDuration (PreparationTimeout maximum))
  && (AsDuration (ExecutionTimeout policy) <=? AsDuration (ExecutionTimeout maximum))
  && (AsDuration (GracefulShutdownTimeout policy) <=? AsDuration (GracefulShutdownTimeout maximum)).

(** Why an idle runner refuses an offer. *)
Definition offer_rejection (offer : LeaseOffer) (now : Z) : outcome (option OfferRejection) :=
  let offerConfig := with_secrets (Offers config) (testSecretsV1 info) in
  match (OfferJob offer ≫= JEffectivePolicy) ≫= NetworkV2 with
  | None => Ok (validateOffer (Some offer) offerConfig now lease_duration (jobCorrelationV1 info) (objectUploadIdentity info))
  | Some _ =>
      match (if terminalEvidenceV2 info then networkMaximum info else None) with
      | None => Ok (rejectUnsupported "network_v2_unavailable" "root-confirmed network maximum is unavailable")
      | Some maximum =>
          match validateNetworkV2Offer (Some offer) offerConfig now lease_duration (networkFeatures info) (NetworkV2 maximum) with
          | Some r => Ok (Some r)
          | None =>
              match OfferJob offer ≫= JEffectivePolicy with
              | None => Panic
              | Some policy =>
                  Ok (when (negb (timeouts_within policy maximum))
                        (rejectPolicy "timeout_exceeds_capacity" "effective timeouts exceed the measured root maximum"))
              end
          end
      end
  end.

(** The journal of an accepted lease; the upload capability is not written to it. *)
Definition accepted_job (envelope : GatewayMessage) (encoded : bytes) (job : JobSpecification) (specification : JobBytes) : journalJob := {|
  Specification := specification; OfferMessageID := GMessageId envelope; OfferDigest := Sum256 encoded;
  JobCorrelationV1 := jobCorrelationV1 info; TerminalEvidenceV2 := terminalEvidenceV2 info; Phase := JOB_PHASE_ACCEPTED;
  ExpiresAt := as_time (JLease job ≫= LExpiresAt); CancellationID := []; CancellationDeadline := 0; CancellationDigest := [] |}.

Definition become_active (a : journalJob) (s : journalState) : outcome unit * journalState :=
  match Active s, PendingMessage s with
  | None, None => (Ok tt, with_active s (Some a))
  | _, _ => (Fail EPlain, s)
  end.

Definition accept_offer (envelope : GatewayMessage) (encoded : bytes) (job : JobSpecification) (target : option completeLogTarget)
    (now : Z) : G unit :=
  match MarshalJob (sanitized job) with
  | None => fail EPlain
  | Some specification =>
      let! begun := lift (begin_evidence env (JLease job) (JAttempt job)) in
      match begun with
      | Some _ => fail EPermanent
      | None =>
          let* err := caught (queueDurable (LeaseAccepted (JLease job) (JAttempt job) (Some (TimestampNew now)))
                                (become_active (accepted_job envelope encoded job specification))) in
          let! s := snapshot in
          match err, Active s with
          | Some e, None => let! cleared := lift (clear_evidence env) in fail (join e cleared)
          | _, _ =>
              (if activeMatchesIdentity (Active s) (JLease job) (JAttempt job)
               then setCompleteLogTargetKind (JLease job) (JAttempt job) target false
               else clearCompleteLogTarget) ;;
              match err with Some e => fail e | None => ok end
          end
      end
  end.

(** An offer to a runner that has a job, or whose worker still runs. *)
Definition busy_offer (envelope : GatewayMessage) (offer : LeaseOffer) (encoded : bytes) (active : option journalJob) : G unit :=
  match active with
  | None => rejectOffer offer REASON_AT_CAPACITY (bs "at_capacity: prior lease cleanup is still running")
  | Some a =>
      let l := OfferJob offer ≫= JLease in
      let at' := OfferJob offer ≫= JAttempt in
      (if activeMatchesIdentity (Some a) l at' then
         match UnmarshalJob (Specification a) with
         | None => fail EPermanent
         | Some persisted => check (CorrelationEqual (JCorrelation persisted) (OfferJob offer ≫= JCorrelation)) EPermanent
         end
       else ok) >>
      if bool_decide (OfferMessageID a = GMessageId envelope) && bool_decide (OfferDigest a = Sum256 encoded) then replayPending
      else rejectOffer offer REASON_AT_CAPACITY (bs "at_capacity: runner already has an active lease")
  end.

Definition handleOffer (envelope : GatewayMessage) (offer : LeaseOffer) (now : Z) : G unit :=
  match MarshalGateway envelope with
  | None => fail EPlain
  | Some encoded =>
      let! s := snapshot in
      let! c := the_client in
      if is_some (Active s) || workerRunning c then busy_offer envelope offer encoded (Active s)
      else if is_some (PendingMessage s) then fail EPermanent
      else if c_draining c then rejectOffer offer REASON_DRAINING (bs "draining: runner is draining")
      else if negb (is_some worker) then
        rejectOffer offer REASON_UNSUPPORTED (bs "worker_unavailable: remote execution is unavailable")
      else
        let* rejection := ret (offer_rejection offer now) in
        match rejection, OfferJob offer with
        | Some r, _ => reject_with offer r
        | None, None => ret Panic
        | None, Some job =>
            match validateCompleteLogUpload (JCompleteLogUpload job) now (as_time (OfferExpiresAt offer))
                    (as_time (JLease job ≫= LExpiresAt)) (objectUploadIdentity info) with
            | inr r => reject_with offer r
            | inl target => accept_offer envelope encoded job target now
            end
        end
  end.

Definition handleCancellation (cancel : CancelJob) (now : Z) : G unit :=
  if negb (is_some (KLease cancel)) || negb (is_some (KAttempt cancel)) || negb (validateIdentifier (KCancellationId cancel) maximumIdentifierBytes)
     || (maximumReasonBytes <? zlen (KReason cancel)) || negb (validateTimestamp (KDeadline cancel)) then fail EPermanent
  else
    let! s := snapshot in
    match Active s with
    | None => fail EPermanent
    | Some a =>
        if negb (activeMatchesIdentity (Some a) (KLease cancel) (KAttempt cancel)) then fail EPermanent
        else
          match MarshalCancel cancel with
          | None => fail EPlain
          | Some encoded =>
              let digest := Sum256 encoded in
              let announced := bool_decide (CancellationID a = KCancellationId cancel) in
              if is_nil (CancellationID a) || (announced && (zlen (CancellationDigest a) =? 0)) then
                journal_update (of_active (fun j => with_phase (with_cancellation j (KCancellationId cancel) (as_time (KDeadline cancel)) digest)
                                                      JOB_PHASE_CANCELLING)) >>
                stop_and_fail ;; advance now
              else if announced && bool_decide (CancellationDigest a = digest) then stop_and_fail ;; advance now
              else fail EPermanent
          end
    end.

(** ** Rotation of the credential *)

Definition for_runner (r : journalCredentialRotation) (runnerID : bytes) : journalCredentialRotation := {|
  CrRunnerID := runnerID; CrRotationID := CrRotationID r; CrFingerprint := CrFingerprint r; CrIssuedAt := CrIssuedAt r;
  CrExpiresAt := CrExpiresAt r; CrReconnectBefore := CrReconnectBefore r; CrPersistedAt := CrPersistedAt r |}.

Definition persisted_at (r : journalCredentialRotation) (now : Z) : journalCredentialRotation := {|
  CrRunnerID := CrRunnerID r; CrRotationID := CrRotationID r; CrFingerprint := CrFingerprint r; CrIssuedAt := CrIssuedAt r;
  CrExpiresAt := CrExpiresAt r; CrReconnectBefore := CrReconnectBefore r;
  CrPersistedAt := if CrPersistedAt r =? 0 then now else CrPersistedAt r |}.

Definition committed_credential (r : journalCredentialRotation) (runnerID : bytes) (persistedAt : Z) : journalCommittedCredential := {|
  CcRunnerID := runnerID; CcRotationID := CrRotationID r; CcFingerprint := CrFingerprint r; CcIssuedAt := CrIssuedAt r;
  CcExpiresAt := CrExpiresAt r; CcPersistedAt := persistedAt |}.

(** The rotation is written to the journal before the credential is replaced ... *)
Definition begin_rotation (metadata : journalCredentialRotation) (s : journalState) : outcome unit * journalState :=
  match CredentialRotation s with
  | None => (Ok tt, with_credentials s (Some metadata) (CommittedCredential s))
  | Some r =>
      if negb (sameCredentialRotation r metadata) then (Fail EPlain, s)
      else (Ok tt, with_credentials s (Some (if bool_decide (CrRunnerID r = []) then for_runner r (CrRunnerID metadata) else r))
                     (CommittedCredential s))
  end.

(** ... and committed after it. *)
Definition commit_rotation (metadata : journalCredentialRotation) (now : Z) (s : journalState) : outcome unit * journalState :=
  match CredentialRotation s with
  | None => (Fail EPlain, s)
  | Some r =>
      if negb (sameCredentialRotation r metadata) then (Fail EPlain, s)
      else let r := persisted_at r now in
           (Ok tt, with_credentials s (Some r) (Some (committed_credential metadata (RunnerID config) (CrPersistedAt r))))
  end.

Definition handleCredentialRotation (rotation : RotateCredential) (now : Z) : G unit :=
  if negb (credentialStore config) then fail EPermanent
  else
    match validateCredentialRotation rotation now with
    | None => fail EPermanent
    | Some (metadata, credential) =>
        let metadata := for_runner metadata (RunnerID config) in
        let* err := caught (journal_update (begin_rotation metadata)) in
        if is_some err then fail EPermanent
        else
          let! replaced := lift (replace_credential env credential) in
          if negb replaced then fail EPermanent
          else
            on_client (fun c => set_c_credential c credential) ;;
            let* err := caught (journal_update (commit_rotation metadata now)) in
            if is_some err then fail ERotationReconnect
            else
              let! s := snapshot in
              match CredentialRotation s with
              | None => ret Panic
              | Some committed =>
                  let* m := runnerMessage (RotationAcknowledgementOf (CrRotationID committed) (CrFingerprint committed)
                                             (Some (TimestampNew (CrPersistedAt committed)))) in
                  let* err := caught (send m) in
                  match err with
                  | None => fail ERotationReconnect
                  | Some e =>
                      let! fired := lift (timer_fired env (CrReconnectBefore metadata)) in
                      fail (if fired : bool then ERotationReconnect else e)
                  end
              end
    end.

(** After the new credential has authenticated, the rotation is over. *)
Definition finish_rotation (rotation : journalCredentialRotation) (now : Z) (s : journalState) : outcome unit * journalState :=
  match CredentialRotation s with
  | None => (Ok tt, s)
  | Some r =>
      if negb (sameCredentialRotation r rotation) then (Ok tt, s)
      else if negb (IdentityKeyFile config) then (Ok tt, with_credentials s None (CommittedCredential s))
      else if negb (bool_decide (CrRunnerID rotation = RunnerID config)) || (CrExpiresAt rotation <=? now) then (Fail EPlain, s)
      else if CrPersistedAt rotation =? 0 then
        if is_some (CommittedCredential s) && negb (validCredentialPredecessor (CommittedCredential s) (Some rotation)) then (Fail EPlain, s)
        else (Ok tt, with_credentials s None (Some (committed_credential rotation (CrRunnerID rotation) now)))
      else if is_some (CommittedCredential s) then (Ok tt, with_credentials s None (CommittedCredential s))
      else (Fail EPlain, s)
  end.

Definition reconcileCredentialRotationAfterAuthentication : G unit :=
  let! s := snapshot in
  let! c := the_client in
  match CredentialRotation s with
  | None => ok
  | Some r =>
      if negb (bool_decide (Sum256 (c_credential c) = bytesToDigest (CrFingerprint r))) then ok
      else let! now := lift (clock env) in journal_update (finish_rotation r now)
  end.

(** ** Messages of the gateway *)

Definition is_delivery (m : GatewayMessage) : bool := match GPayload m with Some TestSecretsDeliveryOf => true | _ => false end.

Definition refuseTestSecretDelivery (m : GatewayMessage) : G unit := check (negb (is_delivery m)) EPermanent.

Definition rememberGatewayMessage (m : GatewayMessage) : G unit :=
  refuseTestSecretDelivery m >>
  match MarshalGateway m with
  | None => fail EPermanent
  | Some data =>
      on_session (fun se => set_seenOrder (set_seen se (<[GMessageId m := Sum256 data]> (seen se))) (seenOrder se ++ [GMessageId m])) ;; ok
  end.

(** Forgets the oldest message when there are too many. *)
Definition bound_seen (se : clientSession) : clientSession :=
  match seenOrder se with
  | oldest :: rest =>
      if (maximumRememberedGatewayMessageIDs <? length (seenOrder se))%nat
      then set_seenOrder (set_seen se (delete oldest (seen se))) rest else se
  | [] => se
  end.

Definition gatewayMessageDuplicate (m : GatewayMessage) : G bool :=
  refuseTestSecretDelivery m >>
  let! now := lift (clock env) in
  check (validateGatewayEnvelope m now) EPermanent >>
  match MarshalGateway m with
  | None => fail EPermanent
  | Some data =>
      let! se := the_session in
      match seen se !! GMessageId m with
      | Some previous => if bool_decide (previous = Sum256 data) then ret (Ok true) else fail EPermanent
      | None =>
          on_session (fun se => bound_seen (set_seenOrder (set_seen se (<[GMessageId m := Sum256 data]> (seen se)))
                                              (seenOrder se ++ [GMessageId m]))) ;;
          ret (Ok false)
      end
  end.

Definition stopping_ok (s : Stopping) : bool :=
  validateIdentifier (StopId s) maximumIdentifierBytes && (zlen (StopReason s) <=? maximumReasonBytes) && validateTimestamp (StopDeadline s).

Definition handleGatewayMessage (m : GatewayMessage) (now : Z) : G unit :=
  match GPayload m with
  | Some (OfferOf offer) => handleOffer m offer now
  | Some (CancelOf cancel) => handleCancellation cancel now
  | Some (EventAcknowledgementOf ack) => handleEventAcknowledgement ack now
  | Some (HeartbeatAcknowledgementOf ack) => handleHeartbeatAcknowledgement ack now
  | Some (DrainOf d) => if stopping_ok d then Drain ;; sendHeartbeat now else fail EPermanent
  | Some (CredentialRotationOf rotation) => handleCredentialRotation rotation now
  | _ => fail EPermanent
  end.

(** ** The loop of a session

    What its [select] waits for, one case at a time. *)

Inductive input :=
  | Tick (t : Z)                      (* the heartbeat ticker *)
  | Maintenance                       (* the 100 ms ticker *)
  | WorkerInput (e : event)
  | Received (m : GatewayMessage)
  | ReceiveError (e : gerr)
  | SendError (e : gerr)
  | Expired (hosted : bool).

Definition session_step (i : input) : G unit :=
  match i with
  | Tick t => sendHeartbeat t >> advance t
  | Maintenance => let! now := lift (clock env) in advance now
  | WorkerInput e => handleWorkerEvent e
  | ReceiveError e | SendError e => fail e
  | Expired hosted => fail (if hosted then EHostedRenewal else EPermanent)
  | Received m =>
      if is_delivery m && testSecretsV1 info then receiveSecretDelivery m
      else
        let* duplicate := gatewayMessageDuplicate m in
        if duplicate : bool then ok
        else
          let! now := lift (clock env) in
          handleGatewayMessage m now >>
          let! se := the_session in
          let! s := snapshot in
          if heartbeatDeferred se && negb (is_some (PendingMessage s))
          then let! now := lift (clock env) in sendHeartbeat now else ok
  end.

(** The session between its handshake and its loop. *)
Definition open_session (first : GatewayMessage) (now : Z) : G unit :=
  rememberGatewayMessage first >>
  let! s := snapshot in
  match PendingMessage s with
  | None => ok
  | Some raw => match UnmarshalRunner raw with None => fail EPermanent | Some m => sendRetained m end
  end >>
  sendHeartbeat now.

(** The deferred calls of a session. *)
Definition close_session : M St unit := stopNetworkAuthority (generation info) ;; stopSecretWorker ;; abandonSecretRequest.

(** The loop over what it is given before its context is done. *)
Fixpoint session_loop (is' : list input) : G unit :=
  match is' with [] => fail EPlain | i :: is' => session_step i >> session_loop is' end.

End operations.

(** ** Opening a connection *)

Definition ProtocolVersion : bytes := bs "1".
Definition minimumHeartbeatInterval : Z := Second.
Definition maximumHeartbeatInterval : Z := 5 * Minute.
Definition maximumCredentialLifetime : Z := 366 * 24 * Hour.

Section handshake.
Context {W : Type} (env : Env W) (config : Config) (worker : option RemoteWorker) (maximum : option EffectivePolicy).

Local Abbreviation St := (Client * clientSession * W)%type.
Local Abbreviation G A := (M St (outcome A)).

Definition authenticateMessage : G message :=
  let! c := the_client in
  runnerMessage env config (Authenticate (RunnerID config) (InstanceID config) (c_credential c) ProtocolVersion).

Definition network_policy_v2 : bool :=
  is_some maximum && EnableNetworkPolicyV2 config && EnableTerminalEvidenceV2 (Offers config)
  && negb (DisableTerminalEvidence (Offers config)).

(** The features of a runner, in the order they are appended. *)
Definition features (active evidence : bool) : list Z :=
  let feature (enabled : bool) f := if enabled then [f] else [] in
  let terminal := negb (DisableTerminalEvidence (Offers config)) in
  let v2 := match worker with Some w => executesV2 w | None => false end in
  [FEATURE_DURABLE_LEASE_ACKNOWLEDGEMENTS]
  ++ feature (credentialStore config) FEATURE_CREDENTIAL_ROTATION
  ++ [FEATURE_JOB_CORRELATION_V1]
  ++ feature (negb (DisableObjectUploadIdentity config)) FEATURE_OBJECT_UPLOAD_IDENTITY
  ++ feature (negb active || evidence) FEATURE_RESTART_UPLOAD_RECOVERY
  ++ feature terminal FEATURE_TERMINAL_EVIDENCE_V1
  ++ feature (terminal && EnableTerminalEvidenceV2 (Offers config) && v2) FEATURE_TERMINAL_EVIDENCE_V2
  ++ feature (canUseTestSecrets config worker) FEATURE_TEST_SECRETS_V1
  ++ feature network_policy_v2 FEATURE_NETWORK_POLICY_V2
  ++ feature network_policy_v2 FEATURE_NETWORK_AUTHORITY_V2.

Definition capabilities : M St Capabilities :=
  let! s := snapshot in
  let! evidence := lift (evidence_active env) in
  let fs := features (is_some (Active s)) evidence in
  let! cap := capacity config in
  let bounds := Bounds (Offers config) in
  let v2 := advertisedFeature fs FEATURE_NETWORK_POLICY_V2 in
  ret {| RunnerVersion := CRunnerVersion config; CapCapacity := cap;
         CapNetwork := if v2 then None else Some NETWORK_MODE_NONE;
         CapNetworkV2 := if v2 then maximum ≫= NetworkV2 else None;
         CapResources := {| CpuMillis := Offer.CPUMillis bounds; RMemoryBytes := Offer.MemoryBytes bounds;
                            RDiskBytes := Offer.DiskBytes bounds; RProcessCount := Offer.ProcessCount bounds |};
         CapFeatures := fs |}.

Definition capabilitiesMessage : G (message * list Z) :=
  let! c := capabilities in
  check (validateAdvertisedFeatures (CapFeatures c)) EPlain >>
  let* m := runnerMessage env config (CapabilitiesOf c) in
  ret (Ok (m, CapFeatures c)).

Definition validateScope (scope : option (option OrganizationScope)) : bool :=
  match scope with
  | None => false
  | Some scope =>
      match Kind (Scope (Offers config)) with
      | ScopePlatform => match scope with Some PlatformScope => true | _ => false end
      | ScopeOrganization =>
          let id := match scope with Some (OrganizationScopeOf id) => id | _ => [] end in
          bool_decide (id = OrganizationID (Scope (Offers config)))
      | ScopeOther => false
      end
  end.

Definition validateAuthenticated (m : GatewayMessage) (now : Z) : option Authenticated :=
  match GPayload m with
  | Some (AuthenticatedOf a) =>
      let expiration := as_time (CredentialExpiresAt a) in
      if validateGatewayEnvelope m now && bool_decide (AuRunnerId a = RunnerID config) && validateUUID (ConnectionId a)
         && bool_decide (AuProtocolVersion a = ProtocolVersion) && validateScope (AuScope a)
         && validateTimestamp (CredentialExpiresAt a) && (now <? expiration) && (expiration <=? now + maximumCredentialLifetime)
         && validateDuration (HeartbeatInterval a) minimumHeartbeatInterval maximumHeartbeatInterval
         && validateDuration (LeaseDuration a) minimumLeaseDuration maximumLeaseDuration && validateTimestampNear (ServerTime a) now
      then Some a else None
  | _ => None
  end.

(** What a session knows of its connection. *)
Definition session_info (a : Authenticated) (fs : list Z) (gen : Z) : SessionInfo := {|
  authenticated := a; jobCorrelationV1 := advertisedFeature fs FEATURE_JOB_CORRELATION_V1;
  restartUploadRecovery := advertisedFeature fs FEATURE_RESTART_UPLOAD_RECOVERY;
  objectUploadIdentity := advertisedFeature fs FEATURE_OBJECT_UPLOAD_IDENTITY;
  terminalEvidenceV1 := advertisedFeature fs FEATURE_TERMINAL_EVIDENCE_V1;
  terminalEvidenceV2 := advertisedFeature fs FEATURE_TERMINAL_EVIDENCE_V2;
  testSecretsV1 := advertisedFeature fs FEATURE_TEST_SECRETS_V1; networkFeatures := fs; networkMaximum := maximum; generation := gen |}.

(** The first message of the gateway, and when it was read. *)
Definition authenticate (first : GatewayMessage) : G (Authenticated * Z) :=
  refuseTestSecretDelivery first >>
  let! now := lift (clock env) in
  match validateAuthenticated first now with
  | None => fail EPermanent
  | Some a => clearRecoveryCompleteLogTarget ;; ret (Ok (a, now))
  end.

(** What has to be settled before a session begins. *)
Definition announce (a : Authenticated) : G SessionInfo :=
  let* err := caught (reconcileCredentialRotationAfterAuthentication env config) in
  if is_some err then fail EPermanent
  else
    let! c := the_client in
    let gen := (sessionGeneration c + 1) mod 2 ^ 64 in
    on_client (fun c => set_sessionGeneration c gen) ;;
    let* (m, fs) := capabilitiesMessage in
    send env m >> ret (Ok (session_info a fs gen)).

(** Whether the gateway has authenticated the runner, and how the session ended: over
    the first message of the gateway, and what the loop is given before its context is
    done. Nothing of an earlier session is left. *)
Definition runSession (first : GatewayMessage + gerr) (is' : list input) : M St (bool * outcome unit) :=
  on_session (fun _ => new_session) ;;
  let! hello :=
    let* m := authenticateMessage in
    send env m >>
    match first with inr e => fail e | inl first => let* (a, now) := authenticate first in ret (Ok (first, a, now)) end in
  match hello with
  | Ok (first, a, now) =>
      let! ended :=
        let* info := announce a in
        finally (open_session env config info first now >> session_loop env config worker info is') (close_session env info) in
      ret (true, ended)
  | Fail e => ret (false, Fail e)
  | Panic => ret (false, Panic)
  | Diverge => ret (false, Diverge)
  end.

(** A connection: it is refused, or it is a session. *)
Inductive attempt := Refused (e : gerr) | Connected (first : GatewayMessage + gerr) (is' : list input).

Definition connection (t : attempt) : M St (bool * outcome unit) :=
  match t with Refused e => ret (false, Fail e) | Connected first is' => runSession first is' end.

(** The loop of [Run], over the connections before its context is done. *)
Fixpoint run_loop (ts : list attempt) (delay : Z) : G unit :=
  match ts with
  | [] => fail EPlain
  | t :: ts =>
      let! (established, ended) := connection t in
      match ended with
      | Fail e => match after_session established e delay with Stop e => fail e | Again _ delay => run_loop ts delay end
      | other => ret other
      end
  end.

(** [queued]: the events left in the channel of the worker. *)
Definition Run (ts : list attempt) (queued : list event) : G unit :=
  finally (run_loop ts initialReconnectDelay) (stopWorker env ;; discard_all env EPlain queued).

(** ** A client

    A runner that offers measured networks never offers more than was measured. *)

Definition clamped (b : ResourceBounds) (m : ResourceLimits) : ResourceBounds := {|
  Offer.CPUMillis := Z.min (Offer.CPUMillis b) (CpuMillis m); Offer.MemoryBytes := Z.min (Offer.MemoryBytes b) (RMemoryBytes m);
  Offer.DiskBytes := Z.min (Offer.DiskBytes b) (RDiskBytes m); Offer.ProcessCount := Z.min (Offer.ProcessCount b) (RProcessCount m) |}.

Definition newClientWithWorker (path : bool) (credential : bytes) : M W (Client + gerr) :=
  let! opened := openJournal (fs env) path in
  match opened with
  | inr e => ret (inr e)
  | inl j =>
      let! refused := open_evidence env (Active (state j)) in
      ret match refused with Some e => inr e | None => inl (new_client j credential) end
  end.

End handshake.

(** The bounds of a client that offers measured networks; [measured] is the maximum its
    worker reports, if it can. *)
Definition network_bounds (config : Config) (worker : option RemoteWorker) (measured : option (option EffectivePolicy))
  : option (ResourceBounds * option EffectivePolicy) :=
  if negb (EnableNetworkPolicyV2 config) then Some (Bounds (Offers config), None)
  else
    match measured with
    | None => None
    | Some maximum =>
        if negb (match worker with Some w => executesV2 w | None => false end) || negb (EnableTerminalEvidenceV2 (Offers config))
           || DisableTerminalEvidence (Offers config) then None
        else
          match EffectivePolicyV2SHA256 maximum, maximum with
          | Some _, Some m =>
              if negb (Sandbox m =? SANDBOX_KIND_GVISOR) then None
              else match Resources m with
                   | Some limits => Some (clamped (Bounds (Offers config)) limits, Some m)
                   | None => None
                   end
          | _, _ => None
          end
    end.

End session.

Arguments fs {TS EV GC JC W} _.
Arguments clock {TS EV GC JC W} _.
Arguments stream {TS EV GC JC W} _.
Arguments respond {TS EV GC JC W} _.
Arguments spawn {TS EV GC JC W} _.
Arguments cancel_worker {TS EV GC JC W} _.
Arguments cancel_secrets {TS EV GC JC W} _.
Arguments close_log {TS EV GC JC W} _.
Arguments guard_new {TS EV GC JC W} _.
Arguments guard_reconcile {TS EV GC JC W} _.
Arguments guard_withdraw {TS EV GC JC W} _.
Arguments guard_close {TS EV GC JC W} _.
Arguments guard_done {TS EV GC JC W} _.
Arguments begin_evidence {TS EV GC JC W} _.
Arguments clear_evidence {TS EV GC JC W} _.
Arguments evidence_active {TS EV GC JC W} _.
Arguments open_evidence {TS EV GC JC W} _.
Arguments evidence_snapshot {TS EV GC JC W} _.
Arguments evidence_identity {TS EV GC JC W} _.
Arguments upload {TS EV GC JC W} _.
Arguments archive {TS EV GC JC W} _.
Arguments replace_credential {TS EV GC JC W} _.
Arguments request_done {TS EV GC JC W} _.
Arguments finish_secret {TS EV GC JC W} _.
Arguments seal {TS EV GC JC W} _.
Arguments close_files {TS EV GC JC W} _.
Arguments random_text {TS EV GC JC W} _.
Arguments timer_fired {TS EV GC JC W} _.
