(* ===== verification/SessionTrace.v ===== *)
(** What a client of the gateway does to its surroundings, as a trace: the writes of its
    journal, the messages it sends, the credential it replaces, the worker it starts. A
    trace is lawful when every journal that reaches the disk is valid and follows the one
    before it, and when everything that must survive a crash was on the disk before the
    client acted on it. *)

From Stdlib Require Import ZifyBool.
From S2P Require Import Prelude Utf8 Strconv Json Endian Sha256 World Execution Policy Binder Messages Authority Url Offer.
From S2P Require Import Journal ClientState Session.
Import Names Wire Checks Selection.

Open Scope world_scope.

Section trace.
Context `{TS : Timestamps} `{PB : RunnerProto} `{GP : !GatewayProto} `{EV : !TerminalEvidence} `{GC : !GatewayCodec}.
Context `{JC : !JournalCodec} `{GL : !GatewayCodecLaws} `{JL : !JournalCodecLaws}.

Local Abbreviation message := (RunnerMessage Evidence).

(** ** Events

    A write or a rename is an event when it succeeds, a message when the stream is given
    it. The newest event comes first. *)

Inductive act :=
  | TWrite (raw : JournalBytes)
  | TRename
  | TSend (m : message)
  | TReplace (credential : bytes)
  | TSpawn (job : JobSpecification)
  | TRespond (start : nat) (err : option gerr).

Fixpoint temp (t : list act) : option JournalBytes :=
  match t with [] => None | TWrite raw :: _ => Some raw | _ :: t => temp t end.

(** The file of the journal. *)
Fixpoint disk (t : list act) : option JournalBytes :=
  match t with [] => None | TRename :: t => temp t | _ :: t => disk t end.

Definition on_disk (t : list act) : option journalState := disk t ≫= DecodeJournal.

Fixpoint sent (t : list act) : list message :=
  match t with [] => [] | TSend m :: t => m :: sent t | _ :: t => sent t end.

(** ** Numbered messages

    All but the evidence and the requests of a live worker are numbered by the journal. *)

Definition numbered (m : message) : option Z :=
  match Payload m with
  | Some (LogBatchOf _) | Some (UsageOf _) | Some (TestSecretsRequestOf _ _) => None
  | _ => id_sequence (MessageId m)
  end.

Definition pending_of (s : journalState) : option message := PendingMessage s ≫= UnmarshalRunner.
Definition heartbeat_of (s : journalState) : option message := PendingHeartbeat s ≫= UnmarshalRunner.

Definition is_heartbeat (m : message) : bool := match Payload m with Some (HeartbeatOf _) => true | _ => false end.

(** A message that was sent, or that the journal holds. *)
Inductive recorded (ms : list message) (s : journalState) (m : message) : Prop :=
  | recorded_sent : m ∈ ms -> recorded ms s m
  | recorded_pending : pending_of s = Some m -> recorded ms s m
  | recorded_heartbeat : heartbeat_of s = Some m -> recorded ms s m.

(** The journal is valid, it counts every numbered message, and a number names one
    message. *)
Record sound (ms : list message) (s : journalState) : Prop := {
  sound_valid : validateJournalState s = true;
  sound_counted : forall m n, recorded ms s m -> numbered m = Some n -> n <= MessageSequence s;
  sound_unique : forall m m' n, recorded ms s m -> recorded ms s m' -> numbered m = Some n -> numbered m' = Some n -> m = m';
}.

(** How the active job may change: it stays the job of its offer, its lease is not
    shortened, and a cancellation is neither withdrawn nor exchanged for another. *)
Record continues (a a' : journalJob) : Prop := {
  continues_offer : OfferMessageID a' = OfferMessageID a /\ OfferDigest a' = OfferDigest a;
  continues_lease : ExpiresAt a <= ExpiresAt a';
  continues_cancellation : CancellationID a <> [] -> CancellationID a' = CancellationID a;
  continues_command : CancellationDigest a <> [] -> CancellationDigest a' = CancellationDigest a;
}.

Lemma continues_refl a : continues a a.
Proof. by split. Qed.

Definition active_continues (s s' : journalState) : Prop :=
  forall a a', Active s = Some a -> Active s' = Some a' -> continues a a'.

Lemma active_same s s' : Active s' = Active s -> active_continues s s'.
Proof. intros H a a' Ha Ha'. assert (a' = a) as -> by congruence. apply continues_refl. Qed.

(** How one journal may follow another: numbers are not given back, an event that waits
    for its acknowledgement is not replaced by another, and the active job continues. *)
Record follows (s s' : journalState) : Prop := {
  follows_sequence : MessageSequence s <= MessageSequence s';
  follows_pending : forall raw raw', PendingMessage s = Some raw -> PendingMessage s' = Some raw' -> raw = raw';
  follows_active : active_continues s s';
}.

(** What the journal has to hold when a message is sent. *)
Record journaled (s : journalState) (m : message) : Prop := {
  journaled_event : durableRunnerMessage m = true -> pending_of s = Some m;
  journaled_heartbeat : is_heartbeat m = true -> heartbeat_of s = Some m;
}.

Inductive lawful : list act -> Prop :=
  | lawful_nil : lawful []
  | lawful_write raw t : lawful t -> lawful (TWrite raw :: t)
  | lawful_rename s t :
      lawful t -> temp t ≫= DecodeJournal = Some s -> sound (sent t) s -> (forall s0, on_disk t = Some s0 -> follows s0 s) ->
      lawful (TRename :: t)
  | lawful_send s m t : lawful t -> on_disk t = Some s -> journaled s m -> sound (m :: sent t) s -> lawful (TSend m :: t)
  | lawful_replace s r credential t :
      lawful t -> on_disk t = Some s -> CredentialRotation s = Some r -> CrFingerprint r = Sum256 credential ->
      lawful (TReplace credential :: t)
  | lawful_spawn job t : lawful t -> lawful (TSpawn job :: t)
  | lawful_respond start err t : lawful t -> lawful (TRespond start err :: t).

Lemma lawful_sound t s : lawful t -> on_disk t = Some s -> sound (sent t) s.
Proof.
  intros Hl. revert s. induction Hl as [| | ? ? ? ? Hs |? ? ? ? ? Hd ? Hs| | |]; intros s' Hd'; unfold on_disk in *;
    cbn in *; first [done | congruence | eauto].
Qed.

Lemma lawful_older t t' : lawful (t' ++ t) -> lawful t.
Proof. induction t' as [|e t' IH]; [done|]. intros H. apply IH. by inversion H. Qed.

(** ** Following journals *)

(** A change that adds no message. *)
Record benign (s s' : journalState) : Prop := {
  benign_sequence : MessageSequence s <= MessageSequence s';
  benign_pending : PendingMessage s' = None \/ PendingMessage s' = PendingMessage s;
  benign_heartbeat : PendingHeartbeat s' = None \/ PendingHeartbeat s' = PendingHeartbeat s;
  benign_active : active_continues s s';
}.

Lemma benign_recorded ms s s' m : benign s s' -> recorded ms s' m -> recorded ms s m.
Proof.
  intros [_ Hp Hh _] [H|H|H]; unfold pending_of, heartbeat_of in *.
  - by constructor 1.
  - constructor 2. unfold pending_of. destruct Hp as [Hp|Hp]; rewrite Hp in H; [done|exact H].
  - constructor 3. unfold heartbeat_of. destruct Hh as [Hh|Hh]; rewrite Hh in H; [done|exact H].
Qed.

Lemma benign_sound ms s s' : benign s s' -> validateJournalState s' = true -> sound ms s -> sound ms s'.
Proof.
  intros Hb Hv [_ Hc Hu]. split; [done|..].
  - intros m n Hm Hn. pose proof (benign_sequence _ _ Hb). pose proof (Hc m n (benign_recorded _ _ _ _ Hb Hm) Hn). lia.
  - intros. eapply Hu; eauto using benign_recorded.
Qed.

Lemma benign_follows s s' : benign s s' -> follows s s'.
Proof. intros [Hs Hp _ Ha]. split; [done| |done]. intros raw raw' H H'. destruct Hp; congruence. Qed.

(** ** The numbers of messages *)

Lemma pending_valid s m : validateJournalState s = true -> pending_of s = Some m ->
  durableRunnerMessage m = true \/ is_rejection m = true.
Proof.
  unfold validateJournalState, pending_of, pending_ok. rewrite !andb_true_iff. intros [_ H] Hm.
  destruct (PendingMessage s) as [raw|]; [|done]. cbn in Hm. rewrite Hm in H. apply andb_true_iff in H as [_ H].
  destruct (Active s); [|by right]. rewrite !andb_true_iff in H. left. apply H.
Qed.

Lemma pending_durable s m : validateJournalState s = true -> pending_of s = Some m -> durableRunnerMessage m = true.
Proof.
  intros Hv Hm. destruct (pending_valid s m Hv Hm) as [H|H]; [done|].
  unfold is_rejection, durableRunnerMessage in *. by destruct (Payload m) as [[]|].
Qed.

Lemma heartbeat_valid s m : validateJournalState s = true -> heartbeat_of s = Some m -> is_heartbeat m = true.
Proof.
  unfold validateJournalState, heartbeat_of, heartbeat_ok. rewrite !andb_true_iff. intros [[[_ H] _] _] Hm.
  destruct (PendingHeartbeat s) as [raw|]; [|done]. cbn in Hm. rewrite Hm in H. apply andb_true_iff in H as [_ H].
  unfold is_heartbeat. by destruct (Payload m) as [[]|].
Qed.

(** ** The traced environment

    Every call of the environment, and what it means for the trace. The journal that is
    read is the one on the disk. *)

Section traced.
Context {W : Type}.

Local Abbreviation TW := (W * list act)%type.

Definition untraced {A} (m : M W A) : M TW A := fun '(w, t) => let '(a, w) := m w in (a, (w, t)).

Definition logs {A} (events : A -> list act) (m : M W A) : M TW A := fun '(w, t) => let '(a, w) := m w in (a, (w, events a ++ t)).

Definition if_done (e : act) (r : option bool) : list act := match r with None => [e] | Some _ => [] end.

Definition read_disk (m : M W read_file) : M TW read_file :=
  fun '(w, t) => let '(r, w) := m w in
    (match r with ReadError => ReadError | _ => match disk t with Some raw => ReadData raw | None => ReadMissing end end, (w, t)).

Definition traced_fs (f : JournalFS W) : JournalFS TW := {|
  ReadJournal := read_disk (ReadJournal f); MkdirAll := untraced (MkdirAll f); CreateTemp := untraced (CreateTemp f);
  ChmodTemp := untraced (ChmodTemp f); WriteTemp := fun raw => logs (if_done (TWrite raw)) (WriteTemp f raw);
  SyncTemp := untraced (SyncTemp f); CloseTemp := untraced (CloseTemp f); LstatJournal := untraced (LstatJournal f);
  RenameTemp := logs (if_done TRename) (RenameTemp f); RemoveTemp := untraced (RemoveTemp f);
  OpenDirectory := untraced (OpenDirectory f); SyncDirectory := untraced (SyncDirectory f) |}.

Definition traced (e : Env W) : Env TW := {|
  fs := traced_fs (fs e);
  clock := untraced (clock e);
  stream := fun m => logs (fun _ => [TSend m]) (stream e m);
  respond := fun start err => logs (fun _ => [TRespond start err]) (respond e start err);
  spawn := fun job => logs (fun _ => [TSpawn job]) (spawn e job);
  cancel_worker := untraced (cancel_worker e);
  cancel_secrets := untraced (cancel_secrets e);
  close_log := fun log => untraced (close_log e log);
  guard_new := fun job => untraced (guard_new e job);
  guard_reconcile := fun r features expiry => untraced (guard_reconcile e r features expiry);
  guard_withdraw := untraced (guard_withdraw e);
  guard_close := untraced (guard_close e);
  guard_done := untraced (guard_done e);
  begin_evidence := fun l a => untraced (begin_evidence e l a);
  clear_evidence := untraced (clear_evidence e);
  evidence_active := untraced (evidence_active e);
  open_evidence := fun a => untraced (open_evidence e a);
  evidence_snapshot := untraced (evidence_snapshot e);
  evidence_identity := evidence_identity e;
  upload := fun target log => untraced (upload e target log);
  archive := fun log => untraced (archive e log);
  replace_credential := fun credential => logs (fun _ => [TReplace credential]) (replace_credential e credential);
  request_done := fun n => untraced (request_done e n);
  finish_secret := fun n expiry => untraced (finish_secret e n expiry);
  seal := fun job id m now => untraced (seal e job id m now);
  close_files := untraced (close_files e);
  random_text := untraced (random_text e);
  timer_fired := fun t => untraced (timer_fired e t) |}.

(** ** Writing the journal *)

Lemma untraced_trace {A} (m : M W A) w t a w' t' : untraced m (w, t) = (a, (w', t')) -> t' = t.
Proof. cbn. destruct (m w). by intros [= _ _ <-]. Qed.

Lemma logs_trace {A} (m : M W A) events w t a w' t' : logs events m (w, t) = (a, (w', t')) -> t' = events a ++ t.
Proof. cbn. destruct (m w). by intros [= <- _ <-]. Qed.

(** What persisting a state leaves in the trace: nothing, a file that was not renamed, or
    the new journal. *)
Inductive persisted (s : journalState) (t : list act) : bool -> option gerr -> list act -> Prop :=
  | persisted_nothing e : persisted s t false (Some e) t
  | persisted_temp raw e : persisted s t false (Some e) (TWrite raw :: t)
  | persisted_all raw e : EncodeJournal s = Some raw -> persisted s t true e (TRename :: TWrite raw :: t).

Lemma persist_trace (f : JournalFS W) s w t committed e w' t' :
  persistLocked (traced_fs f) {| durable := true; state := s |} (w, t) = ((committed, e), (w', t')) -> persisted s t committed e t'.
Proof.
  unfold persistLocked. cbn [durable state negb]. destruct (EncodeJournal s) as [raw|] eqn:Hr; [|intros [= <- <- _ <-]; constructor].
  destruct (_ <? _); [intros [= <- <- _ <-]; constructor|].
  cbn [CreateTemp ChmodTemp WriteTemp SyncTemp CloseTemp LstatJournal RenameTemp RemoveTemp OpenDirectory SyncDirectory traced_fs before_rename].
  unfold bind, ret.
  repeat (case_match; subst); cbn [if_done app]; intros; simplify_eq;
    repeat match goal with
           | p : TW |- _ => destruct p
           | E : untraced _ _ = _ |- _ => apply untraced_trace in E; subst
           | E : logs _ _ _ = _ |- _ => apply logs_trace in E; subst
           end;
    first [apply persisted_nothing | apply persisted_temp | by apply persisted_all].
Qed.

(** ** The state of a client and its trace *)

Context {NetworkObservation Snapshot Observation TerminalContext : Type}.

Local Abbreviation Client := (@Client _ _ _ NetworkObservation Snapshot Observation TerminalContext).
Local Abbreviation St := (Client * clientSession * TW)%type.
Local Abbreviation G A := (M St (outcome A)).

Definition trace (st : St) : list act := st.2.2.
Definition jstate (st : St) : journalState := state (c_journal st.1.1).

(** The journal in memory is the one on the disk. *)
Record client_inv (st : St) : Prop := {
  client_durable : durable (c_journal st.1.1) = true;
  client_lawful : lawful (trace st);
  client_disk : on_disk (trace st) = Some (jstate st);
}.

(** A session waits for the heartbeat that the journal holds. *)
Record session_inv (st : St) : Prop := {
  session_heartbeat : forall m, pendingHeartbeat st.1.2 = Some m -> heartbeat_of (jstate st) = Some m;
  session_secret : forall p, pendingSecret st.1.2 = Some p -> is_some (JLease (psJob p)) = true;
}.

Definition inv (st : St) : Prop := client_inv st /\ session_inv st.

Lemma client_sound st : client_inv st -> sound (sent (trace st)) (jstate st).
Proof. intros H. apply lawful_sound; apply H. Qed.

Lemma client_valid st : client_inv st -> validateJournalState (jstate st) = true.
Proof. intros H. apply (client_sound st H). Qed.

(** ** Changes of the journal *)

(** A change that, when it fails, leaves the state as it was. *)
Definition atomic (change : journalState -> outcome unit * journalState) (s : journalState) : Prop :=
  forall o s', change s = (o, s') -> o <> Ok tt -> s' = s.

Definition permitted (change : journalState -> outcome unit * journalState) (st : St) : Prop :=
  forall s', change (jstate st) = (Ok tt, s') -> validateJournalState s' = true ->
    sound (sent (trace st)) s' /\ follows (jstate st) s'.

Definition changed (change : journalState -> outcome unit * journalState) (st st' : St) (o : outcome unit) : Prop :=
  match o with
  | Ok _ => change (jstate st) = (Ok tt, jstate st')
  | Fail _ => jstate st' = jstate st \/ change (jstate st) = (Ok tt, jstate st')
  | Panic | Diverge => fst (change (jstate st)) = o
  end.

Context (env : Env W).

(** Nothing but the journal changes, and no message is sent. *)
Record quiet (st st' : St) : Prop := {
  quiet_session : st'.1.2 = st.1.2;
  quiet_client : st'.1.1 = set_c_journal st.1.1 (c_journal st'.1.1);
  quiet_sent : sent (trace st') = sent (trace st);
}.

Lemma set_journal_same (c : Client) : set_c_journal c (c_journal c) = c.
Proof. by destruct c. Qed.

Lemma persisted_lawful s t committed e t' s0 :
  lawful t -> on_disk t = Some s0 -> sound (sent t) s -> follows s0 s -> persisted s t committed e t' ->
  lawful t' /\ on_disk t' = Some (if committed then s else s0) /\ sent t' = sent t.
Proof.
  intros Hl Hd Hs Hf [|raw e'|raw e' Hr]; [done|..].
  - split_and!; [by constructor|done|done].
  - unfold on_disk. cbn. rewrite (journal_roundtrip _ _ Hr). split_and!; [|done|done].
    apply lawful_rename with (s := s); [by constructor|by cbn; rewrite (journal_roundtrip _ _ Hr)|done|].
    intros s1 H1. change (on_disk t = Some s1) in H1. congruence.
Qed.

Lemma update_spec st change o st' :
  client_inv st -> permitted change st -> atomic change (jstate st) -> journal_update (traced env) change st = (o, st') ->
  client_inv st' /\ quiet st st' /\ changed change st st' o.
Proof.
  destruct st as [[c se] [w t]]. destruct (c_journal c) as [d s] eqn:Hj. intros [Hdu Hl Hd] Hp Ha.
  unfold permitted, atomic, changed, jstate, trace, journal_update, update in *. cbn [fst snd] in *. rewrite Hj in *. cbn in *. subst d.
  assert (Hsame : set_c_journal c {| durable := true; state := s |} = c) by (rewrite <-Hj; apply set_journal_same).
  assert (Hinv : client_inv (c, se, (w, t))) by (split; unfold jstate; cbn; rewrite ?Hj; done).
  destruct (change s) as [oc s'] eqn:Hc. destruct oc as [[]|e| |].
  2-4: specialize (Ha _ _ eq_refl ltac:(done)) as ->; unfold ret; rewrite Hsame; intros [= <- <-]; cbn; rewrite ?Hj;
    (split_and!; [done|split; cbn; rewrite ?Hj; done|by auto]).
  destruct (validateJournalState s') eqn:Hv; cbn [negb].
  2:{ unfold ret. rewrite Hsame. intros [= <- <-]. cbn. rewrite ?Hj. split_and!; [done|split; cbn; rewrite ?Hj; done|by left]. }
  destruct (Hp s' eq_refl Hv) as [Hs Hf]. unfold bind.
  destruct (persistLocked _ _ _) as [[committed err] [w' t']] eqn:Hpe. apply persist_trace in Hpe.
  pose proof (persisted_lawful _ _ _ _ _ _ Hl Hd Hs Hf Hpe) as (Hl' & Hd' & Hse).
  destruct err as [e|]; unfold ret; intros [= <- <-]; cbn.
  - destruct committed; cbn; [|rewrite Hsame; cbn; rewrite ?Hj]; (split_and!; [split; unfold jstate; cbn; rewrite ?Hj; done|split; cbn; rewrite ?Hj; done|by auto]).
  - inversion Hpe; subst. split_and!; [split; done|split; done|done].
Qed.
End traced.
End trace.
