(* ===== verification/SessionSample.v ===== *)
(** One gateway protocol, one environment and one runner, to run the model of the session
    with: a disk that never fails, a stream that takes every message, a clock that stands
    still. *)

From Stdlib Require Import ZifyBool.
From S2P Require Import Prelude Utf8 Strconv Json Endian Sha256 World Execution Policy Binder Messages Authority Url Offer.
From S2P Require Import Journal ClientState Session SessionTrace.
Import Names Wire Checks Selection.

#[export] Existing Instance sample_proto.
#[export] Existing Instance sample_codec.
#[export] Existing Instance sample_timestamps.
#[export] Existing Instance sample_gateway_proto.

#[export] Instance sample_evidence : TerminalEvidence := {|
  Evidence := unit; FrozenVersion := fun _ => Some evidence_v1; ValidateFrozen := fun _ _ _ => true; ValidateFrozenV2 := fun _ _ _ => true |}.

(** Messages and jobs are their own encodings. *)
#[export] Instance sample_gateway_codec : GatewayCodec := {|
  RunnerBytes := RunnerMessage unit; MarshalRunner := Some; UnmarshalRunner := Some; SizeRunner := fun _ => 100;
  JobBytes := JobSpecification; MarshalJob := Some; UnmarshalJob := Some; JobLength := fun _ => 100;
  MarshalGateway := fun m => Some (GMessageId m); MarshalCancel := fun c => Some (KCancellationId c);
  LeaseEqual := fun _ _ => true; AttemptEqual := fun _ _ => true; CorrelationEqual := fun _ _ => true; JobEqual := fun _ _ => true |}.

#[export] Instance sample_gateway_laws : GatewayCodecLaws.
Proof. split; by intros ? ? [= ->]. Qed.

Definition is_uint64 (n : Z) : bool := (0 <=? n) && (n <? 2 ^ 64).

(** A journal is its own encoding, if its numbers are. *)
Definition numbers_ok (s : journalState) : option journalState :=
  if is_uint64 (MessageSequence s) && is_uint64 (HeartbeatSequence s) then Some s else None.

#[export] Instance sample_journal_codec : JournalCodec := {|
  JournalBytes := journalState; EncodeJournal := numbers_ok; DecodeJournal := numbers_ok; JournalLength := fun _ => 100 |}.

#[export] Instance sample_journal_laws : JournalCodecLaws.
Proof.
  split; cbn; unfold numbers_ok, is_uint64; intros s raw.
  - destruct (_ && _) eqn:H; [|done]. intros [= <-]. by rewrite H.
  - destruct (_ && _) eqn:H; [|done]. intros [= <-]. lia.
Qed.

#[export] Instance sample_offer_codec : OfferCodec := {|
  SizeOffer := fun _ => 100; MarshalEnvironment := fun _ => None; NewContextV2 := fun _ => true |}.

#[export] Instance sample_result_evidence : @ResultEvidence _ _ unit unit unit unit := {|
  Matches := fun _ _ _ => true; Build := fun _ _ _ _ => Some tt; BuildObservedNetwork := fun _ _ _ _ => Some tt |}.

(** ** The environment: the world is the time *)

Definition sample_fs : JournalFS Z := {|
  ReadJournal := ret ReadMissing; MkdirAll := ret None; CreateTemp := ret None; ChmodTemp := ret None; WriteTemp := fun _ => ret None;
  SyncTemp := ret None; CloseTemp := ret None; LstatJournal := ret PrivateRegular; RenameTemp := ret None; RemoveTemp := ret tt;
  OpenDirectory := ret None; SyncDirectory := ret None |}.

Definition sample_env : Env Z := {|
  fs := sample_fs; clock := reads id; stream := fun _ => ret None; respond := fun _ _ => ret tt; spawn := fun _ => ret tt;
  cancel_worker := ret tt; cancel_secrets := ret tt; close_log := fun _ => ret tt; guard_new := fun _ => ret true;
  guard_reconcile := fun _ _ _ => ret None; guard_withdraw := ret tt; guard_close := ret true; guard_done := ret false;
  begin_evidence := fun _ _ => ret None; clear_evidence := ret None; evidence_active := ret false; open_evidence := fun _ => ret None;
  evidence_snapshot := ret None; evidence_identity := fun _ _ => None; upload := fun _ _ => ret None; archive := fun _ => ret None;
  replace_credential := fun _ => ret true; request_done := fun _ => ret false; finish_secret := fun _ _ => ret tt;
  seal := fun _ _ _ _ => ret None; close_files := ret tt; random_text := ret (bs "nonce"); timer_fired := fun _ => ret false |}.

(** ** A runner and its gateway *)

Definition sample_id (n : Z) : bytes := bs "00000000-0000-4000-8000-00000000000" ++ [0x30 + n].

Definition sample_runner : Config := {|
  RunnerID := sample_id 1; InstanceID := bs "instance"; CRunnerVersion := bs "1.0.0";
  Offers := {| Scope := {| Kind := ScopePlatform; OrganizationID := [] |};
               Bounds := {| Offer.CPUMillis := 1000; Offer.MemoryBytes := 2 ^ 30; Offer.DiskBytes := 2 ^ 30; Offer.ProcessCount := 100 |};
               EnableTestSecrets := false; EnableTerminalEvidenceV2 := false; DisableTerminalEvidence := false |};
  DisableObjectUploadIdentity := false; EnableNetworkPolicyV2 := false; IdentityKeyFile := false; credentialStore := true |}.

Definition gateway_message (id : string) (p : gateway_payload) : GatewayMessage := {|
  GMessageId := bs id; GSentAt := Some sample_now; GPayload := Some p |}.

Definition sample_authenticated : Authenticated := {|
  AuRunnerId := sample_id 1; ConnectionId := sample_id 2; AuProtocolVersion := bs "1"; AuScope := Some (Some PlatformScope);
  CredentialExpiresAt := Some (sample_now + 3600 * Second); HeartbeatInterval := Some {| Seconds := 10; Nanos := 0 |};
  LeaseDuration := Some {| Seconds := 60; Nanos := 0 |}; ServerTime := Some sample_now |}.

Definition sample_welcome : GatewayMessage := gateway_message "gateway-1" (AuthenticatedOf sample_authenticated).

Definition leased (expiresAt : Z) : LeaseIdentity := {|
  LeaseId := sample_id 3; LJobId := sample_id 4; ExecutionId := sample_id 4; LExpiresAt := Some expiresAt; lreflect := Msg true [] [] |}.

Definition attempted : AttemptIdentity := {|
  AttemptId := sample_id 6; ReleaseCandidateId := sample_id 7; MatrixEntryId := sample_id 8; AttemptNumber := 1; arest := [];
  areflect := Msg true [] [] |}.

Definition leased_job : JobSpecification := {|
  JLease := Some (leased (sample_now + 60 * Second)); JAttempt := Some attempted; JEffectivePolicy := None; JHashes := None;
  JOrganizationScope := None; JCorrelation := None; NormalizedConfigurationJson := []; JEnvironment := None;
  TargetPluginName := bs "Plugin"; JDependencies := []; JArtifact := None; JCompleteLogUpload := None; TestSecrets := [] |}.

Definition sample_offer : GatewayMessage :=
  gateway_message "gateway-2" (OfferOf {| OfferJob := Some leased_job; OfferExpiresAt := Some (sample_now + 30 * Second) |}).

Definition sample_credential : bytes := bs "prc_v1_" ++ replicate 43 0x41.

Definition sample_rotation : GatewayMessage :=
  gateway_message "gateway-3" (CredentialRotationOf {|
    RotationId := sample_id 9; ConnectionCredential := sample_credential; CredentialFingerprint := Sum256 sample_credential;
    IssuedAt := Some sample_now; RExpiresAt := Some (sample_now + 1800 * Second); ReconnectBefore := Some (sample_now + 60 * Second) |}).

(** ** A lease in progress *)

Definition sample_worker : RemoteWorker := {| executesV2 := true; SupportsTestSecretSource := false |}.

Definition sample_session : SessionInfo := {|
  authenticated := sample_authenticated; jobCorrelationV1 := true; restartUploadRecovery := true; objectUploadIdentity := true;
  terminalEvidenceV1 := true; terminalEvidenceV2 := false; testSecretsV1 := false; networkFeatures := []; networkMaximum := None;
  generation := 1 |}.

Definition active_job (phase : Z) (cancellation : bytes) : journalJob := {|
  Specification := leased_job; OfferMessageID := bs "gateway-2"; OfferDigest := replicate 32 0; JobCorrelationV1 := false;
  TerminalEvidenceV2 := false; Phase := phase; ExpiresAt := sample_now + 60 * Second; CancellationID := cancellation;
  CancellationDeadline := 0; CancellationDigest := [] |}.

Definition sample_preparing : RunnerMessage unit := {|
  MessageId := message_id (bs "instance") 4; SentAt := Some sample_now;
  Payload := Some (JobPreparing (JLease leased_job) (JAttempt leased_job) (Some sample_now)) |}.

Definition journaled_job (active : journalJob) (pending : option (RunnerMessage unit)) : journal := {|
  durable := true; state := with_pending (with_active (with_sequences empty_state 4 0) (Some active)) pending |}.

Definition reconciled_as (status phase : Z) : LeaseReconciliation := {|
  RLease := JLease leased_job; RAttempt := JAttempt leased_job; Status := status; CancellationId := []; RPhase := phase;
  Observed := None; CompleteLogUpload := None; Disposition := DISPOSITION_APPLIED; TerminalMessageId := []; runknown := []; rrest := [] |}.

Definition acknowledgement (id : string) (runnerMessageId : bytes) (r : LeaseReconciliation) : GatewayMessage :=
  gateway_message id (EventAcknowledgementOf {|
    AckRunnerMessageId := runnerMessageId; AckCommittedAt := Some sample_now; AckReconciliation := Some r |}).

(** ** A job that can be run *)

Definition digest_of (value : bytes) : Digest := {| Algorithm := DIGEST_ALGORITHM_SHA256; Value := Sum256 value; dreflect := Msg true [] [] |}.

Definition sample_configuration : bytes := bs "{}".

Definition sample_plugin : ObjectDownload := {|
  DUri := bs "https://objects.example/plugin.jar"; DSizeBytes := 1024; DDigest := Some (digest_of (bs "plugin")); DFilename := bs "plugin.jar";
  DExpiresAt := Some (sample_now + 600 * Second) |}.

Definition sample_policy : EffectivePolicy := {|
  reflect := Msg true [] []; LegacyNetwork := Some {| NMode := NETWORK_MODE_NONE; Allowlist := []; NMaximumConnections := 0 |};
  NetworkV2 := None; Sandbox := SANDBOX_KIND_GVISOR; Requirement := ENVIRONMENT_REQUIREMENT_REQUIRED;
  Resources := Some {| CpuMillis := 500; RMemoryBytes := 2 ^ 20; RDiskBytes := 2 ^ 20; RProcessCount := 10 |};
  PreparationTimeout := Some {| Seconds := 10; Nanos := 0 |}; ExecutionTimeout := Some {| Seconds := 60; Nanos := 0 |};
  GracefulShutdownTimeout := Some {| Seconds := 5; Nanos := 0 |} |}.

Definition sample_job_specification : JobSpecification := {|
  JLease := Some (leased (sample_now + 60 * Second)); JAttempt := Some attempted; JEffectivePolicy := Some sample_policy;
  JHashes := Some {| HArtifact := Some (digest_of (bs "plugin")); HConfiguration := Some (digest_of sample_configuration);
                     HEnvironment := Some (digest_of (bs "environment")); HPolicy := Some (digest_of (bs "policy")); HDependencies := [] |};
  JOrganizationScope := Some (Some PlatformScope);
  JCorrelation := Some {| Traceparent := bs "00-0af7651916cd43dd8448eb211c80319c-b7ad6b7169203331-01"; COrganizationId := sample_id 1;
                          ProjectId := sample_id 2; WorkflowId := jobCorrelationWorkflowPrefix ++ sample_id 7; cunknown := [] |};
  NormalizedConfigurationJson := sample_configuration;
  JEnvironment := Some {| EProvider := SERVER_PROVIDER_PAPER; EOperatingSystem := OPERATING_SYSTEM_LINUX; EArchitecture := ARCHITECTURE_AMD64;
                          GameVersion := bs "1.21.4"; ServerVersion := bs "1.21.4"; JavaDistribution := bs "temurin"; JavaVersion := bs "21";
                          ServerBuild := 1; CatalogSnapshotId := sample_id 9; RunnerImage := Some (digest_of (bs "image"));
                          ServerBinary := Some (digest_of (bs "server")) |};
  TargetPluginName := bs "Plugin"; JDependencies := []; JArtifact := Some sample_plugin; JCompleteLogUpload := None; TestSecrets := [] |}.

Definition sample_lease_offer : LeaseOffer := {| OfferJob := Some sample_job_specification; OfferExpiresAt := Some (sample_now + 30 * Second) |}.

(** The whole life of that job: it is offered, accepted, prepared, started, renewed by the
    gateway and completed. *)
Definition renewed (r : LeaseReconciliation) (expiresAt : Z) : LeaseReconciliation := {|
  RLease := Some (leased expiresAt); RAttempt := RAttempt r; Status := Status r; CancellationId := CancellationId r; RPhase := RPhase r;
  Observed := Observed r; CompleteLogUpload := CompleteLogUpload r; Disposition := Disposition r;
  TerminalMessageId := TerminalMessageId r; runknown := runknown r; rrest := rrest r |}.

Definition sample_ack (id : string) (sequence status phase : Z) : GatewayMessage :=
  acknowledgement id (message_id (bs "instance") sequence) (renewed (reconciled_as status phase) (sample_now + 90 * Second)).

Definition sample_inputs {NetworkObservation Snapshot Observation TerminalContext : Type}
    (result : @Executor.Result NetworkObservation Snapshot Observation TerminalContext) : list input := [
  Received (gateway_message "gateway-2" (OfferOf sample_lease_offer));
  Received (sample_ack "gateway-3" 4 LEASE_STATUS_ACCEPTED JOB_PHASE_ACCEPTED);
  Received (sample_ack "gateway-4" 5 LEASE_STATUS_ACTIVE JOB_PHASE_PREPARING);
  WorkerInput (StartEvent 7);
  Received (sample_ack "gateway-5" 6 LEASE_STATUS_ACTIVE JOB_PHASE_RUNNING);
  WorkerInput (ResultEvent result None None);
  Received (sample_ack "gateway-6" 7 LEASE_STATUS_COMPLETED JOB_PHASE_RUNNING)].
