(* ===== verification/SessionInv.v ===== *)
(** The session keeps its journal: whatever its environment answers, whatever the gateway
    and the worker hand to it, its trace stays lawful, the journal in memory stays the one
    on the disk, and no operation panics. *)

From Stdlib Require Import ZifyBool.
From S2P Require Import Prelude Utf8 Strconv Json Endian Sha256 World Execution Policy Binder Messages Authority Url Offer.
From S2P Require Import Journal Wp ClientState Session SessionTrace.
Import Names Wire Checks Selection.

Open Scope world_scope.

Section invariant.
Context `{TS : Timestamps} `{PB : RunnerProto} `{GP : !GatewayProto} `{EV : !TerminalEvidence} `{GC : !GatewayCodec}.
Context `{JC : !JournalCodec} `{GL : !GatewayCodecLaws} `{JL : !JournalCodecLaws} `{CODEC : PolicyCodec} `{OC : !OfferCodec}.
Context {NetworkObservation Snapshot Observation TerminalContext : Type}.
Context {RE : @ResultEvidence _ _ NetworkObservation Snapshot Observation TerminalContext}.
Context {W : Type} (base : Env W) (config : Config) (worker : option RemoteWorker).

Local Abbreviation message := (RunnerMessage Evidence).
Local Abbreviation payload := (runner_payload Evidence).
Local Abbreviation Result := (@Executor.Result NetworkObservation Snapshot Observation TerminalContext).
Local Abbreviation event := (@workerEvent _ NetworkObservation Snapshot Observation TerminalContext).
Local Abbreviation Client := (@Client _ _ _ NetworkObservation Snapshot Observation TerminalContext).
Local Abbreviation St := (Client * clientSession * (W * list act))%type.
Local Abbreviation G A := (M St (outcome A)).
Local Abbreviation env := (traced base).

Implicit Types (st : St) (s : journalState).

(** ** How an operation leaves the invariant

    [keeps]: in every outcome. [safe]: when it succeeds; after an error that ends only the
    session, the client's part of it; after an error that ends the client, the trace. *)

Definition left_inv {A} (o : outcome A) (st : St) : Prop := inv st /\ o <> Panic /\ o <> Diverge.

Definition settled {A} (o : outcome A) (st : St) : Prop :=
  match o with
  | Ok _ => inv st
  | Fail e => if transient e then client_inv st else lawful (trace st)
  | Panic => False
  | Diverge => client_inv st
  end.

Definition keeps {A} (m : M St A) : Prop := forall st, inv st -> wp (fun _ st' => inv st') m st.
Definition steady {A} (m : G A) : Prop := forall st, inv st -> wp left_inv m st.
Definition safe {A} (m : G A) : Prop := forall st, inv st -> wp settled m st.

Lemma inv_settled st : inv st -> client_inv st /\ lawful (trace st).
Proof. intros [H _]. split; [done|apply H]. Qed.

Lemma left_settled {A} (o : outcome A) st : left_inv o st -> settled o st.
Proof.
  intros (H & Hp & Hd). destruct o as [a|e| |]; cbn; [done| |done|done]. destruct (inv_settled st H). by destruct (transient e).
Qed.

Lemma wp_steady_safe {A} (m : G A) st : wp left_inv m st -> wp settled m st.
Proof. intros H. eapply wp_mono; [exact H|apply left_settled]. Qed.

Lemma steady_safe {A} (m : G A) : steady m -> safe m.
Proof. intros H st Hi. by apply wp_steady_safe, H. Qed.

Lemma wp_bind_keeps {A B} (Q : B -> St -> Prop) (m : M St A) (k : A -> M St B) st :
  keeps m -> inv st -> (forall a st', inv st' -> wp Q (k a) st') -> wp Q (bind m k) st.
Proof. intros Hm Hi Hk. apply wp_bind. eapply wp_mono; [by apply Hm|]. auto. Qed.

Lemma wp_try_safe {A B} (m : G A) (k : A -> G B) st :
  safe m -> inv st -> (forall a st', inv st' -> wp settled (k a) st') -> wp settled (try m k) st.
Proof. intros Hm Hi Hk. apply wp_try. eapply wp_mono; [by apply Hm|]. intros [] ? H; cbn in *; auto. Qed.

Lemma wp_try_steady {A B} (m : G A) (k : A -> G B) st :
  steady m -> inv st -> (forall a st', inv st' -> wp left_inv (k a) st') -> wp left_inv (try m k) st.
Proof.
  intros Hm Hi Hk. apply wp_try. eapply wp_mono; [by apply Hm|]. intros [] ? (H & ? & ?); [auto|..]; (split_and!; [done|try done; congruence..]).
Qed.

Lemma wp_caught_steady {A B} (Q : outcome B -> St -> Prop) (m : G A) (k : option gerr -> G B) st :
  steady m -> inv st -> (forall err st', inv st' -> wp Q (k err) st') -> wp Q (try (caught m) k) st.
Proof.
  intros Hm Hi Hk. apply wp_try, wp_caught. eapply wp_mono; [by apply Hm|]. intros [] ? (H & ? & ?); [auto|auto|done|done].
Qed.

Lemma steady_ok : steady ok.
Proof. intros st Hi. split_and!; done. Qed.

Lemma steady_fail {A} e : steady (fail e : G A).
Proof. intros st Hi. split_and!; done. Qed.

Lemma steady_ret {A} (a : A) : steady (ret (Ok a)).
Proof. intros st Hi. split_and!; done. Qed.

Lemma steady_check b e : steady (check b e).
Proof. destruct b; [apply steady_ok|apply steady_fail]. Qed.

Lemma keeps_ret {A} (a : A) : keeps (ret a).
Proof. intros st Hi. done. Qed.

(** ** The environment *)

Lemma inv_same st st' : st'.1 = st.1 -> trace st' = trace st -> inv st -> inv st'.
Proof.
  destruct st as [[c se] [w t]], st' as [[c' se'] [w' t']]. unfold trace. cbn. intros [= -> ->] ->.
  intros [[? ? ?] [? ?]]. by repeat split.
Qed.

Lemma wp_untraced {A B} (Q : B -> St -> Prop) (m : M W A) (k : A -> M St B) st :
  (forall a st', st'.1 = st.1 -> trace st' = trace st -> wp Q (k a) st') -> wp Q (bind (lift (untraced m)) k) st.
Proof.
  intros Hk. apply wp_bind. unfold wp, lift, untraced. destruct st as [cs [w t]]. cbn. destruct (m w) as [a w']. cbn. by apply Hk.
Qed.

Lemma keeps_untraced {A} (m : M W A) : keeps (lift (untraced m)).
Proof.
  intros st Hi. unfold wp, lift, untraced. destruct st as [cs [w t]]. cbn. destruct (m w) as [a w']. cbn.
  by apply (inv_same (cs, (w, t))).
Qed.

Lemma keeps_quiet_event {A} (m : M W A) e :
  (forall t, lawful t -> lawful (e :: t)) -> (forall t, on_disk (e :: t) = on_disk t) -> keeps (lift (logs (fun _ => [e]) m)).
Proof.
  intros Hl Hd st [[Hdu Hla Hdi] Hse]. unfold wp, lift, logs. destruct st as [cs [w t]]. cbn. destruct (m w) as [a w']. cbn.
  unfold trace, jstate in *. cbn in *. repeat split; cbn; [done|by apply Hl|unfold trace, jstate; cbn; by rewrite Hd|apply Hse|apply Hse].
Qed.

Lemma keeps_respond start err : keeps (lift (respond env start err)).
Proof. apply keeps_quiet_event; [intros t; apply lawful_respond|done]. Qed.

Lemma keeps_spawn job : keeps (lift (spawn env job)).
Proof. apply keeps_quiet_event; [intros t; apply lawful_spawn|done]. Qed.

Lemma keeps_reads {A} (f : St -> A) : keeps (reads f).
Proof. intros st Hi. exact Hi. Qed.

Lemma keeps_on_client f : (forall c, c_journal (f c) = c_journal c) -> keeps (on_client f).
Proof.
  intros Hf [[c se] [w t]] [[? ? ?] [? ?]]. unfold wp, on_client, changes. cbn.
  unfold trace, jstate in *. cbn in *. repeat split; unfold trace, jstate; cbn; by rewrite ?Hf.
Qed.

(** A change of the session that asks for nothing new. *)
Definition less (se se' : clientSession) : Prop :=
  (pendingHeartbeat se' = None \/ pendingHeartbeat se' = pendingHeartbeat se)
  /\ (pendingSecret se' = None \/ pendingSecret se' = pendingSecret se).

Lemma inv_on_session f st : less st.1.2 (f st.1.2) -> inv st -> inv (st.1.1, f st.1.2, st.2).
Proof.
  destruct st as [[c se] [w t]]. cbn. intros [Hh Hs] [[? ? ?] [Hhb Hse]]. unfold trace, jstate in *. cbn in *.
  repeat split; unfold trace, jstate; cbn; try done.
  - intros m Hm. destruct Hh as [Hh|Hh]; rewrite Hh in Hm; [done|by apply Hhb].
  - intros p Hp. destruct Hs as [Hs|Hs]; rewrite Hs in Hp; [done|by apply Hse].
Qed.

Lemma keeps_on_session f : (forall se, less se (f se)) -> keeps (on_session f).
Proof. intros Hf st Hi. apply (inv_on_session f st); auto. Qed.

Lemma keeps_bind {A B} (m : M St A) (k : A -> M St B) : keeps m -> (forall a, keeps (k a)) -> keeps (bind m k).
Proof. intros Hm Hk st Hi. eapply wp_bind_keeps; [done|done|]. intros a st' Hi'. by apply Hk. Qed.

(** ** The journal *)

(** A change that adds nothing to the journal, keeps its heartbeat, and leaves it as it
    was when it fails. *)
Definition benign_change (change : journalState -> outcome unit * journalState) (s : journalState) : Prop :=
  match change s with
  | (Ok _, s') => benign s s' /\ PendingHeartbeat s' = PendingHeartbeat s
  | (Fail _, s') => s' = s
  | _ => False
  end.

Lemma benign_permitted change st : inv st -> benign_change change (jstate st) -> permitted change st.
Proof.
  intros [Hi _] Hb s' Hc Hv. unfold benign_change in Hb. rewrite Hc in Hb. destruct Hb as [Hb _].
  split; [|by apply benign_follows]. apply (benign_sound _ _ _ Hb Hv), client_sound, Hi.
Qed.

Lemma benign_atomic change s : benign_change change s -> atomic change s.
Proof. intros Hb o s' Hc Ho. unfold benign_change in Hb. rewrite Hc in Hb. by destruct o as [[]| | |]. Qed.

Lemma wp_update (Q : outcome unit -> St -> Prop) change st :
  inv st -> permitted change st -> atomic change (jstate st) ->
  (forall o st', client_inv st' -> quiet st st' -> changed change st st' o -> Q o st') -> wp Q (journal_update env change) st.
Proof.
  intros [Hi _] Hp Ha HQ. unfold wp. destruct (journal_update env change st) as [o st'] eqn:Hu. cbn.
  destruct (update_spec base st change o st' Hi Hp Ha Hu) as (? & ? & ?). by apply HQ.
Qed.

(** The session is not concerned by a change that keeps the heartbeat. *)
Lemma quiet_session_inv st st' : quiet st st' -> heartbeat_of (jstate st') = heartbeat_of (jstate st) -> session_inv st -> session_inv st'.
Proof. intros Hq Hh [H1 H2]. split; rewrite (quiet_session _ _ Hq); [rewrite Hh|]; done. Qed.

Lemma wp_benign change st :
  inv st -> benign_change change (jstate st) ->
  wp (fun o st' => left_inv o st' /\ quiet st st' /\ changed change st st' o) (journal_update env change) st.
Proof.
  intros Hi Hb. apply wp_update; [done|by apply benign_permitted|by apply benign_atomic|].
  intros o st' Hc Hq Ho. unfold benign_change in Hb. unfold changed in Ho.
  assert (o <> Panic /\ o <> Diverge) as [Hp Hd].
  { split; intros ->; cbn in Ho; destruct (change (jstate st)) as [oc s']; cbn in Ho; subst oc; done. }
  split_and!; [|done|done]. split_and!; [|done|done]. split; [done|]. eapply quiet_session_inv; [done| |apply Hi].
  unfold heartbeat_of. assert (PendingHeartbeat (jstate st') = PendingHeartbeat (jstate st)) as ->; [|done].
  destruct o as [|e| |]; [| |done|done].
  - rewrite Ho in Hb. apply Hb.
  - destruct Ho as [->|Ho]; [done|]. rewrite Ho in Hb. apply Hb.
Qed.

Lemma steady_update change : (forall s, benign_change change s) -> steady (journal_update env change).
Proof. intros Hb st Hi. eapply wp_mono; [by apply wp_benign|]. intros o st' [H _]. exact H. Qed.

Lemma benign_refl s : benign s s.
Proof. split; [lia|by right|by right|by apply active_same]. Qed.

Lemma next_message_benign s : benign_change next_message s.
Proof. unfold benign_change, next_message. destruct (_ =? _); [done|]. split; [|done]. split; cbn; [lia|by right|by right|by apply active_same]. Qed.

Lemma next_heartbeat_benign s : benign_change next_heartbeat s.
Proof. unfold benign_change, next_heartbeat. destruct (_ =? _); [done|]. split; [|done]. split; cbn; [lia|by right|by right|by apply active_same]. Qed.

Lemma clear_benign s : benign_change (plainly (fun s => with_pending s None)) s.
Proof. split; [|done]. split; cbn; [lia|by left|by right|by apply active_same]. Qed.

Lemma settled_benign s : benign_change (plainly settled_state) s.
Proof. split; [|done]. split; cbn; [lia|by left|by right|by intros ? ?]. Qed.

Lemma with_credentials_benign s r c : benign s (with_credentials s r c).
Proof. split; cbn; [lia|by right|by right|by apply active_same]. Qed.

Lemma with_active_benign s a : active_continues s (with_active s a) -> benign s (with_active s a).
Proof. split; cbn; [lia|by right|by right|done]. Qed.

Lemma begin_rotation_benign metadata s : benign_change (begin_rotation metadata) s.
Proof.
  unfold benign_change, begin_rotation. destruct (CredentialRotation s); [destruct (negb _)|]; try done;
    (split; [apply with_credentials_benign|done]).
Qed.

Lemma commit_rotation_benign metadata now s : benign_change (commit_rotation config metadata now) s.
Proof.
  unfold benign_change, commit_rotation. destruct (CredentialRotation s); [destruct (negb _)|]; try done;
    (split; [apply with_credentials_benign|done]).
Qed.

Lemma finish_rotation_benign rotation now s : benign_change (finish_rotation config rotation now) s.
Proof.
  unfold benign_change, finish_rotation. repeat case_match; simplify_eq; try done; (split; [first [apply with_credentials_benign|apply benign_refl]|done]).
Qed.

(** ** Sending *)

(** A message the journal already accounts for. *)
Lemma sound_known ms s m : recorded ms s m -> sound ms s -> sound (m :: ms) s.
Proof.
  intros Hm [Hv Hc Hu].
  assert (H : forall x, recorded (m :: ms) s x -> recorded ms s x).
  { intros x [Hx|Hx|Hx]; [|by constructor 2|by constructor 3]. apply elem_of_cons in Hx as [->|Hx]; [done|by constructor 1]. }
  split; [done|..]; eauto.
Qed.

(** A message without a number. *)
Lemma sound_unnumbered ms s m : numbered m = None -> sound ms s -> sound (m :: ms) s.
Proof.
  intros Hm [Hv Hc Hu].
  assert (H : forall x n, recorded (m :: ms) s x -> numbered x = Some n -> recorded ms s x).
  { intros x n [Hx|Hx|Hx] Hn; [|by constructor 2|by constructor 3]. apply elem_of_cons in Hx as [->|Hx]; [congruence|by constructor 1]. }
  split; [done|..]; eauto.
Qed.

(** A number the journal has counted and given to nothing else. *)
Definition fresh (ms : list message) (s : journalState) (n : Z) : Prop :=
  n <= MessageSequence s /\ forall m k, recorded ms s m -> numbered m = Some k -> k < n.

Lemma sound_fresh ms s m n : numbered m = Some n -> fresh ms s n -> sound ms s -> sound (m :: ms) s.
Proof.
  intros Hm [Hn Hf] [Hv Hc Hu].
  assert (H : forall x, recorded (m :: ms) s x -> x = m \/ recorded ms s x).
  { intros x [Hx|Hx|Hx]; [|right; by constructor 2|right; by constructor 3].
    apply elem_of_cons in Hx as [->|Hx]; [by left|right; by constructor 1]. }
  split; [done|..].
  - intros x k Hx Hk. destruct (H x Hx) as [->|Hx']; [congruence|eauto].
  - intros x y k Hx Hy Hkx Hky. destruct (H x Hx) as [->|Hx'], (H y Hy) as [->|Hy']; [done|..|by eapply Hu].
    + pose proof (Hf y k Hy' Hky). assert (k = n) by congruence. lia.
    + pose proof (Hf x k Hx' Hkx). assert (k = n) by congruence. lia.
Qed.

Lemma wp_send m st :
  inv st -> journaled (jstate st) m -> sound (m :: sent (trace st)) (jstate st) ->
  wp (fun o st' => left_inv o st' /\ st'.1 = st.1) (send env m) st.
Proof.
  destruct st as [[c se] [w t]]. intros [[Hdu Hl Hd] [Hh Hs]] Hj Hso. unfold trace, jstate in *. cbn in *.
  unfold send. apply wp_bind. unfold wp, lift. cbn. destruct (stream base m w) as [e w']. cbn.
  assert (inv (c, se, (w', TSend m :: t))) as Hi.
  { repeat split; unfold trace, jstate; cbn; [done|by eapply lawful_send|done|done|done]. }
  by destruct e; cbn; split_and!.
Qed.

(** ** Numbering a message *)

Record prepared (p : payload) (st st' : St) (m : message) : Prop := {
  prepared_quiet : quiet st st';
  prepared_state : jstate st' = with_sequences (jstate st) (MessageSequence (jstate st) + 1) (HeartbeatSequence (jstate st));
  prepared_payload : Payload m = Some p;
  prepared_number : id_sequence (MessageId m) = Some (MessageSequence (jstate st'));
  prepared_fresh : fresh (sent (trace st')) (jstate st') (MessageSequence (jstate st'));
}.

Lemma sequence_range st : client_inv st -> 0 <= MessageSequence (jstate st) < 2 ^ 64.
Proof.
  intros [_ _ Hd]. unfold on_disk in Hd. destruct (disk (trace st)) as [raw|]; [|done]. by apply (journal_numbers _ raw).
Qed.

Lemma wp_runnerMessage p st :
  inv st ->
  wp (fun o st' => inv st' /\ match o with Ok m => prepared p st st' m | Fail _ => True | _ => False end) (runnerMessage env config p) st.
Proof.
  intros Hi. unfold runnerMessage. apply wp_untraced. intros now st0 H1 H2. pose proof (inv_same _ _ H1 H2 Hi) as Hi0.
  assert (Hj : jstate st0 = jstate st) by (unfold jstate; by rewrite H1).
  apply wp_try. eapply wp_mono; [apply (wp_benign _ _ Hi0), next_message_benign|]. intros o st' ((Hi' & Hp & Hd) & Hq & Hc).
  destruct o as [[]|e| |]; [|done|done|done]. cbn in Hc. unfold next_message in Hc. destruct (_ =? _) eqn:Hm; [done|].
  injection Hc as Hc. apply wp_reads, wp_ret. split; [done|]. rewrite Hj in Hc.
  assert (Hs : MessageSequence (jstate st') = MessageSequence (jstate st) + 1) by (by rewrite <-Hc).
  split; cbn [Payload MessageId]; [|done|done|..].
  - destruct Hq as [Hq1 Hq2 Hq3]. split; rewrite <-?H1, <-?H2; done.
  - apply id_sequence_message_id, sequence_range, Hi'.
  - split; [lia|]. intros x k Hx Hk. rewrite Hs. rewrite (quiet_sent _ _ Hq), H2 in Hx.
    assert (recorded (sent (trace st)) (jstate st) x) as Hx'.
    { destruct Hx as [Hx|Hx|Hx]; [by constructor 1|constructor 2|constructor 3]; rewrite <-Hc in Hx; exact Hx. }
    pose proof (sound_counted _ _ (client_sound st (proj1 Hi)) x k Hx' Hk). lia.
Qed.

(** ** Durable events *)

Lemma pending_journaled s m : validateJournalState s = true -> pending_of s = Some m -> journaled s m.
Proof.
  intros Hv Hm. split; [done|]. intros Hh. pose proof (pending_durable s m Hv Hm) as Hd.
  unfold is_heartbeat, durableRunnerMessage in *. by destruct (Payload m) as [[]|].
Qed.

Lemma left_fail {A} e st : inv st -> left_inv (Fail e : outcome A) st.
Proof. intros H. by split. Qed.

Lemma left_ok {A} (a : A) st : inv st -> left_inv (Ok a) st.
Proof. intros H. by split. Qed.

Lemma wp_sendRetained info m st : inv st -> pending_of (jstate st) = Some m -> wp left_inv (sendRetained env config info m) st.
Proof.
  intros Hi Hm. unfold sendRetained. apply wp_reads.
  apply wp_check; [intros _|by apply left_fail]. apply wp_check; [intros _|by apply left_fail].
  eapply wp_mono; [apply wp_send|by intros o st' [H _]]; [done|apply pending_journaled; [apply client_valid, Hi|done]|].
  apply sound_known; [by constructor 2|apply client_sound, Hi].
Qed.

(** What [queueDurable] may be given to change with the event. *)
Definition mutation (mutate : journalState -> outcome unit * journalState) (s : journalState) : Prop :=
  match mutate s with
  | (Ok _, s') => MessageSequence s' = MessageSequence s /\ PendingMessage s' = PendingMessage s
                  /\ PendingHeartbeat s' = PendingHeartbeat s /\ active_continues s s'
  | (Fail _, s') => s' = s
  | _ => False
  end.

(** A journal with one message more, whose number is fresh. *)
Lemma sound_added ms s s' m n :
  sound ms s -> fresh ms s n -> (forall k, numbered m = Some k -> k = n) -> validateJournalState s' = true ->
  MessageSequence s' = MessageSequence s -> (forall x, recorded ms s' x -> x = m \/ recorded ms s x) -> sound ms s'.
Proof.
  intros [_ Hc Hu] [Hn Hf] Hm Hv Hs H. split; [done|..].
  - intros x k Hx Hk. rewrite Hs. destruct (H x Hx) as [->|Hx']; [by rewrite (Hm k Hk)|eauto].
  - intros x y k Hx Hy Hkx Hky. destruct (H x Hx) as [->|Hx'], (H y Hy) as [->|Hy']; [done|..|by eapply Hu].
    + pose proof (Hf y k Hy' Hky). pose proof (Hm k Hkx). lia.
    + pose proof (Hf x k Hx' Hkx). pose proof (Hm k Hky). lia.
Qed.

Lemma numbered_number m k n : id_sequence (MessageId m) = Some n -> numbered m = Some k -> k = n.
Proof. unfold numbered. intros Hn Hk. rewrite Hn in Hk. destruct (Payload m) as [[]|]; congruence. Qed.

(** The change of the journal that [queueDurable] makes. *)
Definition queued (m : message) (encoded : RunnerBytes) (mutate : journalState -> outcome unit * journalState) (s : journalState)
  : outcome unit * journalState :=
  match PendingMessage s with
  | Some _ => (Fail EPlain, s)
  | None =>
      if negb (validateTerminalProof m s (RunnerID config)) then (Fail EPlain, s)
      else match mutate s with
           | (Ok _, s) => (Ok tt, with_pending s (Some encoded))
           | r => r
           end
  end.

Lemma queued_permitted m encoded mutate st n :
  inv st -> MarshalRunner m = Some encoded -> mutation mutate (jstate st) -> id_sequence (MessageId m) = Some n ->
  fresh (sent (trace st)) (jstate st) n -> permitted (queued m encoded mutate) st.
Proof.
  intros [Hi _] He Hmu Hn Hf s' Hc Hv. unfold queued in Hc. unfold mutation in Hmu.
  destruct (PendingMessage (jstate st)) eqn:Hp; [done|]. destruct (negb _); [done|].
  destruct (mutate (jstate st)) as [[[]|e| |] s1]; try done. injection Hc as <-. destruct Hmu as (Hs1 & Hp1 & Hh1 & Ha1). split.
  - eapply sound_added; [by apply client_sound|exact Hf|intros k; by apply numbered_number|done|exact Hs1|].
    intros x [Hx|Hx|Hx]; [right; by constructor 1| |right; constructor 3].
    + unfold pending_of in Hx. cbn in Hx. rewrite (runner_roundtrip _ _ He) in Hx. left. congruence.
    + unfold heartbeat_of in *. cbn in Hx. by rewrite Hh1 in Hx.
  - split; cbn; [by rewrite Hs1|intros raw raw'; by rewrite Hp|exact Ha1].
Qed.

Lemma queued_atomic m encoded mutate s : mutation mutate s -> atomic (queued m encoded mutate) s.
Proof.
  intros Hmu o s' Hc Ho. unfold queued in Hc. unfold mutation in Hmu. destruct (PendingMessage s); [by injection Hc|].
  destruct (negb _); [by injection Hc|]. destruct (mutate s) as [[[]|e| |] s1]; try done; injection Hc; by intros; subst.
Qed.

Lemma queued_result m encoded mutate s : mutation mutate s ->
  match queued m encoded mutate s with
  | (Ok _, s') => PendingMessage s' = Some encoded /\ PendingHeartbeat s' = PendingHeartbeat s
  | (Fail _, _) => True
  | _ => False
  end.
Proof.
  intros Hmu. unfold queued, mutation in *. destruct (PendingMessage s); [done|]. destruct (negb _); [done|].
  destruct (mutate s) as [[[]|e| |] s1]; try done. cbn. by split; [|apply Hmu].
Qed.

Lemma queued_changed m encoded mutate st st' o :
  mutation mutate (jstate st) -> changed (queued m encoded mutate) st st' o ->
  match o with
  | Ok _ => PendingMessage (jstate st') = Some encoded /\ PendingHeartbeat (jstate st') = PendingHeartbeat (jstate st)
  | Fail _ => PendingHeartbeat (jstate st') = PendingHeartbeat (jstate st)
  | _ => False
  end.
Proof.
  intros Hmu Hc. pose proof (queued_result m encoded mutate _ Hmu) as H. unfold changed in Hc. destruct o as [|e| |].
  - by rewrite Hc in H.
  - destruct Hc as [->|Hc]; [done|]. rewrite Hc in H. apply H.
  - destruct (queued _ _ _ _) as [oc ?]. cbn in Hc. by subst.
  - destruct (queued _ _ _ _) as [oc ?]. cbn in Hc. by subst.
Qed.

Lemma wp_queueDurable info p mutate st :
  inv st -> (forall s, Active s = Active (jstate st) -> mutation mutate s) -> wp left_inv (queueDurable env config info p mutate) st.
Proof.
  intros Hi Hmu. unfold queueDurable. apply wp_try. eapply wp_mono; [by apply wp_runnerMessage|].
  intros o st1 (Hi1 & Ho). destruct o as [m|e| |]; [|by apply left_fail|done|done]. destruct Ho as [Hq Hs Hpl Hn Hf].
  assert (Hmu1 : mutation mutate (jstate st1)) by (apply Hmu; by rewrite Hs).
  apply wp_check; [intros _|by apply left_fail]. destruct (MarshalRunner m) as [encoded|] eqn:He; [|by apply left_fail].
  apply wp_try. fold (queued m encoded mutate). apply wp_update; [done|by eapply queued_permitted|by apply queued_atomic|].
  intros o st2 Hi2 Hq2 Hc. pose proof (queued_changed _ _ _ _ _ _ Hmu1 Hc) as Hres.
  assert (Hse : PendingHeartbeat (jstate st2) = PendingHeartbeat (jstate st1) -> inv st2).
  { intros Hh. split; [done|]. eapply quiet_session_inv; [done|unfold heartbeat_of; by rewrite Hh|apply Hi1]. }
  destruct o as [[]|e| |]; [|by apply left_fail, Hse|done|done]. destruct Hres as [Hp Hh].
  apply wp_sendRetained; [by apply Hse|]. unfold pending_of. rewrite Hp. by apply runner_roundtrip.
Qed.

(** ** Walking through an operation *)

Lemma wp_safe {A} (m : G A) st : safe m -> inv st -> wp settled m st.
Proof. auto. Qed.

Lemma wp_steady {A} (m : G A) st : steady m -> inv st -> wp left_inv m st.
Proof. auto. Qed.

Lemma settled_fail {A} e st : inv st -> settled (Fail e : outcome A) st.
Proof. intros H. by apply left_settled, left_fail. Qed.

(** An operation that changes neither the journal nor what the trace says of it. *)
Definition passive {A} (m : M St A) : Prop :=
  forall st, wp (fun _ st' => c_journal st'.1.1 = c_journal st.1.1 /\ on_disk (trace st') = on_disk (trace st)
                              /\ (lawful (trace st) -> lawful (trace st'))) m st.

Lemma passive_ret {A} (a : A) : passive (ret a).
Proof. done. Qed.

Lemma passive_bind {A B} (m : M St A) (k : A -> M St B) : passive m -> (forall a, passive (k a)) -> passive (bind m k).
Proof.
  intros Hm Hk st. apply wp_bind. eapply wp_mono; [apply Hm|]. intros a st1 (H1 & H2 & H3). eapply wp_mono; [apply Hk|].
  intros b st2 (H4 & H5 & H6). split_and!; [congruence|congruence|auto].
Qed.

Lemma passive_reads {A} (f : St -> A) : passive (reads f).
Proof. done. Qed.

Lemma passive_on_client f : (forall c, c_journal (f c) = c_journal c) -> passive (on_client f).
Proof. intros Hf [[c se] w]. unfold wp. cbn. by rewrite Hf. Qed.

Lemma passive_on_session f : passive (on_session f).
Proof. by intros [[c se] w]. Qed.

Lemma passive_untraced {A} (m : M W A) : passive (lift (untraced m)).
Proof. intros [cs [w t]]. unfold wp, lift, untraced. cbn. by destruct (m w). Qed.

Lemma passive_respond start err : passive (lift (respond env start err)).
Proof.
  intros [cs [w t]]. unfold wp, lift. cbn. destruct (respond base start err w). cbn. split_and!; [done|done|].
  intros H. by apply lawful_respond.
Qed.

Lemma passive_settled {A} (m : M St unit) (o : outcome A) st : passive m -> keeps m -> settled o st -> wp settled (bind m (fun _ => ret o)) st.
Proof.
  intros Hp Hk Ho. apply wp_bind. destruct o as [a|e| |]; [by apply Hk| | |].
  - eapply wp_mono; [apply Hp|]. intros [] st' (H1 & H2 & H3). apply wp_ret. cbn in *. destruct (transient e); [|by apply H3].
    destruct Ho as [Hd Hl Hod]. split; [by rewrite H1|by apply H3|]. unfold jstate in *. by rewrite H1, H2.
  - done.
  - eapply wp_mono; [apply Hp|]. intros [] st' (H1 & H2 & H3). apply wp_ret. cbn in *.
    destruct Ho as [Hd Hl Hod]. split; [by rewrite H1|by apply H3|]. unfold jstate in *. by rewrite H1, H2.
Qed.

Ltac passively :=
  repeat first
    [ apply passive_ret | apply passive_untraced | apply passive_respond | apply passive_reads | apply passive_on_session
    | apply passive_on_client; intros []; reflexivity | apply passive_bind; [|intros ?] | case_match ].

Lemma passive_stopWorker : passive (stopWorker env).
Proof. unfold stopWorker, stopNetworkAuthority, the_client. passively. Qed.

Lemma passive_discard_all e evs : passive (discard_all env e evs).
Proof.
  induction evs as [|ev evs IH]; cbn [discard_all]; [passively|]. apply passive_bind; [|done].
  unfold discard_event, closeCompleteLog. passively.
Qed.

(** ** One session *)

Section session.
Context (info : SessionInfo).

Create HintDb session.
#[local] Hint Resolve keeps_ret keeps_untraced keeps_respond keeps_spawn keeps_reads : session.
#[local] Hint Resolve steady_ok steady_fail steady_ret steady_check : session.
#[local] Hint Resolve left_fail left_ok settled_fail : session.
#[local] Hint Extern 2 (safe _) => apply steady_safe : session.
#[local] Hint Extern 1 (keeps (on_client _)) => apply keeps_on_client; intros []; cbn; repeat case_match; reflexivity : session.
#[local] Hint Extern 1 (keeps (on_session _)) => apply keeps_on_session; intros []; by split; auto : session.
#[local] Hint Extern 1 (keeps (lift _)) => apply keeps_untraced : session.

#[local] Hint Extern 2 (keeps (bind _ _)) => apply keeps_bind; [|intros ?] : session.
#[local] Hint Extern 2 (keeps (match ?x with _ => _ end)) => destruct x : session.
#[local] Hint Extern 2 (steady (match ?x with _ => _ end)) => destruct x : session.
#[local] Hint Extern 2 (safe (match ?x with _ => _ end)) => destruct x : session.

Ltac step_wp :=
  lazymatch goal with
  | |- wp _ (bind the_client _) _ => apply wp_reads
  | |- wp _ (bind the_session _) _ => apply wp_reads
  | |- wp _ (bind snapshot _) _ => apply wp_reads
  | |- wp _ (if ?b then _ else _) _ => destruct b eqn:?
  | |- wp _ (match ?x with _ => _ end) _ => destruct x eqn:?
  | |- wp _ (let _ := _ in _) _ => cbv zeta
  | |- wp _ (try (check _ _) _) _ => apply wp_check; [intros ?|solve [auto with session]]
  | |- wp settled (try (caught _) _) _ => eapply wp_caught_steady; [solve [eauto with session]|eassumption|intros ? ? ?]
  | |- wp left_inv (try (caught _) _) _ => eapply wp_caught_steady; [solve [eauto with session]|eassumption|intros ? ? ?]
  | |- wp settled (try _ _) _ => eapply wp_try_safe; [solve [eauto with session]|eassumption|intros ? ? ?]
  | |- wp left_inv (try _ _) _ => eapply wp_try_steady; [solve [eauto with session]|eassumption|intros ? ? ?]
  | |- wp _ (bind _ _) _ => eapply wp_bind_keeps; [solve [eauto with session]|eassumption|intros ? ? ?]
  | |- wp (fun _ st' => inv st') _ _ => solve [eauto with session]
  | |- wp settled _ _ => first [apply wp_safe; [solve [eauto with session]|eassumption]]
  | |- wp left_inv _ _ => first [apply wp_steady; [solve [eauto with session]|eassumption]]
  end.

Ltac walk := cbv beta; repeat (step_wp; cbv beta).

#[local] Hint Extern 4 (steady (bind _ _)) => (intros ? ?; walk) : session.
#[local] Hint Extern 4 (steady (try _ _)) => (intros ? ?; walk) : session.
#[local] Hint Extern 4 (safe (bind _ _)) => (intros ? ?; walk) : session.
#[local] Hint Extern 4 (safe (try _ _)) => (intros ? ?; walk) : session.

(** ** The worker *)

Lemma keeps_wp {A} (m : M St A) st : keeps m -> inv st -> wp (fun _ st' => inv st') m st.
Proof. auto. Qed.

Lemma keeps_stopNetworkAuthority gen : keeps (stopNetworkAuthority env gen).
Proof. intros st Hi. unfold stopNetworkAuthority. walk; apply keeps_wp; eauto with session. Qed.
#[local] Hint Resolve keeps_stopNetworkAuthority : session.

Ltac keep := intros st Hi; cbv beta zeta; walk; try (apply keeps_wp; [solve [eauto with session]|assumption]).

Lemma keeps_stopWorker : keeps (stopWorker env).
Proof. unfold stopWorker. keep. Qed.

Lemma keeps_Drain : keeps Drain.
Proof. unfold Drain. keep. Qed.

Lemma keeps_markWorkerStopped : keeps markWorkerStopped.
Proof. unfold markWorkerStopped. keep. Qed.

Lemma keeps_completeStartResponse err : keeps (completeStartResponse env err).
Proof. unfold completeStartResponse. keep. Qed.
#[local] Hint Resolve keeps_stopWorker keeps_Drain keeps_markWorkerStopped keeps_completeStartResponse : session.

Lemma keeps_failStartResponse e : keeps (failStartResponse env e).
Proof. unfold failStartResponse. keep. Qed.
#[local] Hint Resolve keeps_failStartResponse : session.

Lemma keeps_stop_and_fail : keeps (stop_and_fail env).
Proof. unfold stop_and_fail. keep. Qed.

Lemma keeps_networkAuthorityStopped : keeps (networkAuthorityStopped env).
Proof. unfold networkAuthorityStopped. keep. Qed.

Lemma keeps_setTarget l a target recovery : keeps (setCompleteLogTargetKind l a target recovery).
Proof. unfold setCompleteLogTargetKind. keep. Qed.

Lemma keeps_target l a : keeps (completeLogTarget_for l a).
Proof. unfold completeLogTarget_for. keep. Qed.

Lemma keeps_clearTarget : keeps clearCompleteLogTarget.
Proof. unfold clearCompleteLogTarget. keep. Qed.

Lemma keeps_clearRecoveryTarget : keeps clearRecoveryCompleteLogTarget.
Proof. apply keeps_on_client. intros c. by destruct c, activeUpload as [[? ? ? []]|]. Qed.

Lemma keeps_closeCompleteLog log : keeps (closeCompleteLog env log).
Proof. unfold closeCompleteLog. keep. Qed.

Lemma keeps_deferWorkerEvent e : keeps (deferWorkerEvent e).
Proof. unfold deferWorkerEvent. keep. Qed.

Lemma keeps_popDeferred : keeps popDeferredWorkerEvent.
Proof. unfold popDeferredWorkerEvent. keep. Qed.
#[local] Hint Resolve keeps_stop_and_fail keeps_networkAuthorityStopped keeps_setTarget keeps_target keeps_clearTarget : session.
#[local] Hint Resolve keeps_clearRecoveryTarget keeps_closeCompleteLog keeps_deferWorkerEvent keeps_popDeferred : session.

Lemma keeps_discard_event e ev : keeps (discard_event env e ev).
Proof. unfold discard_event. keep. Qed.
#[local] Hint Resolve keeps_discard_event : session.

Lemma keeps_discard_all e evs : keeps (discard_all env e evs).
Proof. induction evs as [|ev evs IH]; cbn [discard_all]; keep. Qed.
#[local] Hint Resolve keeps_discard_all : session.

Lemma keeps_discardDeferred e : keeps (discardDeferred env e).
Proof. unfold discardDeferred. keep. Qed.

Lemma keeps_rememberSettledMessage m phase : keeps (rememberSettledMessage m phase).
Proof.
  unfold rememberSettledMessage. destruct (is_nil _); [apply keeps_ret|]. apply keeps_on_session. intros se. cbv zeta.
  repeat case_match; destruct se; by split; auto.
Qed.
#[local] Hint Resolve keeps_discardDeferred keeps_rememberSettledMessage : session.

Lemma keeps_rememberSettledEvent raw phase : keeps (rememberSettledEvent raw phase).
Proof. unfold rememberSettledEvent. keep. Qed.

Lemma keeps_rememberHeartbeat m : keeps (rememberAcknowledgedHeartbeat m).
Proof.
  apply keeps_on_session. intros se. cbv zeta. repeat case_match; destruct se; by split; auto.
Qed.

Lemma keeps_next_ephemeral : keeps next_ephemeral.
Proof. unfold next_ephemeral. keep. Qed.

Lemma keeps_abandonSecretRequest : keeps (abandonSecretRequest env).
Proof. unfold abandonSecretRequest. keep. Qed.

Lemma keeps_stopSecretWorker : keeps (stopSecretWorker env info).
Proof. unfold stopSecretWorker. keep. Qed.
#[local] Hint Resolve keeps_rememberSettledEvent keeps_rememberHeartbeat keeps_next_ephemeral keeps_abandonSecretRequest keeps_stopSecretWorker : session.

Lemma keeps_close_session : keeps (close_session env info).
Proof. unfold close_session. keep. Qed.

Lemma keeps_validateRestartLogObject o t l : keeps (validateRestartLogObject env o t l).
Proof. unfold validateRestartLogObject. keep. Qed.

Lemma keeps_capacity : keeps (capacity config).
Proof. unfold capacity. keep. Qed.
#[local] Hint Resolve keeps_close_session keeps_validateRestartLogObject keeps_capacity : session.

(** ** Events of the job *)

Lemma steady_clearPending : steady (clearPending env).
Proof. apply steady_update, clear_benign. Qed.
#[local] Hint Resolve steady_clearPending : session.

Lemma steady_clearPendingAcknowledged m active : steady (clearPendingAcknowledged env m active).
Proof. intros st Hi. unfold clearPendingAcknowledged. walk. Qed.

Lemma steady_identity_of s : steady (identity_of s).
Proof. unfold identity_of. destruct (activeIdentity s); auto with session. Qed.

Lemma mutation_none s : mutation no_change s.
Proof. split_and!; [done..|by apply active_same]. Qed.

Lemma steady_queue p : steady (queueDurable env config info p no_change).
Proof. intros st Hi. apply wp_queueDurable; [done|]. intros s _. apply mutation_none. Qed.
#[local] Hint Resolve steady_clearPendingAcknowledged steady_identity_of steady_queue : session.

Lemma steady_the_identity : steady the_identity.
Proof. intros st Hi. unfold the_identity. walk. Qed.

Lemma steady_finally {A} (m : G A) last : steady m -> keeps last -> steady (finally m last).
Proof.
  intros Hm Hl st Hi. unfold finally. apply wp_bind. eapply wp_mono; [by apply Hm|]. intros o st1 (Hi1 & Hp & Hd).
  apply wp_bind. eapply wp_mono; [by apply Hl|]. intros ? st2 Hi2. by split_and!.
Qed.

Lemma steady_quietly {A} (m : G A) : steady m -> steady (quietly m).
Proof. intros Hm st Hi. unfold quietly. walk. Qed.
#[local] Hint Resolve steady_the_identity steady_finally steady_quietly : session.

Lemma mutation_of_active f s a : Active s = Some a -> (forall a, continues a (f a)) -> mutation (of_active f) s.
Proof.
  intros Ha Hf. unfold mutation, of_active. rewrite Ha. split_and!; [done..|]. intros b b' Hb [= <-]. assert (a = b) as -> by congruence.
  apply Hf.
Qed.

Lemma continues_with_phase a phase : continues a (with_phase a phase).
Proof. by split. Qed.

Lemma activeIdentity_active s i : activeIdentity s = Some i -> exists a, Active s = Some a.
Proof. unfold activeIdentity. destruct (Active s); [by eexists|done]. Qed.

(** An event of the active job, which moves the job to another phase. *)
Lemma wp_queue_active p phase st i :
  inv st -> activeIdentity (jstate st) = Some i -> wp left_inv (queueDurable env config info p (of_active (fun j => with_phase j phase))) st.
Proof.
  intros Hi Ha. apply activeIdentity_active in Ha as [a Ha]. apply wp_queueDurable; [done|].
  intros s Hs. apply mutation_of_active with a; [congruence|]. intros b. apply continues_with_phase.
Qed.

Lemma steady_queuePreparing now : steady (queuePreparing env config info now).
Proof.
  intros st Hi. unfold queuePreparing, the_identity. apply wp_try, wp_reads. unfold identity_of. fold (jstate st).
  destruct (activeIdentity (jstate st)) as [[l a]|] eqn:Ha; [|by apply left_fail]. apply wp_ret. by eapply wp_queue_active.
Qed.

Lemma steady_queueRenewal now : steady (queueRenewal env config info now).
Proof. intros st Hi. unfold queueRenewal. walk. Qed.

Lemma steady_queueLeaseExpired now : steady (queueLeaseExpired env config info now).
Proof. intros st Hi. unfold queueLeaseExpired. walk. Qed.

Lemma steady_queueCancellation now r : steady (queueCancellation env config info now r).
Proof.
  intros st Hi. unfold queueCancellation. apply wp_reads, wp_try. unfold identity_of. fold (jstate st).
  destruct (activeIdentity (jstate st)) as [[l a]|] eqn:Ha; [|by apply left_fail]. apply wp_ret.
  apply activeIdentity_active in Ha as [active Ha]. rewrite Ha. walk.
Qed.

Lemma steady_queueNetworkAuthorityFailure now : steady (queueNetworkAuthorityFailure env config info now).
Proof. intros st Hi. unfold queueNetworkAuthorityFailure. walk. Qed.

Lemma steady_queueRestartFailureWithoutEvidence now l a : steady (queueRestartFailureWithoutEvidence env config info now l a).
Proof. intros st Hi. unfold queueRestartFailureWithoutEvidence. walk. Qed.
#[local] Hint Resolve steady_queuePreparing steady_queueRenewal steady_queueLeaseExpired steady_queueCancellation : session.
#[local] Hint Resolve steady_queueNetworkAuthorityFailure steady_queueRestartFailureWithoutEvidence : session.

Lemma steady_queueRestartFailure now : steady (queueRestartFailure env config info now).
Proof. intros st Hi. unfold queueRestartFailure. walk. Qed.

Lemma steady_result_proof r l a : steady (ret (result_proof config info r l a)).
Proof.
  unfold result_proof. intros st Hi. repeat case_match; simplify_eq; apply wp_ret; auto with session.
Qed.
#[local] Hint Resolve steady_queueRestartFailure steady_result_proof : session.

Lemma steady_queueResult r : steady (queueResult env config info r).
Proof. intros st Hi. unfold queueResult. walk. Qed.
#[local] Hint Resolve steady_queueResult : session.

(** ** Live evidence and secrets *)

Definition live (m : message) : bool :=
  match Payload m with Some (LogBatchOf _) | Some (UsageOf _) | Some (TestSecretsRequestOf _ _) => true | _ => false end.

Lemma steady_send_live m : live m = true -> steady (send env m).
Proof.
  intros Hl st Hi. eapply wp_mono; [apply wp_send; [done|..]|by intros o st' [H _]].
  - unfold live in Hl. split; intros H; unfold durableRunnerMessage, is_heartbeat in H; by destruct (Payload m) as [[]|].
  - apply sound_unnumbered; [|apply client_sound, Hi]. unfold live in Hl. unfold numbered. by destruct (Payload m) as [[]|].
Qed.
#[local] Hint Extern 1 (steady (send _ _)) => apply steady_send_live; reflexivity : session.

Lemma steady_sendWorkerEvidence e : steady (sendWorkerEvidence env info e).
Proof. intros st Hi. unfold sendWorkerEvidence. walk. Qed.

Lemma secret_job_leased a job : secret_job config a = Some job -> is_some (JLease job) = true.
Proof.
  unfold secret_job. destruct (UnmarshalJob _) as [j|]; [|done]. intros H. case_match eqn:Hc; [|done]. simplify_eq.
  rewrite !andb_true_iff in Hc. destruct Hc as [[[[_ _] Hc] _] _]. by destruct (JLease job).
Qed.

Lemma keeps_ask_secret request id job : is_some (JLease job) = true ->
  keeps (on_session (fun se => set_pendingSecret se (Some {| psWorker := request; psRequestID := id; psJob := job |}))).
Proof.
  intros Hj [[c se] [w t]] [[? ? ?] [Hh _]]. unfold wp, trace, jstate in *. cbn in *.
  repeat split; unfold trace, jstate; cbn; [done..|]. intros p [= <-]. done.
Qed.

Lemma steady_beginSecretRequest request : steady (beginSecretRequest env config info request).
Proof.
  intros st Hi. unfold beginSecretRequest. walk.
  eapply wp_bind_keeps; [apply keeps_ask_secret; by eapply secret_job_leased|eassumption|intros ? ? ?]. walk.
Qed.

Lemma steady_same_secret_job a job : is_some (JLease job) = true -> steady (ret (same_secret_job a job)).
Proof.
  intros Hj st Hi. unfold same_secret_job. repeat case_match; apply wp_ret; auto with session. done.
Qed.

Lemma steady_receiveSecretDelivery m : steady (receiveSecretDelivery env info m).
Proof.
  intros st Hi. unfold receiveSecretDelivery. apply wp_reads.
  destruct (pendingSecret st.1.2) as [p|] eqn:Hp; [|walk]. pose proof (session_secret _ (proj2 Hi) _ Hp) as Hj.
  eapply wp_bind_keeps; [auto with session|exact Hi|intros ? st1 Hi1]. walk.
  eapply wp_try_steady; [by apply steady_same_secret_job|eassumption|intros ? ? ?]. walk.
Qed.
#[local] Hint Resolve steady_sendWorkerEvidence steady_beginSecretRequest steady_receiveSecretDelivery : session.

(** ** Worker events *)

Lemma steady_start_event start s a st : inv st -> s = jstate st -> wp left_inv (start_event env config info start s a) st.
Proof.
  intros Hi ->. unfold start_event. destruct (negb _); [walk|]. destruct (activeIdentity _) as [[l at']|] eqn:Ha; [|walk].
  apply wp_bind. set (st1 := (set_startResponse st.1.1 (Some start), st.1.2, st.2)).
  assert (Hi1 : inv st1) by (apply (keeps_on_client (fun c => set_startResponse c (Some start))); [by intros []|done]).
  change (wp left_inv (let! now := lift (clock env) in
    queueDurable env config info (JobStarted l at' (Some (TimestampNew now))) (of_active (fun j => with_phase j JOB_PHASE_RUNNING))) st1).
  apply wp_untraced. intros now st2 H1 H2. eapply wp_queue_active; [by eapply inv_same|].
  unfold jstate. rewrite H1. exact Ha.
Qed.

Lemma steady_settle r a : steady (settle env config info r a).
Proof. intros st Hi. unfold settle. walk. Qed.
#[local] Hint Resolve steady_settle : session.

Lemma steady_result_event e r a : steady (result_event env config info e r a).
Proof. intros st Hi. unfold result_event. walk. Qed.

Lemma steady_worker_ended r e u : steady (worker_ended env info r e u).
Proof. intros st Hi. unfold worker_ended. walk. Qed.
#[local] Hint Resolve steady_result_event steady_worker_ended : session.

Lemma steady_handleWorkerEvent e : steady (handleWorkerEvent env config info e).
Proof.
  intros st Hi. unfold handleWorkerEvent. destruct e; walk. by apply steady_start_event.
Qed.
#[local] Hint Resolve steady_handleWorkerEvent : session.

Lemma safe_drain fuel : safe (drain env config info fuel).
Proof.
  induction fuel as [|fuel IH]; intros st Hi; cbn [drain]; [by apply inv_settled|]. walk.
Qed.

Lemma safe_drainDeferred : safe (drainDeferred env config info).
Proof. intros st Hi. unfold drainDeferred. apply wp_reads. by apply safe_drain. Qed.
#[local] Hint Resolve safe_drainDeferred : session.

Lemma safe_advance now : safe (advance env config info now).
Proof. intros st Hi. unfold advance. walk. Qed.

Lemma steady_replayPending : steady (replayPending env config info).
Proof.
  intros st Hi. unfold replayPending. apply wp_reads. fold (jstate st). destruct (PendingMessage (jstate st)) as [raw|] eqn:Hp; [|walk].
  destruct (UnmarshalRunner raw) as [m|] eqn:Hm; [|walk]. apply wp_sendRetained; [done|]. unfold pending_of. by rewrite Hp.
Qed.

Lemma steady_startWorker : steady (startWorker env config worker).
Proof. intros st Hi. unfold startWorker. walk. Qed.

Lemma steady_consumeNetworkAuthority r : steady (consumeNetworkAuthority env info r).
Proof. intros st Hi. unfold consumeNetworkAuthority. walk. Qed.
#[local] Hint Resolve safe_advance steady_replayPending steady_startWorker steady_consumeNetworkAuthority : session.

(** ** Reconciliation *)

(** An operation that leaves the journal alone. *)
Definition calm {A} (m : M St A) : Prop := forall st, wp (fun _ st' => jstate st' = jstate st) m st.

Lemma calm_ret {A} (a : A) : calm (ret a).
Proof. done. Qed.

Lemma calm_bind {A B} (m : M St A) (k : A -> M St B) : calm m -> (forall a, calm (k a)) -> calm (bind m k).
Proof.
  intros Hm Hk st. apply wp_bind. eapply wp_mono; [apply Hm|]. cbn. intros a st1 H1. eapply wp_mono; [apply Hk|].
  cbn. intros b st2 H2. congruence.
Qed.

Lemma calm_try {A B} (m : G A) (k : A -> G B) : calm m -> (forall a, calm (k a)) -> calm (try m k).
Proof. intros Hm Hk. apply calm_bind; [done|]. intros []; auto using calm_ret. Qed.

Lemma calm_lift {A} (m : M (W * list act) A) : calm (lift m).
Proof. intros [cs w]. unfold wp, lift. cbn. by destruct (m w). Qed.

Lemma calm_reads {A} (f : St -> A) : calm (reads f).
Proof. done. Qed.

Lemma calm_on_client f : (forall c, c_journal (f c) = c_journal c) -> calm (on_client f).
Proof. intros Hf [[c se] w]. unfold wp, jstate. cbn. by rewrite Hf. Qed.

Ltac calmly :=
  repeat first
    [ apply calm_ret | apply calm_lift | apply calm_reads
    | apply calm_on_client; intros []; reflexivity
    | apply calm_bind; [|intros ?] | apply calm_try; [|intros ?] | progress cbv zeta | case_match ].

Lemma calm_stopNetworkAuthority gen : calm (stopNetworkAuthority env gen).
Proof. unfold stopNetworkAuthority, the_client. calmly. Qed.

Lemma calm_networkAuthorityStopped : calm (networkAuthorityStopped env).
Proof. unfold networkAuthorityStopped, the_client. calmly. Qed.

Lemma calm_consumeNetworkAuthority r : calm (consumeNetworkAuthority env info r).
Proof.
  unfold consumeNetworkAuthority, the_client, snapshot, Drain, check, ok, fail.
  pose proof (calm_stopNetworkAuthority 0). calmly; done.
Qed.

Lemma wp_both {A} (Q Q' : A -> St -> Prop) m st : wp Q m st -> wp Q' m st -> wp (fun a st' => Q a st' /\ Q' a st') m st.
Proof. by split. Qed.

(** The change of the journal by a reconciliation; when it fails, the client ends. *)
Lemma reconciled_continues s a a' : Active s = Some a -> continues a a' -> active_continues s (with_active s (Some a')).
Proof. intros Ha Hc b b' Hb [= <-]. assert (b = a) as -> by congruence. exact Hc. Qed.

Lemma authoritative_lease_later a l l' expiresAt : authoritative_lease a l = (l', expiresAt) -> ExpiresAt a <= expiresAt.
Proof. unfold authoritative_lease. case_match; intros [= <- <-]; lia. Qed.

Lemma reconcile_active_benign r s :
  match reconcile_active r s with
  | (Ok _, s') => benign s s' /\ PendingHeartbeat s' = PendingHeartbeat s /\ is_some (Active s') = true
  | (Fail e, _) => e = EPlain
  | _ => False
  end.
Proof.
  unfold reconcile_active. destruct (Active s) as [a|] eqn:Ha; [|done]. destruct (negb _); [done|].
  destruct (UnmarshalJob _); [|done]. destruct (RLease r); [|done]. destruct (authoritative_lease _ _) as [l' expiresAt] eqn:Hl.
  apply authoritative_lease_later in Hl. destruct (MarshalJob _); [|done].
  destruct (is_nil (CancellationId r)) eqn:Hn.
  - split_and!; [|done|done]. apply with_active_benign, (reconciled_continues _ a); [done|]. by split.
  - destruct (_ && _) eqn:Hc; [done|]. split_and!; [|done|done]. apply with_active_benign, (reconciled_continues _ a); [done|].
    split; cbn; [done|done| |done]. intros Hne. apply andb_false_iff in Hc as [Hc|Hc]; [by destruct (CancellationID a)|].
    apply negb_false_iff, bool_decide_eq_true in Hc. congruence.
Qed.

Lemma wp_update_fail change st e s' :
  inv st -> change (jstate st) = (Fail e, s') -> transient e = false -> wp settled (journal_update env change) st.
Proof.
  destruct st as [[c se] [w t]]. intros [Hc _] Hch He. unfold wp, journal_update, update, jstate in *. cbn in *. rewrite Hch. cbn.
  rewrite He. apply Hc.
Qed.

Lemma wp_applyAuthoritativeReconciliation r st :
  inv st ->
  wp (fun o st' => settled o st' /\ (o = Ok tt -> is_some (Active (jstate st')) = true)) (applyAuthoritativeReconciliation env r) st.
Proof.
  intros Hi. pose proof (reconcile_active_benign r (jstate st)) as Hr.
  unfold applyAuthoritativeReconciliation. destruct (reconcile_active r (jstate st)) as [o s'] eqn:Hc. destruct o as [[]|e| |]; try done.
  - eapply wp_mono; [apply wp_benign; [done|]|].
    + unfold benign_change. rewrite Hc. split; apply Hr.
    + cbn. intros o st' (Hl & _ & Hch). split; [by apply left_settled|]. intros ->. cbn in Hch. rewrite Hc in Hch. simplify_eq. apply Hr.
  - subst e. apply wp_both; [by eapply wp_update_fail|]. unfold wp, journal_update, update. fold (jstate st). rewrite Hc. done.
Qed.

Lemma safe_applyAuthoritativeReconciliation r : safe (applyAuthoritativeReconciliation env r).
Proof. intros st Hi. eapply wp_mono; [by apply wp_applyAuthoritativeReconciliation|]. by intros o st' [H _]. Qed.

Lemma steady_acceptUpload r now : steady (acceptRestartCompleteLogUpload env config info r now).
Proof. intros st Hi. unfold acceptRestartCompleteLogUpload. walk. Qed.

Lemma steady_forget : steady (journal_update env (plainly settled_state)).
Proof. apply steady_update, settled_benign. Qed.
#[local] Hint Resolve safe_applyAuthoritativeReconciliation steady_acceptUpload steady_forget : session.

Lemma safe_applyLateReconciliation r now : safe (applyLateReconciliation env config info r now).
Proof. intros st Hi. unfold applyLateReconciliation. walk. Qed.
#[local] Hint Resolve safe_applyLateReconciliation : session.

Lemma safe_handleSettled m phase ack now : safe (handleSettledEventAcknowledgement env config info m phase ack now).
Proof. intros st Hi. unfold handleSettledEventAcknowledgement. walk. Qed.

Lemma steady_reissueStaleEvent m now : steady (reissueStaleEvent env config info m now).
Proof. intros st Hi. unfold reissueStaleEvent. walk. Qed.
#[local] Hint Resolve safe_handleSettled steady_reissueStaleEvent : session.

(** ** Acknowledgements *)

Lemma pending_active s m : validateJournalState s = true -> pending_of s = Some m -> is_rejection m = false -> is_some (Active s) = true.
Proof.
  unfold validateJournalState, pending_of, pending_ok. rewrite !andb_true_iff. intros [_ H] Hm Hr.
  destruct (PendingMessage s) as [raw|]; [|done]. cbn in Hm. rewrite Hm in H. apply andb_true_iff in H as [_ H].
  destruct (Active s); [done|]. congruence.
Qed.

Lemma matches_active a l at' : activeMatchesIdentity a l at' = true -> is_some a = true.
Proof. by destruct a. Qed.

Lemma safe_end_lease m a : is_some a = true -> safe (end_lease env m a).
Proof. intros Ha st Hi. destruct a as [a|]; [|done]. unfold end_lease. walk. Qed.

Lemma wp_clearPendingAcknowledged m active st :
  inv st ->
  wp (fun o st' => left_inv o st' /\ (o = Ok tt -> Active (jstate st') = Active (jstate st))) (clearPendingAcknowledged env m active) st.
Proof.
  intros Hi. apply wp_both; [by apply steady_clearPendingAcknowledged|]. unfold clearPendingAcknowledged, clearPending. apply wp_try.
  eapply wp_mono; [apply wp_benign; [done|apply clear_benign]|]. cbn. intros o st1 (_ & _ & Hc).
  destruct o as [[]|e| |]; [|done|done|done]. cbn in Hc. injection Hc as Hc. apply wp_bind.
  eapply wp_mono; [|intros ? st2 H2; apply wp_ret; exact H2]. unfold rememberSettledMessage.
  destruct (is_nil _); unfold wp, jstate in *; cbn in *; intros _; by rewrite <-Hc.
Qed.

Lemma wp_after_event m now st : inv st -> is_some (Active (jstate st)) = true -> wp settled (after_event env config worker info m now) st.
Proof.
  intros Hi Ha. unfold after_event. apply wp_reads. destruct (Payload m) as [p|]; [|walk].
  destruct p; try solve [walk].
  all: destruct (recovering _); [walk|]; apply wp_reads; fold (jstate st); destruct (Active (jstate st)); [walk|done].
Qed.

Lemma wp_event_applied m s r matches now st :
  inv st -> jstate st = s -> pending_of s = Some m -> wp settled (event_applied env config worker info m s r matches now) st.
Proof.
  intros Hi <- Hm. pose proof (pending_active _ _ (client_valid st (proj1 Hi)) Hm) as Ha. unfold event_applied. cbv zeta. apply wp_try.
  eapply wp_mono with (Q := fun o st' => settled o st' /\ (o = Ok tt -> is_some (Active (jstate st)) = true -> is_some (Active (jstate st')) = true)).
  { destruct matches; [|by split]. eapply wp_mono; [by apply wp_applyAuthoritativeReconciliation|]. cbn. intros o st' [H1 H2]. auto. }
  intros o st1 [Hi1 H1]. destruct o as [[]|e| |]; [|exact Hi1..]. cbn in Hi1. specialize (H1 eq_refl). apply wp_bind.
  eapply wp_mono with (Q := fun _ st' => inv st' /\ jstate st' = jstate st1).
  { destruct (_ && _); [|by split]. apply wp_both; [by apply keeps_networkAuthorityStopped|apply calm_networkAuthorityStopped]. }
  intros stopped st2 [Hi2 H2]. destruct (_ && _); [walk|]. destruct (stale r); [walk|].
  destruct (is_rejection m) eqn:Hr; cbn [orb]; [walk|]. specialize (Ha eq_refl).
  destruct (terminalLeaseStatus _); [walk|]. destruct (is_terminal_event m).
  { eapply wp_bind_keeps; [auto with session|done|]. intros ? st3 Hi3. by apply safe_end_lease. }
  destruct (negb _); [walk|]. apply wp_try. eapply wp_mono; [by apply wp_clearPendingAcknowledged|].
  cbn. intros o st3 [Hi3 H3]. destruct o as [[]|e| |]; [|by apply left_settled in Hi3..].
  apply wp_after_event; [apply Hi3|]. rewrite (H3 eq_refl), H2. by apply H1.
Qed.

Lemma safe_handlePendingAcknowledgement m s r now st :
  inv st -> jstate st = s -> pending_of s = Some m -> wp settled (handlePendingAcknowledgement env config worker info m s r now) st.
Proof.
  intros Hi Hs Hm. unfold handlePendingAcknowledgement. destruct (runnerMessageIdentity m) as [l a].
  apply wp_check; [intros _|auto with session]. cbv zeta. apply wp_try.
  eapply wp_mono; [apply wp_both; [by apply steady_consumeNetworkAuthority|apply calm_consumeNetworkAuthority]|].
  intros o st1 [Hi1 H1]. destruct o as [[]|e| |]; [|by apply left_settled in Hi1..]. destruct Hi1 as [Hi1 _].
  destruct (negb _ && _); [walk|]. destruct (terminalLeaseStatus _ && _) eqn:Ht.
  - apply safe_end_lease; [|done]. apply andb_true_iff in Ht as [_ Ht]. by eapply matches_active.
  - apply wp_event_applied; [done|congruence|done].
Qed.

Lemma safe_handleEventAcknowledgement ack now : safe (handleEventAcknowledgement env config worker info ack now).
Proof.
  intros st Hi. unfold handleEventAcknowledgement. do 2 (apply wp_check; [intros _|auto with session]). apply wp_reads.
  destruct (settledEvents _ !! _) as [[settled phase]|]; [walk|]. apply wp_reads. fold (jstate st).
  destruct (PendingMessage (jstate st) ≫= UnmarshalRunner) as [m|] eqn:Hm; [|walk]. destruct (AckReconciliation ack); [|walk].
  apply wp_check; [intros _|auto with session]. by apply safe_handlePendingAcknowledgement.
Qed.
#[local] Hint Resolve safe_handleEventAcknowledgement : session.

(** ** Heartbeats *)

Lemma heartbeat_journaled s m : validateJournalState s = true -> heartbeat_of s = Some m -> journaled s m.
Proof.
  intros Hv Hm. split; [|done]. intros Hd. pose proof (heartbeat_valid s m Hv Hm) as Hh.
  unfold is_heartbeat, durableRunnerMessage in *. by destruct (Payload m) as [[]|].
Qed.

(** The heartbeat a session waits for may be sent again. *)
Lemma wp_resend m st : inv st -> pendingHeartbeat st.1.2 = Some m -> wp left_inv (send env m) st.
Proof.
  intros Hi Hm. pose proof (session_heartbeat _ (proj2 Hi) m Hm) as Hh.
  eapply wp_mono; [apply wp_send; [done|..]|by intros o st' [H _]].
  - apply heartbeat_journaled; [apply client_valid, Hi|done].
  - apply sound_known; [by constructor 3|apply client_sound, Hi].
Qed.

Lemma wp_on_session {B} (Q : B -> St -> Prop) f (k : unit -> M St B) st :
  wp Q (k tt) (st.1.1, f st.1.2, st.2) -> wp Q (bind (on_session f) k) st.
Proof. done. Qed.

Lemma client_inv_session se st : client_inv st -> client_inv (st.1.1, se, st.2).
Proof. intros [? ? ?]. by split. Qed.

Definition add_heartbeat (encoded : RunnerBytes) (s : journalState) : outcome unit * journalState :=
  match PendingHeartbeat s with
  | Some _ => (Fail EPlain, s)
  | None => (Ok tt, with_heartbeat s (Some encoded))
  end.

Lemma add_heartbeat_permitted m encoded st n :
  inv st -> MarshalRunner m = Some encoded -> id_sequence (MessageId m) = Some n ->
  fresh (sent (trace st)) (jstate st) n -> permitted (add_heartbeat encoded) st.
Proof.
  intros [Hi _] He Hn Hf s' Hc Hv. unfold add_heartbeat in Hc. destruct (PendingHeartbeat (jstate st)); [done|]. injection Hc as <-. split.
  - eapply sound_added; [by apply client_sound|exact Hf|intros k; by apply numbered_number|done|done|].
    intros x [Hx|Hx|Hx]; [right; by constructor 1|right; by constructor 2|].
    unfold heartbeat_of in Hx. cbn in Hx. rewrite (runner_roundtrip _ _ He) in Hx. left. congruence.
  - split; cbn; [lia|intros; congruence|by apply active_same].
Qed.

Lemma add_heartbeat_atomic encoded s : atomic (add_heartbeat encoded) s.
Proof. intros o s' Hc Ho. unfold add_heartbeat in Hc. destruct (PendingHeartbeat s); by injection Hc as <- <-. Qed.

(** A heartbeat that is new to the session: the journal holds it before it is sent. *)
Lemma wp_new_heartbeat m encoded st :
  inv st -> pendingHeartbeat st.1.2 = None -> MarshalRunner m = Some encoded ->
  id_sequence (MessageId m) = Some (MessageSequence (jstate st)) -> fresh (sent (trace st)) (jstate st) (MessageSequence (jstate st)) ->
  wp left_inv (journal_update env (add_heartbeat encoded) >>
               on_session (fun se => set_heartbeatDeferred (set_pendingHeartbeat se (Some m)) false) ;; send env m) st.
Proof.
  intros Hi Hse He Hn Hf. apply wp_try.
  apply wp_update; [done|by eapply add_heartbeat_permitted|apply add_heartbeat_atomic|]. intros o st1 Hi1 Hq Hc.
  assert (Hs1 : session_inv st1).
  { split; rewrite (quiet_session _ _ Hq); [by rewrite Hse|apply (session_secret _ (proj2 Hi))]. }
  unfold changed, add_heartbeat in Hc. destruct o as [[]|e| |].
  - destruct (PendingHeartbeat (jstate st)); [done|]. injection Hc as Hc. apply wp_on_session, wp_resend; [|done].
    split; [by apply client_inv_session|]. split; cbn; [|apply Hs1]. intros m' [= <-]. unfold heartbeat_of, jstate in *. cbn.
    rewrite <-Hc. cbn. by apply runner_roundtrip.
  - by apply left_fail.
  - by destruct (PendingHeartbeat (jstate st)).
  - by destruct (PendingHeartbeat (jstate st)).
Qed.

Lemma wp_heartbeatMessage now leases st :
  inv st ->
  wp (fun o st' => inv st' /\ match o with
        | Ok m => id_sequence (MessageId m) = Some (MessageSequence (jstate st'))
                  /\ fresh (sent (trace st')) (jstate st') (MessageSequence (jstate st')) /\ st'.1.2 = st.1.2
        | Fail _ => True
        | _ => False
        end) (heartbeatMessage env config now leases) st.
Proof.
  intros Hi. unfold heartbeatMessage. apply wp_try.
  eapply wp_mono; [apply wp_benign; [done|apply next_heartbeat_benign]|]. intros o st1 ((Hi1 & Hp & Hd) & Hq & _).
  destruct o as [[]|e| |]; [|done|done|done]. apply wp_reads. unfold capacity. apply wp_bind, wp_reads, wp_ret.
  eapply wp_mono; [by apply wp_runnerMessage|]. intros o st2 [Hi2 Ho]. split; [done|]. destruct o as [m|e| |]; [|done..].
  destruct Ho as [Hq2 _ _ Hn Hf]. split_and!; [done|done|]. rewrite (quiet_session _ _ Hq2). apply Hq.
Qed.

Lemma steady_sendHeartbeat now : steady (sendHeartbeat env config now).
Proof.
  intros st Hi. unfold sendHeartbeat. apply wp_reads, wp_reads. fold (jstate st). apply wp_try.
  eapply wp_mono with (Q := fun o st' => left_inv o st' /\ jstate st' = jstate st).
  { destruct (pendingHeartbeat st.1.2) eqn:Hse; [by split; [apply left_ok|]|].
    destruct (PendingHeartbeat (jstate st)) as [raw|] eqn:Hp; [|by split; [apply left_ok|]].
    destruct (UnmarshalRunner raw) as [m|] eqn:Hm; [|by split; [apply left_fail|]]. apply wp_on_session, wp_ret. split; [|done].
    apply left_ok. split; [apply client_inv_session, Hi|]. split; cbn; [|apply Hi]. intros m' [= <-]. unfold heartbeat_of, jstate in *. cbn. by rewrite Hp. }
  intros o st1 [Hi1 H1]. destruct o as [[]|e| |]; [|apply Hi1..]. destruct Hi1 as [Hi1 _]. apply wp_reads.
  destruct (pendingHeartbeat st1.1.2) as [m|] eqn:Hse.
  - cbv zeta. assert (H : forall b, inv (st1.1.1, set_heartbeatDeferred st1.1.2 b, st1.2))
      by (intros b; apply (inv_on_session (fun se => set_heartbeatDeferred se b)); [by split; right|done]).
    case_match; [case_match|]; apply wp_on_session; [by apply wp_ret, left_ok|..];
      (apply wp_resend; [apply H|done]).
  - apply wp_try. eapply wp_mono with (Q := fun o st' => left_inv o st' /\ st' = st1); [repeat case_match; by split; [apply steady_ret || apply steady_fail|]|].
    intros o st' [Hi' ->]. destruct o as [leases|e| |]; [|apply left_fail, Hi'|by destruct Hi' as (? & ? & ?)..]. apply wp_try. eapply wp_mono; [by apply wp_heartbeatMessage|].
    intros o st2 [Hi2 Ho]. destruct o as [m|e| |]; [|by apply left_fail|done|done]. destruct Ho as (Hn & Hf & Hs2).
    destruct (MarshalRunner m) as [encoded|] eqn:He; [|by apply left_fail]. apply wp_new_heartbeat; by rewrite ?Hs2.
Qed.
#[local] Hint Resolve steady_sendHeartbeat : session.

Lemma safe_heartbeat_reconciliations now rs : forall leases, length rs = length leases -> safe (heartbeat_reconciliations env config info rs leases now).
Proof.
  induction rs as [|r rs IH]; intros [|l leases] Hl st Hi; cbn [heartbeat_reconciliations]; try done.
  injection Hl as Hl. specialize (IH leases Hl). destruct r; walk.
Qed.

Lemma cleared_permitted st : inv st -> permitted (plainly (fun s => with_heartbeat s None)) st.
Proof.
  intros [Hi _] s' [= <-] Hv. assert (benign (jstate st) (with_heartbeat (jstate st) None)) as Hb by (split; cbn; [lia|by right|by left|by apply active_same]).
  split; [by apply (benign_sound _ _ _ Hb), client_sound|by apply benign_follows].
Qed.

(** The heartbeat leaves the journal, and then the session. *)
Lemma safe_heartbeat_settled m :
  safe (journal_update env (plainly (fun s => with_heartbeat s None)) >>
        on_session (fun se => set_heartbeatDeferred (set_pendingHeartbeat se None) false) ;;
        rememberAcknowledgedHeartbeat m ;; ok).
Proof.
  intros st Hi. apply wp_try. apply wp_update; [done|by apply cleared_permitted|by intros o s' [= <- <-]|].
  intros o st1 Hi1 Hq Hc. destruct o as [[]|e| |].
  - apply wp_on_session. set (st2 := (st1.1.1, _, st1.2)). assert (inv st2); [|walk].
    split; [by apply client_inv_session|]. split; cbn; [done|]. rewrite (quiet_session _ _ Hq). apply Hi.
  - cbn. destruct (transient e); [done|apply Hi1].
  - done.
  - done.
Qed.
#[local] Hint Resolve safe_heartbeat_settled : session.

Lemma safe_handleHeartbeatAcknowledgement ack now : safe (handleHeartbeatAcknowledgement env config info ack now).
Proof.
  intros st Hi. unfold handleHeartbeatAcknowledgement. walk.
  eapply wp_try_safe; [apply safe_heartbeat_reconciliations; lia|done|intros ? ? ?]. walk.
Qed.
#[local] Hint Resolve safe_handleHeartbeatAcknowledgement : session.

(** ** Offers and cancellations *)

Lemma steady_rejectOffer offer reason summary : steady (rejectOffer env config info offer reason summary).
Proof. intros st Hi. unfold rejectOffer. walk. Qed.
#[local] Hint Resolve steady_rejectOffer : session.

Lemma mutation_become_active a s : mutation (become_active a) s.
Proof.
  unfold mutation, become_active. destruct (Active s) eqn:Ha, (PendingMessage s) eqn:Hp; cbn; auto.
  split_and!; [done..|]. intros ? ? Hb. congruence.
Qed.

Lemma steady_queue_accepted p a : steady (queueDurable env config info p (become_active a)).
Proof. intros st Hi. apply wp_queueDurable; [done|]. intros s _. apply mutation_become_active. Qed.
#[local] Hint Resolve steady_queue_accepted : session.

Lemma steady_accept_offer m encoded job target now : steady (accept_offer env config info m encoded job target now).
Proof. intros st Hi. unfold accept_offer. walk. Qed.

Lemma steady_busy_offer m offer encoded a : steady (busy_offer env config info m offer encoded a).
Proof. intros st Hi. unfold busy_offer. walk. Qed.
#[local] Hint Resolve steady_accept_offer steady_busy_offer : session.

Lemma validateOfferVersion_job offer c now lease correlation identity maximum :
  validateOfferVersion (Some offer) c now lease correlation identity maximum = None -> is_some (OfferJob offer) = true.
Proof. unfold validateOfferVersion. cbn [mbind option_bind]. destruct (OfferJob offer); [done|]. intros [=]. Qed.

(** An offer that is not refused has a job. *)
Lemma offer_rejection_cases offer now :
  match offer_rejection config info offer now with
  | Ok None => is_some (OfferJob offer) = true
  | Ok (Some _) => True
  | _ => False
  end.
Proof.
  unfold offer_rejection. destruct ((OfferJob offer ≫= JEffectivePolicy) ≫= NetworkV2) as [n|] eqn:Hn.
  - destruct (if terminalEvidenceV2 info then _ else None) as [maximum|]; [|exact I].
    destruct (validateNetworkV2Offer _ _ _ _ _ _); [exact I|].
    destruct (OfferJob offer ≫= JEffectivePolicy) as [policy|] eqn:Hp; [|discriminate Hn].
    destruct (when _ _); [exact I|]. by destruct (OfferJob offer).
  - destruct (validateOffer _ _ _ _ _ _) eqn:H; [exact I|]. unfold validateOffer in H. by apply validateOfferVersion_job in H.
Qed.

Lemma steady_handleOffer m offer now : steady (handleOffer env config worker info m offer now).
Proof.
  intros st Hi. unfold handleOffer. walk. pose proof (offer_rejection_cases offer now) as Ho.
  apply wp_try, wp_ret. destruct (offer_rejection config info offer now) as [[r|]| | |]; try done; [unfold reject_with; walk|].
  destruct (OfferJob offer); [|done]. unfold reject_with. walk.
Qed.
#[local] Hint Resolve steady_handleOffer : session.

(** A command cancels a job that was not being cancelled, or whose cancellation was
    announced without it. *)
Lemma cancelled_continues s a id deadline digest :
  validateJournalState s = true -> Active s = Some a ->
  is_nil (CancellationID a) || bool_decide (CancellationID a = id) && (zlen (CancellationDigest a) =? 0) = true ->
  continues a (with_phase (with_cancellation a id deadline digest) JOB_PHASE_CANCELLING).
Proof.
  intros Hv Ha H. unfold validateJournalState in Hv. rewrite Ha in Hv. unfold active_ok, cancellation_ok in Hv.
  rewrite !andb_true_iff in Hv. destruct Hv as [[_ [_ [Hv _]]] _].
  assert (Hd : CancellationDigest a = []).
  { apply nil_length_inv. destruct (CancellationID a); [rewrite bool_decide_eq_true_2 in Hv by done|apply andb_true_iff in H as [_ H]];
      unfold zlen in *; lia. }
  split; cbn; [done|done| |congruence]. intros Hne. destruct (CancellationID a); [done|].
  apply orb_true_iff in H as [H|H]; [done|]. apply andb_true_iff in H as [H _]. by apply bool_decide_eq_true in H.
Qed.

Lemma safe_handleCancellation cancel now : safe (handleCancellation env config info cancel now).
Proof.
  intros st Hi. unfold handleCancellation. destruct (_ || _); [walk|]. apply wp_reads. fold (jstate st).
  destruct (Active (jstate st)) as [a|] eqn:Ha; [|walk]. walk.
  apply wp_try. eapply wp_mono; [apply wp_benign; [done|]|].
  - unfold benign_change, of_active. rewrite Ha. split; [|done]. apply with_active_benign, (reconciled_continues _ a); [done|].
    eapply cancelled_continues; [apply (client_valid st), Hi|exact Ha|done].
  - intros o st1 [Ho _]. destruct o as [[]|e| |]; [|by apply left_settled in Ho..]. destruct Ho as [Ho _]. walk.
Qed.
#[local] Hint Resolve safe_handleCancellation : session.

(** ** Rotation of the credential *)

(** A message that is numbered, but neither durable nor a heartbeat. *)
Lemma wp_send_prepared p st st' m :
  inv st' -> prepared p st st' m -> durableRunnerMessage m = false -> is_heartbeat m = false -> wp left_inv (send env m) st'.
Proof.
  intros Hi [_ _ _ Hn Hf] Hd Hh. eapply wp_mono; [apply wp_send; [done|split; congruence|]|by intros o st1 [H _]].
  destruct (numbered m) as [n|] eqn:Hm; [|apply sound_unnumbered; [done|apply client_sound, Hi]].
  eapply sound_fresh; [exact Hm| |apply client_sound, Hi]. pose proof (numbered_number m n _ Hn Hm) as ->. exact Hf.
Qed.

Lemma validateCredentialRotation_fingerprint rotation now metadata credential :
  validateCredentialRotation rotation now = Some (metadata, credential) -> CrFingerprint metadata = Sum256 credential.
Proof. unfold validateCredentialRotation. repeat case_match; intros; by simplify_eq. Qed.

Lemma sameCredentialRotation_fingerprint left right : sameCredentialRotation left right = true -> CrFingerprint left = CrFingerprint right.
Proof. unfold sameCredentialRotation. rewrite !andb_true_iff. intros [[[[_ H] _] _] _]. by apply bool_decide_eq_true in H. Qed.

(** The journal names the credential before the store is given it. *)
Lemma begin_rotation_fingerprint metadata s s' :
  begin_rotation metadata s = (Ok tt, s') -> exists r, CredentialRotation s' = Some r /\ CrFingerprint r = CrFingerprint metadata.
Proof.
  unfold begin_rotation. destruct (CredentialRotation s) as [r|]; [|intros [= <-]; by exists metadata].
  destruct (negb _) eqn:H; [done|]. apply negb_false_iff, sameCredentialRotation_fingerprint in H. intros [= <-]. cbn.
  eexists; split; [done|]. by case_match.
Qed.

Lemma wp_replace {B} (Q : B -> St -> Prop) credential (k : bool -> M St B) st r :
  inv st -> CredentialRotation (jstate st) = Some r -> CrFingerprint r = Sum256 credential ->
  (forall b st', inv st' -> st'.1 = st.1 -> wp Q (k b) st') -> wp Q (bind (lift (replace_credential env credential)) k) st.
Proof.
  destruct st as [[c se] [w t]]. intros [[Hdu Hl Hd] [Hh Hs]] Hr Hf Hk. unfold trace, jstate in *. cbn in *. apply wp_bind.
  unfold wp, lift. cbn. destruct (replace_credential base credential w) as [b w']. cbn. apply Hk; [|done].
  repeat split; unfold trace, jstate; cbn; [done|by eapply lawful_replace|done|done|done].
Qed.

Lemma steady_commit_rotation metadata now :
  steady (let* err := caught (journal_update env (commit_rotation config metadata now)) in
          if is_some err then fail ERotationReconnect
          else
            let! s := snapshot in
            match CredentialRotation s with
            | None => ret Panic
            | Some committed =>
                let* m := runnerMessage env config (RotationAcknowledgementOf (CrRotationID committed) (CrFingerprint committed)
                                           (Some (TimestampNew (CrPersistedAt committed)))) in
                let* err := caught (send env m) in
                match err with
                | None => fail ERotationReconnect
                | Some e =>
                    let! fired := lift (timer_fired env (CrReconnectBefore metadata)) in
                    fail (if fired : bool then ERotationReconnect else e)
                end
            end : G unit).
Proof.
  intros st Hi. apply wp_try, wp_caught. eapply wp_mono; [apply wp_benign; [done|apply commit_rotation_benign]|].
  intros o st1 ((Hi1 & Hp & Hd) & _ & Hc). destruct o as [[]|e| |]; [|by apply left_fail|done|done]. cbn [is_some]. apply wp_reads.
  cbn in Hc. unfold commit_rotation in Hc. destruct (CredentialRotation (jstate st)) as [r|]; [|done]. destruct (negb _); [done|].
  injection Hc as Hc. fold (jstate st1). rewrite <-Hc. cbn [CredentialRotation with_credentials].
  apply wp_try. eapply wp_mono; [by apply wp_runnerMessage|]. intros o st2 [Hi2 Ho].
  destruct o as [m|e| |]; [|by apply left_fail|done|done]. pose proof (prepared_payload _ _ _ _ Ho) as Hpl.
  apply wp_try, wp_caught. eapply wp_mono; [eapply wp_send_prepared; [done|exact Ho|unfold durableRunnerMessage; by rewrite Hpl|unfold is_heartbeat; by rewrite Hpl]|].
  intros o st3 (Hi3 & ? & ?). destruct o as [[]|e| |]; [by apply left_fail|walk|done|done].
Qed.

Lemma steady_handleCredentialRotation rotation now : steady (handleCredentialRotation env config rotation now).
Proof.
  intros st Hi. unfold handleCredentialRotation. destruct (negb _); [walk|].
  destruct (validateCredentialRotation rotation now) as [[metadata credential]|] eqn:Hv; [|walk]. cbv zeta.
  apply validateCredentialRotation_fingerprint in Hv. apply wp_try, wp_caught.
  eapply wp_mono; [apply wp_benign; [done|apply begin_rotation_benign]|]. intros o st1 ((Hi1 & Hp & Hd) & _ & Hc).
  destruct o as [[]|e| |]; [|by apply left_fail|done|done]. cbn [is_some]. cbn in Hc.
  apply begin_rotation_fingerprint in Hc as (r & Hr & Hf). eapply wp_replace; [done|exact Hr|by rewrite Hf|].
  intros b st2 Hi2 _. destruct (negb b); [walk|]. eapply wp_bind_keeps; [auto with session|done|intros ? st3 Hi3].
  by apply steady_commit_rotation.
Qed.
#[local] Hint Resolve steady_handleCredentialRotation : session.

(** ** Messages of the gateway *)

Lemma steady_reconcileRotation : steady (reconcileCredentialRotationAfterAuthentication env config).
Proof.
  intros st Hi. unfold reconcileCredentialRotationAfterAuthentication. walk. apply steady_update; [|done].
  intros s. apply finish_rotation_benign.
Qed.

Lemma less_seen se m d : less se (set_seenOrder (set_seen se m) d).
Proof. by split; right. Qed.

Lemma less_bound_seen se : less se (bound_seen se).
Proof. unfold bound_seen. repeat case_match; by split; right. Qed.

Lemma less_trans se1 se2 se3 : less se1 se2 -> less se2 se3 -> less se1 se3.
Proof. unfold less. intros [H1 H2] [H3 H4]. split; [destruct H1, H3|destruct H2, H4]; intuition congruence. Qed.

Lemma steady_refuse m : steady (refuseTestSecretDelivery m).
Proof. apply steady_check. Qed.
#[local] Hint Resolve steady_reconcileRotation steady_refuse : session.

Lemma steady_rememberGatewayMessage m : steady (rememberGatewayMessage m).
Proof. intros st Hi. unfold rememberGatewayMessage. walk. Qed.

Lemma steady_gatewayMessageDuplicate m : steady (gatewayMessageDuplicate env m).
Proof.
  intros st Hi. unfold gatewayMessageDuplicate. walk. eapply wp_bind_keeps; [|eassumption|intros ? ? ?; walk].
  apply keeps_on_session. intros se. eapply less_trans; [apply less_seen|apply less_bound_seen].
Qed.

Lemma safe_handleGatewayMessage m now : safe (handleGatewayMessage env config worker info m now).
Proof. intros st Hi. unfold handleGatewayMessage. walk. Qed.
#[local] Hint Resolve steady_rememberGatewayMessage steady_gatewayMessageDuplicate safe_handleGatewayMessage : session.

Lemma safe_session_step i : safe (session_step env config worker info i).
Proof. intros st Hi. unfold session_step. walk. Qed.
#[local] Hint Resolve safe_session_step : session.

Lemma safe_session_loop is' : safe (session_loop env config worker info is').
Proof. induction is' as [|i is' IH]; intros st Hi; cbn [session_loop]; walk. Qed.

Lemma wp_try_left {A B} (m : G A) (k : A -> G B) st :
  wp left_inv m st -> (forall a st', inv st' -> wp left_inv (k a) st') -> wp left_inv (try m k) st.
Proof.
  intros Hm Hk. apply wp_try. eapply wp_mono; [exact Hm|]. intros [] ? (H & ? & ?); [auto|by apply left_fail|done|done].
Qed.

Lemma steady_open_session first now : steady (open_session env config info first now).
Proof.
  intros st Hi. unfold open_session. eapply wp_try_steady; [auto with session|done|intros _ st1 Hi1]. apply wp_reads. fold (jstate st1).
  apply wp_try_left; [|intros ? ? ?; walk]. destruct (PendingMessage (jstate st1)) as [raw|] eqn:Hp; [|walk].
  destruct (UnmarshalRunner raw) as [m|] eqn:Hm; [|walk]. apply wp_sendRetained; [done|]. unfold pending_of. by rewrite Hp.
Qed.

Lemma passive_close_session : passive (close_session env info).
Proof. unfold close_session, stopNetworkAuthority, stopSecretWorker, abandonSecretRequest, the_client, the_session. passively. Qed.

(** What a session does, from its first message to its end. *)
Lemma safe_session first now is' :
  safe (finally (open_session env config info first now >> session_loop env config worker info is') (close_session env info)).
Proof.
  intros st Hi. unfold finally. apply wp_bind.
  eapply wp_mono; [eapply wp_try_safe; [apply steady_safe, steady_open_session|done|intros ? ? ?; by apply safe_session_loop]|].
  intros o st1 Ho. apply passive_settled; [apply passive_close_session|apply keeps_close_session|done].
Qed.

End session.

(** ** Connections *)

(** The messages that open a connection. *)
Definition opening (p : payload) : bool := match p with Authenticate _ _ _ _ | CapabilitiesOf _ => true | _ => false end.

Lemma wp_send_opening p st st' m : opening p = true -> inv st' -> prepared p st st' m -> wp left_inv (send env m) st'.
Proof.
  intros Hp Hi Ho. pose proof (prepared_payload _ _ _ _ Ho) as Hpl.
  eapply wp_send_prepared; [done|exact Ho|..]; [unfold durableRunnerMessage|unfold is_heartbeat]; rewrite Hpl; by destruct p.
Qed.

Lemma steady_authenticate first : steady (authenticate env config first).
Proof.
  intros st Hi. unfold authenticate. eapply wp_try_steady; [apply steady_refuse|done|intros _ st1 Hi1].
  apply wp_untraced. intros now st2 H1 H2. pose proof (inv_same _ _ H1 H2 Hi1) as Hi2.
  destruct (validateAuthenticated _ _ _); [|by apply left_fail].
  eapply wp_bind_keeps; [apply keeps_clearRecoveryTarget|done|intros ? st3 Hi3]. by apply wp_ret, left_ok.
Qed.

Lemma keeps_capabilities maximum : keeps (capabilities env config worker maximum).
Proof.
  unfold capabilities. apply keeps_bind; [apply keeps_reads|intros s]. apply keeps_bind; [apply keeps_untraced|intros evidence].
  apply keeps_bind; [apply keeps_capacity|intros cap]. apply keeps_ret.
Qed.

Lemma steady_announce maximum a : steady (announce env config worker maximum a).
Proof.
  intros st Hi. unfold announce. eapply wp_caught_steady; [apply steady_reconcileRotation|done|intros err st1 Hi1].
  destruct (is_some err); [by apply left_fail|]. apply wp_reads.
  eapply wp_bind_keeps; [apply keeps_on_client; by intros []|done|intros ? st2 Hi2]. unfold capabilitiesMessage.
  apply wp_try, wp_bind. eapply wp_mono; [by apply keeps_capabilities|]. intros c st3 Hi3.
  apply wp_check; [intros _|by apply left_fail]. apply wp_try.
  eapply wp_mono; [by apply wp_runnerMessage|]. intros o st4 [Hi4 Ho].
  destruct o as [m|e| |]; [|by apply left_fail|done|done]. apply wp_ret.
  apply wp_try_left; [by eapply wp_send_opening; [|done|exact Ho]|intros; by apply wp_ret, left_ok].
Qed.

Lemma new_session_inv st : client_inv st -> inv (st.1.1, new_session, st.2).
Proof. intros Hc. split; [by apply client_inv_session|by split]. Qed.

Lemma steady_hello first :
  steady (let* m := authenticateMessage env config in
          send env m >>
          match first with
          | inr e => fail e
          | inl first => let* (a, now) := authenticate env config first in ret (Ok (first, a, now))
          end).
Proof.
  intros st Hi. apply wp_try. unfold authenticateMessage. apply wp_reads.
  eapply wp_mono; [by apply wp_runnerMessage|]. intros o st1 [Hi1 Ho].
  destruct o as [m|e| |]; [|by apply left_fail|done|done]. apply wp_try_left; [by eapply wp_send_opening; [|done|exact Ho]|].
  intros _ st2 Hi2. destruct first as [first|e]; [|by apply left_fail].
  eapply wp_try_steady; [apply steady_authenticate|done|]. intros [a now] st3 Hi3. by apply wp_ret, left_ok.
Qed.

Lemma wp_runSession maximum first is' st :
  client_inv st -> wp (fun r st' => settled (snd r) st') (runSession env config worker maximum first is') st.
Proof.
  intros Hc. unfold runSession. apply wp_on_session. pose proof (new_session_inv st Hc) as Hi. apply wp_bind.
  eapply wp_mono; [by apply steady_hello|]. intros o st1 Ho.
  destruct o as [[[f a] now]|e| |]; [|apply wp_ret; by apply left_settled in Ho..]. destruct Ho as [Hi1 _]. apply wp_bind.
  eapply wp_mono; [|intros o st2 H2; apply wp_ret; exact H2].
  eapply wp_try_safe; [apply steady_safe, steady_announce|done|]. intros info st2 Hi2. by apply safe_session.
Qed.

(** How a client leaves its trace. *)
Definition ended {A} (o : outcome A) (st : St) : Prop := lawful (trace st) /\ o <> Panic.

Lemma settled_ended {A} (o : outcome A) st : settled o st -> ended o st.
Proof.
  destruct o as [a|e| |]; cbn; intros H; split; try done; [apply H| |apply H]. destruct (transient e); [apply H|done].
Qed.

Lemma wp_run_loop maximum ts : forall delay st, client_inv st -> wp ended (run_loop env config worker maximum ts delay) st.
Proof.
  induction ts as [|t ts IH]; intros delay st Hc; cbn [run_loop]; [split; [apply Hc|done]|]. apply wp_bind.
  eapply wp_mono with (Q := fun r st' => settled (snd r) st').
  { destruct t as [e|first is']; [|by apply wp_runSession]. apply wp_ret. cbn. destruct (transient e); [done|apply Hc]. }
  intros [established o] st1 Ho. cbn [snd] in Ho. destruct o as [a|e| |]; [by apply settled_ended in Ho| |done|by apply settled_ended in Ho].
  unfold after_session. destruct (transient e) eqn:He; cbn [negb]; [|by apply settled_ended in Ho].
  cbn in Ho. rewrite He in Ho. destruct e; by apply IH.
Qed.

Lemma wp_Run maximum ts queued st : client_inv st -> wp ended (Run env config worker maximum ts queued) st.
Proof.
  intros Hc. unfold Run, finally. apply wp_bind. eapply wp_mono; [by apply wp_run_loop|]. intros o st1 [Hl Hp].
  apply wp_bind. eapply wp_mono; [|intros ? st2 H2; apply wp_ret; exact H2].
  eapply wp_mono; [apply passive_bind; [apply passive_stopWorker|intros; apply passive_discard_all]|].
  intros ? st2 (_ & _ & H2). split; [auto|done].
Qed.

(** ** Starting *)

Lemma lawful_unsent t : lawful t -> on_disk t = None -> sent t = [].
Proof.
  induction 1 as [| | s t Hl IH Ht Hs Hf | | | |]; intros Hd; cbn in *; auto; unfold on_disk in *; cbn in *; congruence.
Qed.

Lemma sound_empty : sound [] empty_state.
Proof.
  split; [done|..].
  - intros m n [Hm|Hm|Hm]; [by apply elem_of_nil in Hm|done|done].
  - intros m m' n [Hm|Hm|Hm]; [by apply elem_of_nil in Hm|done|done].
Qed.

(** The first journal, of a runner that has none. *)
Lemma persisted_first t e t' : lawful t -> disk t = None -> persisted empty_state t true e t' ->
  lawful t' /\ on_disk t' = Some empty_state.
Proof.
  intros Hl Hd Hp. inversion Hp as [| |raw e' Hr]; subst. assert (on_disk t = None) as Hod by (unfold on_disk; by rewrite Hd).
  unfold on_disk. cbn. rewrite (journal_roundtrip _ _ Hr). split; [|done].
  apply lawful_rename with (s := empty_state); [by constructor|by cbn; rewrite (journal_roundtrip _ _ Hr)| |].
  - cbn. rewrite lawful_unsent by done. apply sound_empty.
  - intros s0 H0. change (on_disk t = Some s0) in H0. congruence.
Qed.

Lemma persisted_lawful_first t e t' committed : lawful t -> persisted empty_state t committed e t' -> disk t = None -> lawful t'.
Proof.
  intros Hl Hp Hd. destruct committed; [by eapply persisted_first|]. inversion Hp; subst; [done|by constructor].
Qed.

(** What a client may be opened with. *)
Definition openable (r : journal + gerr) (t : list act) : Prop :=
  lawful t /\ match r with inl j => durable j = true /\ on_disk t = Some (state j) | inr _ => True end.

Lemma create_journal_inv w t r w' t' :
  lawful t -> disk t = None ->
  (let! made := MkdirAll (fs env) in
   match made with
   | Some temporary => ret (inr (EEnvironment temporary))
   | None =>
       let! (_, err) := persistLocked (fs env) {| durable := true; state := empty_state |} in
       ret (match err with Some e => inr e | None => inl {| durable := true; state := empty_state |} end)
   end) (w, t) = (r, (w', t')) -> openable r t'.
Proof.
  intros Hl Hd. unfold bind. destruct (MkdirAll (fs env) (w, t)) as [made [w1 t1]] eqn:Hm. apply untraced_trace in Hm. subst t1.
  destruct made; [unfold ret; by intros [= <- <- <-]|].
  destruct (persistLocked _ _ _) as [[committed err] [w2 t2]] eqn:Hp. apply persist_trace in Hp. unfold ret. intros [= <- <- <-].
  split; [by eapply persisted_lawful_first|]. destruct err; [done|]. split; [done|].
  inversion Hp; subst. by eapply persisted_first.
Qed.

Lemma open_journal_inv w t r w' t' : lawful t -> openJournal (fs env) true (w, t) = (r, (w', t')) -> openable r t'.
Proof.
  intros Hl. unfold openJournal. cbn [negb]. unfold bind at 1. cbn [fs traced ReadJournal traced_fs]. unfold read_disk.
  destruct (ReadJournal (fs base) w) as [read w1]. destruct read as [| |data].
  2:{ unfold ret. by intros [= <- <- <-]. }
  all: destruct (disk t) as [raw|] eqn:Hd; [|by apply create_journal_inv].
  all: assert (Hod : on_disk t = DecodeJournal raw) by (unfold on_disk; by rewrite Hd).
  all: destruct (DecodeJournal raw) as [s|]; [destruct (validateJournalState s)|]; unfold ret; by intros [= <- <- <-].
Qed.

Lemma newClientWithWorker_inv credential w t (r : Client + gerr) w' t' :
  lawful t -> newClientWithWorker env true credential (w, t) = (r, (w', t')) ->
  lawful t' /\ match r with inl c => client_inv (c, new_session, (w', t')) | inr _ => True end.
Proof.
  intros Hl. unfold newClientWithWorker, bind. destruct (openJournal (fs env) true (w, t)) as [opened [w1 t1]] eqn:Ho.
  apply open_journal_inv in Ho as [Hl1 Ho]; [|done]. destruct opened as [j|e]; [|unfold ret; by intros [= <- <- <-]].
  destruct (open_evidence env _ (w1, t1)) as [refused [w2 t2]] eqn:He. apply untraced_trace in He. subst t2.
  unfold ret. intros [= <- <- <-]. split; [done|]. destruct refused; [done|]. destruct Ho as [Hd Ho].
  by split.
Qed.

End invariant.
