(* ===== verification/History.v ===== *)
(** Histories of a runner: clients that are opened on the journal an earlier one left,
    run over any connections, and stop or crash at any point. *)

From Stdlib Require Import ZifyBool.
From S2P Require Import Prelude Utf8 Strconv Json Endian Sha256 World Execution Policy Binder Messages Authority Url Offer.
From S2P Require Import Journal Wp ClientState Session SessionTrace SessionInv SessionSample Supervise.
Import Names Wire Checks Selection.

Section history.
Context `{TS : Timestamps} `{PB : RunnerProto} `{GP : !GatewayProto} `{EV : !TerminalEvidence} `{GC : !GatewayCodec}.
Context `{JC : !JournalCodec} `{GL : !GatewayCodecLaws} `{JL : !JournalCodecLaws} `{CODEC : PolicyCodec} `{OC : !OfferCodec}.
Context {NetworkObservation Snapshot Observation TerminalContext : Type}.
Context {RE : @ResultEvidence _ _ NetworkObservation Snapshot Observation TerminalContext}.
Context {W : Type}.

Local Abbreviation message := (RunnerMessage Evidence).
Local Abbreviation event := (@workerEvent _ NetworkObservation Snapshot Observation TerminalContext).
Local Abbreviation Client := (@Client _ _ _ NetworkObservation Snapshot Observation TerminalContext).

(** The life of one client: how it ends, and the trace it leaves. [None]: it could not be
    opened. *)
Definition life (base : Env W) (config : Config) (worker : option RemoteWorker) (maximum : option EffectivePolicy)
    (credential : bytes) (ts : list attempt) (queued : list event) (w : W) (t : list act) : option (outcome unit) * list act :=
  match newClientWithWorker (traced base) true credential (w, t) with
  | (inr _, (_, t')) => (None, t')
  | (inl c, w') =>
      let '(o, st) := Run (traced base) config worker maximum ts queued ((c : Client), new_session, w') in (Some o, trace st)
  end.

Inductive history : list act -> Prop :=
  | history_start : history []
  | history_crash t' t : history (t' ++ t) -> history t
  | history_life base config worker maximum credential ts queued w t :
      history t -> history (snd (life base config worker maximum credential ts queued w t)).

Lemma life_lawful base config worker maximum credential ts queued w t :
  lawful t ->
  let '(o, t') := life base config worker maximum credential ts queued w t in lawful t' /\ o <> Some Panic.
Proof.
  intros Hl. unfold life. destruct (newClientWithWorker _ _ _ _) as [r [w' t']] eqn:Hn.
  pose proof (newClientWithWorker_inv base credential w t r w' t' Hl Hn) as [Hl' Hr]. destruct r as [c|e]; [|done].
  pose proof (wp_Run base config worker maximum ts queued _ Hr) as H. unfold wp in H.
  destruct (Run _ _ _ _ _ _ _) as [o st]. destruct H as [H1 H2]. cbn in *. split; [done|congruence].
Qed.

Lemma history_lawful t : history t -> lawful t.
Proof.
  induction 1 as [|t' t _ IH|base config worker maximum credential ts queued w t _ IH]; [constructor|by eapply lawful_older|].
  pose proof (life_lawful base config worker maximum credential ts queued w t IH) as H.
  destruct (life _ _ _ _ _ _ _ _ _). exact (proj1 H).
Qed.

(** C6: write-ahead. Whenever a runner hands a message to its stream, in any history of
    clients, crashes and reconnections, a durable event is the one its journal on the disk
    holds as pending, and a heartbeat the one it holds as the current heartbeat. *)
Theorem sends_are_journaled t m :
  history (TSend m :: t) ->
  exists s, on_disk t = Some s /\ (durableRunnerMessage m = true -> pending_of s = Some m)
            /\ (is_heartbeat m = true -> heartbeat_of s = Some m).
Proof.
  intros H. apply history_lawful in H. inversion H as [| | |s ? ? _ Hd [He Hh] _| | |]; subst. by exists s.
Qed.

(** C7: a number names one message. Over all the clients a journal has had, two numbered
    messages that were sent with the same number are the same message, so a message id is
    never used for another payload. *)
Theorem numbers_never_reused t m m' n :
  history t -> m ∈ sent t -> m' ∈ sent t -> numbered m = Some n -> numbered m' = Some n -> m = m'.
Proof.
  intros H Hm Hm' Hn Hn'. apply history_lawful in H. destruct (on_disk t) as [s|] eqn:Hd.
  - eapply (sound_unique _ _ (lawful_sound t s H Hd)); [by constructor 1|by constructor 1|done|done].
  - rewrite (lawful_unsent t H Hd) in Hm. by apply elem_of_nil in Hm.
Qed.

(** C13: every journal that reaches the disk is valid; it follows the one it replaces: the
    sequence number does not go back, and an event that still waits for its
    acknowledgement is kept or dropped, but not replaced by another. *)
Theorem journals_valid_and_ordered t :
  history (TRename :: t) ->
  exists s, on_disk (TRename :: t) = Some s /\ validateJournalState s = true
            /\ forall s0, on_disk t = Some s0 -> MessageSequence s0 <= MessageSequence s
               /\ (PendingMessage s = None \/ PendingMessage s0 = None \/ PendingMessage s = PendingMessage s0).
Proof.
  intros H. apply history_lawful in H. inversion H as [| |s ? _ Ht Hs Hf| | | |]; subst. exists s.
  split_and!; [exact Ht|apply Hs|]. intros s0 H0. destruct (Hf s0 H0) as [Hq Hp _]. split; [done|].
  destruct (PendingMessage s) as [raw|], (PendingMessage s0) as [raw0|]; auto. right; right. f_equal. symmetry. by apply Hp.
Qed.

(** C11: the credential store is only given a credential whose rotation, with its
    fingerprint, the journal on the disk already names, so that a crash in between leaves
    a runner that can tell which credential it has. *)
Theorem credential_journaled_first t credential :
  history (TReplace credential :: t) ->
  exists s r, on_disk t = Some s /\ CredentialRotation s = Some r /\ CrFingerprint r = Sum256 credential.
Proof. intros H. apply history_lawful in H. inversion H; subst. by eauto. Qed.

(** C9: a lease only goes forward. While the journal holds a job, every journal that
    replaces it holds the job of the same offer, with a lease that is not shorter; and once
    a cancellation or its command is journaled it is neither withdrawn nor exchanged,
    whatever later reconciliations, commands and restarts bring. *)
Theorem leased_job_continues t s0 s a a' :
  history (TRename :: t) -> on_disk t = Some s0 -> on_disk (TRename :: t) = Some s -> Active s0 = Some a -> Active s = Some a' ->
  OfferMessageID a' = OfferMessageID a /\ OfferDigest a' = OfferDigest a /\ ExpiresAt a <= ExpiresAt a'
  /\ (CancellationID a <> [] -> CancellationID a' = CancellationID a)
  /\ (CancellationDigest a <> [] -> CancellationDigest a' = CancellationDigest a).
Proof.
  intros H H0 H1 Ha Ha'. apply history_lawful in H. inversion H as [| |s1 ? _ Ht Hs Hf| | | |]; subst.
  assert (s1 = s) as -> by (unfold on_disk in H1; cbn in H1; congruence).
  destruct (follows_active _ _ (Hf s0 H0) a a' Ha Ha') as [[] ? ? ?]. by split_and!.
Qed.

(** C12: no panic. Whatever the environment answers, the gateway sends and the worker
    reports, a client that is opened on what any history left never dereferences a missing
    job, lease or rotation, nor indexes past the leases of a heartbeat. *)
Theorem client_never_panics t base config worker maximum credential ts queued w :
  history t -> fst (life base config worker maximum credential ts queued w t) <> Some Panic.
Proof.
  intros H. apply history_lawful in H.
  pose proof (life_lawful base config worker maximum credential ts queued w t H) as Hl.
  destruct (life _ _ _ _ _ _ _ _ _). exact (proj2 Hl).
Qed.

End history.

(** ** One history

    A runner with no worker is offered a job, which it rejects, and given a new
    credential; then one that crashed right after the rejection connects again. *)

Section sample.

Local Abbreviation run := (life (NetworkObservation := unit) (Snapshot := unit) (Observation := unit) (TerminalContext := unit)
  sample_env sample_runner None None (bs "credential")).
Local Abbreviation lived := (history (NetworkObservation := unit) (Snapshot := unit) (Observation := unit) (TerminalContext := unit) (W := Z)).

Definition sample_trace : list act :=
  snd (run [Connected (inl sample_welcome) [Received sample_offer; Received sample_rotation]] [] sample_now []).

Definition crashed : list act := drop 8 sample_trace.

Definition resumed : list act := snd (run [Connected (inl sample_welcome) []] [] (sample_now + Second) crashed).

Lemma sample_history n : lived (drop n sample_trace).
Proof. apply history_crash with (t' := take n sample_trace). rewrite take_drop. apply history_life, history_start. Qed.

Lemma crashed_history : lived crashed.
Proof. apply sample_history. Qed.

Lemma resumed_history : lived resumed.
Proof. apply history_life, crashed_history. Qed.

Lemma sends_are_journaled_witness :
  exists m t s, crashed = TSend m :: t /\ durableRunnerMessage m = true /\ on_disk t = Some s /\ pending_of s = Some m.
Proof.
  assert (Hd : match crashed with TSend m :: _ => durableRunnerMessage m = true | _ => False end) by (vm_compute; reflexivity).
  pose proof crashed_history as Hh. destruct crashed as [|[| |m| | |] t]; try done.
  destruct (sends_are_journaled t m Hh) as (s & H1 & H2 & _). exists m, t, s. split_and!; auto.
Defined.

Lemma numbers_never_reused_witness :
  exists m m', sent resumed !! 1%nat = Some m /\ sent resumed !! 4%nat = Some m' /\ numbered m = Some 4 /\ m = m'.
Proof.
  assert (Hs : match sent resumed !! 1%nat, sent resumed !! 4%nat with
               | Some m, Some m' => numbered m = Some 4 /\ numbered m' = Some 4 | _, _ => False end) by (vm_compute; auto).
  pose proof resumed_history as Hh. revert Hs Hh. generalize resumed. intros t Hs Hh.
  destruct (sent t !! 1%nat) as [m|] eqn:H1; [|done]. destruct (sent t !! 4%nat) as [m'|] eqn:H4; [|done].
  exists m, m'. destruct Hs as [Hm Hm']. split_and!; [done..|].
  apply (numbers_never_reused t m m' 4 Hh); [by eapply list_elem_of_lookup_2|by eapply list_elem_of_lookup_2|done|done].
Defined.

Lemma journals_valid_and_ordered_witness :
  exists t s s0, drop 9 sample_trace = TRename :: t /\ on_disk (TRename :: t) = Some s /\ on_disk t = Some s0
    /\ validateJournalState s = true /\ MessageSequence s0 <= MessageSequence s.
Proof.
  assert (Hd : match drop 9 sample_trace with TRename :: t => is_some (on_disk t) = true | _ => False end) by (vm_compute; reflexivity).
  pose proof (sample_history 9) as Hh. revert Hd Hh. generalize (drop 9 sample_trace). intros l Hd Hh.
  destruct l as [|[| | | | |] t]; try done.
  destruct (journals_valid_and_ordered t Hh) as (s & H1 & H2 & H3). destruct (on_disk t) as [s0|] eqn:H0; [|done].
  exists t, s, s0. split_and!; [done..|]. apply H3. done.
Defined.

Lemma credential_journaled_first_witness :
  exists t s r, drop 5 sample_trace = TReplace sample_credential :: t /\ on_disk t = Some s /\ CredentialRotation s = Some r
    /\ CrFingerprint r = Sum256 sample_credential.
Proof.
  assert (Hd : match drop 5 sample_trace with TReplace c :: _ => c = sample_credential | _ => False end) by (vm_compute; reflexivity).
  pose proof (sample_history 5) as Hh. revert Hd Hh. generalize (drop 5 sample_trace). intros l Hd Hh.
  destruct l as [|[| | |c| |] t]; try done. subst c.
  destruct (credential_journaled_first t sample_credential Hh) as (s & r & H1 & H2 & H3). exists t, s, r. by split_and!.
Defined.

Lemma client_never_panics_witness : fst (run [Connected (inl sample_welcome) []] [] (sample_now + Second) crashed) <> Some Panic.
Proof. exact (client_never_panics crashed _ _ _ _ _ _ _ _ crashed_history). Defined.

(** A job from its offer to its result, whose lease the gateway renews. *)
Definition job_trace : list act :=
  snd (life (NetworkObservation := unit) (Snapshot := unit) (Observation := unit) (TerminalContext := unit) sample_env sample_runner
         (Some sample_worker) None (bs "credential")
         [Connected (inl sample_welcome)
            (sample_inputs (Executor.with_outcome (early sample_now sample_now) Execution.passed ClassificationPassed PhaseExecution None))]
         [] sample_now []).

Lemma job_history n : lived (drop n job_trace).
Proof. apply history_crash with (t' := take n job_trace). rewrite take_drop. apply history_life, history_start. Qed.

Lemma leased_job_continues_witness :
  exists t s0 s a a', drop 29 job_trace = TRename :: t /\ on_disk t = Some s0 /\ Active s0 = Some a /\ Active s = Some a'
    /\ ExpiresAt a = sample_now + 60 * Second /\ ExpiresAt a' = sample_now + 90 * Second /\ ExpiresAt a <= ExpiresAt a'.
Proof.
  assert (Hd : match drop 29 job_trace with
               | TRename :: t => match on_disk t ≫= Active, on_disk (TRename :: t) ≫= Active with
                                 | Some a, Some a' => ExpiresAt a = sample_now + 60 * Second /\ ExpiresAt a' = sample_now + 90 * Second
                                 | _, _ => False
                                 end
               | _ => False
               end) by (vm_compute; split; reflexivity).
  pose proof (job_history 29) as Hh. revert Hd Hh. generalize (drop 29 job_trace). intros l Hd Hh.
  destruct l as [|[| | | | |] t]; try done. destruct (on_disk t) as [s0|] eqn:H0; [|done]. cbn [mbind option_bind] in Hd.
  destruct (on_disk (TRename :: t)) as [s|] eqn:H1; [|by destruct (Active s0)]. cbn [mbind option_bind] in Hd.
  destruct (Active s0) as [a|] eqn:Ha; [|done]. destruct (Active s) as [a'|] eqn:Ha'; [|done]. destruct Hd as [E0 E1].
  destruct (leased_job_continues t s0 s a a' Hh H0 H1 Ha Ha') as (_ & _ & H & _). exists t, s0, s, a, a'. by split_and!.
Defined.

End sample.
