(* ===== verification/SessionGate.v ===== *)
(** The gates of a worker: a session starts a worker only when the gateway acknowledges
    the [JobPreparing] event of its lease, and lets the worker start its workload only
    when the gateway acknowledges the [JobStarted] event. *)

From S2P Require Import Prelude Utf8 Strconv Json Endian Sha256 World Execution Policy Binder Messages Authority Url Offer.
From S2P Require Import Journal Wp ClientState Session SessionTrace SessionSample.
Import Names Wire Checks Selection.

Open Scope world_scope.

Create HintDb gate.
#[export] Hint Resolve preserves_ret preserves_reads preserves_check preserves_caught : gate.
#[export] Hint Extern 1 (preserves _ the_client) => apply preserves_reads : gate.
#[export] Hint Extern 1 (preserves _ the_session) => apply preserves_reads : gate.
#[export] Hint Extern 1 (preserves _ snapshot) => apply preserves_reads : gate.
#[export] Hint Extern 1 (preserves _ ok) => apply preserves_ret : gate.
#[export] Hint Extern 1 (preserves _ (fail _)) => apply preserves_ret : gate.
#[export] Hint Extern 1 (preserves _ (on_client _)) => (intros [[? ?] ?]; reflexivity) : gate.
#[export] Hint Extern 1 (preserves _ (on_session _)) => (intros [[? ?] ?]; reflexivity) : gate.

Ltac hush :=
  unfold finally, quietly;
  repeat first
    [ solve [auto with gate nocore]
    | apply preserves_bind; [|intros ?]
    | apply preserves_try; [|intros ?]
    | apply preserves_caught
    | progress cbv beta zeta
    | case_match ].

Section gate.
Context `{TS : Timestamps} `{PB : RunnerProto} `{GP : !GatewayProto} `{EV : !TerminalEvidence} `{GC : !GatewayCodec}.
Context `{JC : !JournalCodec} `{CODEC : PolicyCodec} `{OC : !OfferCodec}.
Context {NetworkObservation Snapshot Observation TerminalContext : Type}.
Context {RE : @ResultEvidence _ _ NetworkObservation Snapshot Observation TerminalContext}.
Context {W : Type} (base : Env W) (config : Config) (worker : option RemoteWorker) (info : SessionInfo).

Local Abbreviation event := (@workerEvent _ NetworkObservation Snapshot Observation TerminalContext).
Local Abbreviation Client := (@Client _ _ _ NetworkObservation Snapshot Observation TerminalContext).
Local Abbreviation St := (Client * clientSession * (W * list act))%type.
Local Abbreviation env := (traced base).

Implicit Types (st : St).

(** The acts that start a worker, or let it start its workload. *)
Definition gated (a : act) : bool :=
  match a with TSpawn _ | TRespond _ None => true | _ => false end.

Definition gates (t : list act) : list act := List.filter gated t.

Definition passed (st : St) : list act := gates (trace st).

Local Abbreviation hushed := (preserves passed).

(** ** Leaves *)

Lemma hushed_untraced {A} (m : M W A) : hushed (lift (untraced m)).
Proof. intros [cs [w t]]. unfold lift, untraced. cbn. by destruct (m w). Qed.

Lemma hushed_logs {A} (m : M W A) (events : A -> list act) :
  (forall a, gates (events a) = []) -> hushed (lift (logs events m)).
Proof.
  intros He [cs [w t]]. unfold passed, trace, lift, logs. cbn. destruct (m w) as [a w']. cbn.
  unfold gates. rewrite List.filter_app. fold (gates (events a)). by rewrite He.
Qed.

Lemma persist_hushed (f : JournalFS W) j w t : gates (snd (snd (persistLocked (traced_fs f) j (w, t)))) = gates t.
Proof.
  destruct j as [[] s]; [|done]. destruct (persistLocked _ _ _) as [[committed e] [w' t']] eqn:H.
  by apply persist_trace in H as [].
Qed.

Lemma hushed_journal_update change : hushed (journal_update env change).
Proof.
  intros [[c se] [w t]]. unfold passed, trace, journal_update, update. cbn.
  destruct (change _) as [[] s']; [|done..]. destruct (negb _); [done|]. unfold bind.
  pose proof (persist_hushed (fs base) {| durable := durable (c_journal c); state := s' |} w t) as H.
  destruct (persistLocked _ _ _) as [[committed e] [w' t']]. by destruct e.
Qed.

#[local] Hint Resolve hushed_untraced hushed_journal_update : gate.
#[local] Hint Extern 1 (preserves _ (lift (stream _ _))) => apply hushed_logs; intros; reflexivity : gate.
#[local] Hint Extern 1 (preserves _ (lift (respond _ _ (Some _)))) => apply hushed_logs; intros; reflexivity : gate.
#[local] Hint Extern 1 (preserves _ (lift (replace_credential _ _))) => apply hushed_logs; intros; reflexivity : gate.
#[local] Hint Extern 2 (preserves _ (lift _)) => apply hushed_untraced : gate.

Lemma hushed_runnerMessage p : hushed (runnerMessage env config p).
Proof. unfold runnerMessage. hush. Qed.
#[local] Hint Resolve hushed_runnerMessage : gate.

Lemma hushed_send m : hushed (send env m).
Proof. unfold send. hush. Qed.
#[local] Hint Resolve hushed_send : gate.

Lemma hushed_sendRetained m : hushed (sendRetained env config info m).
Proof. unfold sendRetained. hush. Qed.
#[local] Hint Resolve hushed_sendRetained : gate.

Lemma hushed_queueDurable p mutate : hushed (queueDurable env config info p mutate).
Proof. unfold queueDurable. hush. Qed.
#[local] Hint Resolve hushed_queueDurable : gate.

Lemma hushed_replayPending : hushed (replayPending env config info).
Proof. unfold replayPending. hush. Qed.
#[local] Hint Resolve hushed_replayPending : gate.

Lemma hushed_clearPending : hushed (clearPending env).
Proof. unfold clearPending. hush. Qed.
#[local] Hint Resolve hushed_clearPending : gate.

Lemma hushed_capacity : hushed (capacity config).
Proof. unfold capacity. hush. Qed.
#[local] Hint Resolve hushed_capacity : gate.

Lemma hushed_heartbeatMessage observedAt leases : hushed (heartbeatMessage env config observedAt leases).
Proof. unfold heartbeatMessage. hush. Qed.
#[local] Hint Resolve hushed_heartbeatMessage : gate.

Lemma hushed_sendHeartbeat observedAt : hushed (sendHeartbeat env config observedAt).
Proof. unfold sendHeartbeat. hush. Qed.
#[local] Hint Resolve hushed_sendHeartbeat : gate.

Lemma hushed_stopNetworkAuthority gen : hushed (stopNetworkAuthority env gen).
Proof. unfold stopNetworkAuthority. hush. Qed.
#[local] Hint Resolve hushed_stopNetworkAuthority : gate.

Lemma hushed_stopWorker : hushed (stopWorker env).
Proof. unfold stopWorker. hush. Qed.
#[local] Hint Resolve hushed_stopWorker : gate.

Lemma hushed_markWorkerStopped : hushed (markWorkerStopped).
Proof. unfold markWorkerStopped. hush. Qed.
#[local] Hint Resolve hushed_markWorkerStopped : gate.

Lemma hushed_networkAuthorityStopped : hushed (networkAuthorityStopped env).
Proof. unfold networkAuthorityStopped. hush. Qed.
#[local] Hint Resolve hushed_networkAuthorityStopped : gate.

Lemma hushed_consumeNetworkAuthority value : hushed (consumeNetworkAuthority env info value).
Proof. unfold consumeNetworkAuthority. hush. Qed.
#[local] Hint Resolve hushed_consumeNetworkAuthority : gate.

Lemma hushed_closeCompleteLog log : hushed (closeCompleteLog env log).
Proof. unfold closeCompleteLog. hush. Qed.
#[local] Hint Resolve hushed_closeCompleteLog : gate.

Lemma hushed_deferWorkerEvent e : hushed (deferWorkerEvent e).
Proof. unfold deferWorkerEvent. hush. Qed.
#[local] Hint Resolve hushed_deferWorkerEvent : gate.

Lemma hushed_popDeferredWorkerEvent : hushed (popDeferredWorkerEvent).
Proof. unfold popDeferredWorkerEvent. hush. Qed.
#[local] Hint Resolve hushed_popDeferredWorkerEvent : gate.

Lemma hushed_discard_event reason e : hushed (discard_event env reason e).
Proof. unfold discard_event. hush. Qed.
#[local] Hint Resolve hushed_discard_event : gate.

Lemma hushed_discard_all reason es : hushed (discard_all env reason es).
Proof. induction es; cbn [discard_all]; hush. Qed.
#[local] Hint Resolve hushed_discard_all : gate.

Lemma hushed_discardDeferred reason : hushed (discardDeferred env reason).
Proof. unfold discardDeferred. hush. Qed.
#[local] Hint Resolve hushed_discardDeferred : gate.

Lemma hushed_rememberSettledMessage m phase : hushed (rememberSettledMessage m phase).
Proof. unfold rememberSettledMessage. hush. Qed.
#[local] Hint Resolve hushed_rememberSettledMessage : gate.

Lemma hushed_rememberSettledEvent encoded phase : hushed (rememberSettledEvent encoded phase).
Proof. unfold rememberSettledEvent. hush. Qed.
#[local] Hint Resolve hushed_rememberSettledEvent : gate.

Lemma hushed_rememberAcknowledgedHeartbeat m : hushed (rememberAcknowledgedHeartbeat m).
Proof. unfold rememberAcknowledgedHeartbeat. hush. Qed.
#[local] Hint Resolve hushed_rememberAcknowledgedHeartbeat : gate.

Lemma hushed_clearPendingAcknowledged pending active : hushed (clearPendingAcknowledged env pending active).
Proof. unfold clearPendingAcknowledged. hush. Qed.
#[local] Hint Resolve hushed_clearPendingAcknowledged : gate.

Lemma hushed_identity_of s : hushed (identity_of s).
Proof. unfold identity_of. hush. Qed.
#[local] Hint Resolve hushed_identity_of : gate.

Lemma hushed_the_identity : hushed (the_identity).
Proof. unfold the_identity. hush. Qed.
#[local] Hint Resolve hushed_the_identity : gate.

Lemma hushed_queuePreparing now : hushed (queuePreparing env config info now).
Proof. unfold queuePreparing. hush. Qed.
#[local] Hint Resolve hushed_queuePreparing : gate.

Lemma hushed_queueRenewal now : hushed (queueRenewal env config info now).
Proof. unfold queueRenewal. hush. Qed.
#[local] Hint Resolve hushed_queueRenewal : gate.

Lemma hushed_queueLeaseExpired now : hushed (queueLeaseExpired env config info now).
Proof. unfold queueLeaseExpired. hush. Qed.
#[local] Hint Resolve hushed_queueLeaseExpired : gate.

Lemma hushed_queueCancellation now result : hushed (queueCancellation env config info now result).
Proof. unfold queueCancellation. hush. Qed.
#[local] Hint Resolve hushed_queueCancellation : gate.

Lemma hushed_queueNetworkAuthorityFailure now : hushed (queueNetworkAuthorityFailure env config info now).
Proof. unfold queueNetworkAuthorityFailure. hush. Qed.
#[local] Hint Resolve hushed_queueNetworkAuthorityFailure : gate.

Lemma hushed_queueRestartFailureWithoutEvidence now l a : hushed (queueRestartFailureWithoutEvidence env config info now l a).
Proof. unfold queueRestartFailureWithoutEvidence. hush. Qed.
#[local] Hint Resolve hushed_queueRestartFailureWithoutEvidence : gate.

Lemma hushed_validateRestartLogObject object target log : hushed (validateRestartLogObject env object target log).
Proof. unfold validateRestartLogObject. hush. Qed.
#[local] Hint Resolve hushed_validateRestartLogObject : gate.

Lemma hushed_queueRestartFailure now : hushed (queueRestartFailure env config info now).
Proof. unfold queueRestartFailure. hush. Qed.
#[local] Hint Resolve hushed_queueRestartFailure : gate.

Lemma hushed_queueResult r : hushed (queueResult env config info r).
Proof. unfold queueResult. hush. Qed.
#[local] Hint Resolve hushed_queueResult : gate.

Lemma hushed_sendWorkerEvidence e : hushed (sendWorkerEvidence env info e).
Proof. unfold sendWorkerEvidence. hush. Qed.
#[local] Hint Resolve hushed_sendWorkerEvidence : gate.

Lemma hushed_beginSecretRequest request : hushed (beginSecretRequest env config info request).
Proof. unfold beginSecretRequest. hush. Qed.
#[local] Hint Resolve hushed_beginSecretRequest : gate.

Lemma hushed_receiveSecretDelivery m : hushed (receiveSecretDelivery env info m).
Proof. unfold receiveSecretDelivery. hush. Qed.
#[local] Hint Resolve hushed_receiveSecretDelivery : gate.

Lemma hushed_abandonSecretRequest : hushed (abandonSecretRequest env).
Proof. unfold abandonSecretRequest. hush. Qed.
#[local] Hint Resolve hushed_abandonSecretRequest : gate.

Lemma hushed_stopSecretWorker : hushed (stopSecretWorker env info).
Proof. unfold stopSecretWorker. hush. Qed.
#[local] Hint Resolve hushed_stopSecretWorker : gate.

Lemma hushed_start_event start s a : hushed (start_event env config info start s a).
Proof. unfold start_event. hush. Qed.
#[local] Hint Resolve hushed_start_event : gate.

Lemma hushed_settle r a : hushed (settle env config info r a).
Proof. unfold settle. hush. Qed.
#[local] Hint Resolve hushed_settle : gate.

Lemma hushed_result_event e r a : hushed (result_event env config info e r a).
Proof. unfold result_event. hush. Qed.
#[local] Hint Resolve hushed_result_event : gate.

Lemma hushed_worker_ended r finalEvidence finalUsage : hushed (worker_ended env info r finalEvidence finalUsage).
Proof. unfold worker_ended. hush. Qed.
#[local] Hint Resolve hushed_worker_ended : gate.

Lemma hushed_handleWorkerEvent e : hushed (handleWorkerEvent env config info e).
Proof. unfold handleWorkerEvent. hush. Qed.
#[local] Hint Resolve hushed_handleWorkerEvent : gate.

Lemma hushed_drain fuel : hushed (drain env config info fuel).
Proof. induction fuel; cbn [drain]; hush. Qed.
#[local] Hint Resolve hushed_drain : gate.

Lemma hushed_drainDeferred : hushed (drainDeferred env config info).
Proof. unfold drainDeferred. hush. Qed.
#[local] Hint Resolve hushed_drainDeferred : gate.

Lemma hushed_failStartResponse e : hushed (failStartResponse env e).
Proof. unfold failStartResponse. hush. Qed.
#[local] Hint Resolve hushed_failStartResponse : gate.

Lemma hushed_stop_and_fail : hushed (stop_and_fail env).
Proof. unfold stop_and_fail. hush. Qed.
#[local] Hint Resolve hushed_stop_and_fail : gate.

Lemma hushed_advance now : hushed (advance env config info now).
Proof. unfold advance. hush. Qed.
#[local] Hint Resolve hushed_advance : gate.

Lemma hushed_applyAuthoritativeReconciliation r : hushed (applyAuthoritativeReconciliation env r).
Proof. unfold applyAuthoritativeReconciliation. hush. Qed.
#[local] Hint Resolve hushed_applyAuthoritativeReconciliation : gate.

Lemma hushed_acceptRestartCompleteLogUpload r now : hushed (acceptRestartCompleteLogUpload env config info r now).
Proof. unfold acceptRestartCompleteLogUpload. hush. Qed.
#[local] Hint Resolve hushed_acceptRestartCompleteLogUpload : gate.

Lemma hushed_applyLateReconciliation r now : hushed (applyLateReconciliation env config info r now).
Proof. unfold applyLateReconciliation. hush. Qed.
#[local] Hint Resolve hushed_applyLateReconciliation : gate.

Lemma hushed_handleSettledEventAcknowledgement settled phase ack now : hushed (handleSettledEventAcknowledgement env config info settled phase ack now).
Proof. unfold handleSettledEventAcknowledgement. hush. Qed.
#[local] Hint Resolve hushed_handleSettledEventAcknowledgement : gate.

Lemma hushed_reissueStaleEvent m now : hushed (reissueStaleEvent env config info m now).
Proof. unfold reissueStaleEvent. hush. Qed.
#[local] Hint Resolve hushed_reissueStaleEvent : gate.

Lemma hushed_end_lease pending active : hushed (end_lease env pending active).
Proof. unfold end_lease. hush. Qed.
#[local] Hint Resolve hushed_end_lease : gate.

Lemma hushed_heartbeat_reconciliations rs leases now : hushed (heartbeat_reconciliations env config info rs leases now).
Proof. revert leases. induction rs; intros leases; cbn [heartbeat_reconciliations]; hush. Qed.
#[local] Hint Resolve hushed_heartbeat_reconciliations : gate.

Lemma hushed_handleHeartbeatAcknowledgement ack now : hushed (handleHeartbeatAcknowledgement env config info ack now).
Proof. unfold handleHeartbeatAcknowledgement. hush. Qed.
#[local] Hint Resolve hushed_handleHeartbeatAcknowledgement : gate.

Lemma hushed_rejectOffer offer reason summary : hushed (rejectOffer env config info offer reason summary).
Proof. unfold rejectOffer. hush. Qed.
#[local] Hint Resolve hushed_rejectOffer : gate.

Lemma hushed_reject_with offer r : hushed (reject_with env config info offer r).
Proof. unfold reject_with. hush. Qed.
#[local] Hint Resolve hushed_reject_with : gate.

Lemma hushed_accept_offer envelope encoded job target now : hushed (accept_offer env config info envelope encoded job target now).
Proof. unfold accept_offer. hush. Qed.
#[local] Hint Resolve hushed_accept_offer : gate.

Lemma hushed_busy_offer envelope offer encoded active : hushed (busy_offer env config info envelope offer encoded active).
Proof. unfold busy_offer. hush. Qed.
#[local] Hint Resolve hushed_busy_offer : gate.

Lemma hushed_handleOffer envelope offer now : hushed (handleOffer env config worker info envelope offer now).
Proof. unfold handleOffer. hush. Qed.
#[local] Hint Resolve hushed_handleOffer : gate.

Lemma hushed_handleCancellation cancel now : hushed (handleCancellation env config info cancel now).
Proof. unfold handleCancellation. hush. Qed.
#[local] Hint Resolve hushed_handleCancellation : gate.

Lemma hushed_handleCredentialRotation rotation now : hushed (handleCredentialRotation env config rotation now).
Proof. unfold handleCredentialRotation. hush. Qed.
#[local] Hint Resolve hushed_handleCredentialRotation : gate.

Lemma hushed_refuseTestSecretDelivery m : hushed (refuseTestSecretDelivery m).
Proof. unfold refuseTestSecretDelivery. hush. Qed.
#[local] Hint Resolve hushed_refuseTestSecretDelivery : gate.

Lemma hushed_rememberGatewayMessage m : hushed (rememberGatewayMessage m).
Proof. unfold rememberGatewayMessage. hush. Qed.
#[local] Hint Resolve hushed_rememberGatewayMessage : gate.

Lemma hushed_gatewayMessageDuplicate m : hushed (gatewayMessageDuplicate env m).
Proof. unfold gatewayMessageDuplicate. hush. Qed.
#[local] Hint Resolve hushed_gatewayMessageDuplicate : gate.

(** ** What decides a gate *)

(** What the operations on the way to a gate leave alone. *)
Definition standing (st : St) : bool * bool * option nat :=
  (workerRunning st.1.1, recovering st.1.1, startResponse st.1.1).

Local Abbreviation kept := (preserves standing).

Lemma kept_lift {A} (m : M (W * list act) A) : kept (lift m).
Proof. intros [cs w]. unfold standing, lift. cbn. by destruct (m w). Qed.

Lemma kept_journal_update change : kept (journal_update env change).
Proof. intros [[c se] w]. unfold standing, journal_update. cbn. by destruct (update _ _ _ _) as [[j o] w']. Qed.
#[local] Hint Resolve kept_lift kept_journal_update : gate.

Lemma kept_stopNetworkAuthority gen : kept (stopNetworkAuthority env gen).
Proof. unfold stopNetworkAuthority. hush. Qed.
#[local] Hint Resolve kept_stopNetworkAuthority : gate.

Lemma kept_consumeNetworkAuthority value : kept (consumeNetworkAuthority env info value).
Proof. unfold consumeNetworkAuthority, Drain. hush. Qed.

Lemma kept_applyAuthoritativeReconciliation r : kept (applyAuthoritativeReconciliation env r).
Proof. unfold applyAuthoritativeReconciliation. hush. Qed.

Lemma kept_networkAuthorityStopped : kept (networkAuthorityStopped env).
Proof. unfold networkAuthorityStopped. hush. Qed.

Lemma kept_clearPendingAcknowledged pending active : kept (clearPendingAcknowledged env pending active).
Proof. unfold clearPendingAcknowledged, clearPending, rememberSettledMessage. hush. Qed.
#[local] Hint Resolve kept_consumeNetworkAuthority kept_applyAuthoritativeReconciliation kept_networkAuthorityStopped
  kept_clearPendingAcknowledged : gate.

Definition is_preparing (m : RunnerMessage Evidence) : bool :=
  match Payload m with Some (JobPreparing _ _ _) => true | _ => false end.

Definition is_started (m : RunnerMessage Evidence) : bool :=
  match Payload m with Some (JobStarted _ _ _) => true | _ => false end.

(** A gate that the acknowledgement of an event opens: the worker of the active job is
    started, or the worker that waits is answered. *)
Inductive opened (pending : RunnerMessage Evidence) (st st' : St) : Prop :=
  | opened_worker a job :
      is_preparing pending = true -> workerRunning st.1.1 = false -> Active (jstate st') = Some a -> CancellationID a = [] ->
      UnmarshalJob (Specification a) = Some job -> passed st' = TSpawn job :: passed st -> opened pending st st'
  | opened_workload start :
      is_started pending = true -> startResponse st.1.1 = Some start -> passed st' = TRespond start None :: passed st ->
      opened pending st st'.

Definition gate (pending : RunnerMessage Evidence) (st st' : St) : Prop :=
  passed st' = passed st \/ recovering st.1.1 = false /\ opened pending st st'.

Lemma gate_after pending st st1 st' : passed st1 = passed st -> standing st1 = standing st -> gate pending st1 st' -> gate pending st st'.
Proof.
  unfold standing. intros Hp [= Hw Hr Hs] [H|[H Ho]]; [left; congruence|right]. split; [congruence|].
  destruct Ho as [a job ? ? ? ? ? Hj|start ? ? Hj]; rewrite Hp in Hj; [eapply opened_worker|eapply opened_workload]; eauto; congruence.
Qed.

Lemma wp_hushed {A} pending (m : M St A) st : hushed m -> wp (fun _ st' => gate pending st st') m st.
Proof. intros H. left. apply H. Qed.

(** An operation before a gate. *)
Lemma wp_before {A B} pending (m : M St A) (k : A -> M St B) st :
  hushed m -> kept m -> (forall a st', wp (fun _ st'' => gate pending st' st'') (k a) st') ->
  wp (fun _ st' => gate pending st st') (bind m k) st.
Proof.
  intros Hh Hk H. apply wp_bind. unfold wp in *. destruct (m st) as [a st1] eqn:E. cbn.
  pose proof (Hh st) as H1. pose proof (Hk st) as H2. rewrite E in H1, H2. by eapply gate_after.
Qed.

Lemma wp_before_try {A B} pending (m : M St (outcome A)) (k : A -> M St (outcome B)) st :
  hushed m -> kept m -> (forall a st', wp (fun _ st'' => gate pending st' st'') (k a) st') ->
  wp (fun _ st' => gate pending st st') (try m k) st.
Proof. intros Hh Hk H. apply wp_before; [done..|]. intros [] st'; [apply H|by left..]. Qed.

Lemma wp_startWorker pending st :
  is_preparing pending = true -> recovering st.1.1 = false ->
  match Active (jstate st) with Some a => CancellationID a = [] | None => True end ->
  wp (fun _ st' => gate pending st st') (startWorker env config worker) st.
Proof.
  intros Hp Hr Hc. unfold startWorker. apply wp_reads.
  destruct (workerRunning st.1.1) eqn:Hw; [by left|]. unfold jstate in Hc.
  destruct (Active (state (c_journal st.1.1))) as [a|] eqn:Ha; [|by left]. destruct worker as [w|]; [|by left].
  destruct (UnmarshalJob (Specification a)) as [job|] eqn:Hj; [|by left].
  destruct (_ && _); [by left|]. destruct (_ && _); [by left|]. right. split; [done|].
  destruct st as [[c se] [w' t]]. unfold bind, on_client, changes, lift, spawn, traced, logs. cbn in *.
  destruct (Session.spawn base job w'). cbn. eapply opened_worker; try done. unfold jstate. cbn. by destruct (_ =? _).
Qed.

Lemma passed_completeStartResponse st :
  passed (snd (completeStartResponse env None st))
  = match startResponse st.1.1 with Some start => [TRespond start None] | None => [] end ++ passed st.
Proof.
  destruct st as [[c se] [w t]]. unfold completeStartResponse, bind, the_client, reads, on_client, changes, lift. cbn.
  destruct (startResponse c) as [start|]; [|done]. cbn. by destruct (Session.respond base start None w).
Qed.

Lemma gate_after_event pending now st : wp (fun _ st' => gate pending st st') (after_event env config worker info pending now) st.
Proof.
  unfold after_event. apply wp_reads. destruct (recovering st.1.1) eqn:Hr.
  { destruct (Payload pending) as [[]|]; apply wp_hushed; hush. }
  destruct (Payload pending) as [[]|] eqn:Hp; try (apply wp_hushed; hush; fail).
  - apply wp_reads. destruct (Active _) as [a|] eqn:Ha; [|by left]. destruct (is_nil _) eqn:Hc; [|apply wp_hushed; hush].
    apply wp_startWorker; [unfold is_preparing; by rewrite Hp|done|]. unfold jstate. rewrite Ha. by destruct (CancellationID a).
  - unfold wp, bind. pose proof (passed_completeStartResponse st) as Hs. destruct (completeStartResponse _ _ _) as [[] st1]. cbn [snd] in Hs.
    pose proof (hushed_drainDeferred st1) as Hd. rewrite Hs in Hd. cbn.
    destruct (startResponse st.1.1) as [start|] eqn:Hst; [|by left].
    right. split; [done|]. eapply opened_workload; [unfold is_started; by rewrite Hp|done|exact Hd].
Qed.

(** ** The acknowledgement *)

Ltac before := first [apply wp_before_try; [solve [hush]..|intros ? ?] | apply wp_before; [solve [hush]..|intros ? ?]].

Lemma gate_event_applied pending s r matches now st :
  wp (fun _ st' => gate pending st st') (event_applied env config worker info pending s r matches now) st.
Proof.
  unfold event_applied. before. before. destruct (_ && _); [apply wp_hushed; hush|]. destruct (stale r); [apply wp_hushed; hush|].
  destruct (_ || _); [apply wp_hushed; hush|]. destruct (is_terminal_event _); [apply wp_hushed; hush|].
  destruct (negb _); [by left|]. before. apply gate_after_event.
Qed.

(** No gate opens for an event that was stale, or whose lease is over. *)
Lemma hushed_event_applied pending s r matches now :
  stale r || terminalLeaseStatus (Status r) = true -> hushed (event_applied env config worker info pending s r matches now).
Proof.
  intros H. unfold event_applied. hush.
  all: exfalso; destruct (stale r), (terminalLeaseStatus (Status r)); rewrite ?orb_true_r in *; done.
Qed.
#[local] Hint Extern 1 (preserves _ (event_applied _ _ _ _ _ _ _ _ _)) => apply hushed_event_applied; assumption : gate.

(** What the gateway has to answer for a gate to open. *)
Definition admits (pending : RunnerMessage Evidence) (r : LeaseReconciliation) : Prop :=
  Status r = LEASE_STATUS_ACTIVE /\ CancellationId r = [] /\ stale r = false
  /\ RPhase r = (if is_preparing pending then JOB_PHASE_PREPARING else JOB_PHASE_RUNNING).

Lemma opened_event pending st st' : opened pending st st' -> is_preparing pending = true \/ is_started pending = true.
Proof. intros []; auto. Qed.

Lemma pending_admits pending r s :
  is_preparing pending = true \/ is_started pending = true -> validatePendingReconciliation pending r s = true ->
  stale r || terminalLeaseStatus (Status r) = false -> is_nil (CancellationId r) = true -> admits pending r.
Proof.
  unfold validatePendingReconciliation, admits, is_preparing, is_started. intros Hp Hv Hs Hc. rewrite Hs in Hv.
  apply orb_false_iff in Hs as [Hs _]. destruct (CancellationId r); [|done].
  destruct (Payload pending) as [[]|]; destruct Hp; try done; apply andb_true_iff in Hv as [H1 H2];
    apply Z.eqb_eq in H1, H2; by split_and!.
Qed.

Lemma wp_handlePendingAcknowledgement pending s r now st :
  wp (fun _ st' => passed st' = passed st \/ recovering st.1.1 = false /\ opened pending st st' /\ admits pending r)
    (handlePendingAcknowledgement env config worker info pending s r now) st.
Proof.
  unfold handlePendingAcknowledgement. destruct (runnerMessageIdentity pending) as [l a]. unfold check.
  destruct (_ && _ && _) eqn:Hv; [|by left]. apply andb_true_iff in Hv as [_ Hv]. cbn [try bind ok ret].
  destruct (stale r || terminalLeaseStatus (Status r)) eqn:Hs.
  { left. revert st. apply preserves_bind; [hush|]. intros []; [|hush..]. cbv zeta. hush. }
  destruct (is_nil (CancellationId r)) eqn:Hc.
  2:{ left. revert st. apply preserves_bind; [hush|]. apply orb_false_iff in Hs as [_ Hs].
      intros []; [|hush..]. cbv zeta. rewrite Hs. cbn [negb andb]. hush. }
  eapply (wp_mono (fun _ st' => gate pending st st')).
  2:{ intros ? st' [H|[H Ho]]; [by left|right]. split_and!; [done..|]. eapply pending_admits; eauto using opened_event. }
  before. before. apply orb_false_iff in Hs as [_ Hs]. rewrite Hs. apply gate_event_applied.
Qed.

Lemma wp_handleEventAcknowledgement ack now st :
  wp (fun _ st' => passed st' = passed st \/
        exists r pending, AckReconciliation ack = Some r /\ pending_of (jstate st) = Some pending
          /\ AckRunnerMessageId ack = MessageId pending /\ admits pending r /\ recovering st.1.1 = false /\ opened pending st st')
    (handleEventAcknowledgement env config worker info ack now) st.
Proof.
  unfold handleEventAcknowledgement. apply wp_check; [intros _|by left]. apply wp_check; [intros _|by left].
  apply wp_reads. destruct (settledEvents _ !! _) as [[settled phase]|].
  { left. apply hushed_handleSettledEventAcknowledgement. }
  apply wp_reads. destruct (PendingMessage _ ≫= UnmarshalRunner) as [pending|] eqn:Hp; [|by left].
  destruct (AckReconciliation ack) as [r|] eqn:Hr; [|by left]. apply wp_check; [intros Hid|by left]. apply bool_decide_eq_true in Hid.
  eapply wp_mono; [apply wp_handlePendingAcknowledgement|]. intros ? st' [H|(H1 & H2 & H3)]; [by left|right]. exists r, pending. by split_and!.
Qed.

(** ** The steps of a session *)

Local Abbreviation leased := (fun st : St => Active (jstate st)).

Lemma leased_journal_update change :
  (forall s, Active (snd (change s)) = Active s) -> preserves leased (journal_update env change).
Proof.
  intros Hc [[c se] w]. unfold jstate, journal_update, update. cbn.
  pose proof (Hc (state (c_journal c))) as H. destruct (change _) as [[] s']; cbn in H; [|done..]. destruct (negb _); [done|]. unfold bind.
  destruct (persistLocked _ _ _) as [[committed e] w']. destruct e, committed; done.
Qed.

Lemma leased_lift {A} (m : M (W * list act) A) : preserves leased (lift m).
Proof. intros [cs w]. unfold jstate, lift. cbn. by destruct (m w). Qed.
#[local] Hint Resolve leased_lift : gate.
#[local] Hint Extern 1 (preserves _ (journal_update _ _)) =>
  apply leased_journal_update; intros ?; unfold next_message, next_heartbeat; repeat case_match; reflexivity : gate.

Lemma leased_sendHeartbeat t : preserves leased (sendHeartbeat env config t).
Proof. unfold sendHeartbeat, heartbeatMessage, runnerMessage, capacity, send. hush. Qed.

Lemma client_lift {A} (m : M (W * list act) A) : preserves (fun st : St => st.1.1) (lift m).
Proof. intros [cs w]. unfold lift. cbn. by destruct (m w). Qed.
#[local] Hint Resolve client_lift : gate.

Lemma client_gatewayMessageDuplicate m : preserves (fun st : St => st.1.1) (gatewayMessageDuplicate env m).
Proof. unfold gatewayMessageDuplicate, refuseTestSecretDelivery. hush. Qed.

Local Abbreviation step := (@input _ NetworkObservation Snapshot Observation TerminalContext).

(** The message that a gate waits for was the last thing the session read. *)
Definition answered (i : step) (st : St) (pending : RunnerMessage Evidence) : Prop :=
  exists m ack r, i = Received m /\ GPayload m = Some (EventAcknowledgementOf ack) /\ AckReconciliation ack = Some r
    /\ pending_of (jstate st) = Some pending /\ AckRunnerMessageId ack = MessageId pending /\ admits pending r.

Definition gate_of (i : step) (st st' : St) : Prop :=
  passed st' = passed st \/ exists pending, answered i st pending /\ recovering st.1.1 = false /\ opened pending st st'.

(** What comes before and after the handler of a message. *)
Lemma gate_of_before i st st1 st' : st1.1.1 = st.1.1 -> passed st1 = passed st -> gate_of i st1 st' -> gate_of i st st'.
Proof.
  intros Hc Hp [H|(pending & Ha & Hr & Ho)]; [left; congruence|right]. exists pending. unfold answered, jstate in *.
  rewrite Hc in *. split_and!; [done..|].
  destruct Ho as [a job ? ? ? ? ? Hj|start ? ? Hj]; rewrite Hc, Hp in *; [by eapply opened_worker|by eapply opened_workload].
Qed.

Lemma gate_of_after i st st1 st' : leased st' = leased st1 -> passed st' = passed st1 -> gate_of i st st1 -> gate_of i st st'.
Proof.
  intros Hl Hp [H|(pending & Ha & Hr & Ho)]; [left; congruence|right]. exists pending. split_and!; [done..|].
  destruct Ho as [a job ? ? ? ? ? Hj|start ? ? Hj]; rewrite <-Hp in Hj; [|by eapply opened_workload].
  eapply opened_worker; [..|exact Hj]; [done|done|by rewrite Hl|done|done].
Qed.

Lemma wp_closed {A} i (m : M St A) st : hushed m -> wp (fun _ st' => gate_of i st st') m st.
Proof. intros H. left. apply H. Qed.

Lemma wp_handleGatewayMessage m now st :
  wp (fun _ st' => gate_of (Received m) st st') (handleGatewayMessage env config worker info m now) st.
Proof.
  unfold handleGatewayMessage. destruct (GPayload m) as [p|] eqn:Hm; [|by left].
  destruct p; try (apply wp_closed; unfold Drain; hush; fail).
  eapply wp_mono; [apply wp_handleEventAcknowledgement|]. intros ? st' [H|(r & pending & H)]; [by left|right].
  destruct H as (H1 & H2 & H3 & H4 & H5 & H6). exists pending. split_and!; [|done..]. by exists m, ack, r.
Qed.

Lemma wp_first {A B} i (m : M St A) (k : A -> M St B) st :
  hushed m -> preserves (fun st : St => st.1.1) m -> (forall a st', wp (fun _ st'' => gate_of i st' st'') (k a) st') ->
  wp (fun _ st' => gate_of i st st') (bind m k) st.
Proof.
  intros Hh Hc H. apply wp_bind. unfold wp in *. pose proof (Hh st) as H1. pose proof (Hc st) as H2.
  destruct (m st) as [a st1]. by apply (gate_of_before _ _ st1).
Qed.

Lemma wp_last {A B} i (m : M St (outcome A)) (k : A -> M St (outcome B)) st :
  wp (fun _ st' => gate_of i st st') m st -> (forall a, hushed (k a)) -> (forall a, preserves leased (k a)) ->
  wp (fun _ st' => gate_of i st st') (try m k) st.
Proof.
  intros H Hh Hl. apply wp_try. unfold wp in *. destruct (m st) as [[a|e| |] st1]; try exact H.
  by apply (gate_of_after _ _ st1); [apply Hl|apply Hh|].
Qed.

Lemma wp_received m st : wp (fun _ st' => gate_of (Received m) st st') (session_step env config worker info (Received m)) st.
Proof.
  cbn [session_step]. destruct (_ && _); [apply wp_closed; hush|].
  apply wp_first; [apply hushed_gatewayMessageDuplicate|apply client_gatewayMessageDuplicate|].
  intros [[]|e| |] st1; [by left| |by left..]. apply wp_first; [hush|apply client_lift|]. intros now st2.
  apply wp_last; [apply wp_handleGatewayMessage|intros _..].
  - hush.
  - pose proof leased_sendHeartbeat. hush.
Qed.

(** C8: a worker is started only in the step in which the session reads the gateway's
    acknowledgement of its pending [JobPreparing] event, active and not cancelled, in a
    client that is not recovering and has no worker running; it is started with the job of
    the journal. Its workload is let start only in the step that reads the acknowledgement
    of the pending [JobStarted] event. No step opens more than one gate. *)
Theorem worker_gates i st o st' :
  session_step env config worker info i st = (o, st') ->
  passed st' = passed st
  \/ exists pending, answered i st pending /\ recovering st.1.1 = false /\ opened pending st st'.
Proof.
  intros Hs. enough (wp (fun _ st' => gate_of i st st') (session_step env config worker info i) st) as H.
  { unfold wp in H. by rewrite Hs in H. }
  destruct i as [t| |e|m|e|e|hosted]; [| | |apply wp_received|..]; apply wp_closed; cbn [session_step]; hush.
Qed.

End gate.

(** ** A worker is started *)

Section sample.

Local Abbreviation sample_client j := (set_recovering
  (new_client (NetworkObservation := unit) (Snapshot := unit) (Observation := unit) (TerminalContext := unit) j (bs "credential")) false).

Definition prepared : Client * clientSession * (Z * list act) :=
  (sample_client (journaled_job (active_job JOB_PHASE_PREPARING []) (Some sample_preparing)), new_session, (sample_now, [])).

Definition acknowledged : input (NetworkObservation := unit) (Snapshot := unit) (Observation := unit) (TerminalContext := unit) :=
  Received (acknowledgement "gateway-4" (MessageId sample_preparing) (reconciled_as LEASE_STATUS_ACTIVE JOB_PHASE_PREPARING)).

Local Abbreviation started := (session_step (traced sample_env) sample_runner (Some sample_worker) sample_session acknowledged prepared).

Lemma worker_gates_witness :
  exists job pending st', passed st' = [TSpawn job] /\ LeaseId <$> JLease job = Some (sample_id 3)
    /\ answered acknowledged prepared pending /\ opened pending prepared st'.
Proof.
  assert (Hp : match passed (snd started) with [TSpawn job] => LeaseId <$> JLease job = Some (sample_id 3) | _ => False end)
    by (vm_compute; reflexivity).
  pose proof (worker_gates sample_env sample_runner (Some sample_worker) sample_session acknowledged prepared (fst started)
                (snd started) (surjective_pairing _)) as H.
  revert Hp H. generalize (snd started). intros st Hp [H|(pending & H1 & _ & H2)].
  - rewrite H in Hp. contradiction.
  - destruct (passed st) as [|[| | | |job|] [|]] eqn:E; try contradiction. exists job, pending, st. exact (conj E (conj Hp (conj H1 H2))).
Defined.

End sample.
