(* ===== verification/SessionDrain.v ===== *)
(** The loop over deferred worker events ends: unless a cancellation has been announced
    whose command has not arrived, every round hands an event over for good. In that one
    state a deferred result is deferred again, and the loop never ends. *)

From S2P Require Import Prelude Utf8 Strconv Json Endian Sha256 World Execution Policy Binder Messages Authority Url Offer.
From S2P Require Import Journal Wp ClientState Session SessionTrace SessionGate SessionSample Supervise.
Import Names Wire Checks Selection.

Open Scope world_scope.

Section drain.
Context `{TS : Timestamps} `{PB : RunnerProto} `{GP : !GatewayProto} `{EV : !TerminalEvidence} `{GC : !GatewayCodec}.
Context `{JC : !JournalCodec} `{CODEC : PolicyCodec} `{OC : !OfferCodec}.
Context {NetworkObservation Snapshot Observation TerminalContext : Type}.
Context {RE : @ResultEvidence _ _ NetworkObservation Snapshot Observation TerminalContext}.
Context {W : Type} (env : Env W) (config : Config) (info : SessionInfo).

Local Abbreviation event := (@workerEvent _ NetworkObservation Snapshot Observation TerminalContext).
Local Abbreviation Client := (@Client _ _ _ NetworkObservation Snapshot Observation TerminalContext).
Local Abbreviation St := (Client * clientSession * W)%type.

Implicit Types (st : St).

(** The journal and the deferred events. *)
Definition queue (st : St) : journalState * list event := (state (c_journal st.1.1), deferredWorkerEvents st.1.1).

(** ** What ends *)

Definition ends {A} (m : M St (outcome A)) : Prop := forall st, fst (m st) <> Diverge.

Lemma ends_ret {A} (o : outcome A) : o <> Diverge -> ends (ret o).
Proof. intros H st. exact H. Qed.

Lemma ends_bind {A B} (m : M St A) (k : A -> M St (outcome B)) : (forall a, ends (k a)) -> ends (bind m k).
Proof. intros Hk st. unfold bind. destruct (m st) as [a st']. apply Hk. Qed.

Lemma ends_try {A B} (m : M St (outcome A)) (k : A -> M St (outcome B)) : ends m -> (forall a, ends (k a)) -> ends (try m k).
Proof. intros Hm Hk st. unfold try, bind. specialize (Hm st). destruct (m st) as [[] st']; [apply Hk|done..]. Qed.

Lemma ends_caught {A} (m : M St (outcome A)) : ends m -> ends (caught m).
Proof. intros Hm st. unfold caught, bind. specialize (Hm st). by destruct (m st) as [[] st']. Qed.

Lemma ends_check b e : ends (check b e).
Proof. by destruct b. Qed.

Lemma ends_journal_update change : (forall s, fst (change s) <> Diverge) -> ends (journal_update env change).
Proof.
  intros Hc [[c se] w]. unfold journal_update, update. cbn. specialize (Hc (state (c_journal c))).
  destruct (change _) as [[] s']; [|done..]. destruct (negb _); [done|]. unfold bind.
  by destruct (persistLocked _ _ _) as [[[] []] w'].
Qed.

Ltac end_ :=
  unfold quietly;
  repeat first
    [ solve [auto with gate nocore]
    | apply ends_ret; first [discriminate | assumption]
    | apply ends_caught
    | apply ends_try; [|intros ?]
    | apply ends_bind; intros ?
    | apply ends_check
    | progress cbv beta zeta
    | case_match ].

Lemma ends_send m : ends (send env m).
Proof. unfold send. end_. Qed.

#[local] Hint Resolve ends_send : gate.

Lemma ends_runnerMessage p : ends (runnerMessage env config p).
Proof. unfold runnerMessage. end_. apply ends_journal_update. intros s. unfold next_message. by case_match. Qed.

Lemma ends_sendRetained m : ends (sendRetained env config info m).
Proof. unfold sendRetained. end_. Qed.
#[local] Hint Resolve ends_runnerMessage ends_sendRetained : gate.

Lemma ends_queueDurable p mutate : (forall s, fst (mutate s) <> Diverge) -> ends (queueDurable env config info p mutate).
Proof.
  intros Hm. unfold queueDurable. end_. apply ends_journal_update. intros s. specialize (Hm s).
  repeat case_match; cbn; done.
Qed.

Lemma no_change_ends s : fst (no_change s) <> Diverge.
Proof. done. Qed.

Lemma of_active_ends f s : fst (of_active f s) <> Diverge.
Proof. unfold of_active. by case_match. Qed.
#[local] Hint Resolve ends_queueDurable no_change_ends of_active_ends : gate.

Lemma ends_identity_of s : ends (identity_of s).
Proof. unfold identity_of. end_. Qed.
#[local] Hint Resolve ends_identity_of : gate.

Lemma ends_queueLeaseExpired now : ends (queueLeaseExpired env config info now).
Proof. unfold queueLeaseExpired, the_identity. end_. Qed.

Lemma ends_queueCancellation now result : ends (queueCancellation env config info now result).
Proof. unfold queueCancellation. end_. Qed.

Lemma ends_queueResult r : ends (queueResult env config info r).
Proof.
  unfold queueResult, the_identity. end_. apply ends_ret. unfold result_proof. repeat case_match; done.
Qed.

Lemma ends_sendWorkerEvidence e : ends (sendWorkerEvidence env info e).
Proof. unfold sendWorkerEvidence. end_. Qed.

Lemma ends_beginSecretRequest request : ends (beginSecretRequest env config info request).
Proof. unfold beginSecretRequest. end_. Qed.
#[local] Hint Resolve ends_queueLeaseExpired ends_queueCancellation ends_queueResult ends_sendWorkerEvidence ends_beginSecretRequest : gate.

Lemma ends_start_event start s a : ends (start_event env config info start s a).
Proof. unfold start_event. end_. Qed.

Lemma ends_result_event e r a : ends (result_event env config info e r a).
Proof. unfold result_event, settle. end_. Qed.

Lemma ends_worker_ended r evidence usage : ends (worker_ended env info r evidence usage).
Proof. unfold worker_ended. end_. Qed.
#[local] Hint Resolve ends_start_event ends_result_event ends_worker_ended : gate.

Lemma ends_handleWorkerEvent e : ends (handleWorkerEvent env config info e).
Proof. unfold handleWorkerEvent. end_. Qed.

(** ** What an event does to the queue *)

Local Abbreviation still := (preserves queue).

Lemma still_lift {A} (m : M W A) : still (lift m).
Proof. intros [cs w]. unfold queue, lift. cbn. by destruct (m w). Qed.
#[local] Hint Resolve still_lift : gate.

Lemma still_next_ephemeral : still next_ephemeral.
Proof. unfold next_ephemeral. hush. Qed.
#[local] Hint Resolve still_next_ephemeral : gate.

Lemma still_send m : still (send env m).
Proof. unfold send. hush. Qed.
#[local] Hint Resolve still_send : gate.

Lemma still_sendRetained m : still (sendRetained env config info m).
Proof. unfold sendRetained. hush. Qed.

Lemma still_sendWorkerEvidence e : still (sendWorkerEvidence env info e).
Proof. unfold sendWorkerEvidence. hush. Qed.
#[local] Hint Resolve still_sendWorkerEvidence : gate.

Lemma still_closeCompleteLog log : still (closeCompleteLog env log).
Proof. unfold closeCompleteLog. hush. Qed.
#[local] Hint Resolve still_closeCompleteLog : gate.

Lemma still_worker_ended r evidence usage : still (worker_ended env info r evidence usage).
Proof. unfold worker_ended, Drain, markWorkerStopped. hush. Qed.

(** An operation that, when it succeeds, has left an event to be acknowledged. *)
Definition queues {A} (m : M St (outcome A)) : Prop :=
  forall st, match m st with (Ok _, st') => PendingMessage (state (c_journal st'.1.1)) <> None | _ => True end.

Lemma queues_bind {A B} (m : M St A) (k : A -> M St (outcome B)) : (forall a, queues (k a)) -> queues (bind m k).
Proof. intros Hk st. unfold bind. destruct (m st) as [a st']. apply Hk. Qed.

Lemma queues_try {A B} (m : M St (outcome A)) (k : A -> M St (outcome B)) : (forall a, queues (k a)) -> queues (try m k).
Proof. intros Hk st. unfold try, bind. destruct (m st) as [[] st']; [apply Hk|done..]. Qed.

Lemma queues_fail {A} (o : outcome A) : (match o with Ok _ => False | _ => True end) -> queues (ret o).
Proof. intros H st. cbn. by destruct o. Qed.

Lemma update_ok change st st' :
  journal_update env change st = (Ok tt, st') -> change (state (c_journal st.1.1)) = (Ok tt, state (c_journal st'.1.1)).
Proof.
  destruct st as [[c se] w]. unfold journal_update, update. cbn. destruct (change _) as [[[]|e| |] s'] eqn:Hc; [|done..].
  destruct (negb _); [done|]. unfold bind. destruct (persistLocked _ _ _) as [[committed []] w']; intros [= <-]. done.
Qed.

Lemma queues_queueDurable p mutate : queues (queueDurable env config info p mutate).
Proof.
  unfold queueDurable. apply queues_try. intros m. apply queues_try. intros _. destruct (MarshalRunner m) as [encoded|]; [|done].
  intros st. unfold try, bind. destruct (journal_update _ _ st) as [[[]|e| |] st1] eqn:Hu; [|done..]. apply update_ok in Hu.
  pose proof (still_sendRetained m st1) as Hs. destruct (sendRetained _ _ _ _ _) as [[] st2]; [|done..].
  unfold queue in Hs. cbn in Hs. injection Hs as -> _. revert Hu. repeat case_match; intros [= <-]. done.
Qed.

Ltac queue_ :=
  repeat first
    [ apply queues_queueDurable | apply queues_fail; exact I | apply queues_try; intros ? | apply queues_bind; intros ?
    | progress cbv beta zeta | case_match ].

Lemma queues_settle r a : queues (settle env config info r a).
Proof. unfold settle, queueCancellation, queueLeaseExpired, queueResult, the_identity. queue_. Qed.

(** A cancellation that was announced, and whose command has not arrived. *)
Definition command_awaited (s : journalState) : bool :=
  match Active s with
  | Some a => negb (is_nil (CancellationID a)) && (zlen (CancellationDigest a) =? 0)
  | None => false
  end.

(** What a round of the loop leaves: an event to be acknowledged, or one event less. *)
Definition settles (m : M St (outcome unit)) (st : St) : Prop :=
  wp (fun o st' => match o with
                   | Ok _ => PendingMessage (state (c_journal st'.1.1)) <> None \/ queue st' = queue st
                   | Diverge => False
                   | _ => True
                   end) m st.

Lemma settles_still (m : M St (outcome unit)) st : ends m -> still m -> settles m st.
Proof.
  intros He Hs. unfold settles, wp. specialize (He st). specialize (Hs st). destruct (m st) as [[] st']; [by right|done..].
Qed.

Lemma settles_queues (m : M St (outcome unit)) st : ends m -> queues m -> settles m st.
Proof. intros He Hq. unfold settles, wp. specialize (He st). specialize (Hq st). destruct (m st) as [[] st']; [by left|done..]. Qed.

Lemma settles_bind {A} (m : M St A) (k : A -> M St (outcome unit)) st :
  still m -> (forall a st', queue st' = queue st -> settles (k a) st') -> settles (bind m k) st.
Proof.
  intros Hm Hk. unfold settles. apply wp_bind. unfold wp. specialize (Hm st). destruct (m st) as [a st1]. cbn in Hm.
  specialize (Hk a st1 Hm). unfold settles, wp in Hk. cbn. rewrite <-Hm. exact Hk.
Qed.

Lemma settles_try {A} (m : M St (outcome A)) (k : A -> M St (outcome unit)) st :
  ends m -> still m -> (forall a st', queue st' = queue st -> settles (k a) st') -> settles (try m k) st.
Proof.
  intros He Hm Hk. unfold settles, wp, try, bind. specialize (He st). specialize (Hm st). destruct (m st) as [[a|e| |] st1]; try done.
  cbn in Hm. rewrite <-Hm. by apply (Hk a st1).
Qed.

(** An event is deferred while another waits to be acknowledged. *)
Lemma settles_defer e st : PendingMessage (queue st).1 <> None -> settles (deferWorkerEvent e ;; ok) st.
Proof. intros H. left. exact H. Qed.

Lemma settles_beginSecretRequest request st : settles (beginSecretRequest env config info request) st.
Proof.
  unfold beginSecretRequest. cbv zeta. apply settles_bind; [hush|]. intros se st1 H1. apply settles_bind; [hush|]. intros over st2 H2.
  destruct (_ || _); [apply settles_still; [end_|hush]|]. unfold settles. apply wp_reads.
  destruct (Active _) as [a|]; [|apply settles_bind; [hush|]; intros; apply settles_still; [end_|hush]].
  apply settles_bind; [hush|]. intros now st3 H3. destruct (negb _); [apply settles_still; [end_|hush]|].
  destruct (PendingMessage _) as [raw|] eqn:Hp; [|apply settles_still; [end_|hush]].
  apply settles_defer. rewrite H3. unfold queue. cbn. by rewrite Hp.
Qed.

Lemma settles_result_event e r a st :
  negb (is_nil (CancellationID a)) && (zlen (CancellationDigest a) =? 0) = false -> settles (result_event env config info e r a) st.
Proof.
  intros Hc. unfold result_event. rewrite Hc. unfold settles, wp, try, caught, bind.
  pose proof (queues_settle r a st) as Hq.
  assert (He : ends (settle env config info r a)) by (unfold settle; end_). specialize (He st).
  destruct (settle _ _ _ _ _ st) as [[u|err| |] st1]; try done; cbn.
  2:{ destruct (PendingMessage _); [by destruct (closeCompleteLog _ _ _)|done]. }
  destruct (PendingMessage _) as [raw|] eqn:Hp; [|done].
  pose proof (still_closeCompleteLog (Executor.RCompleteLog r) st1) as Hs. unfold bind.
  destruct (closeCompleteLog _ _ _) as [v st2]. cbn in *. left. unfold queue in Hs. injection Hs as -> _. by rewrite Hp.
Qed.

(** Every round of the loop makes progress. *)
Lemma settles_handleWorkerEvent e st :
  PendingMessage (queue st).1 = None -> command_awaited (queue st).1 = false -> settles (handleWorkerEvent env config info e) st.
Proof.
  intros Hp Hc. destruct e as [request|ev|start|r evidence usage|]; cbn [handleWorkerEvent].
  - apply settles_beginSecretRequest.
  - apply settles_still; [apply ends_sendWorkerEvidence|apply still_sendWorkerEvidence].
  - unfold settles. apply wp_reads. cbn in Hp. rewrite Hp. destruct (Active _) as [a|]; [|apply settles_still; [end_|hush]].
    unfold start_event. destruct (negb _); [apply settles_still; [end_|hush]|]. apply settles_queues; [end_|queue_].
  - apply settles_try; [apply ends_worker_ended|apply still_worker_ended|]. intros _ st1 H1. rewrite <-H1 in *.
    unfold settles. apply wp_reads. cbn in Hp. rewrite Hp. cbn in Hc. unfold command_awaited in Hc.
    destruct (Active _) as [a|]; [by apply settles_result_event|]. apply settles_still; [end_|unfold clearCompleteLogTarget; hush].
  - unfold settles. apply wp_reads. cbn in Hp. rewrite Hp. destruct (Active _); [exact I|by right].
Qed.

(** ** The loop *)

Lemma drain_ends fuel st :
  command_awaited (queue st).1 = false -> (length (queue st).2 < fuel)%nat -> fst (drain env config info fuel st) <> Diverge.
Proof.
  revert st. induction fuel as [|fuel IH]; intros st Hc Hf; [lia|]. cbn [drain]. unfold bind at 1. cbn [snapshot reads].
  destruct (PendingMessage _) as [raw|] eqn:Hp; [done|]. unfold popDeferredWorkerEvent. unfold bind at 1 2, the_client, reads.
  unfold queue in Hf. cbn in Hf. destruct (deferredWorkerEvents st.1.1) as [|e rest] eqn:Hd; [done|].
  unfold bind at 1, on_client, changes. cbn [ret].
  set (st1 := (set_deferredWorkerEvents st.1.1 rest, st.1.2, st.2) : St).
  pose proof (settles_handleWorkerEvent e st1 Hp Hc) as Hs. unfold settles, wp in Hs. unfold try, bind.
  destruct (handleWorkerEvent _ _ _ _ st1) as [[u|err| |] st2]; cbn in Hs |- *; try done. destruct Hs as [Hs|Hs].
  - destruct fuel as [|fuel]; [cbn in Hf; lia|]. cbn [drain]. unfold bind, snapshot, reads.
    destruct (PendingMessage (state (c_journal st2.1.1))); [discriminate|congruence].
  - apply IH; rewrite Hs; [exact Hc|]. cbn in Hf |- *. lia.
Qed.

(** More fuel changes nothing. *)
Lemma drain_more fuel more st :
  fst (drain env config info fuel st) <> Diverge -> drain env config info (fuel + more) st = drain env config info fuel st.
Proof.
  revert st. induction fuel as [|fuel IH]; intros st; [done|]. cbn [drain Nat.add]. unfold bind, snapshot, reads.
  destruct (PendingMessage _); [done|]. destruct (popDeferredWorkerEvent st) as [[e|] st1]; [|done].
  unfold try, bind. destruct (handleWorkerEvent _ _ _ _ st1) as [[] st2]; try done. apply IH.
Qed.

(** C10: the loop over the deferred events of a worker ends, with the rounds the model gives
    it, whatever the environment answers: unless the gateway has announced a cancellation
    whose command has not arrived. More rounds would not change its result. *)
Theorem drain_terminates st :
  command_awaited (state (c_journal st.1.1)) = false ->
  fst (drainDeferred env config info st) <> Diverge
  /\ forall more, drain env config info (S (length (deferredWorkerEvents st.1.1)) + more) st = drainDeferred env config info st.
Proof.
  intros Hc. assert (He : fst (drain env config info (S (length (deferredWorkerEvents st.1.1))) st) <> Diverge)
    by (apply drain_ends; [exact Hc|cbn; lia]).
  split; [exact He|]. intros more. rewrite drain_more by exact He. reflexivity.
Qed.

Lemma result_redeferred r st :
  PendingMessage (queue st).1 = None -> command_awaited (queue st).1 = true ->
  exists st', handleWorkerEvent env config info (ResultEvent r None None) st = (Ok tt, st')
    /\ queue st' = ((queue st).1, (queue st).2 ++ [ResultEvent r None None]).
Proof.
  destruct st as [[c se] w]. unfold command_awaited. cbn. intros Hp Hc. destruct (Active (state (c_journal c))) as [a|] eqn:Ha; [|done].
  unfold worker_ended, try, bind, snapshot, reads. cbn.
  destruct (match Executor.Cleanup r with Some _ => _ | None => _ end); cbn; rewrite Ha, Hp; unfold result_event; rewrite Hc;
    eexists; split; reflexivity.
Qed.

(** While such a command is awaited, a result is deferred again and again. *)
Lemma drain_never_ends fuel st r :
  PendingMessage (queue st).1 = None -> command_awaited (queue st).1 = true -> (queue st).2 = [ResultEvent r None None] ->
  fst (drain env config info fuel st) = Diverge.
Proof.
  revert st. induction fuel as [|fuel IH]; intros [[c se] w] Hp Hc Hd; [done|]. cbn in Hp, Hc, Hd. cbn [drain].
  unfold bind, snapshot, reads. cbn [fst snd]. rewrite Hp. unfold popDeferredWorkerEvent, bind, the_client, on_client, changes, reads, ret.
  cbn [fst snd]. rewrite Hd.
  destruct (result_redeferred r (set_deferredWorkerEvents c [], se, w) Hp Hc) as (st' & He & Hq).
  unfold try, bind. cbn [fst snd]. rewrite He. apply IH; rewrite Hq; done.
Qed.

End drain.

(** ** A lease with deferred events *)

Section sample.

Local Abbreviation sample_client j := (set_recovering
  (new_client (NetworkObservation := unit) (Snapshot := unit) (Observation := unit) (TerminalContext := unit) j (bs "credential")) false).

(** A worker that waits to start. *)
Definition waiting (cancellation : bytes) : Client * clientSession * Z :=
  (set_deferredWorkerEvents (sample_client (journaled_job (active_job JOB_PHASE_PREPARING cancellation) None)) [StartEvent 7],
   new_session, sample_now).

Lemma drain_terminates_witness :
  length (deferredWorkerEvents (waiting []).1.1) = 1%nat /\ fst (drainDeferred sample_env sample_runner sample_session (waiting [])) <> Diverge.
Proof. split; [reflexivity|]. apply (drain_terminates sample_env sample_runner sample_session (waiting [])). reflexivity. Defined.

(** The gateway announced a cancellation with a heartbeat, then acknowledges the start of
    the job whose result is already deferred. *)
Definition sample_started : RunnerMessage unit := {|
  MessageId := message_id (bs "instance") 4; SentAt := Some sample_now;
  Payload := Some (JobStarted (JLease leased_job) (JAttempt leased_job) (Some sample_now)) |}.

Definition cancelled_early : Client * clientSession * Z :=
  (set_deferredWorkerEvents
     (sample_client (journaled_job (active_job JOB_PHASE_CANCELLING (bs "cancel-1")) (Some sample_started)))
     [ResultEvent sample_result None None],
   new_session, sample_now).

Lemma deferred_result_hangs :
  validateJournalState (state (c_journal cancelled_early.1.1)) = true /\
  fst (session_step sample_env sample_runner (Some sample_worker) sample_session
         (Received (acknowledgement "gateway-4" (MessageId sample_started) (reconciled_as LEASE_STATUS_ACTIVE JOB_PHASE_RUNNING))) cancelled_early) = Diverge.
Proof. split; vm_compute; reflexivity. Qed.

End sample.
