(* ===== verification/SessionEvidence.v ===== *)
(** The session with the evidence it really freezes: [TerminalBuild.v] and
    [TerminalPlan.v] as what the journal and the session are parameterised by, and that
    the proof of a result validates whenever the journal is read or the message is sent
    again. *)

From S2P Require Import Prelude Utf8 Patterns Strconv Json JsonLaws Canonical CanonicalLaws Sha256 World Execution GuestOutput Policy Binder Messages Authority Url JsonStruct Offer.
From S2P Require Import Terminal TerminalBuild TerminalPlan TerminalSample TerminalLaws TerminalFrozen Journal ClientState Session SessionSample.
Import Names Wire.

Section evidence.
Context `{TS : Timestamps} `{PB : RunnerProto} `{GP : !GatewayProto} `{PM : !ProtoMessages} `{CODEC : PolicyCodec}.
Context `{CS : !ConfigurationSchema}.

(** What the client uses of terminal evidence. *)
#[export] Instance frozen_evidence : TerminalEvidence := {|
  Journal.Evidence := ExecutionEvidence;
  Journal.FrozenVersion := fun e => TerminalPlan.FrozenVersion (Some e);
  Journal.ValidateFrozen := fun e job runnerID => TerminalPlan.ValidateFrozen (Some e) (Some job) runnerID;
  Journal.ValidateFrozenV2 := fun e job runnerID => TerminalPlan.ValidateFrozenV2 (Some e) (Some job) runnerID |}.

Definition made (r : terminalError + ExecutionEvidence) : option ExecutionEvidence :=
  match r with inr e => Some e | inl _ => None end.

(** What a result is frozen with. *)
#[export] Instance built_evidence : @ResultEvidence _ _ NetworkObservation Snapshot Observation Context := {|
  Session.Matches := TerminalBuild.Matches;
  Session.Build := fun c runnerID os measured => made (TerminalBuild.Build (Some c) runnerID os [measured]);
  Session.BuildObservedNetwork := fun c runnerID os network =>
    made (TerminalBuild.BuildObservedNetwork (Some c) runnerID os (Some network)) |}.

Context `{GC : !GatewayCodec}.

Local Abbreviation Result := (@Executor.Result NetworkObservation Snapshot Observation Context).

Lemma sealed_historical (c : Context) (o : NetworkObservation) :
  v2 c = true -> networkMode c ∈ [bs "restricted"; bs "allowlist"] -> sealed o ->
  NetworkMode (osnapshot o) = networkMode c -> validHistoricalRuntime c (osnapshot o) = true.
Proof.
  intros Hv Hm Ho E. unfold validHistoricalRuntime. rewrite Ho, Hv, E. rewrite !bool_decide_eq_true_2 by done. apply orb_true_r.
Qed.

(** What the session freezes validates, in the version of its context. *)
Lemma frozen_result job isV2 c runnerID (r : Result) (proof : ExecutionEvidence) :
  newContext (Some job) isV2 = Some c -> Executor.RTerminalContext r = Some c ->
  (forall a, JAttempt job = Some a -> 0 <= AttemptNumber a < 2 ^ 32) -> zlen (JDependencies job) <= maxJSONArray ->
  (forall o, Executor.MeasuredNetwork r = Some o -> sealed o) ->
  FreezeTerminalEvidence r runnerID = Ok (Some proof) ->
  validateFrozen (Some proof) (Some job) runnerID isV2 = true /\ TerminalPlan.FrozenVersion (Some proof) = Some (schema_version c).
Proof.
  intros Hc Hr Ha Hd Ho H. unfold FreezeTerminalEvidence in H. rewrite Hr in H.
  destruct (Executor.MeasuredNetwork r) as [o|] eqn:En.
  - destruct (Executor.MeasuredRuntime r); [done|]. cbn [Session.BuildObservedNetwork built_evidence] in H.
    destruct (TerminalBuild.BuildObservedNetwork _ _ _ _) as [|ev] eqn:Eb; [done|]. injection H as <-.
    unfold TerminalBuild.BuildObservedNetwork in Eb. destruct (negb (v2 c) || _) eqn:G; [done|]. bool_norm.
    pose proof (build_identifier _ _ _ _ _ _ _ Eb) as Hi. specialize (Ho o eq_refl).
    split; [eapply built_frozen|eapply built_version]; try done; intros o' [= <-]; by apply sealed_historical.
  - cbn [Session.Build built_evidence] in H. destruct (TerminalBuild.Build _ _ _ _) as [|ev] eqn:Eb; [done|]. injection H as <-.
    pose proof (build_identifier _ _ _ _ _ _ _ Eb) as Hi. split; [by eapply built_frozen|by eapply built_version].
Qed.

Lemma result_proof_built (config : Config) (info : SessionInfo) (r : Result) c l a ev :
  Executor.MeasuredNetwork r = None -> Executor.RTerminalContext r = Some c -> TerminalBuild.Matches c l a = true ->
  AuRunnerId (authenticated info) = RunnerID config ->
  TerminalBuild.Build (Some c) (RunnerID config) (Executor.TerminalObservations r) [Executor.MeasuredRuntime r] = inr ev ->
  result_proof config info r l a = Ok (Some ev).
Proof.
  intros Hn Hr Hm Hi Hb. unfold result_proof, FreezeTerminalEvidence. rewrite Hn, Hr, Hi.
  cbn [Session.Matches Session.Build built_evidence]. rewrite Hm, Hb, bool_decide_eq_true_2 by done. done.
Qed.

End evidence.

Import TerminalSample.

(** Messages and jobs are their own encodings. *)
Definition evidence_codec : GatewayCodec (EV := frozen_evidence) := {|
  RunnerBytes := RunnerMessage (@Evidence _ frozen_evidence); MarshalRunner := Some; UnmarshalRunner := Some; SizeRunner := fun _ => 100;
  JobBytes := JobSpecification; MarshalJob := Some; UnmarshalJob := Some; JobLength := fun _ => 100;
  MarshalGateway := fun m => Some (GMessageId m); MarshalCancel := fun c => Some (KCancellationId c);
  LeaseEqual := fun _ _ => true; AttemptEqual := fun _ _ => true; CorrelationEqual := fun _ _ => true; JobEqual := fun _ _ => true |}.

Definition sample_result (c : Context) : @Executor.Result NetworkObservation Snapshot Observation Context := {|
  Executor.MeasuredNetwork := None; Executor.MeasuredRuntime := Some snapshot; Executor.TerminalObservations := observations;
  Executor.RTerminalContext := Some c; Executor.SchemaVersion := []; Executor.JobID := []; Executor.Status := [];
  Executor.RClassification := ClassificationPassed; Executor.RPhase := PhaseExecution; Executor.Environment := None;
  Executor.Execution := None; Executor.Logs := None; Executor.StructuredEvents := []; Executor.RCompleteLog := None;
  Executor.Cleanup := None; Executor.Usage := no_usage; Executor.RFailure := None; Executor.StartedAt := 1; Executor.CompletedAt := 2 |}.

Definition sample_active : journalJob (GC := evidence_codec) := {|
  Specification := job : JobBytes (GatewayCodec := evidence_codec); OfferMessageID := bs "offer"; OfferDigest := [];
  JobCorrelationV1 := false; TerminalEvidenceV2 := false; Phase := 1; ExpiresAt := 0; CancellationID := []; CancellationDeadline := 0;
  CancellationDigest := [] |}.

Definition sample_journal : journalState (GC := evidence_codec) := with_active (GC := evidence_codec) empty_state (Some sample_active).

Lemma sample_active_version : TerminalEvidenceV2 sample_active = false.
Proof. reflexivity. Qed.

Lemma sample_evidence_built : is_built (TerminalBuild.Build the_context (RunnerID sample_runner) observations [Some snapshot]) = true.
Proof. vm_compute. reflexivity. Qed.

